(* ===== verification/_CoqProject ===== *)
-Q . S2P
Prelude.v
Proto.v
CommandCache.v
BlobStore.v
ClipboardUpload.v
ConnectionRegistry.v
InputEvents.v
InputSession.v
Text.v
Negotiation.v
Requests.v
CommandExec.v
RemoteFiles.v
Wire.v
RemoteFileHandler.v
BlobTransfer.v
ReplicaWire.v
Replication.v
Snapshots.v
Subscriptions.v
Handlers.v
Providers.v
Pairing.v
Product.v
InputHandler.v
InputStreams.v
Announcements.v
Session.v
Lifecycle.v
Service.v
Consent.v
