(* ===== verification/Prelude.v ===== *)
(** * A verified model of the ArcRelay protocol server

    The repository is the desktop side of ArcRelay: a server that paired devices reach over QUIC to
    read the state of the machine, run commands on it, transfer files and clipboard contents, and
    control its pointer and keyboard.  This library is a shallow embedding of its Rust code: pure
    functions are Rocq functions, stateful code passes its state explicitly, fallible code returns
    [result] or [option], and code whose steps interleave is a step relation.  Names are those of the
    source; doc comments name the function or block that is modelled.

    ** The program and its model

    A connection ([src/server/proto_handler.rs]) starts with negotiation, then runs a loop over
    control frames, host events and timers; requests run as tasks, and data moves on further
    streams.  All connections share the stores of the server.  The files, in dependency order:

    - [Prelude], [Proto]: results, machine integers, strings and bytes, shared lemmas and automation;
      the messages and the parameters that stand for code outside the repository.
    - [CommandCache] ([server/command_cache.rs]): the bounded cache of command responses.
    - [BlobStore] ([server/blob_store.rs]): content addressed blobs with owners, quotas and one-time
      tickets.  [ClipboardUpload] ([server/clipboard_upload.rs]): what peers upload.
    - [ConnectionRegistry] ([server/connection_registry.rs]): which devices are connected.
    - [InputEvents], [InputSession] ([proto_handler/input/events.rs], [server/input_session.rs]): the
      conversion of remote input, the lease that serialises it, and the keys it holds down.
    - [Text], [Negotiation], [Requests] ([proto_handler/requests/control.rs], [commands.rs]): bounded
      text, the negotiation of features and limits, validation and authorisation of requests.
    - [CommandExec] ([requests/control.rs], [handle_request]): idempotent execution of commands by
      any number of interleaved callers and tasks.
    - [Wire] ([server/wire.rs], [error.rs]): framed messages and the categories of errors.
    - [RemoteFiles], [RemoteFileHandler] ([remote_files.rs], [proto_handler/input.rs]): remote file
      messages, access rights, and the stream handler over a file system.
    - [BlobTransfer] ([proto_handler/input.rs]): the blob download and clipboard upload streams.
    - [ReplicaWire], [Replication] ([clipboard_replication/]): the wire format of replicated records,
      the served requests, and the reconciliation of two sides.
    - [Snapshots] ([requests/snapshots.rs], [proto_msg.rs]): what is told about the machine.
    - [Subscriptions] ([proto_handler/subscriptions.rs]): events, queues and lost output.
    - [Handlers] ([requests/queries.rs], [requests/commands.rs]): what queries and commands ask of the
      host, and what they answer.
    - [Providers] ([server/types.rs]): the traits of host capabilities with their default methods.
    - [Pairing] ([server.rs]): the grants a pairing stores.
    - [Product] ([product.rs]): product manifests, and the installation identity that processes
      share through the file system.
    - [InputHandler] ([proto_handler/input.rs], [proto_handler.rs]): the handlers of all connections
      that act on the input session manager.
    - [InputStreams] ([proto_handler/input.rs], [proto_handler.rs]): the one reliable input stream of
      a session, and its metrics.
    - [Announcements] ([server/types.rs], [proto_handler/input/events.rs]): the events for the user
      interface, over the handlers of [InputHandler].
    - [Session] ([proto_handler.rs], [server.rs]): the handshake and the control loop with its request
      tasks, queues and writer; it composes [Negotiation], [Subscriptions], [InputHandler] and, by
      the interface [RequestHandler], the handlers of requests.
    - [Lifecycle] ([proto_handler/lifecycle.rs]): the tasks of a session and its cleanup.
    - [Service] ([server.rs]): the loop that takes sessions in, the pairing gate and the start of
      control sessions; it composes [Pairing] and [Session] over the state of the network.
    - [Consent]: no code of its own; from the pairing prompt through [Service] and [Session] to what
      [Handlers], [RemoteFileHandler] and [InputHandler] do on the machine.

    Each file has a module of its own name with the component's data and operations, its invariant
    or specification, its theorems, and witnesses that apply them to concrete values.

    ** What the theorems show

    - Safety of control: input leases are exclusive, and nothing stays pressed but what the desktop
      failed to release ([InputSession], [InputHandler]; that failure is ignored by the code, which
      [failed_release_leaves_keys] shows); no two executions of an idempotency key run at the same
      time, at most 32 at a time, and nobody is given another command's result ([CommandExec]); a
      command is admitted exactly by the privileges it exercises ([Requests]); remote file requests
      stay within the granted shares, and uploads are atomic, or handed over to the provider whole
      when they are conditional ([RemoteFileHandler]).
    - Invariants of the stores: exact counters, limits and ownership after every operation
      ([CommandCache], [BlobStore], [ClipboardUpload], [ConnectionRegistry]).
    - Fidelity of data: downloads and uploads are byte exact ([BlobTransfer]), messages and records
      round trip ([RemoteFiles], [ReplicaWire]), snapshots are in bounds ([Snapshots]).
    - Convergence: reconciliation terminates against any peer and reports convergence only when it
      was observed ([Replication]); subscriptions deliver in order and lose nothing silently
      ([Subscriptions]).
    - Authority: a session has exactly what was negotiated and granted ([Session]); queries read and
      commands do only what the sender was granted, and say what happened ([Handlers]); pairing
      grants what was requested and approved, nothing else ([Pairing]); and over all sessions of the
      service together, authority goes back to the user's consent, and pairings are as if run one
      after the other ([Service]).  Put together: every call to the host that a session's commands,
      queries, file streams and input lead to exercises a grant the user consented to ([Consent]).
    - What the user sees: the interface shows the remote control that goes on, and nothing else but
      sessions whose end it was too slow to take ([Announcements]); a host is honest about what it does not implement ([Providers]).
    - The session as a whole: every request is answered, in bounded queues, while loop, tasks and
      writer interleave ([Session]); a session that ends, in whatever way, is cleaned up once,
      unless there is no runtime left to do it ([Lifecycle], [cleanup_lost_without_runtime]).  One
      theorem shows a flaw: a late completion can untrack a request.
    - Installations: concurrent calls agree on one identity, and it lasts ([Product]).

    ** Parameters

    Code outside the repository is a parameter, as a class or a record with the laws the code relies
    on: [Sha256], [WireLimits], [FeatureCodes], [Requests.RequestCodes], [ProstMessage],
    [ProstEnum], [EncodedLen], [FrameTransport] (codecs and framing), [InputCore], [GestureCore],
    [DrainOrder] (input of [arcrelay_core] and the order in which a hash map drains),
    [TextSyntaxCore], [CollectionCore], [SyncCodes], [TopicCodes], [CapabilityTokens],
    [ProductLibraries] (UUIDs and JSON), [StreamKinds], [InputStreamKind], and the records of host
    operations ([Host], [Router], [RemoteFileProvider], [ClipboardService], [CommandHost],
    [HostCapabilityProvider], and [Network] with [NetworkLaws]).  [Framing] is the transport's framing with its errors.  Every
    reading of a clock and every random draw is an argument.  Witnesses instantiate the parameters concretely.

    ** Bounds and fuel

    Loops that are not structural take fuel: chunk loops the length or announced size of their data,
    eviction loops the length of the order they consume, [fit_clipboard] the length of the history,
    reconciliation a number computed from the ranks of bounded cursors ([Replication.enough_fuel]);
    for each there is a theorem that the fuel suffices, or the loop is bounded by it as the source
    is.  Random redraws consume a list of draws, [None] meaning that all were refused.  Machine
    integers are [Z] with their saturation or wrap-around written out; floats are IEEE values, with
    [max(-0.0, 0.0)] resolved to the positive zero.  Sequence numbers are assumed not to reach
    [2^64 - 1] where a hypothesis says so.

    ** Not modelled

    Time limits around awaits, and the cancellation of a task in the middle of a handler, except
    where a step relation has them as steps; logging; the QUIC endpoint, discovery and key
    storage; generated protobuf code; tests.  [PROJECT.json] lists every component with its
    status.

    ** This file

    Shared notation, automation and lemmas. *)

From Stdlib Require Import ZArith Lia Ascii String Strings.Byte.
From stdpp Require Import base tactics option list gmap strings countable sorting fin_maps.

#[global] Open Scope Z_scope.

(** ** Results: Rust's [Result<T, E>] and the [?] operator *)

Inductive result (A E : Type) : Type :=
| Ok (a : A)
| Err (e : E).

Arguments Ok {A E} a.
Arguments Err {A E} e.

Definition rbind {A B E} (m : result A E) (k : A -> result B E) : result B E :=
  match m with
  | Ok a => k a
  | Err e => Err e
  end.

Definition is_ok {A E} (m : result A E) : bool :=
  match m with Ok _ => true | Err _ => false end.

Definition map_err {A E F} (f : E -> F) (m : result A E) : result A F :=
  match m with Ok a => Ok a | Err e => Err (f e) end.

(** [Option::ok_or]. *)
Definition ok_or {A E} (o : option A) (e : E) : result A E :=
  match o with Some a => Ok a | None => Err e end.

Declare Scope rust_scope.
Delimit Scope rust_scope with rust.

Notation "'let?' x ':=' m 'in' k" := (rbind m (fun x => k))
  (at level 10, x pattern, m at level 100, k at level 200,
   format "'[v' 'let?'  x  ':='  m  'in' '/' k ']'") : rust_scope.
Notation "'ensure' b 'else' e 'in' k" := (if b then k else Err e)
  (at level 10, b at level 100, e at level 100, k at level 200,
   format "'[v' 'ensure'  b  'else'  e  'in' '/' k ']'") : rust_scope.

#[global] Open Scope rust_scope.

Lemma rbind_Ok {A B E} (m : result A E) (k : A -> result B E) b :
  rbind m k = Ok b <-> exists a, m = Ok a /\ k a = Ok b.
Proof.
  destruct m; simpl; split; try (intros (? & [=] & ?)); try (intros [=]); subst; eauto.
Qed.

Lemma ok_or_Ok {A E} (o : option A) (e : E) a : ok_or o e = Ok a <-> o = Some a.
Proof. destruct o; simpl; split; congruence. Qed.

(** [collect::<Result<Vec<_>, _>>()] over a mapped iterator: stops at the first error. *)
Fixpoint collect_results {A B E} (f : A -> result B E) (l : list A) : result (list B) E :=
  match l with
  | [] => Ok []
  | x :: l => let? y := f x in let? ys := collect_results f l in Ok (y :: ys)
  end.

Lemma collect_results_Ok {A B E} (f : A -> result B E) l ys :
  collect_results f l = Ok ys <-> Forall2 (fun x y => f x = Ok y) l ys.
Proof.
  revert ys. induction l as [|x l IH]; intros ys; simpl.
  - split; [intros [= <-]; constructor | intros H; inversion H; done].
  - rewrite rbind_Ok. setoid_rewrite rbind_Ok. split.
    + intros (y & Hy & zs & Hzs & [= <-]). constructor; [done | by apply IH].
    + intros H; inversion H as [|? y ? zs Hy Hzs]; subst.
      exists y. split; [done|]. exists zs. split; [by apply IH | done].
Qed.

(** ** Machine integers

    Every Rust integer is a [Z]; [usize] is 64 bits wide. *)

Definition u32_max : Z := 2 ^ 32 - 1.
Definition i32_max : Z := 2 ^ 31 - 1.
Definition u64_max : Z := 2 ^ 64 - 1.
Definition i64_max : Z := 2 ^ 63 - 1.
Definition i64_min : Z := - 2 ^ 63.
Definition usize_max : Z := 2 ^ 64 - 1.

(** [a + b] on [usize]: wraps in a release build. *)
Definition usize_add (a b : Z) : Z := (a + b) mod 2 ^ 64.
(** [saturating_add] / [saturating_sub] on an unsigned type with maximum [m]. *)
Definition sat_add (m a b : Z) : Z := Z.min m (a + b).
Definition sat_sub (a b : Z) : Z := Z.max 0 (a - b).
(** [i64::checked_sub]. *)
Definition checked_sub_i64 (a b : Z) : option Z :=
  let d := a - b in
  if (i64_min <=? d) && (d <=? i64_max) then Some d else None.
Definition u64_wf (z : Z) : Prop := 0 <= z <= u64_max.
Definition i64_wf (z : Z) : Prop := i64_min <= z <= i64_max.

(** Instants and durations are counted in nanoseconds; [Instant::duration_since] saturates at
    zero. *)
Definition from_secs (n : Z) : Z := n * 1000000000.
Definition duration_since (now t : Z) : Z := Z.max 0 (now - t).

Create HintDb rust.

#[global] Hint Unfold sat_add sat_sub usize_add duration_since : rust.

(** Boolean tests in hypotheses and goals, turned into arithmetic. *)
Ltac bool_arith :=
  repeat match goal with
  | H : (_ && _)%bool = true |- _ => apply andb_true_iff in H; destruct H
  | H : (_ || _)%bool = false |- _ => apply orb_false_iff in H; destruct H
  | H : negb _ = true |- _ => apply negb_true_iff in H
  | H : negb _ = false |- _ => apply negb_false_iff in H
  | H : (_ <=? _) = true |- _ => apply Z.leb_le in H
  | H : (_ <=? _) = false |- _ => apply Z.leb_gt in H
  | H : (_ <? _) = true |- _ => apply Z.ltb_lt in H
  | H : (_ <? _) = false |- _ => apply Z.ltb_ge in H
  | H : (_ >? _) = true |- _ => rewrite Z.gtb_ltb in H
  | H : (_ >? _) = false |- _ => rewrite Z.gtb_ltb in H
  | H : (_ >=? _) = true |- _ => rewrite Z.geb_leb in H
  | H : (_ >=? _) = false |- _ => rewrite Z.geb_leb in H
  | H : (_ =? _) = true |- _ => apply Z.eqb_eq in H
  | H : (_ =? _) = false |- _ => apply Z.eqb_neq in H
  | H : bool_decide _ = true |- _ => apply bool_decide_eq_true in H
  | H : bool_decide _ = false |- _ => apply bool_decide_eq_false in H
  end.

Lemma sat_add_exact m a b : a + b <= m -> sat_add m a b = a + b.
Proof. unfold sat_add. lia. Qed.

Lemma usize_add_exact a b : 0 <= a + b <= usize_max -> usize_add a b = a + b.
Proof. unfold usize_add, usize_max. intros. apply Z.mod_small. lia. Qed.

(** ** Bytes and strings

    [Vec<u8>] is a list of bytes.  A Rust [String] is the [string] of its UTF-8 bytes, so
    [String.length] is Rust's [len()] and string equality and order are byte-wise, as in Rust. *)

Abbreviation bytes := (list Byte.byte).

#[global] Instance byte_eq_dec : EqDecision Byte.byte := Byte.byte_eq_dec.
#[global] Program Instance byte_countable : Countable Byte.byte :=
  inj_countable Byte.to_N Byte.of_N _.
Next Obligation. intros b. apply Byte.of_to_N. Qed.

Definition blen (b : bytes) : Z := Z.of_nat (length b).
Definition slen (s : string) : Z := Z.of_nat (String.length s).

Lemma blen_nonneg b : 0 <= blen b.
Proof. unfold blen. lia. Qed.
Lemma slen_nonneg s : 0 <= slen s.
Proof. unfold slen. lia. Qed.
#[global] Hint Resolve blen_nonneg slen_nonneg : rust.

Definition is_empty {A} (l : list A) : bool :=
  match l with [] => true | _ => false end.
Definition str_is_empty (s : string) : bool :=
  match s with EmptyString => true | _ => false end.

Definition str_eqb (a b : string) : bool := bool_decide (a = b).
Definition bytes_eqb (a b : bytes) : bool := bool_decide (a = b).

(** The bytes of a string, as numbers below 256. *)
Definition code (a : ascii) : Z := Z.of_N (N_of_ascii a).
Definition unit_of (z : Z) : ascii := ascii_of_N (Z.to_N z).
Definition units (s : string) : list Z := code <$> list_ascii_of_string s.
Definition of_units (l : list Z) : string := string_of_list_ascii (unit_of <$> l).

(** UTF-8, as [str::chars] decodes it and [String::push] encodes it. *)
Fixpoint decode_utf8 (l : list Z) : list Z :=
  match l with
  | [] => []
  | x :: l1 =>
    if x <? 0x80 then x :: decode_utf8 l1 else
    match l1 with
    | [] => []
    | y :: l2 =>
      if x <? 0xE0 then (x mod 32 * 64 + y mod 64) :: decode_utf8 l2 else
      match l2 with
      | [] => []
      | z :: l3 =>
        if x <? 0xF0 then (x mod 16 * 4096 + y mod 64 * 64 + z mod 64) :: decode_utf8 l3 else
        match l3 with
        | [] => []
        | w :: l4 =>
          (x mod 8 * 262144 + y mod 64 * 4096 + z mod 64 * 64 + w mod 64) :: decode_utf8 l4
        end
      end
    end
  end.

Definition encode_char (c : Z) : list Z :=
  if c <? 0x80 then [c]
  else if c <? 0x800 then [0xC0 + c / 64; 0x80 + c mod 64]
  else if c <? 0x10000 then [0xE0 + c / 4096; 0x80 + c / 64 mod 64; 0x80 + c mod 64]
  else [0xF0 + c / 262144; 0x80 + c / 4096 mod 64; 0x80 + c / 64 mod 64; 0x80 + c mod 64].

Definition encode_utf8 (cs : list Z) : list Z := concat (encode_char <$> cs).

Definition chars (s : string) : list Z := decode_utf8 (units s).
Definition of_chars (cs : list Z) : string := of_units (encode_utf8 cs).

(** A Unicode scalar value, and the strings Rust's [String] can hold. *)
Definition scalar (c : Z) : Prop := 0 <= c < 0xD800 \/ 0xE000 <= c <= 0x10FFFF.
Definition utf8_valid (s : string) : Prop :=
  exists cs, Forall scalar cs /\ s = of_chars cs.

(** [char::is_control] (general category Cc) and [char::is_whitespace] (White_Space). *)
Definition is_control (c : Z) : bool := (c <=? 0x1F) || ((0x7F <=? c) && (c <=? 0x9F)).
Definition is_whitespace (c : Z) : bool :=
  ((9 <=? c) && (c <=? 13)) || (c =? 0x20) || (c =? 0x85) || (c =? 0xA0) || (c =? 0x1680)
  || ((0x2000 <=? c) && (c <=? 0x200A)) || (c =? 0x2028) || (c =? 0x2029) || (c =? 0x202F)
  || (c =? 0x205F) || (c =? 0x3000).
Definition has_control (s : string) : bool := existsb is_control (chars s).

Fixpoint drop_ws (cs : list Z) : list Z :=
  match cs with
  | [] => []
  | c :: rest => if is_whitespace c then drop_ws rest else cs
  end.
(** [str::trim]. *)
Definition trim (s : string) : string := of_chars (reverse (drop_ws (reverse (drop_ws (chars s))))).

(** [u8] classes. *)
Definition is_ascii_digit (b : Z) : bool := (48 <=? b) && (b <=? 57).
Definition is_ascii_lowercase (b : Z) : bool := (97 <=? b) && (b <=? 122).
Definition is_ascii_uppercase (b : Z) : bool := (65 <=? b) && (b <=? 90).
Definition is_ascii_alphanumeric (b : Z) : bool :=
  is_ascii_digit b || is_ascii_lowercase b || is_ascii_uppercase b.
Definition is_ascii_hexdigit (b : Z) : bool :=
  is_ascii_digit b || ((97 <=? b) && (b <=? 102)) || ((65 <=? b) && (b <=? 70)).

(** [str::is_char_boundary]: the ends, or the start of an encoded character. *)
Definition is_continuation (b : Z) : bool := (0x80 <=? b) && (b <? 0xC0).
Definition is_char_boundary (s : string) (i : nat) : bool :=
  match i with
  | O => true
  | _ => match units s !! i with
         | None => Nat.eqb i (String.length s)
         | Some b => negb (is_continuation b)
         end
  end.

(** [format!("{b:02x}")] of each byte. *)
Definition hex_digit (n : Z) : ascii := unit_of (if n <? 10 then 48 + n else 87 + n).
Definition hex (b : bytes) : string :=
  string_of_list_ascii (flat_map (fun x => let n := Z.of_N (Byte.to_N x) in
    [hex_digit (n / 16); hex_digit (n mod 16)]) b).

(** [String::truncate] and [str::split] on an ASCII separator. *)
Definition str_take (n : nat) (s : string) : string := substring 0 n s.
Fixpoint split_on (sep : ascii) (s : string) : list string :=
  match s with
  | EmptyString => [EmptyString]
  | String a rest =>
    if bool_decide (a = sep) then EmptyString :: split_on sep rest
    else match split_on sep rest with
         | [] => [String a EmptyString]
         | w :: ws => String a w :: ws
         end
  end.
Definition str_contains (a : ascii) (s : string) : bool :=
  existsb (fun b => bool_decide (b = a)) (list_ascii_of_string s).

(** Byte-wise order on strings and the lexicographic order of Rust tuples. *)
Definition str_cmp (a b : string) : comparison := String.compare a b.
Definition str_ltb (a b : string) : bool :=
  match str_cmp a b with Lt => true | _ => false end.
Definition str_leb (a b : string) : bool :=
  match str_cmp a b with Gt => false | _ => true end.

(** ** Sums over finite maps

    The ghost quantity behind every byte and entry counter of the server. *)

Section msum.
Context {K V : Type} `{Countable K}.
Implicit Types (w : K -> V -> Z) (m : gmap K V).

Definition msum w m : Z := map_fold (fun k v acc => w k v + acc) 0 m.

Lemma msum_empty w : msum w ∅ = 0.
Proof. apply map_fold_empty. Qed.

Lemma msum_insert w m k v :
  m !! k = None -> msum w (<[k := v]> m) = w k v + msum w m.
Proof. intros Hk. unfold msum. rewrite map_fold_insert_L; [done | lia | done]. Qed.

Lemma msum_delete w m k v :
  m !! k = Some v -> msum w m = w k v + msum w (delete k m).
Proof.
  intros Hk. rewrite <- (insert_delete_id m k v Hk) at 1.
  apply msum_insert, lookup_delete_eq.
Qed.

Lemma msum_update w m k v v' :
  m !! k = Some v -> msum w (<[k := v']> m) = msum w m - w k v + w k v'.
Proof.
  intros Hk. rewrite (msum_delete w m k v Hk), <- insert_delete_eq.
  rewrite msum_insert by apply lookup_delete_eq. lia.
Qed.

Lemma msum_ext w w' m :
  (forall k v, m !! k = Some v -> w k v = w' k v) -> msum w m = msum w' m.
Proof.
  induction m as [|k v m Hk IH] using map_ind; intros Hw.
  - by rewrite !msum_empty.
  - rewrite !msum_insert by done. rewrite (Hw k v) by apply lookup_insert_eq.
    f_equal. apply IH. intros k' v' Hk'. apply Hw. rewrite lookup_insert_ne; congruence.
Qed.

Lemma msum_le w w' m :
  (forall k v, m !! k = Some v -> w k v <= w' k v) -> msum w m <= msum w' m.
Proof.
  induction m as [|k v m Hk IH] using map_ind; intros Hw.
  - by rewrite !msum_empty.
  - rewrite !msum_insert by done.
    pose proof (Hw k v (lookup_insert_eq _ _ _)).
    enough (msum w m <= msum w' m) by lia.
    apply IH. intros k' v' Hk'. apply Hw. rewrite lookup_insert_ne; congruence.
Qed.

Lemma msum_zero m : msum (fun _ _ => 0) m = 0.
Proof.
  induction m as [|k v m Hk IH] using map_ind;
    [by rewrite msum_empty | rewrite msum_insert by done; lia].
Qed.

Lemma msum_nonneg w m :
  (forall k v, m !! k = Some v -> 0 <= w k v) -> 0 <= msum w m.
Proof. intros Hw. rewrite <- (msum_zero m). by apply msum_le. Qed.

Lemma msum_lookup_le w m k v :
  (forall k v, m !! k = Some v -> 0 <= w k v) -> m !! k = Some v -> w k v <= msum w m.
Proof.
  intros Hw Hk. rewrite (msum_delete w m k v Hk).
  enough (0 <= msum w (delete k m)) by lia.
  apply msum_nonneg. intros k' v' [_ ?]%lookup_delete_Some. by apply Hw.
Qed.

Lemma msum_one m : msum (fun _ _ => 1) m = Z.of_nat (size m).
Proof.
  induction m as [|k v m Hk IH] using map_ind.
  - by rewrite msum_empty, map_size_empty.
  - rewrite msum_insert, map_size_insert_None by done. lia.
Qed.

Lemma msum_scale_le w m b :
  (forall k v, m !! k = Some v -> w k v <= b) -> msum w m <= b * Z.of_nat (size m).
Proof.
  intros Hw. rewrite <- msum_one.
  induction m as [|k v m Hk IH] using map_ind.
  - rewrite !msum_empty. lia.
  - rewrite !msum_insert by done.
    pose proof (Hw k v (lookup_insert_eq _ _ _)).
    enough (msum w m <= b * msum (fun _ _ => 1) m) by lia.
    apply IH. intros k' v' Hk'. apply Hw. rewrite lookup_insert_ne; congruence.
Qed.

(** A map below another in keys and weights has a smaller sum. *)
Lemma msum_sub w m m' :
  (forall k v', m' !! k = Some v' -> exists v, m !! k = Some v /\ w k v' <= w k v) ->
  (forall k v, m !! k = Some v -> 0 <= w k v) -> msum w m' <= msum w m.
Proof.
  revert m. induction m' as [|k v' m' Hk IH] using map_ind; intros m Hsub Hw.
  - rewrite msum_empty. by apply msum_nonneg.
  - destruct (Hsub k v' (lookup_insert_eq _ _ _)) as (v & Hv & Hle).
    rewrite msum_insert, (msum_delete w m k v) by done.
    enough (msum w m' <= msum w (delete k m)) by lia. apply IH.
    + intros k' v'' Hk'. assert (k <> k') by congruence.
      rewrite lookup_delete_ne by done. apply Hsub. by rewrite lookup_insert_ne.
    + intros k' v'' [_ ?]%lookup_delete_Some. eauto.
Qed.

Lemma msum_nonzero w m :
  msum w m <> 0 -> exists k v, m !! k = Some v /\ w k v <> 0.
Proof.
  induction m as [|k v m Hk IH] using map_ind; [by rewrite msum_empty|].
  rewrite msum_insert by done. intros Hne.
  destruct (decide (w k v = 0)) as [Hz|Hz].
  - destruct IH as (k' & v' & Hk' & Hw); [lia|].
    exists k', v'. rewrite lookup_insert_ne by congruence. done.
  - exists k, v. by rewrite lookup_insert_eq.
Qed.
End msum.

(** ** Counters: maps of [usize] that drop a key whose count reaches zero *)

Section counters.
Context {K : Type} `{Countable K}.
Implicit Types (m : gmap K Z).

Definition counter_get m (k : K) : Z := default 0 (m !! k).

(** [*map.entry(k).or_default() += n]. *)
Definition counter_add m (k : K) (n : Z) : gmap K Z :=
  <[k := usize_add (counter_get m k) n]> m.

(** [if let Some(v) = map.get_mut(k) { *v = v.saturating_sub(n); *v == 0 }], and removal of the
    key when the test holds. *)
Definition counter_sub m (k : K) (n : Z) : gmap K Z :=
  match m !! k with
  | None => m
  | Some v => let v' := sat_sub v n in
              if v' =? 0 then delete k m else <[k := v']> m
  end.

Lemma counter_get_insert m k k' v :
  counter_get (<[k := v]> m) k' = if decide (k = k') then v else counter_get m k'.
Proof. unfold counter_get. rewrite lookup_insert. by case_decide. Qed.

Lemma counter_get_add m k k' n :
  counter_get (counter_add m k n) k' =
  if decide (k = k') then usize_add (counter_get m k) n else counter_get m k'.
Proof. apply counter_get_insert. Qed.

Lemma counter_get_sub m k k' n :
  0 <= n ->
  counter_get (counter_sub m k n) k' =
  if decide (k = k') then sat_sub (counter_get m k) n else counter_get m k'.
Proof.
  intros Hn. unfold counter_sub, counter_get.
  destruct (m !! k) as [v|] eqn:Hk.
  - destruct (sat_sub v n =? 0) eqn:Hz; bool_arith.
    + rewrite lookup_delete. case_decide; [|done]. simpl. lia.
    + rewrite lookup_insert. by case_decide.
  - case_decide; [subst|done]. rewrite Hk. simpl. unfold sat_sub. lia.
Qed.

(** A counter map is [tight] for [f] when it holds exactly the non-zero values of [f]. *)
Definition tight m (f : K -> Z) : Prop :=
  forall k, m !! k = if f k =? 0 then None else Some (f k).

Lemma tight_get m f k : tight m f -> counter_get m k = f k.
Proof.
  intros Ht. unfold counter_get. rewrite Ht.
  destruct (f k =? 0) eqn:E; bool_arith; simpl; lia.
Qed.

Lemma tight_ext m f g : tight m f -> (forall k, f k = g k) -> tight m g.
Proof. intros Ht Hfg k. by rewrite Ht, Hfg. Qed.

Lemma tight_empty : tight ∅ (fun _ => 0).
Proof. intros k. by rewrite lookup_empty. Qed.

Lemma tight_set m f k v :
  tight m f -> v <> 0 -> tight (<[k := v]> m) (fun k' => if decide (k = k') then v else f k').
Proof.
  intros Ht Hv k'. rewrite lookup_insert. case_decide.
  - destruct (v =? 0) eqn:E; bool_arith; [lia | done].
  - apply Ht.
Qed.

Lemma tight_add m f k n :
  tight m f -> 0 <= f k -> 0 < n -> f k + n <= usize_max ->
  tight (counter_add m k n) (fun k' => if decide (k = k') then f k' + n else f k').
Proof.
  intros Ht Hf Hn Hb. unfold counter_add. rewrite (tight_get _ _ _ Ht).
  rewrite usize_add_exact by lia.
  eapply tight_ext; [apply (tight_set _ _ _ _ Ht); lia|].
  intros k'. simpl. case_decide; [by subst | done].
Qed.

Lemma tight_sub m f k n :
  tight m f -> 0 <= n <= f k ->
  tight (counter_sub m k n) (fun k' => if decide (k = k') then f k' - n else f k').
Proof.
  intros Ht Hn k'. unfold counter_sub. rewrite (Ht k).
  destruct (f k =? 0) eqn:E; bool_arith.
  - rewrite Ht. case_decide; [subst|done]. by replace (f k' - n) with (f k') by lia.
  - assert (sat_sub (f k) n = f k - n) as -> by (unfold sat_sub; lia).
    destruct (f k - n =? 0) eqn:E2; bool_arith.
    + rewrite lookup_delete. case_decide; subst.
      * by rewrite E2.
      * apply Ht.
    + rewrite lookup_insert. case_decide; subst.
      * destruct (f k' - n =? 0) eqn:E3; bool_arith; [lia|done].
      * apply Ht.
Qed.
End counters.

(** ** Lists *)

(** [iter().position(p)] followed by [remove(position)]: the first element satisfying [p] and
    the list without it. *)
Fixpoint extract_first {A} (p : A -> bool) (l : list A) : option (A * list A) :=
  match l with
  | [] => None
  | x :: l => if p x then Some (x, l)
              else match extract_first p l with
                   | None => None
                   | Some (y, l') => Some (y, x :: l')
                   end
  end.

Lemma extract_first_Some {A} (p : A -> bool) l x l' :
  extract_first p l = Some (x, l') ->
  exists l1 l2, l = l1 ++ x :: l2 /\ l' = l1 ++ l2 /\ p x = true /\ Forall (fun y => p y = false) l1.
Proof.
  revert l'. induction l as [|y l IH]; intros l'; [done|]. simpl.
  destruct (p y) eqn:Hp.
  - intros [= <- <-]. exists [], l. eauto.
  - destruct (extract_first p l) as [[z r]|]; [|done].
    intros [= <- <-]. destruct (IH r eq_refl) as (l1 & l2 & -> & -> & Hz & Hl1).
    exists (y :: l1), l2. eauto.
Qed.

Lemma extract_first_None {A} (p : A -> bool) l :
  extract_first p l = None -> Forall (fun y => p y = false) l.
Proof.
  induction l as [|y l IH]; [done|]. simpl.
  destruct (p y) eqn:Hp; [done|]. destruct (extract_first p l) as [[? ?]|]; [done|]. eauto.
Qed.

Lemma extract_first_length {A} (p : A -> bool) l x l' :
  extract_first p l = Some (x, l') -> length l = S (length l').
Proof.
  intros (l1 & l2 & -> & -> & _)%extract_first_Some. rewrite !length_app. simpl. lia.
Qed.

Lemma NoDup_drop_middle {A} (l1 l2 : list A) x :
  NoDup (l1 ++ x :: l2) -> NoDup (l1 ++ l2) /\ x ∉ l1 ++ l2.
Proof.
  rewrite <- Permutation_middle, NoDup_cons. naive_solver.
Qed.

Lemma StronglySorted_drop_middle {A} (R : A -> A -> Prop) l1 x l2 :
  StronglySorted R (l1 ++ x :: l2) -> StronglySorted R (l1 ++ l2).
Proof.
  induction l1 as [|y l1 IH]; simpl.
  - by intros [? _]%StronglySorted_inv.
  - intros [Hs Hf]%StronglySorted_inv. constructor; [by apply IH|].
    apply Forall_app in Hf as [? Hf]. apply Forall_cons in Hf as [_ ?]. by apply Forall_app.
Qed.

Lemma StronglySorted_snoc {A} (R : A -> A -> Prop) l x :
  StronglySorted R l -> Forall (fun y => R y x) l -> StronglySorted R (l ++ [x]).
Proof.
  induction l as [|y l IH]; simpl; [repeat constructor|].
  intros [? ?]%StronglySorted_inv [? ?]%Forall_cons. constructor; [by apply IH|].
  apply Forall_app; split; [done|]. by repeat constructor.
Qed.

Lemma StronglySorted_mono {A} (R S : A -> A -> Prop) l :
  (forall x y, x ∈ l -> y ∈ l -> R x y -> S x y) -> StronglySorted R l -> StronglySorted S l.
Proof.
  induction l as [|x l IH]; intros HRS; [constructor|].
  intros [Hs Hf]%StronglySorted_inv. constructor.
  - apply IH; [|done]. intros y z Hy Hz. apply HRS; by right.
  - apply Forall_forall. intros y Hy. apply HRS; [left | by right |].
    by eapply Forall_forall in Hf.
Qed.

Lemma list_filter_all {A} (P : A -> Prop) `{forall x, Decision (P x)} (l : list A) :
  Forall P l -> filter P l = l.
Proof.
  induction 1 as [|x l Hx _ IH]; [done|]. rewrite filter_cons_True by done. by rewrite IH.
Qed.

(** ** Sorting *)

(** [slice::sort_by] with a comparison whose non-strict version is [leb]: a stable sort. *)
Fixpoint insert_by {A} (leb : A -> A -> bool) (x : A) (l : list A) : list A :=
  match l with
  | [] => [x]
  | y :: l => if leb x y then x :: y :: l else y :: insert_by leb x l
  end.
Definition sort_by {A} (leb : A -> A -> bool) (l : list A) : list A := foldr (insert_by leb) [] l.

Lemma insert_by_perm {A} leb (x : A) l : insert_by leb x l ≡ₚ x :: l.
Proof.
  induction l as [|y l IH]; [done|]. simpl. destruct (leb x y); [done|]. rewrite IH. apply Permutation_swap.
Qed.
Lemma sort_by_perm {A} leb (l : list A) : sort_by leb l ≡ₚ l.
Proof. induction l as [|x l IH]; [done|]. simpl. by rewrite insert_by_perm, IH. Qed.
