(* ===== verification/Proto.v ===== *)
(** * Protobuf messages and external parameters

    The messages of [arcrelay-wire] the modelled code builds or reads, with the fields the source
    names.  The crate itself is generated code outside the repository, so what the source only
    calls (digests, encoders, enum codes, size constants) is a class with its documented laws,
    and every theorem is proved against the class. *)

From Stdlib Require Import ZArith Lia.
From stdpp Require Import base option list strings gmap.
From S2P Require Import Prelude.

(** [proto::BlobRef]. *)
Record BlobRef := {
  blob_id : bytes;
  ref_size : Z;
  media_type : string;
  ref_sha256 : bytes;
}.

#[global] Instance BlobRef_eq_dec : EqDecision BlobRef.
Proof. solve_decision. Defined.

(** [proto::BlobTicket]. *)
Record BlobTicket := {
  bt_transfer_id : Z;
  bt_ticket : bytes;
  bt_blob : option BlobRef;
  bt_chunk_size : Z;
  bt_expires_at_ms : Z;
}.

(** [proto::ClipboardLabel], [ClipboardLabelMembership] and [ClipboardPolicy]. *)
Record ProtoLabel := {
  pl_id : string; pl_name : string; pl_color : string; pl_revision : Z;
  pl_updated_by_device_id : string; pl_deleted : bool;
}.
Record ProtoMembership := {
  pm_label_id : string; pm_attached : bool; pm_revision : Z; pm_updated_by_device_id : string;
}.
Record PClipboardPolicy := { ppol_history_enabled : bool; ppol_max_items : Z; ppol_max_bytes : Z;
                             ppol_retention_days : Z; ppol_save_sensitive : bool }.

(** [proto::ClipboardSyncRecord]. *)
Inductive SyncPayload :=
| PayloadText (text : string)
| PayloadRichText (plain_text : string) (html rtf : option BlobRef)
| PayloadImage (image : BlobRef).

Record SyncRecord := {
  sr_sync_id : string; sr_kind : Z; sr_width : option Z; sr_height : option Z;
  sr_preview : string; sr_source_app : option string; sr_source_device_id : string;
  sr_source_device_name : string; sr_captured_at_ms : Z; sr_revision : Z;
  sr_updated_by_device_id : string; sr_favorite : bool; sr_favorite_revision : Z;
  sr_favorite_updated_by_device_id : string; sr_labels : list ProtoLabel;
  sr_label_memberships : list ProtoMembership; sr_deleted : bool; sr_change_kind : Z;
  sr_live : bool; sr_text_syntax_json : string; sr_payload : option SyncPayload;
}.

(** [sha2::Sha256::digest]: a function to 32-byte strings. *)
Class Sha256 := {
  sha256 : bytes -> bytes;
  sha256_length : forall b, length (sha256 b) = 32%nat;
}.

(** The size limits [arcrelay-wire] exports: they are cast to [u32] fields, and a control frame
    and a remote file message of 4096 bytes must be allowed. *)
Class WireLimits := {
  MAX_CONTROL_FRAME_SIZE : Z;
  MAX_RELIABLE_INPUT_FRAME_SIZE : Z;
  MAX_DATAGRAM_SIZE : Z;
  MAX_BLOB_CHUNK_SIZE : Z;
  MAX_PRINT_DOCUMENT_CHUNK_SIZE : Z;
  MAX_PRINT_DOCUMENT_SIZE : Z;
  MAX_REMOTE_FILE_MESSAGE_SIZE : Z;
  MAX_REMOTE_FILE_CONTENT_SIZE : Z;
  MAX_REMOTE_FILE_THUMBNAIL_SIZE : Z;
  MAX_CONTROL_FRAME_SIZE_range : 4096 <= MAX_CONTROL_FRAME_SIZE <= u32_max;
  MAX_RELIABLE_INPUT_FRAME_SIZE_range : 0 < MAX_RELIABLE_INPUT_FRAME_SIZE <= u32_max;
  MAX_DATAGRAM_SIZE_range : 0 < MAX_DATAGRAM_SIZE <= u32_max;
  MAX_BLOB_CHUNK_SIZE_range : 0 < MAX_BLOB_CHUNK_SIZE <= u32_max;
  MAX_PRINT_DOCUMENT_CHUNK_SIZE_range : 0 < MAX_PRINT_DOCUMENT_CHUNK_SIZE <= u32_max;
  MAX_PRINT_DOCUMENT_SIZE_range : 0 < MAX_PRINT_DOCUMENT_SIZE <= u64_max;
  MAX_REMOTE_FILE_MESSAGE_SIZE_range : 4096 <= MAX_REMOTE_FILE_MESSAGE_SIZE <= u32_max;
  MAX_REMOTE_FILE_CONTENT_SIZE_range : 0 < MAX_REMOTE_FILE_CONTENT_SIZE <= u64_max;
  MAX_REMOTE_FILE_THUMBNAIL_SIZE_range : 0 < MAX_REMOTE_FILE_THUMBNAIL_SIZE <= u32_max;
}.

(** [proto::ErrorCode] and [proto::RecoveryAction]: the codes the source names. *)
Inductive ErrorCode :=
| ECOk | ECInvalidArgument | ECUnauthenticated | ECPermissionDenied | ECNotFound | ECConflict
| ECResourceExhausted | ECFailedPrecondition | ECUnsupported | ECUnavailable | ECDeadlineExceeded
| ECInternal | ECBusy | ECCancelled.
#[global] Instance ErrorCode_eq_dec : EqDecision ErrorCode.
Proof. solve_decision. Defined.
(** Errors of the host's capabilities ([server/types.rs]). *)
Inductive HostCapabilityErrorCode :=
| HcInvalidArgument | HcNotFound | HcConflict | HcFailedPrecondition | HcUnavailable | HcUnsupported
| HcInternal.
Definition protocol_code (c : HostCapabilityErrorCode) : ErrorCode :=
  match c with
  | HcInvalidArgument => ECInvalidArgument
  | HcNotFound => ECNotFound
  | HcConflict => ECConflict
  | HcFailedPrecondition => ECFailedPrecondition
  | HcUnavailable => ECUnavailable
  | HcUnsupported => ECUnsupported
  | HcInternal => ECInternal
  end.
Record HostCapabilityError := { hc_code : HostCapabilityErrorCode; hc_message : string }.

Inductive RecoveryAction := RANone | RARetry | RARetryWithBackoff | RARefresh | RAChangeRequest.
#[global] Instance RecoveryAction_eq_dec : EqDecision RecoveryAction.
Proof. solve_decision. Defined.

(** [proto::Status]. *)
Record Status := {
  st_code : ErrorCode;
  st_message : string;
  st_retryable : bool;
  st_retry_after_ms : Z;
  st_recovery_action : RecoveryAction;
  st_error_id : string;
}.

(** [proto::Feature]: the features the source names, with their wire numbers. *)
Inductive Feature :=
| FSubscriptions | FSystem | FProcesses | FMedia | FClipboard | FClipboardSync | FWindows | FBlobs
| FActions | FNotifications | FRemoteFiles | FInputReliable | FInputDatagram | FWorkspaceInput
| FPrinting | FUnspecified.
#[global] Instance Feature_eq_dec : EqDecision Feature.
Proof. solve_decision. Defined.

(** [feature as i32], [Feature::try_from(code).is_ok()] and [Debug]. *)
Class FeatureCodes := {
  feature_code : Feature -> Z;
  feature_known : Z -> bool;
  feature_debug : Feature -> string;
  feature_code_inj : forall f g, feature_code f = feature_code g -> f = g;
  feature_code_known : forall f, feature_known (feature_code f) = true;
}.

(** A concrete digest and concrete limits, used by the witnesses only. *)
Definition toy_sha256 (b : bytes) : bytes := take 32 (b ++ replicate 32 Byte.x00).
Lemma toy_sha256_length b : length (toy_sha256 b) = 32%nat.
Proof. unfold toy_sha256. rewrite length_take, length_app, length_replicate. lia. Qed.
Definition toy_digest : Sha256 :=
  {| sha256 := toy_sha256; sha256_length := toy_sha256_length |}.
Definition toy_limits : WireLimits.
Proof.
  refine {| MAX_CONTROL_FRAME_SIZE := 1048576; MAX_RELIABLE_INPUT_FRAME_SIZE := 65536;
     MAX_DATAGRAM_SIZE := 1200; MAX_BLOB_CHUNK_SIZE := 65536;
     MAX_PRINT_DOCUMENT_CHUNK_SIZE := 65536; MAX_PRINT_DOCUMENT_SIZE := 1048576;
     MAX_REMOTE_FILE_MESSAGE_SIZE := 1048576; MAX_REMOTE_FILE_CONTENT_SIZE := 16777216;
     MAX_REMOTE_FILE_THUMBNAIL_SIZE := 1048576 |};
    unfold u32_max, u64_max; lia.
Defined.

Definition toy_feature_code (f : Feature) : Z :=
  match f with
  | FUnspecified => 0 | FSubscriptions => 1 | FSystem => 2 | FProcesses => 3 | FMedia => 4
  | FClipboard => 5 | FClipboardSync => 6 | FWindows => 7 | FBlobs => 8 | FActions => 9
  | FNotifications => 10 | FRemoteFiles => 11 | FInputReliable => 12 | FInputDatagram => 13
  | FWorkspaceInput => 14 | FPrinting => 15
  end.
Definition toy_features : FeatureCodes.
Proof.
  refine {| feature_code := toy_feature_code; feature_known := fun z => (0 <=? z) && (z <=? 15);
            feature_debug := fun _ => "feature"%string |}.
  - intros [] []; simpl; congruence.
  - intros []; reflexivity.
Defined.
