(* ===== verification/CommandCache.v ===== *)
(** * The idempotency cache of executed commands

    Models [src/server/command_cache.rs]: [CommandCache] with its five indexes, [insert],
    [prune], [enforce_device_limits] and [remove_entry].  The two [Instant::now()] calls of
    [insert] are its arguments [t1] (the entry's [created_at]) and [t2] (the one inside
    [prune]). *)

From Stdlib Require Import ZArith Lia.
From stdpp Require Import base tactics option list gmap countable sorting fin_maps relations.
From S2P Require Import Prelude.

Module CommandCache.

Definition COMMAND_CACHE_TTL : Z := from_secs (5 * 60).
Definition MAX_CACHED_COMMANDS_PER_DEVICE : Z := 256.
Definition MAX_CACHED_COMMAND_BYTES_PER_DEVICE : Z := 8 * 1024 * 1024.
Definition MAX_CACHED_COMMANDS_GLOBAL : Z := 1024.
Definition MAX_CACHED_COMMAND_BYTES_GLOBAL : Z := 64 * 1024 * 1024.

Record CommandCacheKey := {
  device_public_key : bytes;
  idempotency_key : bytes;
}.

#[global] Instance CommandCacheKey_eq_dec : EqDecision CommandCacheKey.
Proof. solve_decision. Defined.
#[global] Program Instance CommandCacheKey_countable : Countable CommandCacheKey :=
  inj_countable' (fun k => (device_public_key k, idempotency_key k))
                 (fun p => {| device_public_key := p.1; idempotency_key := p.2 |}) _.
Next Obligation. by intros []. Qed.

(** [CommandCacheKey::new]. *)
Definition new_key (device_public_key idempotency_key : bytes) : CommandCacheKey :=
  {| device_public_key := device_public_key; idempotency_key := idempotency_key |}.

(** [proto::Response] is generated code: the cache uses it through [encoded_len] alone.
    A [watch::Sender] is the identity of its channel. *)
Section cache.
Context {Response : Type} (encoded_len : Response -> Z).

Record InFlightCommand := {
  in_flight_command : bytes;
  result_tx : nat;
}.

Record CachedCommand := {
  command : bytes;
  response : Response;
  created_at : Z;
  entry_size : Z;
}.

Record CommandCache := {
  entries : gmap CommandCacheKey CachedCommand;
  in_flight : gmap CommandCacheKey InFlightCommand;
  insertion_order : list CommandCacheKey;
  per_device_bytes : gmap bytes Z;
  per_device_entries : gmap bytes Z;
  total_bytes : Z;
}.

(** [CommandCache::default()]. *)
Definition new : CommandCache :=
  {| entries := ∅; in_flight := ∅; insertion_order := []; per_device_bytes := ∅;
     per_device_entries := ∅; total_bytes := 0 |}.

Definition set_order (order : list CommandCacheKey) (self : CommandCache) : CommandCache :=
  {| entries := entries self; in_flight := in_flight self; insertion_order := order;
     per_device_bytes := per_device_bytes self; per_device_entries := per_device_entries self;
     total_bytes := total_bytes self |}.

Definition set_in_flight (m : gmap CommandCacheKey InFlightCommand) (self : CommandCache)
  : CommandCache :=
  {| entries := entries self; in_flight := m; insertion_order := insertion_order self;
     per_device_bytes := per_device_bytes self; per_device_entries := per_device_entries self;
     total_bytes := total_bytes self |}.

Definition remove_entry (key : CommandCacheKey) (self : CommandCache) : CommandCache :=
  match entries self !! key with
  | None => self
  | Some entry =>
    {| entries := delete key (entries self);
       in_flight := in_flight self;
       insertion_order := insertion_order self;
       per_device_bytes := counter_sub (per_device_bytes self) (device_public_key key) (entry_size entry);
       per_device_entries := counter_sub (per_device_entries self) (device_public_key key) 1;
       total_bytes := sat_sub (total_bytes self) (entry_size entry) |}
  end.

Definition global_limits_exceeded (self : CommandCache) : bool :=
  (Z.of_nat (size (entries self)) >? MAX_CACHED_COMMANDS_GLOBAL)
  || (total_bytes self >? MAX_CACHED_COMMAND_BYTES_GLOBAL).

(** The test at the head of the loop in [enforce_device_limits], and of its filter. *)
Definition device_over_budget (self : CommandCache) (device : bytes) : bool :=
  match per_device_entries self !! device with
  | Some count => count >? MAX_CACHED_COMMANDS_PER_DEVICE
  | None => false
  end
  || match per_device_bytes self !! device with
     | Some n => n >? MAX_CACHED_COMMAND_BYTES_PER_DEVICE
     | None => false
     end.

(** The inner loop: evict the device's oldest entries while it is over budget.  Each round
    removes one key from [insertion_order], so its length is fuel enough. *)
Fixpoint evict_device (fuel : nat) (device : bytes) (self : CommandCache) : CommandCache :=
  match fuel with
  | O => self
  | S fuel =>
    if device_over_budget self device then
      match extract_first (fun key => bool_decide (device_public_key key = device))
                          (insertion_order self) with
      | None => self
      | Some (key, order) => evict_device fuel device (remove_entry key (set_order order self))
      end
    else self
  end.

Definition enforce_device_limits (self : CommandCache) : CommandCache :=
  let over_budget := filter (fun device => device_over_budget self device = true)
                            (elements (dom (per_device_entries self))) in
  fold_left (fun self device => evict_device (S (length (insertion_order self))) device self)
            over_budget self.

(** First loop of [prune]: drop stale or expired keys from the front of [insertion_order]. *)
Fixpoint prune_expired (now : Z) (order : list CommandCacheKey) (self : CommandCache)
  : CommandCache :=
  match order with
  | [] => set_order [] self
  | key :: rest =>
    let remove := match entries self !! key with
                  | None => true
                  | Some entry => duration_since now (created_at entry) >=? COMMAND_CACHE_TTL
                  end in
    if remove then prune_expired now rest (remove_entry key (set_order rest self))
    else set_order (key :: rest) self
  end.

(** Second loop of [prune]: evict the globally oldest entries while a global limit is exceeded. *)
Fixpoint prune_global (order : list CommandCacheKey) (self : CommandCache) : CommandCache :=
  if global_limits_exceeded self then
    match order with
    | [] => set_order [] self
    | key :: rest => prune_global rest (remove_entry key (set_order rest self))
    end
  else set_order order self.

Definition prune (now : Z) (self : CommandCache) : CommandCache :=
  let self := prune_expired now (insertion_order self) self in
  prune_global (insertion_order self) self.

(** The size [insert] charges for an entry. *)
Definition charge (key : CommandCacheKey) (command : bytes) (response : Response) : Z :=
  sat_add usize_max (sat_add usize_max (blen (idempotency_key key)) (blen command))
          (encoded_len response).

(** The bookkeeping of an accepted entry, up to [push_back]. *)
Definition push_entry (t1 : Z) (key : CommandCacheKey) (command : bytes) (response : Response)
  (size : Z) (self : CommandCache) : CommandCache :=
  {| entries := <[key := {| command := command; response := response;
                            created_at := t1; entry_size := size |}]> (entries self);
     in_flight := in_flight self;
     insertion_order := insertion_order self ++ [key];
     per_device_bytes := counter_add (per_device_bytes self) (device_public_key key) size;
     per_device_entries := counter_add (per_device_entries self) (device_public_key key) 1;
     total_bytes := sat_add usize_max (total_bytes self) size |}.

Definition insert (t1 t2 : Z) (key : CommandCacheKey) (command : bytes) (response : Response)
  (self : CommandCache) : CommandCache :=
  let self := remove_entry key self in
  let self := set_order (filter (fun existing => existing <> key) (insertion_order self)) self in
  let size := charge key command response in
  if (size >? MAX_CACHED_COMMAND_BYTES_PER_DEVICE) || (size >? MAX_CACHED_COMMAND_BYTES_GLOBAL)
  then self
  else prune t2 (enforce_device_limits (push_entry t1 key command response size self)).

End cache.

Arguments CachedCommand : clear implicits.
Arguments CommandCache : clear implicits.
Arguments new {Response}.

(** ** Invariant *)

(** Arithmetic with the cache's constants unfolded. *)
Ltac budgets :=
  unfold MAX_CACHED_COMMANDS_PER_DEVICE, MAX_CACHED_COMMAND_BYTES_PER_DEVICE,
    MAX_CACHED_COMMANDS_GLOBAL, MAX_CACHED_COMMAND_BYTES_GLOBAL, usize_max in *; lia.

Section invariant.
Context {Response : Type} (encoded_len : Response -> Z).
Implicit Types (c : CommandCache Response) (k : CommandCacheKey) (d : bytes).

(** The share of an entry in a device's counters. *)
Definition dev_size d k (e : CachedCommand Response) : Z :=
  if decide (device_public_key k = d) then entry_size e else 0.
Definition dev_one d k (e : CachedCommand Response) : Z :=
  if decide (device_public_key k = d) then 1 else 0.

Definition live_bytes c : Z := msum (fun _ e => entry_size e) (entries c).
Definition live_dev_bytes c d : Z := msum (dev_size d) (entries c).
Definition live_dev_entries c d : Z := msum (dev_one d) (entries c).

(** The counters agree with the entries; every entry fits a device's budget. *)
Record accounted c : Prop := {
  acct_total : total_bytes c = live_bytes c;
  acct_bytes : forall d, counter_get (per_device_bytes c) d = live_dev_bytes c d;
  acct_entries : tight (per_device_entries c) (live_dev_entries c);
  acct_size : forall k e, entries c !! k = Some e ->
    0 <= entry_size e <= MAX_CACHED_COMMAND_BYTES_PER_DEVICE;
}.

(** [insertion_order] lists the cached keys once each, oldest first. *)
Definition created c k : Z :=
  match entries c !! k with Some e => created_at e | None => 0 end.
Record ordered (now : Z) c : Prop := {
  ord_nodup : NoDup (insertion_order c);
  ord_dom : forall k, k ∈ insertion_order c <-> is_Some (entries c !! k);
  ord_sorted : StronglySorted (fun k k' => created c k <= created c k') (insertion_order c);
  ord_past : forall k e, entries c !! k = Some e -> created_at e <= now;
}.

(** The budgets the constants promise. *)
Record within_limits c : Prop := {
  lim_dev_entries : forall d, live_dev_entries c d <= MAX_CACHED_COMMANDS_PER_DEVICE;
  lim_dev_bytes : forall d, live_dev_bytes c d <= MAX_CACHED_COMMAND_BYTES_PER_DEVICE;
  lim_entries : Z.of_nat (size (entries c)) <= MAX_CACHED_COMMANDS_GLOBAL;
  lim_bytes : live_bytes c <= MAX_CACHED_COMMAND_BYTES_GLOBAL;
}.

Record wf (now : Z) c : Prop := {
  wf_accounted : accounted c;
  wf_ordered : ordered now c;
  wf_limits : within_limits c;
}.

Lemma dev_size_nonneg c d k e :
  accounted c -> entries c !! k = Some e -> 0 <= dev_size d k e.
Proof.
  intros Ha Hk. pose proof (acct_size c Ha k e Hk). unfold dev_size. case_decide; lia.
Qed.

Lemma dev_one_nonneg d k (e : CachedCommand Response) : 0 <= dev_one d k e.
Proof. unfold dev_one. case_decide; lia. Qed.

(** *** Removal of one entry *)

Lemma remove_entry_entries c k : entries (remove_entry k c) = delete k (entries c).
Proof.
  unfold remove_entry. destruct (entries c !! k) eqn:Hk; [done|].
  by rewrite delete_id.
Qed.

Lemma remove_entry_order c k : insertion_order (remove_entry k c) = insertion_order c.
Proof. unfold remove_entry. by destruct (entries c !! k). Qed.

Lemma remove_entry_in_flight c k : in_flight (remove_entry k c) = in_flight c.
Proof. unfold remove_entry. by destruct (entries c !! k). Qed.

Lemma live_bytes_remove c k e :
  entries c !! k = Some e -> live_bytes (remove_entry k c) = live_bytes c - entry_size e.
Proof.
  intros Hk. unfold live_bytes. rewrite remove_entry_entries.
  rewrite (msum_delete _ _ _ _ Hk). lia.
Qed.

Lemma live_dev_bytes_remove c k e d :
  entries c !! k = Some e ->
  live_dev_bytes (remove_entry k c) d = live_dev_bytes c d - dev_size d k e.
Proof.
  intros Hk. unfold live_dev_bytes. rewrite remove_entry_entries.
  rewrite (msum_delete (dev_size d) _ _ _ Hk). lia.
Qed.

Lemma live_dev_entries_remove c k e d :
  entries c !! k = Some e ->
  live_dev_entries (remove_entry k c) d = live_dev_entries c d - dev_one d k e.
Proof.
  intros Hk. unfold live_dev_entries. rewrite remove_entry_entries.
  rewrite (msum_delete (dev_one d) _ _ _ Hk). lia.
Qed.

Lemma entry_le_live_bytes c k e :
  accounted c -> entries c !! k = Some e -> entry_size e <= live_bytes c.
Proof.
  intros Ha Hk. apply (msum_lookup_le (fun _ e => entry_size e) _ k); [|done].
  intros k' e' Hk'. apply (acct_size c Ha k' e' Hk').
Qed.

Lemma entry_le_live_dev c k e d :
  accounted c -> entries c !! k = Some e ->
  dev_size d k e <= live_dev_bytes c d /\ dev_one d k e <= live_dev_entries c d.
Proof.
  intros Ha Hk. split.
  - apply (msum_lookup_le (dev_size d) _ k); [|done]. intros; by eapply dev_size_nonneg.
  - apply (msum_lookup_le (dev_one d) _ k); [|done]. intros; apply dev_one_nonneg.
Qed.

Lemma remove_entry_accounted c k : accounted c -> accounted (remove_entry k c).
Proof.
  intros Ha. destruct (entries c !! k) as [e|] eqn:Hk; cycle 1.
  { unfold remove_entry. by rewrite Hk. }
  pose proof (acct_size c Ha k e Hk) as Hs.
  pose proof (entry_le_live_bytes c k e Ha Hk) as Hb.
  pose proof (entry_le_live_dev c k e (device_public_key k) Ha Hk) as [Hdb Hde].
  unfold dev_size, dev_one in Hdb, Hde. rewrite decide_True in Hdb, Hde by done.
  split.
  - rewrite (live_bytes_remove c k e Hk). unfold remove_entry. rewrite Hk. simpl.
    rewrite (acct_total c Ha). unfold sat_sub. lia.
  - intros d. rewrite (live_dev_bytes_remove c k e d Hk). unfold remove_entry, dev_size.
    rewrite Hk. simpl. rewrite counter_get_sub by lia. rewrite !(acct_bytes c Ha).
    case_decide; [subst; unfold sat_sub; lia | lia].
  - unfold remove_entry at 1. rewrite Hk. simpl.
    eapply tight_ext; [apply (tight_sub _ _ _ 1 (acct_entries c Ha)); lia|].
    intros d. simpl. rewrite (live_dev_entries_remove c k e d Hk). unfold dev_one.
    case_decide; lia.
  - intros k' e'. rewrite remove_entry_entries. intros [_ ?]%lookup_delete_Some.
    by eapply (acct_size c Ha).
Qed.

(** *** Evictions: one key leaves [insertion_order] and the entries together *)

Definition evict_step c c' : Prop :=
  exists k l1 l2, insertion_order c = l1 ++ k :: l2
    /\ c' = remove_entry k (set_order (l1 ++ l2) c).

Lemma evict_step_inv now c c' :
  evict_step c c' -> accounted c -> ordered now c -> accounted c' /\ ordered now c'.
Proof.
  intros (k & l1 & l2 & Ho & ->) Ha Hord. split.
  { apply remove_entry_accounted. destruct Ha. by split. }
  destruct Hord as [Hnd Hdom Hsort Hpast]. rewrite Ho in Hnd, Hsort.
  apply NoDup_drop_middle in Hnd as [Hnd Hk].
  split.
  - by rewrite remove_entry_order.
  - intros k'. rewrite remove_entry_order, remove_entry_entries. simpl.
    rewrite lookup_delete_is_Some, <- Hdom, Ho. simpl.
    rewrite !elem_of_app, elem_of_cons. rewrite elem_of_app in Hk. naive_solver.
  - rewrite remove_entry_order. simpl. apply StronglySorted_drop_middle in Hsort.
    eapply StronglySorted_mono; [|exact Hsort]. intros x y Hx Hy.
    unfold created. rewrite !remove_entry_entries. simpl.
    by rewrite !lookup_delete_ne by (intros ->; done).
  - intros k' e'. rewrite remove_entry_entries. intros [_ ?]%lookup_delete_Some. by eapply Hpast.
Qed.

Lemma evict_step_limits c c' :
  evict_step c c' -> accounted c ->
  (forall d, live_dev_entries c' d <= live_dev_entries c d)
  /\ (forall d, live_dev_bytes c' d <= live_dev_bytes c d)
  /\ (size (entries c') <= size (entries c))%nat
  /\ live_bytes c' <= live_bytes c.
Proof.
  intros (k & l1 & l2 & Ho & ->) Ha. set (c0 := set_order (l1 ++ l2) c).
  assert (entries c0 = entries c) as He by done.
  destruct (entries c !! k) as [e|] eqn:Hk.
  - assert (entries c0 !! k = Some e) as Hk0 by done.
    pose proof (acct_size c Ha k e Hk).
    split; [|split; [|split]].
    + intros d. rewrite (live_dev_entries_remove c0 k e d Hk0).
      pose proof (dev_one_nonneg d k e). unfold live_dev_entries. rewrite He. lia.
    + intros d. rewrite (live_dev_bytes_remove c0 k e d Hk0).
      pose proof (dev_size_nonneg c d k e Ha Hk). unfold live_dev_bytes. rewrite He. lia.
    + rewrite remove_entry_entries, He, map_size_delete_Some by eauto. lia.
    + rewrite (live_bytes_remove c0 k e Hk0). unfold live_bytes. rewrite He. lia.
  - unfold remove_entry. rewrite He, Hk. done.
Qed.

Lemma evict_steps_inv now c c' :
  rtc evict_step c c' -> accounted c -> ordered now c ->
  accounted c' /\ ordered now c'
  /\ (forall d, live_dev_entries c' d <= live_dev_entries c d)
  /\ (forall d, live_dev_bytes c' d <= live_dev_bytes c d)
  /\ (size (entries c') <= size (entries c))%nat
  /\ live_bytes c' <= live_bytes c.
Proof.
  induction 1 as [c|c c1 c' Hs _ IH]; intros Ha Ho; [done|].
  pose proof (evict_step_limits c c1 Hs Ha) as (? & ? & ? & ?).
  destruct (evict_step_inv now c c1 Hs Ha Ho) as [Ha1 Ho1].
  destruct (IH Ha1 Ho1) as (? & ? & Hd & Hb & ? & ?).
  split_and!; [done | done | intros d; etrans; [apply Hd|done]
    | intros d; etrans; [apply Hb|done] | lia | lia].
Qed.

Lemma evict_steps_subset c c' k e :
  rtc evict_step c c' -> entries c' !! k = Some e -> entries c !! k = Some e.
Proof.
  induction 1 as [c|c c1 c' (k0 & l1 & l2 & _ & ->) _ IH]; intros Hk; [done|].
  apply IH in Hk. rewrite remove_entry_entries in Hk. by apply lookup_delete_Some in Hk as [_ ?].
Qed.

Lemma evict_steps_limits now c c' :
  rtc evict_step c c' -> wf now c -> wf now c'.
Proof.
  intros Hs [Ha Ho [H1 H2 H3 H4]].
  destruct (evict_steps_inv now c c' Hs Ha Ho) as (? & ? & Hd & Hb & Hn & Ht).
  split; [done..|]. split; intros; [etrans; [apply Hd|done] | etrans; [apply Hb|done] | lia | lia].
Qed.

(** *** The loops are evictions, and reach their goal *)

Lemma set_order_id c order : insertion_order c = order -> set_order order c = c.
Proof. destruct c; simpl; by intros ->. Qed.

Lemma evict_front c k rest :
  insertion_order c = k :: rest -> evict_step c (remove_entry k (set_order rest c)).
Proof. intros Ho. exists k, [], rest. by rewrite Ho. Qed.

Lemma prune_expired_evicts now order c :
  insertion_order c = order -> rtc evict_step c (prune_expired now order c).
Proof.
  revert c. induction order as [|k rest IH]; intros c Ho; simpl.
  { by rewrite set_order_id. }
  destruct (match entries c !! k with None => true | Some _ => _ end).
  - eapply rtc_l; [by apply evict_front|]. apply IH. by rewrite remove_entry_order.
  - by rewrite set_order_id.
Qed.

Lemma prune_global_evicts order c :
  insertion_order c = order -> rtc evict_step c (prune_global order c).
Proof.
  revert c. induction order as [|k rest IH]; intros c Ho; simpl;
    destruct (global_limits_exceeded c); try by rewrite set_order_id.
  eapply rtc_l; [by apply evict_front|]. apply IH. by rewrite remove_entry_order.
Qed.

Lemma prune_evicts now c : rtc evict_step c (prune now c).
Proof.
  unfold prune. etrans; [by apply prune_expired_evicts | by apply prune_global_evicts].
Qed.

Lemma evict_device_evicts fuel d c : rtc evict_step c (evict_device fuel d c).
Proof.
  revert c. induction fuel as [|fuel IH]; intros c; simpl; [done|].
  destruct (device_over_budget c d); [|done].
  destruct (extract_first _ _) as [[k order]|] eqn:He; [|done].
  apply extract_first_Some in He as (l1 & l2 & Ho & -> & _).
  eapply rtc_l; [by exists k, l1, l2 | apply IH].
Qed.

Lemma enforce_device_limits_evicts c : rtc evict_step c (enforce_device_limits c).
Proof.
  unfold enforce_device_limits. generalize (filter (fun d => device_over_budget c d = true)
    (elements (dom (per_device_entries c)))).
  intros ds. revert c. induction ds as [|d ds IH]; intros c; cbn [fold_left]; [done|].
  etrans; [apply evict_device_evicts | apply IH].
Qed.

(** The front of the queue is the oldest entry: stopping at a fresh front leaves no expired
    entry behind. *)
Lemma prune_expired_fresh t now order c k e :
  ordered t c -> insertion_order c = order ->
  entries (prune_expired now order c) !! k = Some e ->
  duration_since now (created_at e) < COMMAND_CACHE_TTL.
Proof.
  revert c. induction order as [|k0 rest IH]; intros c Hord Ho; simpl.
  - intros Hk. assert (k ∈ insertion_order c) as Hin by (apply (ord_dom _ _ Hord); eauto).
    rewrite Ho in Hin. by apply not_elem_of_nil in Hin.
  - destruct (entries c !! k0) as [e0|] eqn:He0; cycle 1.
    { assert (is_Some (entries c !! k0)) as [? ?]; [|congruence].
      apply (ord_dom _ _ Hord). rewrite Ho. left. }
    destruct (_ >=? _) eqn:Hexp.
    + apply IH.
      * pose proof (evict_front c k0 rest Ho) as Hs.
        destruct Hord as [Hnd Hdom Hsort Hpast]. rewrite Ho in Hnd, Hsort.
        apply NoDup_cons in Hnd as [Hk0 Hnd]. apply StronglySorted_inv in Hsort as [Hsort _].
        split.
        -- by rewrite remove_entry_order.
        -- intros k'. rewrite remove_entry_order, remove_entry_entries. simpl.
           rewrite lookup_delete_is_Some, <- Hdom, Ho, elem_of_cons. naive_solver.
        -- rewrite remove_entry_order. simpl. eapply StronglySorted_mono; [|exact Hsort].
           intros x y Hx Hy. unfold created. rewrite !remove_entry_entries. simpl.
           by rewrite !lookup_delete_ne by (intros ->; done).
        -- intros k' e'. rewrite remove_entry_entries.
           intros [_ ?]%lookup_delete_Some. by eapply Hpast.
      * by rewrite remove_entry_order.
    + simpl. intros Hk. rewrite Z.geb_leb in Hexp. bool_arith.
      destruct Hord as [_ Hdom Hsort _]. rewrite Ho in Hsort.
      apply StronglySorted_inv in Hsort as [_ Hf].
      assert (k ∈ insertion_order c) as Hin by (apply Hdom; eauto).
      rewrite Ho in Hin. apply elem_of_cons in Hin as [->|Hin]; [congruence|].
      eapply Forall_forall in Hf; [|exact Hin]. unfold created in Hf. rewrite He0, Hk in Hf.
      unfold duration_since in *. lia.
Qed.

Lemma empty_order_limits t c :
  ordered t c -> insertion_order c = [] -> entries c = ∅.
Proof.
  intros Hord Ho. apply map_empty. intros k. apply eq_None_not_Some.
  rewrite <- (ord_dom _ _ Hord), Ho. apply not_elem_of_nil.
Qed.

Lemma global_limits_false c :
  accounted c -> global_limits_exceeded c = false ->
  Z.of_nat (size (entries c)) <= MAX_CACHED_COMMANDS_GLOBAL
  /\ live_bytes c <= MAX_CACHED_COMMAND_BYTES_GLOBAL.
Proof.
  intros Ha Hg. unfold global_limits_exceeded in Hg. rewrite (acct_total c Ha) in Hg.
  bool_arith. lia.
Qed.

Lemma prune_global_limits t order c :
  accounted c -> ordered t c -> insertion_order c = order ->
  global_limits_exceeded (prune_global order c) = false.
Proof.
  revert c. induction order as [|k rest IH]; intros c Ha Hord Ho; simpl;
    destruct (global_limits_exceeded c) eqn:Hg; try by rewrite set_order_id.
  - rewrite set_order_id by done.
    unfold global_limits_exceeded in *. rewrite (acct_total c Ha) in *. unfold live_bytes in *.
    rewrite (empty_order_limits t c Hord Ho) in *. rewrite map_size_empty, msum_empty in *.
    vm_compute in Hg. done.
  - pose proof (evict_front c k rest Ho) as Hs.
    destruct (evict_step_inv t c _ Hs Ha Hord). apply IH; [done|done|].
    by rewrite remove_entry_order.
Qed.

Lemma over_budget_false c d :
  accounted c -> device_over_budget c d = false ->
  live_dev_entries c d <= MAX_CACHED_COMMANDS_PER_DEVICE
  /\ live_dev_bytes c d <= MAX_CACHED_COMMAND_BYTES_PER_DEVICE.
Proof.
  intros Ha Ho. unfold device_over_budget in Ho. apply orb_false_iff in Ho as [He Hb].
  rewrite <- (tight_get _ _ d (acct_entries c Ha)), <- (acct_bytes c Ha).
  unfold counter_get. split.
  - destruct (per_device_entries c !! d); simpl; bool_arith; budgets.
  - destruct (per_device_bytes c !! d); simpl; bool_arith; budgets.
Qed.

Lemma over_budget_true c d :
  accounted c -> device_over_budget c d = true ->
  MAX_CACHED_COMMANDS_PER_DEVICE < live_dev_entries c d
  \/ MAX_CACHED_COMMAND_BYTES_PER_DEVICE < live_dev_bytes c d.
Proof.
  intros Ha Ho. unfold device_over_budget in Ho. apply orb_true_iff in Ho.
  rewrite <- (tight_get _ _ d (acct_entries c Ha)), <- (acct_bytes c Ha).
  unfold counter_get. destruct Ho as [Ho|Ho]; [left|right].
  - destruct (per_device_entries c !! d); simpl; [bool_arith; lia | done].
  - destruct (per_device_bytes c !! d); simpl; [bool_arith; lia | done].
Qed.

(** A device with no cached key has no share in any counter. *)
Lemma no_keys_no_share c d :
  (forall k e, entries c !! k = Some e -> device_public_key k <> d) ->
  live_dev_entries c d = 0 /\ live_dev_bytes c d = 0.
Proof.
  intros Hn. unfold live_dev_entries, live_dev_bytes. rewrite <- (msum_zero (entries c)).
  split; apply msum_ext; intros k e Hk; unfold dev_one, dev_size;
    rewrite decide_False; eauto.
Qed.

Lemma evict_device_limit t fuel d c :
  accounted c -> ordered t c -> (length (insertion_order c) < fuel)%nat ->
  device_over_budget (evict_device fuel d c) d = false.
Proof.
  revert c. induction fuel as [|fuel IH]; intros c Ha Hord Hf; [lia|]. simpl.
  destruct (device_over_budget c d) eqn:Hover; [|done].
  destruct (extract_first _ _) as [[k order]|] eqn:He.
  - pose proof (extract_first_length _ _ _ _ He) as Hl.
    apply extract_first_Some in He as (l1 & l2 & Ho & -> & _).
    assert (evict_step c (remove_entry k (set_order (l1 ++ l2) c))) as Hs by (by exists k, l1, l2).
    destruct (evict_step_inv t c _ Hs Ha Hord). apply IH; [done|done|].
    rewrite remove_entry_order. simpl. lia.
  - apply extract_first_None in He. apply over_budget_true in Hover; [|done].
    destruct (no_keys_no_share c d) as [H0 H1].
    + intros k e Hk Hd. assert (k ∈ insertion_order c) as Hin by (apply (ord_dom _ _ Hord); eauto).
      eapply Forall_forall in He; [|exact Hin]. by apply bool_decide_eq_false in He.
    + rewrite H0, H1 in Hover. budgets.
Qed.

Lemma enforce_loop_limits t ds c d :
  accounted c -> ordered t c ->
  (d ∈ ds \/ (live_dev_entries c d <= MAX_CACHED_COMMANDS_PER_DEVICE
             /\ live_dev_bytes c d <= MAX_CACHED_COMMAND_BYTES_PER_DEVICE)) ->
  let c' := fold_left (fun c d => evict_device (S (length (insertion_order c))) d c) ds c in
  live_dev_entries c' d <= MAX_CACHED_COMMANDS_PER_DEVICE
  /\ live_dev_bytes c' d <= MAX_CACHED_COMMAND_BYTES_PER_DEVICE.
Proof.
  revert c. induction ds as [|d0 ds IH]; intros c Ha Hord Hd; cbn [fold_left].
  { destruct Hd as [Hd|?]; [by apply not_elem_of_nil in Hd|done]. }
  pose proof (evict_device_evicts (S (length (insertion_order c))) d0 c) as Hs.
  destruct (evict_steps_inv t _ _ Hs Ha Hord) as (Ha' & Ho' & He & Hb & _).
  apply IH; [done|done|].
  destruct Hd as [[->|Hin]%elem_of_cons|[H1 H2]]; [right | by left | right].
  - apply over_budget_false; [done|]. eapply evict_device_limit; [done..|lia].
  - split; [etrans; [apply He|done] | etrans; [apply Hb|done]].
Qed.

Lemma enforce_device_limits_ok t c d :
  accounted c -> ordered t c ->
  live_dev_entries (enforce_device_limits c) d <= MAX_CACHED_COMMANDS_PER_DEVICE
  /\ live_dev_bytes (enforce_device_limits c) d <= MAX_CACHED_COMMAND_BYTES_PER_DEVICE.
Proof.
  intros Ha Hord. unfold enforce_device_limits. apply (enforce_loop_limits t); [done|done|].
  destruct (device_over_budget c d) eqn:Hover; [left | right; by apply over_budget_false].
  rewrite list_elem_of_filter, elem_of_elements, elem_of_dom. split; [done|].
  rewrite (acct_entries c Ha d). destruct (live_dev_entries c d =? 0) eqn:Hz; [|eauto].
  bool_arith. exfalso. destruct (no_keys_no_share c d) as [_ H1].
  - intros k e Hk Hd. destruct (entry_le_live_dev c k e d Ha Hk) as [_ Hle].
    unfold dev_one in Hle. rewrite decide_True in Hle by done. lia.
  - apply over_budget_true in Hover; [|done]. rewrite Hz, H1 in Hover.
    budgets.
Qed.

Lemma prune_limits t now c :
  accounted c -> ordered t c ->
  Z.of_nat (size (entries (prune now c))) <= MAX_CACHED_COMMANDS_GLOBAL
  /\ live_bytes (prune now c) <= MAX_CACHED_COMMAND_BYTES_GLOBAL.
Proof.
  intros Ha Hord.
  destruct (evict_steps_inv t _ _ (prune_evicts now c) Ha Hord) as (Ha' & _).
  apply global_limits_false; [done|]. unfold prune in *.
  destruct (evict_steps_inv t _ _ (prune_expired_evicts now _ c eq_refl) Ha Hord)
    as (? & ? & _). by eapply prune_global_limits.
Qed.

(** *** Insertion *)

(** The first two statements of [insert]: forget the key's previous entry. *)
Definition forget k c : CommandCache Response :=
  set_order (filter (fun k' => k' <> k) (insertion_order (remove_entry k c))) (remove_entry k c).

Lemma forget_evicts t c k : ordered t c -> rtc evict_step c (forget k c).
Proof.
  intros Hord. unfold forget. rewrite remove_entry_order.
  destruct (decide (k ∈ insertion_order c)) as [Hin|Hnin].
  - apply list_elem_of_split in Hin as (l1 & l2 & Ho). pose proof (ord_nodup _ _ Hord) as Hnd.
    rewrite Ho in Hnd. apply NoDup_drop_middle in Hnd as [_ Hk].
    rewrite not_elem_of_app in Hk. destruct Hk as [Hk1 Hk2].
    apply rtc_once. exists k, l1, l2. split; [done|].
    rewrite Ho, filter_app, filter_cons_False by tauto.
    rewrite !list_filter_all
      by (apply Forall_forall; intros x Hx ->; eauto).
    unfold remove_entry. simpl. by destruct (entries c !! k).
  - rewrite list_filter_all by (apply Forall_forall; intros x Hx ->; eauto).
    assert (entries c !! k = None) as Hk.
    { apply eq_None_not_Some. by rewrite <- (ord_dom _ _ Hord). }
    unfold remove_entry. rewrite Hk. by rewrite set_order_id.
Qed.

Lemma forget_entries c k : entries (forget k c) = delete k (entries c).
Proof. unfold forget. simpl. apply remove_entry_entries. Qed.

Lemma push_entry_accounted t1 k cmd r sz c :
  accounted c -> within_limits c -> entries c !! k = None ->
  0 <= sz <= MAX_CACHED_COMMAND_BYTES_PER_DEVICE ->
  accounted (push_entry t1 k cmd r sz c).
Proof.
  intros Ha Hl Hk Hsz.
  assert (0 <= live_bytes c) by (apply msum_nonneg; intros; by eapply (acct_size c Ha)).
  assert (forall d, 0 <= live_dev_bytes c d)
    by (intros; apply msum_nonneg; intros; by eapply dev_size_nonneg).
  assert (forall d, 0 <= live_dev_entries c d)
    by (intros; apply msum_nonneg; intros; apply dev_one_nonneg).
  pose proof (lim_bytes c Hl). pose proof (lim_dev_bytes c Hl (device_public_key k)).
  pose proof (lim_dev_entries c Hl (device_public_key k)).
  specialize (H0 (device_public_key k)) as ?. specialize (H1 (device_public_key k)) as ?.
  split; simpl.
  - unfold live_bytes. simpl. rewrite msum_insert by done. simpl.
    rewrite (acct_total c Ha), sat_add_exact; unfold live_bytes in *; budgets.
  - intros d. unfold live_dev_bytes. simpl. rewrite msum_insert by done.
    rewrite counter_get_add, !(acct_bytes c Ha). unfold dev_size at 1. simpl.
    case_decide; [subst|fold (live_dev_bytes c d); lia].
    rewrite usize_add_exact; unfold live_dev_bytes in *; budgets.
  - eapply tight_ext; [apply (tight_add _ _ _ 1 (acct_entries c Ha)); budgets|].
    intros d. simpl. unfold live_dev_entries. simpl. rewrite msum_insert by done.
    unfold dev_one at 3. case_decide; lia.
  - intros k' e'. rewrite lookup_insert. case_decide; [by intros [= <-]|].
    apply (acct_size c Ha).
Qed.

Lemma push_entry_ordered t t1 k cmd r sz c :
  ordered t c -> t <= t1 -> entries c !! k = None ->
  ordered t1 (push_entry t1 k cmd r sz c).
Proof.
  intros [Hnd Hdom Hsort Hpast] Ht Hk.
  assert (k ∉ insertion_order c) as Hnk by (rewrite Hdom, Hk; intros [? ?]; done).
  split; simpl.
  - apply NoDup_app. split_and!; [done | | apply NoDup_singleton].
    intros x Hx. rewrite list_elem_of_singleton. intros ->. done.
  - intros k'. rewrite elem_of_app, Hdom, list_elem_of_singleton, lookup_insert.
    case_decide; [subst|]; split; eauto. intros [?|?]; congruence.
  - apply StronglySorted_snoc.
    + eapply StronglySorted_mono; [|exact Hsort]. intros x y Hx Hy. unfold created. simpl.
      by rewrite !lookup_insert_ne by (intros ->; done).
    + apply Forall_forall. intros x Hx. unfold created. simpl.
      rewrite lookup_insert_ne by (intros ->; done). rewrite lookup_insert_eq. simpl.
      apply Hdom in Hx as [e He]. rewrite He. etrans; [by eapply Hpast | done].
  - intros k' e'. rewrite lookup_insert. case_decide; [by intros [= <-]|].
    intros He. etrans; [by eapply Hpast | done].
Qed.

Lemma charge_nonneg k cmd r : 0 <= encoded_len r -> 0 <= charge encoded_len k cmd r.
Proof.
  intros. unfold charge, sat_add, usize_max. pose proof (blen_nonneg (idempotency_key k)).
  pose proof (blen_nonneg cmd). lia.
Qed.

Lemma forget_wf t c k : wf t c -> wf t (forget k c).
Proof. intros Hwf. eapply evict_steps_limits; [eapply forget_evicts|done]. apply Hwf. Qed.

Lemma push_entry_inv t t1 k cmd r c :
  wf t c -> t <= t1 -> 0 <= encoded_len r ->
  charge encoded_len k cmd r <= MAX_CACHED_COMMAND_BYTES_PER_DEVICE ->
  let c1 := push_entry t1 k cmd r (charge encoded_len k cmd r) (forget k c) in
  accounted c1 /\ ordered t1 c1.
Proof.
  intros Hwf Ht Hr Hc. destruct (forget_wf t c k Hwf) as [Ha Ho Hl].
  assert (entries (forget k c) !! k = None) by (rewrite forget_entries; apply lookup_delete_eq).
  split.
  - apply push_entry_accounted; [done..|]. split; [by apply charge_nonneg | done].
  - by eapply push_entry_ordered.
Qed.

Lemma insert_unfold t1 t2 k cmd r c :
  insert encoded_len t1 t2 k cmd r c =
  if charge encoded_len k cmd r >? MAX_CACHED_COMMAND_BYTES_PER_DEVICE then forget k c
  else prune t2 (enforce_device_limits
         (push_entry t1 k cmd r (charge encoded_len k cmd r) (forget k c))).
Proof.
  unfold insert, forget. destruct (_ >? MAX_CACHED_COMMAND_BYTES_PER_DEVICE) eqn:E;
    cbn [orb]; [done|].
  destruct (_ >? MAX_CACHED_COMMAND_BYTES_GLOBAL) eqn:E2; [|done]. bool_arith. exfalso. budgets.
Qed.

Lemma ordered_later t t' c : ordered t c -> t <= t' -> ordered t' c.
Proof. intros [H1 H2 H3 H4] Ht. split; [done..|]. intros. etrans; [by eapply H4|done]. Qed.

(** *** The newest entry survives its own insertion *)

Definition newest c k (e : CachedCommand Response) : Prop :=
  entries c !! k = Some e /\ exists l, insertion_order c = l ++ [k].

Lemma evict_keeps_newest t c k e k' l1 l2 :
  ordered t c -> newest c k e -> insertion_order c = l1 ++ k' :: l2 -> k' <> k ->
  newest (remove_entry k' (set_order (l1 ++ l2) c)) k e.
Proof.
  intros Hord [He [l Hl]] Ho Hne. split.
  - rewrite remove_entry_entries. simpl. by rewrite lookup_delete_ne.
  - rewrite remove_entry_order. simpl. rewrite Ho in Hl.
    destruct (decide (l2 = [])) as [->|Hl2].
    + apply app_inj_tail in Hl as [_ ?]. congruence.
    + destruct (exists_last Hl2) as (l2' & x & ->).
      rewrite app_comm_cons, app_assoc in Hl. apply app_inj_tail in Hl as [_ ->].
      exists (l1 ++ l2'). by rewrite app_assoc.
Qed.

(** A device whose only entry is [k] is within budget. *)
Lemma sole_entry_shares c k e d :
  accounted c -> entries c !! k = Some e ->
  (forall k' e', entries c !! k' = Some e' -> device_public_key k' = d -> k' = k) ->
  live_dev_entries c d <= 1 /\ live_dev_bytes c d <= entry_size e.
Proof.
  intros Ha Hk Hsole. pose proof (acct_size c Ha k e Hk).
  assert (live_dev_entries (remove_entry k c) d = 0 /\ live_dev_bytes (remove_entry k c) d = 0)
    as [H0 H1].
  { apply no_keys_no_share. intros k' e'. rewrite remove_entry_entries.
    intros [Hne Hk']%lookup_delete_Some Hd. apply Hne. symmetry. by eapply Hsole. }
  rewrite (live_dev_entries_remove c k e d Hk) in H0.
  rewrite (live_dev_bytes_remove c k e d Hk) in H1.
  unfold dev_one, dev_size in *. case_decide; lia.
Qed.

Lemma sole_entry_total t c k e :
  accounted c -> ordered t c -> entries c !! k = Some e -> insertion_order c = [k] ->
  size (entries c) = 1%nat /\ live_bytes c = entry_size e.
Proof.
  intros Ha Hord Hk Ho.
  assert (entries c = {[k := e]}) as He.
  { apply map_eq. intros k'. destruct (decide (k = k')) as [<-|Hne].
    - by rewrite lookup_singleton_eq.
    - rewrite lookup_singleton_ne by done. apply eq_None_not_Some.
      rewrite <- (ord_dom _ _ Hord), Ho, list_elem_of_singleton. congruence. }
  unfold live_bytes. rewrite He. split; [apply map_size_singleton|].
  rewrite <- insert_empty, msum_insert, msum_empty by apply lookup_empty. lia.
Qed.

Lemma evict_device_newest t fuel d c k e :
  accounted c -> ordered t c -> newest c k e -> newest (evict_device fuel d c) k e.
Proof.
  revert c. induction fuel as [|fuel IH]; intros c Ha Hord Hn; [done|]. cbn [evict_device].
  destruct (device_over_budget c d) eqn:Hover; [|done].
  destruct (extract_first _ _) as [[k' order]|] eqn:Hx; [|done].
  apply extract_first_Some in Hx as (l1 & l2 & Ho & -> & Hp & Hl1).
  apply bool_decide_eq_true in Hp.
  assert (k' <> k) as Hne.
  { intros ->. apply over_budget_true in Hover; [|done]. destruct Hn as [He [l Hl]].
    assert (l1 = l /\ l2 = []) as [-> ->].
    { pose proof (ord_nodup _ _ Hord) as Hnd. rewrite Ho in Hnd, Hl.
      destruct (decide (l2 = [])) as [->|Hl2]; [apply app_inj_tail in Hl as [? _]; done|].
      destruct (exists_last Hl2) as (l2' & x & ->).
      rewrite app_comm_cons, app_assoc in Hl. apply app_inj_tail in Hl as [_ ->].
      apply NoDup_drop_middle in Hnd as [_ Hnd]. rewrite !elem_of_app in Hnd.
      exfalso. apply Hnd. right. right. by apply list_elem_of_singleton. }
    destruct (sole_entry_shares c k e d Ha He) as [? ?].
    - intros k' e' Hk' Hd. assert (k' ∈ insertion_order c) as Hin
        by (apply (ord_dom _ _ Hord); eauto).
      rewrite Ho, elem_of_app, list_elem_of_singleton in Hin. destruct Hin as [Hin|?]; [|done].
      eapply Forall_forall in Hl1; [|exact Hin]. by apply bool_decide_eq_false in Hl1.
    - pose proof (acct_size c Ha k e He). budgets. }
  assert (evict_step c (remove_entry k' (set_order (l1 ++ l2) c))) as Hs by (by exists k', l1, l2).
  destruct (evict_step_inv t c _ Hs Ha Hord). apply IH; [done|done|].
  by eapply evict_keeps_newest.
Qed.

Lemma enforce_newest t c k e :
  accounted c -> ordered t c -> newest c k e -> newest (enforce_device_limits c) k e.
Proof.
  unfold enforce_device_limits. generalize (filter (fun d => device_over_budget c d = true)
    (elements (dom (per_device_entries c)))). intros ds. revert c.
  induction ds as [|d ds IH]; intros c Ha Hord Hn; cbn [fold_left]; [done|].
  pose proof (evict_device_evicts (S (length (insertion_order c))) d c) as Hs.
  destruct (evict_steps_inv t _ _ Hs Ha Hord) as (? & ? & _).
  apply IH; [done..|]. by eapply evict_device_newest.
Qed.

Lemma newest_front t c k e rest :
  ordered t c -> newest c k e -> insertion_order c = k :: rest -> rest = [].
Proof.
  intros Hord [_ [l Hl]] Ho. pose proof (ord_nodup _ _ Hord) as Hnd. rewrite Ho in Hl, Hnd.
  destruct l as [|x l]; simplify_eq/=; [done|].
  apply NoDup_cons in Hnd as [Hk _]. rewrite elem_of_app, list_elem_of_singleton in Hk.
  exfalso. auto.
Qed.

Lemma prune_expired_newest t now order c k e :
  accounted c -> ordered t c -> insertion_order c = order -> newest c k e ->
  duration_since now (created_at e) < COMMAND_CACHE_TTL ->
  newest (prune_expired now order c) k e.
Proof.
  revert c. induction order as [|k0 rest IH]; intros c Ha Hord Ho Hn Hd; cbn [prune_expired].
  { by rewrite set_order_id. }
  assert (k0 = k \/ k0 <> k) as [->|Hne] by (destruct (decide (k0 = k)); auto).
  - destruct Hn as [He Hl]. rewrite He.
    destruct (_ >=? _) eqn:Hx; [rewrite Z.geb_leb in Hx; bool_arith; lia|].
    by rewrite set_order_id.
  - destruct (match entries c !! k0 with None => true | Some _ => _ end);
      [|by rewrite set_order_id].
    pose proof (evict_front c k0 rest Ho) as Hs. destruct (evict_step_inv t c _ Hs Ha Hord).
    apply IH; [done|done|by rewrite remove_entry_order| |done].
    eapply (evict_keeps_newest t c k e k0 [] rest); done.
Qed.

Lemma prune_global_newest t order c k e :
  accounted c -> ordered t c -> insertion_order c = order -> newest c k e ->
  newest (prune_global order c) k e.
Proof.
  revert c. induction order as [|k0 rest IH]; intros c Ha Hord Ho Hn; cbn [prune_global];
    destruct (global_limits_exceeded c) eqn:Hg; try by rewrite set_order_id.
  destruct (decide (k0 = k)) as [->|Hne].
  - pose proof (newest_front t c k e rest Hord Hn Ho) as ->.
    exfalso. destruct Hn as [He _]. destruct (sole_entry_total t c k e Ha Hord He Ho) as [Hs Ht].
    pose proof (acct_size c Ha k e He).
    unfold global_limits_exceeded in Hg. rewrite (acct_total c Ha), Ht, Hs in Hg.
    apply orb_true_iff in Hg. destruct Hg; bool_arith; budgets.
  - pose proof (evict_front c k0 rest Ho) as Hs. destruct (evict_step_inv t c _ Hs Ha Hord).
    apply IH; [done|done|by rewrite remove_entry_order|].
    eapply (evict_keeps_newest t c k e k0 [] rest); done.
Qed.

Lemma new_wf t : wf t (@new Response).
Proof.
  assert (forall d, live_dev_entries (@new Response) d = 0) by (intros; apply msum_empty).
  assert (forall d, live_dev_bytes (@new Response) d = 0) by (intros; apply msum_empty).
  assert (live_bytes (@new Response) = 0) by apply msum_empty.
  split; split.
  - done.
  - intros d. rewrite H0. done.
  - intros d. rewrite H. done.
  - intros k e. simpl. by rewrite lookup_empty.
  - constructor.
  - intros k. simpl. rewrite lookup_empty.
    split; [by intros ?%not_elem_of_nil | by intros [? ?]].
  - constructor.
  - intros k e. simpl. by rewrite lookup_empty.
  - intros d. rewrite H. budgets.
  - intros d. rewrite H0. budgets.
  - simpl. rewrite map_size_empty. budgets.
  - rewrite H1. budgets.
Qed.
End invariant.

(** ** Facts other components build on *)

Section facts.
Context {Response : Type} (encoded_len : Response -> Z).
Hypothesis encoded_len_nonneg : forall r, 0 <= encoded_len r.
Implicit Types (c : CommandCache Response).

Lemma insert_keeps_wf t t1 t2 k cmd r c :
  wf t c -> t <= t1 -> wf t1 (insert encoded_len t1 t2 k cmd r c).
Proof.
  intros Hwf Ht. rewrite insert_unfold.
  destruct (_ >? _) eqn:E; bool_arith.
  - destruct (forget_wf t c k Hwf) as [? ? ?]. split; [done| |done]. by eapply ordered_later.
  - destruct (push_entry_inv encoded_len t t1 k cmd r c Hwf Ht (encoded_len_nonneg r) E)
      as [Ha Ho].
    set (c1 := push_entry _ _ _ _ _ _) in *.
    destruct (evict_steps_inv t1 _ _ (enforce_device_limits_evicts c1) Ha Ho) as (Ha2 & Ho2 & _).
    destruct (evict_steps_inv t1 _ _ (prune_evicts t2 _) Ha2 Ho2) as (Ha3 & Ho3 & Hd & Hb & _).
    destruct (prune_limits t1 t2 _ Ha2 Ho2). split; [done|done|].
    split; [intros d; etrans; [apply Hd | by eapply enforce_device_limits_ok]
           |intros d; etrans; [apply Hb | by eapply enforce_device_limits_ok] | done | done].
Qed.

Lemma prune_newest t now c k e :
  accounted c -> ordered t c -> newest c k e -> now - created_at e < COMMAND_CACHE_TTL ->
  newest (prune now c) k e.
Proof.
  intros Ha Ho Hn Hd. unfold prune.
  apply (prune_expired_newest t now _ _ _ _ Ha Ho eq_refl) in Hn;
    [|unfold duration_since; unfold COMMAND_CACHE_TTL, from_secs in *; lia].
  destruct (evict_steps_inv t _ _ (prune_expired_evicts now _ _ eq_refl) Ha Ho) as (Ha3 & Ho3 & _).
  by apply (prune_global_newest t _ _ _ _ Ha3 Ho3 eq_refl) in Hn.
Qed.

Lemma insert_newest t t1 t2 k cmd r c :
  wf t c -> t <= t1 -> t2 - t1 < COMMAND_CACHE_TTL ->
  charge encoded_len k cmd r <= MAX_CACHED_COMMAND_BYTES_PER_DEVICE ->
  newest (insert encoded_len t1 t2 k cmd r c) k
    {| command := cmd; response := r; created_at := t1;
       entry_size := charge encoded_len k cmd r |}.
Proof.
  intros Hwf Ht Hd Hc. rewrite insert_unfold.
  destruct (_ >? _) eqn:E; bool_arith; [lia|]. clear E.
  destruct (push_entry_inv encoded_len t t1 k cmd r c Hwf Ht (encoded_len_nonneg r) Hc)
    as [Ha Ho].
  set (c1 := push_entry _ _ _ _ _ _) in *. match goal with |- newest _ _ ?e0 => set (e := e0) end.
  assert (newest c1 k e) as Hn.
  { split; [apply lookup_insert_eq|]. simpl. eauto. }
  apply (enforce_newest t1 _ _ _ Ha Ho) in Hn.
  destruct (evict_steps_inv t1 _ _ (enforce_device_limits_evicts c1) Ha Ho) as (Ha2 & Ho2 & _).
  by apply (prune_newest t1).
Qed.

Lemma insert_lookup t t1 t2 k cmd r c :
  wf t c -> t <= t1 -> t2 - t1 < COMMAND_CACHE_TTL ->
  charge encoded_len k cmd r <= MAX_CACHED_COMMAND_BYTES_PER_DEVICE ->
  entries (insert encoded_len t1 t2 k cmd r c) !! k =
    Some {| command := cmd; response := r; created_at := t1;
            entry_size := charge encoded_len k cmd r |}.
Proof. intros. by apply (insert_newest t). Qed.

Lemma prune_keeps_wf t now c :
  wf t c ->
  wf t (prune now c)
  /\ (forall k e, entries (prune now c) !! k = Some e ->
        entries c !! k = Some e /\ duration_since now (created_at e) < COMMAND_CACHE_TTL).
Proof.
  intros Hwf. split; [by eapply evict_steps_limits; [apply prune_evicts|]|].
  destruct Hwf as [Ha Ho _]. intros k e Hk. split.
  - by eapply evict_steps_subset; [apply prune_evicts|].
  - eapply (prune_expired_fresh t now (insertion_order c) c k e Ho eq_refl).
    unfold prune in Hk. by eapply evict_steps_subset; [by apply prune_global_evicts|].
Qed.

(** In-flight entries are never touched by evictions. *)
Lemma evict_steps_in_flight c c' : rtc evict_step c c' -> in_flight c' = in_flight c.
Proof.
  induction 1 as [|c1 c2 c3 (k & l1 & l2 & _ & ->) _ IH]; [done|].
  by rewrite IH, remove_entry_in_flight.
Qed.

Lemma prune_in_flight now c : in_flight (prune now c) = in_flight c.
Proof. apply evict_steps_in_flight, prune_evicts. Qed.

Lemma insert_in_flight t t1 t2 k cmd r c :
  wf t c -> in_flight (insert encoded_len t1 t2 k cmd r c) = in_flight c.
Proof.
  intros Hwf. rewrite insert_unfold. pose proof (forget_evicts t c k (wf_ordered _ _ Hwf)) as Hf.
  destruct (_ >? _); [by apply evict_steps_in_flight|].
  rewrite prune_in_flight, (evict_steps_in_flight _ _ (enforce_device_limits_evicts _)).
  cbn [push_entry in_flight]. by apply evict_steps_in_flight.
Qed.

(** Every entry after [insert] is the new one or an old one. *)
Lemma insert_entries t t1 t2 k cmd r c k' e :
  wf t c -> entries (insert encoded_len t1 t2 k cmd r c) !! k' = Some e ->
  (k' = k /\ command e = cmd /\ response e = r) \/ entries c !! k' = Some e.
Proof.
  intros Hwf. rewrite insert_unfold. destruct (_ >? _).
  - rewrite forget_entries. intros [_ ?]%lookup_delete_Some. by right.
  - intros He. eapply evict_steps_subset in He; [|apply prune_evicts].
    eapply evict_steps_subset in He; [|apply enforce_device_limits_evicts].
    cbn [push_entry entries] in He. apply lookup_insert_Some in He as [[<- <-]|[_ He]]; [by left|].
    rewrite forget_entries in He. apply lookup_delete_Some in He as [_ ?]. by right.
Qed.

Lemma prune_lookup_fresh t now c k e :
  wf t c -> entries (prune now c) !! k = Some e -> entries c !! k = Some e.
Proof. intros _ He. eapply evict_steps_subset; [apply prune_evicts|done]. Qed.

Lemma set_in_flight_wf t m c : wf t c -> wf t (set_in_flight m c).
Proof. intros [[] [] []]. by split; split. Qed.

Lemma cache_wf_later t t' c : wf t c -> t <= t' -> wf t' c.
Proof. intros [? Ho ?] Ht. split; [done| |done]. by eapply ordered_later. Qed.
End facts.

(** ** Properties *)

Section properties.
Context {Response : Type} (encoded_len : Response -> Z).
Hypothesis encoded_len_nonneg : forall r, 0 <= encoded_len r.
Implicit Types (c : CommandCache Response).

(** The calls of the cache's users, on a clock that does not go back. *)
Inductive cache_step : Z * CommandCache Response -> Z * CommandCache Response -> Prop :=
| cs_insert t t1 t2 k cmd r c :
    t <= t1 <= t2 -> cache_step (t, c) (t2, insert encoded_len t1 t2 k cmd r c)
| cs_prune t now c : t <= now -> cache_step (t, c) (now, prune now c)
| cs_in_flight t m c : cache_step (t, c) (t, set_in_flight m c).

(** C24: the cache keeps its books and its budgets.  After every history of insertions, prunings and
    changes of the commands in flight, the running totals equal the sums over the live entries,
    [insertion_order] lists each cached key once and oldest first, and the 256-entry / 8 MiB
    per-device and 1024-entry / 64 MiB global budgets hold; and [prune], although it only looks at
    the front of [insertion_order], invents nothing and leaves no entry older than five minutes
    anywhere. *)
Theorem command_cache_well_formed t0 t c :
  rtc cache_step (t0, new) (t, c) ->
  accounted c /\ ordered t c /\ within_limits c
  /\ forall now k e, entries (prune now c) !! k = Some e ->
       entries c !! k = Some e /\ duration_since now (created_at e) < COMMAND_CACHE_TTL.
Proof.
  intros Hr. assert (wf t c) as Hwf.
  { change (wf (t, c).1 (t, c).2). revert Hr. generalize (t, c). clear t c. intros x Hr.
    refine (rtc_ind_r (fun x => wf x.1 x.2) (t0, new) (new_wf t0) _ x Hr).
    intros y z _ [t t1 t2 k cmd r c Ht|t now c Ht|t m c] Hwf; cbn [fst snd] in *.
    - eapply cache_wf_later; [|apply Ht]. by apply (insert_keeps_wf encoded_len encoded_len_nonneg t); [|lia].
    - eapply cache_wf_later; [|exact Ht]. by apply prune_keeps_wf.
    - by apply set_in_flight_wf. }
  destruct (Hwf) as [? ? ?]. split_and!; try done. intros now. by apply (prune_keeps_wf t now c).
Qed.

(** A completed command that fits the budget can be replayed: after [insert], looking the
    key up gives exactly the command and response just stored, whatever was evicted to make room
    (the clock advancing by less than the TTL inside the call). *)
Theorem insert_then_lookup t t1 t2 k cmd r c :
  wf t c -> t <= t1 -> t2 - t1 < COMMAND_CACHE_TTL ->
  charge encoded_len k cmd r <= MAX_CACHED_COMMAND_BYTES_PER_DEVICE ->
  entries (insert encoded_len t1 t2 k cmd r c) !! k =
    Some {| command := cmd; response := r; created_at := t1;
            entry_size := charge encoded_len k cmd r |}.
Proof. apply (insert_lookup encoded_len encoded_len_nonneg). Qed.

(** An oversized response is not cached and evicts nobody: [insert] then only forgets the
    key's own previous entry, and every other entry of every device stays. *)
Theorem insert_oversized_isolated t1 t2 k cmd r c :
  MAX_CACHED_COMMAND_BYTES_PER_DEVICE < charge encoded_len k cmd r ->
  entries (insert encoded_len t1 t2 k cmd r c) = delete k (entries c).
Proof.
  intros Hc. rewrite insert_unfold. destruct (_ >? _) eqn:E; bool_arith; [|lia].
  apply forget_entries.
Qed.

End properties.

(** *** Witnesses: responses are byte strings, as long as they are encoded *)

Definition wkey : CommandCacheKey := new_key [Byte.x01] [Byte.x02; Byte.x03].

Lemma command_cache_well_formed_witness :
  within_limits (prune 7 (insert blen 5 6 wkey [Byte.x04] [Byte.x05] new)).
Proof.
  apply (command_cache_well_formed blen blen_nonneg 0 7).
  eapply rtc_l; [apply (cs_insert blen 0 5 6 wkey [Byte.x04] [Byte.x05] new); lia|].
  eapply rtc_l; [apply (cs_prune blen 6 7); lia|]. apply rtc_refl.
Defined.

Lemma insert_then_lookup_witness :
  entries (insert blen 5 6 wkey [Byte.x04] [Byte.x05] new) !! wkey =
    Some {| command := [Byte.x04]; response := [Byte.x05]; created_at := 5; entry_size := 4 |}.
Proof.
  apply (insert_then_lookup blen blen_nonneg 0 5 6 wkey [Byte.x04] [Byte.x05] new (new_wf 0));
    vm_compute; congruence.
Defined.

Lemma insert_oversized_isolated_witness :
  entries (insert (fun _ : unit => 9000000) 5 6 wkey [Byte.x04] tt new) = ∅.
Proof.
  rewrite (insert_oversized_isolated (fun _ : unit => 9000000) 5 6 wkey [Byte.x04] tt new);
    [reflexivity | vm_compute; reflexivity].
Defined.

End CommandCache.
