(* ===== verification/BlobStore.v ===== *)
(** * The content-addressed blob cache and its download tickets

    Models [src/server/blob_store.rs] in full: [BlobStore::insert], [issue_ticket], [redeem] and
    the [BlobStoreInner] helpers.  Each [Instant::now()] of an operation is an argument, in the
    order of the calls; the random draws of [issue_ticket] are the lists [ids] and [tks]. *)

From Stdlib Require Import ZArith Lia.
From stdpp Require Import base tactics option list strings gmap countable sorting fin_maps relations.
From S2P Require Import Prelude Proto.

Module BlobStore.

Definition MAX_CACHED_BLOB_BYTES : Z := 64 * 1024 * 1024.
Definition MAX_CACHED_BLOB_BYTES_PER_DEVICE : Z := 32 * 1024 * 1024.
Definition MAX_CACHED_BLOBS : Z := 4096.
Definition MAX_CACHED_BLOBS_PER_DEVICE : Z := 1024.
Definition MAX_OUTSTANDING_TICKETS : Z := 4096.
Definition MAX_OUTSTANDING_TICKETS_PER_DEVICE : Z := 128.
Definition BLOB_IDLE_TTL : Z := from_secs (5 * 60).
Definition TICKET_TTL : Z := from_secs 30.

Inductive IssueTicketError := NotFound | ResourceExhausted.

Record BlobEntry := {
  reference : BlobRef;
  payload : bytes;
  last_access : Z;
  owners : gset bytes;
  delivered_owners : gset bytes;
}.

Record TicketEntry := {
  transfer_id : Z;
  ticket_blob_id : bytes;
  owner : bytes;
  expires_at : Z;
}.

Record RedeemedBlob := {
  redeemed_reference : BlobRef;
  redeemed_bytes : bytes;
}.

Record BlobStoreInner := {
  entries : gmap bytes BlobEntry;
  insertion_order : list bytes;
  tickets : gmap bytes TicketEntry;
  transfer_ids : gset Z;
  blob_tickets : gmap bytes Z;
  device_bytes : gmap bytes Z;
  device_entries : gmap bytes Z;
  device_tickets : gmap bytes Z;
  total_bytes : Z;
  next_prune_at : option Z;
}.

(** [BlobStore::new]. *)
Definition new : BlobStoreInner :=
  {| entries := ∅; insertion_order := []; tickets := ∅; transfer_ids := ∅; blob_tickets := ∅;
     device_bytes := ∅; device_entries := ∅; device_tickets := ∅; total_bytes := 0;
     next_prune_at := None |}.

(** Assignments to one field. *)
Definition set_entries (m : gmap bytes BlobEntry) (s : BlobStoreInner) : BlobStoreInner :=
  {| entries := m; insertion_order := insertion_order s; tickets := tickets s;
     transfer_ids := transfer_ids s; blob_tickets := blob_tickets s;
     device_bytes := device_bytes s; device_entries := device_entries s;
     device_tickets := device_tickets s; total_bytes := total_bytes s;
     next_prune_at := next_prune_at s |}.
Definition set_order (l : list bytes) (s : BlobStoreInner) : BlobStoreInner :=
  {| entries := entries s; insertion_order := l; tickets := tickets s;
     transfer_ids := transfer_ids s; blob_tickets := blob_tickets s;
     device_bytes := device_bytes s; device_entries := device_entries s;
     device_tickets := device_tickets s; total_bytes := total_bytes s;
     next_prune_at := next_prune_at s |}.
Definition set_devices (db de : gmap bytes Z) (s : BlobStoreInner) : BlobStoreInner :=
  {| entries := entries s; insertion_order := insertion_order s; tickets := tickets s;
     transfer_ids := transfer_ids s; blob_tickets := blob_tickets s;
     device_bytes := db; device_entries := de;
     device_tickets := device_tickets s; total_bytes := total_bytes s;
     next_prune_at := next_prune_at s |}.
Definition set_total (n : Z) (s : BlobStoreInner) : BlobStoreInner :=
  {| entries := entries s; insertion_order := insertion_order s; tickets := tickets s;
     transfer_ids := transfer_ids s; blob_tickets := blob_tickets s;
     device_bytes := device_bytes s; device_entries := device_entries s;
     device_tickets := device_tickets s; total_bytes := n;
     next_prune_at := next_prune_at s |}.
Definition set_next_prune (o : option Z) (s : BlobStoreInner) : BlobStoreInner :=
  {| entries := entries s; insertion_order := insertion_order s; tickets := tickets s;
     transfer_ids := transfer_ids s; blob_tickets := blob_tickets s;
     device_bytes := device_bytes s; device_entries := device_entries s;
     device_tickets := device_tickets s; total_bytes := total_bytes s;
     next_prune_at := o |}.
Definition push_back (b : bytes) (s : BlobStoreInner) : BlobStoreInner :=
  set_order (insertion_order s ++ [b]) s.

Definition schedule_prune (deadline : Z) (self : BlobStoreInner) : BlobStoreInner :=
  set_next_prune (Some (match next_prune_at self with
                        | None => deadline
                        | Some next => Z.min next deadline
                        end)) self.

Definition owner_has_room (self : BlobStoreInner) (owner : bytes) (nbytes nentries : Z) : bool :=
  (sat_add usize_max (counter_get (device_bytes self) owner) nbytes
     <=? MAX_CACHED_BLOB_BYTES_PER_DEVICE)
  && (sat_add usize_max (counter_get (device_entries self) owner) nentries
     <=? MAX_CACHED_BLOBS_PER_DEVICE).

Definition blob_has_ticket (self : BlobStoreInner) (blob_id : bytes) : bool :=
  match blob_tickets self !! blob_id with
  | Some count => count >? 0
  | None => false
  end.

(** [decrement_counter] on the two per-device maps, for one owner. *)
Definition release_owner (owner : bytes) (size : Z) (self : BlobStoreInner) : BlobStoreInner :=
  set_devices (counter_sub (device_bytes self) owner size)
              (counter_sub (device_entries self) owner 1) self.

Definition remove_entry (blob_id : bytes) (self : BlobStoreInner) : BlobStoreInner :=
  match entries self !! blob_id with
  | None => self
  | Some entry =>
    let self := set_entries (delete blob_id (entries self)) self in
    let self := set_total (sat_sub (total_bytes self) (blen (payload entry))) self in
    fold_left (fun self owner => release_owner owner (blen (payload entry)) self)
              (elements (owners entry)) self
  end.

Definition remove_ticket (ticket : bytes) (self : BlobStoreInner) : BlobStoreInner :=
  match tickets self !! ticket with
  | None => self
  | Some entry =>
    {| entries := entries self; insertion_order := insertion_order self;
       tickets := delete ticket (tickets self);
       transfer_ids := transfer_ids self ∖ {[transfer_id entry]};
       blob_tickets := counter_sub (blob_tickets self) (ticket_blob_id entry) 1;
       device_bytes := device_bytes self; device_entries := device_entries self;
       device_tickets := counter_sub (device_tickets self) (owner entry) 1;
       total_bytes := total_bytes self; next_prune_at := next_prune_at self |}
  end.

(** The candidate loop of [reclaim_delivered_for_owner]: [candidates] is the taken
    [insertion_order], [self.insertion_order] collects what stays. *)
Fixpoint reclaim_loop (owner : bytes) (additional_bytes additional_entries : Z)
  (candidates : list bytes) (self : BlobStoreInner) : BlobStoreInner :=
  match candidates with
  | [] => self
  | blob_id :: candidates =>
    let continue := reclaim_loop owner additional_bytes additional_entries candidates in
    if owner_has_room self owner additional_bytes additional_entries then
      set_order (insertion_order self ++ blob_id :: candidates) self
    else if blob_has_ticket self blob_id then continue (push_back blob_id self)
    else match entries self !! blob_id with
    | None => continue self
    | Some entry =>
      if bool_decide (owner ∈ delivered_owners entry) then
        let delivered := delivered_owners entry ∖ {[owner]} in
        let entry' := {| reference := reference entry; payload := payload entry;
                         last_access := last_access entry;
                         owners := owners entry ∖ {[owner]}; delivered_owners := delivered |} in
        let self := set_entries (<[blob_id := entry']> (entries self)) self in
        if bool_decide (owner ∈ owners entry) then
          let self := release_owner owner (blen (payload entry)) self in
          if bool_decide (owners entry' = ∅) then continue (remove_entry blob_id self)
          else continue (push_back blob_id self)
        else continue (push_back blob_id self)
      else continue (push_back blob_id self)
    end
  end.

Definition reclaim_delivered_for_owner (owner : bytes) (additional_bytes additional_entries : Z)
  (self : BlobStoreInner) : BlobStoreInner :=
  if owner_has_room self owner additional_bytes additional_entries then self
  else reclaim_loop owner additional_bytes additional_entries
                    (insertion_order self) (set_order [] self).

(** One round of the second loop of [prune]. *)
Definition prune_blob (now : Z) (self : BlobStoreInner) (blob_id : bytes) : BlobStoreInner :=
  let pinned := blob_has_ticket self blob_id in
  let expired := match entries self !! blob_id with
                 | None => true
                 | Some entry => negb pinned
                     && (duration_since now (last_access entry) >=? BLOB_IDLE_TTL)
                 end in
  if expired then remove_entry blob_id self
  else
    let self := if pinned then self
                else match entries self !! blob_id with
                     | Some entry => schedule_prune (last_access entry + BLOB_IDLE_TTL) self
                     | None => self
                     end in
    push_back blob_id self.

(** [iter().min()]. *)
Definition list_min (l : list Z) : option Z :=
  match l with
  | [] => None
  | x :: l => Some (fold_left Z.min l x)
  end.

(** The body of [prune] after its early return. *)
Definition prune_scan (now : Z) (self : BlobStoreInner) : BlobStoreInner :=
  let self := set_next_prune None self in
  let expired_tickets :=
    (map_to_list (filter (fun kv => expires_at kv.2 <= now) (tickets self))).*1 in
  let self := fold_left (fun self ticket => remove_ticket ticket self) expired_tickets self in
  let self := set_next_prune (list_min (expires_at <$> (map_to_list (tickets self)).*2)) self in
  let insertion_order := insertion_order self in
  fold_left (prune_blob now) insertion_order (set_order [] self).

Definition prune (now : Z) (self : BlobStoreInner) : BlobStoreInner :=
  if match next_prune_at self with None => true | Some deadline => now <? deadline end
  then self
  else prune_scan now self.

Definition make_room_for (self : BlobStoreInner) (additional_bytes : Z) : bool :=
  if additional_bytes >? MAX_CACHED_BLOB_BYTES then false
  else (Z.of_nat (size (entries self)) <? MAX_CACHED_BLOBS)
       && (sat_add usize_max (total_bytes self) additional_bytes <=? MAX_CACHED_BLOB_BYTES).

Definition touch (t : Z) (entry : BlobEntry) : BlobEntry :=
  {| reference := reference entry; payload := payload entry; last_access := t;
     owners := owners entry; delivered_owners := delivered_owners entry |}.

Section operations.
Context `{!Sha256} `{!WireLimits}.

(** The guard of [BlobStore::insert]. *)
Definition insert_rejected (owner data : bytes) (media_type : string) : bool :=
  is_empty owner || (blen owner >? 128) || is_empty data
  || (blen data >? MAX_CACHED_BLOB_BYTES) || str_is_empty media_type
  || (slen media_type >? 256) || has_control media_type.

Definition insert (t0 t1 : Z) (owner data : bytes) (media_type : string) (self : BlobStoreInner)
  : BlobStoreInner * option BlobRef :=
  if insert_rejected owner data media_type then (self, None) else
  let digest := sha256 data in
  let self := prune t0 self in
  match entries self !! digest with
  | Some entry =>
    let is_existing_owner := bool_decide (owner ∈ owners entry) in
    let admitted :=
      if is_existing_owner then Some self
      else
        let self := reclaim_delivered_for_owner owner (blen data) 1 self in
        let owned_bytes := counter_get (device_bytes self) owner in
        let owned_entries := counter_get (device_entries self) owner in
        if (sat_add usize_max owned_bytes (blen data) >? MAX_CACHED_BLOB_BYTES_PER_DEVICE)
           || (owned_entries >=? MAX_CACHED_BLOBS_PER_DEVICE)
        then None
        else Some (set_devices
               (<[owner := sat_add usize_max owned_bytes (blen data)]> (device_bytes self))
               (<[owner := sat_add usize_max owned_entries 1]> (device_entries self)) self) in
    match admitted with
    | None => (reclaim_delivered_for_owner owner (blen data) 1 self, None)
    | Some self =>
      match entries self !! digest with
      | None => (self, None) (* [expect]: the entry was checked above *)
      | Some existing =>
        let existing := touch t1 existing in
        let existing :=
          if is_existing_owner then existing
          else {| reference := reference existing; payload := payload existing;
                  last_access := last_access existing;
                  owners := {[owner]} ∪ owners existing;
                  delivered_owners := delivered_owners existing |} in
        (set_entries (<[digest := existing]> (entries self)) self, Some (reference existing))
      end
    end
  | None =>
    let self := reclaim_delivered_for_owner owner (blen data) 1 self in
    let owned_bytes := counter_get (device_bytes self) owner in
    let owned_entries := counter_get (device_entries self) owner in
    if (sat_add usize_max owned_bytes (blen data) >? MAX_CACHED_BLOB_BYTES_PER_DEVICE)
       || (owned_entries >=? MAX_CACHED_BLOBS_PER_DEVICE) then (self, None) else
    if negb (make_room_for self (blen data)) then (self, None) else
    let reference := {| blob_id := digest; ref_size := blen data; Proto.media_type := media_type;
                        ref_sha256 := digest |} in
    let self := set_total (sat_add usize_max (total_bytes self) (blen data)) self in
    let self := schedule_prune (t1 + BLOB_IDLE_TTL) self in
    let self := push_back digest self in
    let self := set_entries (<[digest := {| reference := reference; payload := data;
                                            last_access := t1; owners := {[owner]};
                                            delivered_owners := ∅ |}]> (entries self)) self in
    let self := set_devices
      (<[owner := sat_add usize_max owned_bytes (ref_size reference)]> (device_bytes self))
      (<[owner := sat_add usize_max owned_entries 1]> (device_entries self)) self in
    (self, Some reference)
  end.

(** A [loop] that draws until a value is accepted: [None] while no draw has been. *)
Definition draw {A} (accept : A -> bool) (stream : list A) : option A :=
  head (List.filter accept stream).

(** Recording of an issued ticket. *)
Definition add_ticket (ticket : bytes) (entry : TicketEntry) (self : BlobStoreInner)
  : BlobStoreInner :=
  {| entries := entries self; insertion_order := insertion_order self;
     tickets := <[ticket := entry]> (tickets self);
     transfer_ids := {[transfer_id entry]} ∪ transfer_ids self;
     blob_tickets := counter_add (blob_tickets self) (ticket_blob_id entry) 1;
     device_bytes := device_bytes self; device_entries := device_entries self;
     device_tickets := counter_add (device_tickets self) (owner entry) 1;
     total_bytes := total_bytes self; next_prune_at := next_prune_at self |}.

(** [None]: the draws given so far were all rejected. [wall] is [now_ms()]. *)
Definition issue_ticket (t0 t1 t2 wall : Z) (ids : list Z) (tks : list bytes)
  (owner blob_id : bytes) (self : BlobStoreInner)
  : option (BlobStoreInner * result BlobTicket IssueTicketError) :=
  let self := prune t0 self in
  match entries self !! blob_id with
  | None => Some (self, Err NotFound)
  | Some entry =>
    if negb (bool_decide (owner ∈ owners entry)) then Some (self, Err NotFound) else
    let self := set_entries (<[blob_id := touch t1 entry]> (entries self)) self in
    if (Z.of_nat (size (tickets self)) >=? MAX_OUTSTANDING_TICKETS)
       || (counter_get (device_tickets self) owner >=? MAX_OUTSTANDING_TICKETS_PER_DEVICE)
    then Some (self, Err ResourceExhausted) else
    match draw (fun value => negb (value =? 0) && negb (bool_decide (value ∈ transfer_ids self)))
               ((fun raw => Z.land raw i64_max) <$> ids) with
    | None => None
    | Some transfer_id =>
      match draw (fun value => bool_decide (tickets self !! value = None)) tks with
      | None => None
      | Some ticket =>
        let expires_at := t2 + TICKET_TTL in
        let self := schedule_prune expires_at self in
        let self := add_ticket ticket {| transfer_id := transfer_id; ticket_blob_id := blob_id;
                                         owner := owner; expires_at := expires_at |} self in
        Some (self, Ok {| bt_transfer_id := transfer_id; bt_ticket := ticket;
                          bt_blob := Some (reference entry);
                          bt_chunk_size := MAX_BLOB_CHUNK_SIZE;
                          bt_expires_at_ms := wall + TICKET_TTL / 1000000 |})
      end
    end
  end.

End operations.

Definition redeem (t0 t1 t2 : Z) (redeemer : bytes) (id : Z) (ticket : bytes)
  (self : BlobStoreInner) : BlobStoreInner * result RedeemedBlob string :=
  let self := prune t0 self in
  match tickets self !! ticket with
  | None => (self, Err "blob ticket is invalid or expired"%string)
  | Some ticket_entry =>
    if negb (transfer_id ticket_entry =? id)
    then (self, Err "blob transfer id does not match ticket"%string) else
    if negb (bool_decide (owner ticket_entry = redeemer))
    then (self, Err "blob ticket belongs to another device"%string) else
    if expires_at ticket_entry <=? t1 then (self, Err "blob ticket expired"%string) else
    let blob_id := ticket_blob_id ticket_entry in
    let self := remove_ticket ticket self in
    match entries self !! blob_id with
    | None => (self, Err "blob was evicted"%string)
    | Some entry =>
      let entry := {| reference := reference entry; payload := payload entry;
                      last_access := t2; owners := owners entry;
                      delivered_owners := {[redeemer]} ∪ delivered_owners entry |} in
      (set_entries (<[blob_id := entry]> (entries self)) self,
       Ok {| redeemed_reference := reference entry; redeemed_bytes := payload entry |})
    end
  end.

(** ** Invariant *)

(** Arithmetic with the store's constants unfolded. *)
Ltac budgets :=
  unfold MAX_CACHED_BLOB_BYTES, MAX_CACHED_BLOB_BYTES_PER_DEVICE, MAX_CACHED_BLOBS,
    MAX_CACHED_BLOBS_PER_DEVICE, MAX_OUTSTANDING_TICKETS, MAX_OUTSTANDING_TICKETS_PER_DEVICE,
    BLOB_IDLE_TTL, TICKET_TTL, from_secs, usize_max in *; lia.

(** The shares of one entry or ticket in the per-device and per-blob counters. *)
Definition own_size (d : bytes) (_ : bytes) (e : BlobEntry) : Z :=
  if decide (d ∈ owners e) then blen (payload e) else 0.
Definition own_one (d : bytes) (_ : bytes) (e : BlobEntry) : Z :=
  if decide (d ∈ owners e) then 1 else 0.
Definition tk_owner (d : bytes) (_ : bytes) (t : TicketEntry) : Z :=
  if decide (owner t = d) then 1 else 0.
Definition tk_blob (b : bytes) (_ : bytes) (t : TicketEntry) : Z :=
  if decide (ticket_blob_id t = b) then 1 else 0.

Definition live_bytes (s : BlobStoreInner) : Z := msum (fun _ e => blen (payload e)) (entries s).
Definition owned_bytes (s : BlobStoreInner) (d : bytes) : Z := msum (own_size d) (entries s).
Definition owned_entries (s : BlobStoreInner) (d : bytes) : Z := msum (own_one d) (entries s).
Definition owned_tickets (s : BlobStoreInner) (d : bytes) : Z := msum (tk_owner d) (tickets s).
Definition pins (s : BlobStoreInner) (b : bytes) : Z := msum (tk_blob b) (tickets s).

(** The byte and entry counters agree with the entries. *)
Record entries_accounted (s : BlobStoreInner) : Prop := {
  acct_total : total_bytes s = live_bytes s;
  acct_bytes : tight (device_bytes s) (owned_bytes s);
  acct_entries : tight (device_entries s) (owned_entries s);
}.

(** The ticket counters and the set of transfer ids agree with the tickets. *)
Record tickets_accounted (s : BlobStoreInner) : Prop := {
  acct_tickets : tight (device_tickets s) (owned_tickets s);
  acct_pins : tight (blob_tickets s) (pins s);
  acct_ids : forall i, i ∈ transfer_ids s <->
    exists k t, tickets s !! k = Some t /\ transfer_id t = i;
  acct_distinct : forall k1 k2 t1 t2, tickets s !! k1 = Some t1 -> tickets s !! k2 = Some t2 ->
    transfer_id t1 = transfer_id t2 -> k1 = k2;
}.

(** Entries are content addressed, non-empty and owned. *)
Record entry_ok `{!Sha256} (k : bytes) (e : BlobEntry) : Prop := {
  entry_key : sha256 (payload e) = k;
  entry_ref : blob_id (reference e) = k /\ ref_sha256 (reference e) = k
    /\ ref_size (reference e) = blen (payload e);
  entry_nonempty : 0 < blen (payload e);
  entry_owned : owners e <> ∅;
  entry_delivered : delivered_owners e ⊆ owners e;
}.

(** A ticket is for a blob its owner still owns. *)
Definition pinned_ok (s : BlobStoreInner) : Prop :=
  forall k t, tickets s !! k = Some t ->
    0 < transfer_id t <= i64_max
    /\ exists e, entries s !! ticket_blob_id t = Some e /\ owner t ∈ owners e.

Record core `{!Sha256} (s : BlobStoreInner) : Prop := {
  core_entries : entries_accounted s;
  core_tickets : tickets_accounted s;
  core_entry : forall k e, entries s !! k = Some e -> entry_ok k e;
  core_pinned : pinned_ok s;
}.

Record within_limits (s : BlobStoreInner) : Prop := {
  lim_bytes : live_bytes s <= MAX_CACHED_BLOB_BYTES;
  lim_entries : Z.of_nat (size (entries s)) <= MAX_CACHED_BLOBS;
  lim_dev_bytes : forall d, owned_bytes s d <= MAX_CACHED_BLOB_BYTES_PER_DEVICE;
  lim_dev_entries : forall d, owned_entries s d <= MAX_CACHED_BLOBS_PER_DEVICE;
  lim_tickets : Z.of_nat (size (tickets s)) <= MAX_OUTSTANDING_TICKETS;
  lim_dev_tickets : forall d, owned_tickets s d <= MAX_OUTSTANDING_TICKETS_PER_DEVICE;
}.

(** [insertion_order], followed by the ids a loop still holds, lists the entries once each. *)
Definition ordered (rest : list bytes) (s : BlobStoreInner) : Prop :=
  NoDup (insertion_order s ++ rest)
  /\ forall k, k ∈ insertion_order s ++ rest <-> is_Some (entries s !! k).

Definition due_by (s : BlobStoreInner) (deadline : Z) : Prop :=
  exists n, next_prune_at s = Some n /\ n <= deadline.

(** Nothing lies in the future, and the next scan is due no later than the first expiry. *)
Definition past (now : Z) (s : BlobStoreInner) : Prop :=
  (forall k e, entries s !! k = Some e -> last_access e <= now)
  /\ (forall k t, tickets s !! k = Some t -> expires_at t <= now + TICKET_TTL).
Definition scheduled (s : BlobStoreInner) : Prop :=
  (forall k t, tickets s !! k = Some t -> due_by s (expires_at t))
  /\ (forall k e, entries s !! k = Some e -> pins s k = 0 ->
       due_by s (last_access e + BLOB_IDLE_TTL)).

Record wf `{!Sha256} (now : Z) (s : BlobStoreInner) : Prop := {
  wf_core : core s;
  wf_ordered : ordered [] s;
  wf_limits : within_limits s;
  wf_past : past now s;
  wf_scheduled : scheduled s;
}.

(** *** Removals only lower what is stored *)

Definition entry_le (e' e : BlobEntry) : Prop :=
  reference e' = reference e /\ payload e' = payload e /\ last_access e' = last_access e
  /\ owners e' ⊆ owners e /\ delivered_owners e' ⊆ delivered_owners e.
Definition shrinks (s s' : BlobStoreInner) : Prop :=
  (forall k e', entries s' !! k = Some e' -> exists e, entries s !! k = Some e /\ entry_le e' e)
  /\ tickets s' ⊆ tickets s.

Lemma entry_le_refl e : entry_le e e.
Proof. by repeat split. Qed.
#[local] Hint Resolve entry_le_refl : rust.

#[global] Instance shrinks_preorder : PreOrder shrinks.
Proof.
  split.
  - intros s. split; [|done]. intros k e He. exists e. eauto with rust.
  - intros s1 s2 s3 [He1 Ht1] [He2 Ht2]. split; [|by etrans].
    intros k e3 Hk. destruct (He2 k e3 Hk) as (e2 & Hk2 & R2).
    destruct (He1 k e2 Hk2) as (e1 & Hk1 & R1). exists e1. split; [done|].
    unfold entry_le in *. destruct R1 as (?&?&?&?&?), R2 as (?&?&?&?&?).
    repeat split; try congruence; by etrans.
Qed.

Lemma own_size_le d k e e' : entry_le e' e -> own_size d k e' <= own_size d k e.
Proof.
  intros (_ & Hp & _ & Ho & _). pose proof (blen_nonneg (payload e)). unfold own_size. rewrite Hp.
  repeat case_decide; try lia. exfalso. set_solver.
Qed.
Lemma own_one_le d k e e' : entry_le e' e -> own_one d k e' <= own_one d k e.
Proof.
  intros (_ & _ & _ & Ho & _). unfold own_one. repeat case_decide; try lia. exfalso. set_solver.
Qed.
Lemma own_size_nonneg d k e : 0 <= own_size d k e.
Proof. pose proof (blen_nonneg (payload e)). unfold own_size. case_decide; lia. Qed.
Lemma own_one_nonneg d k e : 0 <= own_one d k e.
Proof. unfold own_one. case_decide; lia. Qed.
Lemma tk_owner_nonneg d k t : 0 <= tk_owner d k t.
Proof. unfold tk_owner. case_decide; lia. Qed.
Lemma tk_blob_nonneg b k t : 0 <= tk_blob b k t.
Proof. unfold tk_blob. case_decide; lia. Qed.
#[local] Hint Resolve own_size_nonneg own_one_nonneg tk_owner_nonneg tk_blob_nonneg : rust.

Lemma shrinks_limits s s' : shrinks s s' -> within_limits s -> within_limits s'.
Proof.
  intros [He Ht] [L1 L2 L3 L4 L5 L6].
  assert (forall w, (forall k e, 0 <= w k e) -> (forall k e e', entry_le e' e -> w k e' <= w k e) ->
    msum w (entries s') <= msum w (entries s)) as Hsub.
  { intros w Hw Hle. apply msum_sub; [|by intros; apply Hw].
    intros k e' Hk. destruct (He k e' Hk) as (e & ? & ?). eauto. }
  assert (forall w, (forall k t, 0 <= w k t) -> msum w (tickets s') <= msum w (tickets s)) as Htk.
  { intros w Hw. apply msum_sub; [|by intros; apply Hw].
    intros k t Hk. exists t. split; [by eapply lookup_weaken | lia]. }
  split.
  - etrans; [apply Hsub|exact L1]; [intros; apply blen_nonneg|].
    intros ? ? ? (_ & -> & _). lia.
  - rewrite <- msum_one in *. etrans; [apply (Hsub (fun _ _ => 1))|exact L2]; intros; lia.
  - intros d. etrans; [apply (Hsub (own_size d))|apply L3]; auto using own_size_le with rust.
  - intros d. etrans; [apply (Hsub (own_one d))|apply L4]; auto using own_one_le with rust.
  - rewrite <- msum_one in *. etrans; [apply (Htk (fun _ _ => 1))|exact L5]. intros; lia.
  - intros d. etrans; [apply (Htk (tk_owner d))|apply L6]; auto with rust.
Qed.

Lemma shrinks_past now s s' : shrinks s s' -> past now s -> past now s'.
Proof.
  intros [He Ht] [P1 P2]. split.
  - intros k e' Hk. destruct (He k e' Hk) as (e & Hke & _ & _ & -> & _). eauto.
  - intros k t Hk. eapply P2, lookup_weaken; eauto.
Qed.

(** *** Pins *)

Lemma pins_zero s b : pins s b = 0 <-> forall k t, tickets s !! k = Some t -> ticket_blob_id t <> b.
Proof.
  split.
  - intros Hz k t Hk Hb. pose proof (msum_lookup_le (tk_blob b) (tickets s) k t
      ltac:(auto with rust) Hk) as Hle. unfold pins in Hz. rewrite Hz in Hle.
    unfold tk_blob in Hle. rewrite decide_True in Hle by done. lia.
  - intros Hn. unfold pins. rewrite (msum_ext _ (fun _ _ => 0)); [apply msum_zero|].
    intros k t Hk. unfold tk_blob. rewrite decide_False by eauto. done.
Qed.

Lemma has_ticket_pins s b : tickets_accounted s -> blob_has_ticket s b = true <-> pins s b <> 0.
Proof.
  intros Ha. unfold blob_has_ticket. rewrite (acct_pins s Ha b).
  assert (0 <= pins s b) by (apply msum_nonneg; auto with rust).
  destruct (pins s b =? 0) eqn:E; bool_arith; [split; congruence|].
  rewrite Z.gtb_lt. lia.
Qed.

Lemma has_ticket_false s b : tickets_accounted s -> blob_has_ticket s b = false <-> pins s b = 0.
Proof.
  intros Ha. pose proof (has_ticket_pins s b Ha). destruct (blob_has_ticket s b); split; intros;
    try done; destruct (decide (pins s b = 0)); naive_solver.
Qed.

(** *** Removal of an entry *)

Lemma release_fold n l s :
  fold_left (fun self owner => release_owner owner n self) l s =
  set_devices (fold_left (fun m d => counter_sub m d n) l (device_bytes s))
              (fold_left (fun m d => counter_sub m d 1) l (device_entries s)) s.
Proof.
  revert s. induction l as [|d l IH]; intros s; [by destruct s|]. cbn [fold_left]. by rewrite IH.
Qed.

Lemma tight_fold_sub (m : gmap bytes Z) f n (l : list bytes) :
  tight m f -> NoDup l -> 0 <= n -> (forall d, d ∈ l -> n <= f d) ->
  tight (fold_left (fun m d => counter_sub m d n) l m)
        (fun d => if decide (d ∈ l) then f d - n else f d).
Proof.
  revert m f. induction l as [|d l IH]; intros m f Ht Hnd Hn Hf; cbn [fold_left].
  - eapply tight_ext; [exact Ht|]. intros d. rewrite decide_False by apply not_elem_of_nil. done.
  - apply NoDup_cons in Hnd as [Hd Hnd].
    pose proof (tight_sub m f d n Ht ltac:(split; [done|]; apply Hf; left)) as Ht1.
    eapply tight_ext; [apply (IH _ _ Ht1 Hnd Hn)|].
    + intros d' Hd'. rewrite decide_False by congruence. apply Hf. by right.
    + intros d'. simpl. destruct (decide (d' ∈ d :: l)) as [Hin|Hin].
      * apply elem_of_cons in Hin as [->|Hin].
        -- rewrite decide_False by done. by rewrite decide_True.
        -- rewrite (decide_True (P := d' ∈ l)) by done. by rewrite decide_False by congruence.
      * apply not_elem_of_cons in Hin as [? ?]. rewrite !decide_False by congruence. done.
Qed.

Lemma remove_entry_eq b e s :
  entries s !! b = Some e ->
  remove_entry b s =
  set_devices (fold_left (fun m d => counter_sub m d (blen (payload e)))
                         (elements (owners e)) (device_bytes s))
              (fold_left (fun m d => counter_sub m d 1) (elements (owners e)) (device_entries s))
    (set_total (sat_sub (total_bytes s) (blen (payload e)))
       (set_entries (delete b (entries s)) s)).
Proof. intros Hb. unfold remove_entry. rewrite Hb. by rewrite release_fold. Qed.

Lemma remove_entry_fields b s :
  entries (remove_entry b s) = delete b (entries s)
  /\ tickets (remove_entry b s) = tickets s
  /\ insertion_order (remove_entry b s) = insertion_order s
  /\ next_prune_at (remove_entry b s) = next_prune_at s
  /\ transfer_ids (remove_entry b s) = transfer_ids s
  /\ blob_tickets (remove_entry b s) = blob_tickets s
  /\ device_tickets (remove_entry b s) = device_tickets s.
Proof.
  destruct (entries s !! b) as [e|] eqn:Hb.
  - by rewrite (remove_entry_eq b e s Hb).
  - unfold remove_entry. rewrite Hb. by rewrite delete_id.
Qed.

Lemma remove_entry_shrinks b s : shrinks s (remove_entry b s).
Proof.
  destruct (remove_entry_fields b s) as (He & Ht & _). split; [|by rewrite Ht].
  intros k e. rewrite He. intros [_ Hk]%lookup_delete_Some. exists e. eauto with rust.
Qed.

Lemma own_shares_le d b e s :
  entries s !! b = Some e ->
  own_size d b e <= owned_bytes s d /\ own_one d b e <= owned_entries s d
  /\ blen (payload e) <= live_bytes s.
Proof.
  intros Hb. split; [|split].
  - apply (msum_lookup_le (own_size d)); auto with rust.
  - apply (msum_lookup_le (own_one d)); auto with rust.
  - apply (msum_lookup_le (fun _ e => blen (payload e)) _ b); [intros; apply blen_nonneg | done].
Qed.

Lemma remove_blob_accounted b s : entries_accounted s -> entries_accounted (remove_entry b s).
Proof.
  intros [A1 A2 A3]. destruct (entries s !! b) as [e|] eqn:Hb; cycle 1.
  { unfold remove_entry. rewrite Hb. done. }
  rewrite (remove_entry_eq b e s Hb). pose proof (blen_nonneg (payload e)).
  assert (forall d, d ∈ elements (owners e) -> blen (payload e) <= owned_bytes s d
            /\ 1 <= owned_entries s d) as Hshare.
  { intros d Hd%elem_of_elements. destruct (own_shares_le d b e s Hb) as (H1 & H2 & _).
    unfold own_size, own_one in H1, H2. rewrite decide_True in H1, H2 by done. done. }
  split; simpl.
  - rewrite A1. unfold live_bytes. simpl. rewrite (msum_delete _ _ _ _ Hb).
    pose proof (msum_nonneg (fun _ e => blen (payload e)) (delete b (entries s))
      (fun _ _ _ => blen_nonneg _)). unfold sat_sub. lia.
  - eapply tight_ext;
      [apply (tight_fold_sub _ _ _ _ A2); [apply NoDup_elements | done | apply Hshare]|].
    intros d. unfold owned_bytes. simpl. rewrite (msum_delete (own_size d) _ _ _ Hb).
    change (own_size d b e) with (if decide (d ∈ owners e) then blen (payload e) else 0).
    destruct (decide (d ∈ elements (owners e))) as [Hd|Hd];
      rewrite elem_of_elements in Hd; [rewrite decide_True by done | rewrite decide_False by done];
      lia.
  - eapply tight_ext;
      [apply (tight_fold_sub _ _ _ _ A3); [apply NoDup_elements | lia | apply Hshare]|].
    intros d. unfold owned_entries. simpl. rewrite (msum_delete (own_one d) _ _ _ Hb).
    change (own_one d b e) with (if decide (d ∈ owners e) then 1 else 0).
    destruct (decide (d ∈ elements (owners e))) as [Hd|Hd];
      rewrite elem_of_elements in Hd; [rewrite decide_True by done | rewrite decide_False by done];
      lia.
Qed.

(** The tickets and their counters are untouched. *)
Lemma tickets_accounted_ext s s' :
  tickets s' = tickets s -> transfer_ids s' = transfer_ids s -> blob_tickets s' = blob_tickets s ->
  device_tickets s' = device_tickets s -> tickets_accounted s -> tickets_accounted s'.
Proof.
  intros E1 E2 E3 E4 [T1 T2 T3 T4]. split; unfold owned_tickets, pins; rewrite ?E1, ?E2, ?E3, ?E4;
    done.
Qed.

Lemma entries_accounted_ext s s' :
  entries s' = entries s -> total_bytes s' = total_bytes s -> device_bytes s' = device_bytes s ->
  device_entries s' = device_entries s -> entries_accounted s -> entries_accounted s'.
Proof.
  intros E1 E2 E3 E4 [T1 T2 T3].
  split; unfold live_bytes, owned_bytes, owned_entries; rewrite ?E1, ?E2, ?E3, ?E4; done.
Qed.

Lemma pins_ext s s' b : tickets s' = tickets s -> pins s' b = pins s b.
Proof. intros E. unfold pins. by rewrite E. Qed.

(** *** Removal of a ticket *)

Lemma remove_ticket_fields k s :
  entries (remove_ticket k s) = entries s
  /\ tickets (remove_ticket k s) = delete k (tickets s)
  /\ insertion_order (remove_ticket k s) = insertion_order s
  /\ next_prune_at (remove_ticket k s) = next_prune_at s
  /\ total_bytes (remove_ticket k s) = total_bytes s
  /\ device_bytes (remove_ticket k s) = device_bytes s
  /\ device_entries (remove_ticket k s) = device_entries s.
Proof.
  unfold remove_ticket. destruct (tickets s !! k) eqn:Hk; [done|].
  by rewrite delete_id.
Qed.

Lemma remove_ticket_shrinks k s : shrinks s (remove_ticket k s).
Proof.
  destruct (remove_ticket_fields k s) as (He & Ht & _).
  split; [|rewrite Ht; apply delete_subseteq].
  intros k' e. rewrite He. intros Hk. exists e. eauto with rust.
Qed.

Lemma remove_ticket_accounted k s : tickets_accounted s -> tickets_accounted (remove_ticket k s).
Proof.
  intros [T1 T2 T3 T4]. unfold remove_ticket. destruct (tickets s !! k) as [t|] eqn:Hk; [|done].
  assert (1 <= owned_tickets s (owner t)) as Ho.
  { etrans; [|apply (msum_lookup_le (tk_owner (owner t)) (tickets s) k t); auto with rust].
    unfold tk_owner. by rewrite decide_True. }
  assert (1 <= pins s (ticket_blob_id t)) as Hp.
  { etrans; [|apply (msum_lookup_le (tk_blob (ticket_blob_id t)) (tickets s) k t); auto with rust].
    unfold tk_blob. by rewrite decide_True. }
  split; simpl.
  - eapply tight_ext; [apply (tight_sub _ _ _ 1 T1); lia|]. intros d. unfold owned_tickets. simpl.
    rewrite (msum_delete (tk_owner d) _ _ _ Hk). 
    change (tk_owner d k t) with (if decide (owner t = d) then 1 else 0). case_decide; lia.
  - eapply tight_ext; [apply (tight_sub _ _ _ 1 T2); lia|]. intros d. unfold pins. simpl.
    rewrite (msum_delete (tk_blob d) _ _ _ Hk). 
    change (tk_blob d k t) with (if decide (ticket_blob_id t = d) then 1 else 0). case_decide; lia.
  - intros i. rewrite elem_of_difference, elem_of_singleton, T3. split.
    + intros [(k' & t' & Hk' & <-) Hne]. exists k', t'. split; [|done].
      apply lookup_delete_Some. split; [congruence | done].
    + intros (k' & t' & [Hne Hk']%lookup_delete_Some & <-). split; [eauto|].
      intros Heq. apply Hne. symmetry. by eapply T4.
  - intros k1 k2 t1 t2 [_ H1]%lookup_delete_Some [_ H2]%lookup_delete_Some. by eapply T4.
Qed.

Section core_steps.
Context `{!Sha256}.

Lemma remove_entry_core b s : core s -> pins s b = 0 -> core (remove_entry b s).
Proof.
  intros [C1 C2 C3 C4] Hp. destruct (remove_entry_fields b s) as (E & T & _ & _ & I & B & D). split.
  - by apply remove_blob_accounted.
  - by apply (tickets_accounted_ext s).
  - intros k e. rewrite E. intros [_ ?]%lookup_delete_Some. eauto.
  - intros k t. rewrite T, E. intros Hk. destruct (C4 k t Hk) as [Hid (e & He & Ho)].
    split; [done|]. exists e. split; [|done]. apply lookup_delete_Some. split; [|done].
    rewrite pins_zero in Hp. intros ->. by apply (Hp k t Hk).
Qed.

Lemma remove_ticket_core k s : core s -> core (remove_ticket k s).
Proof.
  intros [C1 C2 C3 C4]. destruct (remove_ticket_fields k s) as (E & T & _ & _ & A & B & D). split.
  - by apply (entries_accounted_ext s).
  - by apply remove_ticket_accounted.
  - rewrite E. done.
  - intros k' t. rewrite T, E. intros [_ ?]%lookup_delete_Some. eauto.
Qed.
End core_steps.

(** *** Reclaiming delivered blobs *)

(** [d'] keeps its claim on blob [k] unless it is the reclaiming device and the blob was already
    delivered to it and is not pinned. *)
Definition keeps (d : bytes) (s s' : BlobStoreInner) : Prop :=
  forall k e d', entries s !! k = Some e -> d' ∈ owners e ->
    (d' <> d \/ d' ∉ delivered_owners e \/ pins s k <> 0) ->
    exists e', entries s' !! k = Some e' /\ d' ∈ owners e'.

Record reclaims (d : bytes) (s s' : BlobStoreInner) : Prop := {
  rec_shrinks : shrinks s s';
  rec_tickets : tickets s' = tickets s;
  rec_next : next_prune_at s' = next_prune_at s;
  rec_keeps : keeps d s s';
}.

#[global] Instance reclaims_preorder d : PreOrder (reclaims d).
Proof.
  split.
  - intros s. split; [done..|]. intros k e d' Hk Hd _. eauto.
  - intros s1 s2 s3 [R1 T1 N1 K1] [R2 T2 N2 K2]. split; [by etrans|congruence|congruence|].
    intros k e d' Hk Hd Hc. destruct (K1 k e d' Hk Hd Hc) as (e2 & Hk2 & Hd2).
    apply (K2 k e2 d' Hk2 Hd2). rewrite (pins_ext s1 s2) by done.
    destruct R1 as [R1 _]. destruct (R1 k e2 Hk2) as (e0 & Hk0 & _ & _ & _ & _ & Hdel).
    assert (e0 = e) as -> by congruence. set_solver.
Qed.

(** The state after the loop takes [b] from [d]. *)
Definition reclaim_blob (d b : bytes) (e : BlobEntry) (s : BlobStoreInner) : BlobStoreInner :=
  let e' := {| reference := reference e; payload := payload e; last_access := last_access e;
               owners := owners e ∖ {[d]}; delivered_owners := delivered_owners e ∖ {[d]} |} in
  let s := release_owner d (blen (payload e)) (set_entries (<[b := e']> (entries s)) s) in
  if bool_decide (owners e ∖ {[d]} = ∅) then remove_entry b s else s.

Lemma reclaim_blob_fields d b e s :
  let e' := {| reference := reference e; payload := payload e; last_access := last_access e;
               owners := owners e ∖ {[d]}; delivered_owners := delivered_owners e ∖ {[d]} |} in
  let s' := reclaim_blob d b e s in
  entries s' = (if decide (owners e ∖ {[d]} = ∅) then delete b (entries s)
                else <[b := e']> (entries s))
  /\ total_bytes s' = (if decide (owners e ∖ {[d]} = ∅)
                       then sat_sub (total_bytes s) (blen (payload e)) else total_bytes s)
  /\ device_bytes s' = counter_sub (device_bytes s) d (blen (payload e))
  /\ device_entries s' = counter_sub (device_entries s) d 1
  /\ insertion_order s' = insertion_order s /\ tickets s' = tickets s
  /\ next_prune_at s' = next_prune_at s /\ transfer_ids s' = transfer_ids s
  /\ blob_tickets s' = blob_tickets s /\ device_tickets s' = device_tickets s.
Proof.
  cbn zeta. unfold reclaim_blob. destruct (decide (owners e ∖ {[d]} = ∅)) as [Hz|Hz].
  - rewrite bool_decide_true by done. erewrite remove_entry_eq by apply lookup_insert_eq.
    simpl. rewrite Hz, elements_empty. simpl. by rewrite delete_insert_eq.
  - by rewrite bool_decide_false.
Qed.

Section reclaim.
Context `{!Sha256}.

Lemma reclaim_blob_core d b e s :
  core s -> entries s !! b = Some e -> d ∈ owners e -> pins s b = 0 ->
  core (reclaim_blob d b e s).
Proof.
  intros [[A1 A2 A3] C2 C3 C4] Hb Hd Hp.
  destruct (reclaim_blob_fields d b e s) as (E & T & DB & DE & _ & TK & _ & I & B & D).
  destruct (own_shares_le d b e s Hb) as (H1 & H2 & H3).
  unfold own_size, own_one in H1, H2. rewrite decide_True in H1, H2 by done.
  pose proof (blen_nonneg (payload e)). pose proof (C3 b e Hb) as [K R N O L].
  split.
  - split.
    + rewrite T. unfold live_bytes in *. rewrite E.
      destruct (decide (owners e ∖ {[d]} = ∅)).
      * rewrite A1. pose proof (msum_delete (fun _ e => blen (payload e)) _ _ _ Hb) as Hm.
        simpl in Hm. unfold sat_sub. lia.
      * rewrite (msum_update _ _ _ _ _ Hb). simpl. lia.
    + rewrite DB. eapply tight_ext; [apply (tight_sub _ _ _ _ A2); lia|].
      intros d'. simpl. unfold owned_bytes. rewrite E.
      destruct (decide (owners e ∖ {[d]} = ∅)).
      * rewrite (msum_delete (own_size d') _ _ _ Hb). unfold own_size at 1 3.
        repeat case_decide; subst; try lia; exfalso; set_solver.
      * rewrite (msum_update _ _ _ _ _ Hb). unfold own_size at 4 5. simpl.
        repeat case_decide; subst; try lia; exfalso; set_solver.
    + rewrite DE. eapply tight_ext; [apply (tight_sub _ _ _ _ A3); lia|].
      intros d'. simpl. unfold owned_entries. rewrite E.
      destruct (decide (owners e ∖ {[d]} = ∅)).
      * rewrite (msum_delete (own_one d') _ _ _ Hb). unfold own_one at 1 3.
        repeat case_decide; subst; try lia; exfalso; set_solver.
      * rewrite (msum_update _ _ _ _ _ Hb). unfold own_one at 4 5. simpl.
        repeat case_decide; subst; try lia; exfalso; set_solver.
  - by apply (tickets_accounted_ext s).
  - intros k e2. rewrite E. case_decide.
    + intros [_ ?]%lookup_delete_Some. eauto.
    + rewrite lookup_insert_Some. intros [[<- <-]|[_ ?]]; [|eauto].
      split; simpl; [done..|]. set_solver.
  - intros k t. rewrite TK, E. intros Hk. destruct (C4 k t Hk) as [Hid (e2 & He2 & Ho)].
    split; [done|]. exists e2. split; [|done]. rewrite pins_zero in Hp.
    pose proof (Hp k t Hk). case_decide; [rewrite lookup_delete_ne | rewrite lookup_insert_ne];
    congruence.
Qed.

Lemma reclaim_blob_reclaims d b e s :
  entries s !! b = Some e -> d ∈ delivered_owners e -> pins s b = 0 ->
  reclaims d s (reclaim_blob d b e s).
Proof.
  intros Hb Hd Hp.
  destruct (reclaim_blob_fields d b e s) as (E & _ & _ & _ & _ & T & N & _).
  split; [|done|done|].
  - split; [|by rewrite T]. intros k e2. rewrite E. case_decide.
    + intros [_ ?]%lookup_delete_Some. exists e2. eauto with rust.
    + rewrite lookup_insert_Some. intros [[<- <-]|[_ ?]].
      * exists e. unfold entry_le. simpl. repeat split; try done; set_solver.
      * exists e2. eauto with rust.
  - intros k e2 d' Hk Hd' Hc. rewrite E. destruct (decide (k = b)) as [->|Hne].
    + assert (e2 = e) as -> by congruence. assert (d' <> d) by naive_solver.
      rewrite decide_False by set_solver. rewrite lookup_insert_eq. eexists. split; [done|].
      simpl. set_solver.
    + case_decide; [rewrite lookup_delete_ne | rewrite lookup_insert_ne]; eauto.
Qed.

(** Moving the head of the pending ids to the back of [insertion_order], or dropping it. *)
Lemma ordered_push b rest s : ordered (b :: rest) s -> ordered rest (push_back b s).
Proof.
  unfold ordered, push_back. simpl. by rewrite <- app_assoc.
Qed.
Lemma ordered_ext rest s s' :
  insertion_order s' = insertion_order s ->
  (forall k, is_Some (entries s' !! k) <-> is_Some (entries s !! k)) ->
  ordered rest s -> ordered rest s'.
Proof. unfold ordered. intros -> He [? Ho]. split; [done|]. intros k. by rewrite Ho, He. Qed.
Lemma ordered_drop b rest s s' :
  ordered (b :: rest) s -> insertion_order s' = insertion_order s ->
  entries s' = delete b (entries s) -> ordered rest s'.
Proof.
  unfold ordered. intros [Hnd Ho] -> ->. apply NoDup_drop_middle in Hnd as [Hnd Hb].
  split; [done|]. intros k. rewrite lookup_delete_is_Some, <- Ho.
  rewrite !elem_of_app, elem_of_cons. rewrite elem_of_app in Hb. naive_solver.
Qed.

Lemma reclaim_loop_spec d ab ae cand s :
  core s -> ordered cand s ->
  core (reclaim_loop d ab ae cand s) /\ ordered [] (reclaim_loop d ab ae cand s)
  /\ reclaims d s (reclaim_loop d ab ae cand s).
Proof.
  revert s. induction cand as [|b cand IH]; intros s Hc Ho; cbn [reclaim_loop]; [done|].
  destruct (owner_has_room s d ab ae).
  { split; [|split].
    - destruct Hc as [[] [] ? ?]. split; [by split|by split|done|done].
    - unfold ordered in *. simpl. by rewrite app_nil_r.
    - split; [|done|done|]; [split; [|done]; intros k e He; exists e; eauto with rust|].
      intros k e d' Hk Hd _. eauto. }
  assert (core (push_back b s) /\ reclaims d s (push_back b s)) as [Hcp Hrp].
  { split; [destruct Hc as [[] [] ? ?]; split; [by split|by split|done|done]|].
    split; [|done|done|]; [split; [|done]; intros k e He; exists e; eauto with rust|].
    intros k e d' Hk Hd _. eauto. }
  assert (forall s', core s' -> ordered cand s' -> reclaims d s s' ->
    core (reclaim_loop d ab ae cand s') /\ ordered [] (reclaim_loop d ab ae cand s')
    /\ reclaims d s (reclaim_loop d ab ae cand s')) as Hgo.
  { intros s' Hc' Ho' Hr'. destruct (IH s' Hc' Ho') as (? & ? & ?). split; [done|].
    split; [done|]. by etrans. }
  destruct (blob_has_ticket s b) eqn:Hp; [by apply Hgo; [|apply ordered_push|]|].
  apply has_ticket_false in Hp; [|apply Hc].
  destruct (entries s !! b) as [e|] eqn:Hb; cycle 1.
  { exfalso. destruct Ho as [_ Ho]. apply (is_Some_None (A := BlobEntry)). rewrite <- Hb.
    apply Ho. rewrite elem_of_app, elem_of_cons. auto. }
  destruct (bool_decide (d ∈ delivered_owners e)) eqn:Hd; bool_arith;
    [|by apply Hgo; [|apply ordered_push|]].
  assert (d ∈ owners e) as Hdo by (apply (entry_delivered b e); [by apply Hc|done]).
  rewrite bool_decide_true by done.
  pose proof (reclaim_blob_core d b e s Hc Hb Hdo Hp) as Hc'.
  pose proof (reclaim_blob_reclaims d b e s Hb Hd Hp) as Hr'.
  destruct (reclaim_blob_fields d b e s) as (E & _ & _ & _ & O & _).
  unfold reclaim_blob in *. cbn zeta in *. cbn [owners].
  destruct (bool_decide (owners e ∖ {[d]} = ∅)) eqn:Hz; bool_arith.
  - rewrite decide_True in E by done. apply Hgo; [done| |done]. by eapply ordered_drop.
  - rewrite decide_False in E by done. apply Hgo.
    + destruct Hc' as [[] [] ? ?]. split; [by split|by split|done|done].
    + apply ordered_push. eapply ordered_ext; [..|exact Ho]; [done|]. intros k. rewrite E.
      rewrite lookup_insert_is_Some. split; [|destruct (decide (b = k)); eauto].
      intros [<-|[_ ?]]; eauto.
    + destruct Hr' as [[] ? ? ?]. split; [by split|done|done|done].
Qed.

Lemma reclaim_spec d ab ae s :
  core s -> ordered [] s ->
  core (reclaim_delivered_for_owner d ab ae s)
  /\ ordered [] (reclaim_delivered_for_owner d ab ae s)
  /\ reclaims d s (reclaim_delivered_for_owner d ab ae s).
Proof.
  intros Hc Ho. unfold reclaim_delivered_for_owner. destruct (owner_has_room s d ab ae); [done|].
  destruct (reclaim_loop_spec d ab ae (insertion_order s) (set_order [] s)) as (H1 & H2 & H3).
  - destruct Hc as [[] [] ? ?]. split; [by split|by split|done|done].
  - unfold ordered in *. simpl in *. by rewrite app_nil_r in Ho.
  - split; [done|]. split; [done|]. destruct H3 as [[] ? ? ?]. split; [by split|done|done|done].
Qed.
End reclaim.

(** *** Pruning *)

Lemma due_by_schedule_same d s : due_by (schedule_prune d s) d.
Proof. unfold due_by. simpl. destruct (next_prune_at s); eexists; split; [done|lia|done|lia]. Qed.
Lemma due_by_schedule d s x : due_by s x -> due_by (schedule_prune d s) x.
Proof. intros (n & E & Hn). unfold due_by. simpl. rewrite E. eexists. split; [done|lia]. Qed.
Lemma due_by_le s x y : due_by s x -> x <= y -> due_by s y.
Proof. intros (n & E & Hn) ?. exists n. split; [done|lia]. Qed.
Lemma due_by_ext s s' x : next_prune_at s' = next_prune_at s -> due_by s x -> due_by s' x.
Proof. unfold due_by. by intros ->. Qed.

Lemma list_min_le l x : x ∈ l -> exists n, list_min l = Some n /\ n <= x.
Proof.
  assert (forall (l : list Z) a, fold_left Z.min l a <= a
            /\ forall x, x ∈ l -> fold_left Z.min l a <= x) as Hf.
  { clear. intros l. induction l as [|y l IH]; intros a; cbn [fold_left].
    - split; [lia|]. by intros x ?%not_elem_of_nil.
    - destruct (IH (Z.min a y)) as [H1 H2]. split; [lia|].
      intros x [->|Hx]%elem_of_cons; [lia|auto]. }
  destruct l as [|a l]; [by intros ?%not_elem_of_nil|]. intros Hx. eexists. split; [done|].
  destruct (Hf l a) as [H1 H2]. apply elem_of_cons in Hx as [->|Hx]; auto.
Qed.

(** What a scan may remove: entries without tickets that idled for the whole TTL. *)
Definition live (now : Z) (s : BlobStoreInner) (k : bytes) (e : BlobEntry) : Prop :=
  pins s k <> 0 \/ now - last_access e < BLOB_IDLE_TTL.

Lemma live_ext now s s' k e : tickets s' = tickets s -> live now s k e -> live now s' k e.
Proof. unfold live. intros E. by rewrite (pins_ext s s'). Qed.

Lemma prune_blob_cases now s b e :
  tickets_accounted s -> entries s !! b = Some e ->
  (live now s b e /\ prune_blob now s b =
     push_back b (if blob_has_ticket s b then s
                  else schedule_prune (last_access e + BLOB_IDLE_TTL) s))
  \/ (~ live now s b e /\ pins s b = 0 /\ prune_blob now s b = remove_entry b s).
Proof.
  intros Ha Hb. unfold prune_blob, live. rewrite Hb.
  pose proof (has_ticket_pins s b Ha) as Hp. destruct (blob_has_ticket s b) eqn:Ht; cbn [negb andb].
  - left. split; [left; tauto | done].
  - apply has_ticket_false in Ht; [|done].
    destruct (duration_since now (last_access e) >=? BLOB_IDLE_TTL) eqn:E; cycle 1.
    + left. split; [right|done]. rewrite Z.geb_leb in E. bool_arith. unfold duration_since in E. lia.
    + right. rewrite Z.geb_leb in E. bool_arith. unfold duration_since in E.
      split; [|done]. intros [?|?]; [congruence|]. budgets.
Qed.

Section pruning.
Context `{!Sha256}.

Lemma core_fields s s' :
  entries s' = entries s -> tickets s' = tickets s -> transfer_ids s' = transfer_ids s ->
  blob_tickets s' = blob_tickets s -> device_tickets s' = device_tickets s ->
  total_bytes s' = total_bytes s -> device_bytes s' = device_bytes s ->
  device_entries s' = device_entries s -> core s -> core s'.
Proof.
  intros E T ? ? ? ? ? ? [C1 C2 C3 C4]. split.
  - by apply (entries_accounted_ext s).
  - by apply (tickets_accounted_ext s).
  - by rewrite E.
  - intros k t. rewrite T, E. apply C4.
Qed.

(** A scan at [now] leads from [s] to [s']: tickets are the same, the entries left are exactly
    the live ones. *)
Record scans (now : Z) (s s' : BlobStoreInner) : Prop := {
  sc_tickets : tickets s' = tickets s;
  sc_entries : forall k e, entries s' !! k = Some e <-> entries s !! k = Some e /\ live now s k e;
}.

Lemma prune_loop_spec now rest s :
  core s -> ordered rest s ->
  (forall k t, tickets s !! k = Some t -> due_by s (expires_at t)) ->
  (forall k e, k ∈ insertion_order s -> entries s !! k = Some e ->
     live now s k e /\ (pins s k = 0 -> due_by s (last_access e + BLOB_IDLE_TTL))) ->
  core (fold_left (prune_blob now) rest s)
  /\ ordered [] (fold_left (prune_blob now) rest s)
  /\ scheduled (fold_left (prune_blob now) rest s)
  /\ scans now s (fold_left (prune_blob now) rest s).
Proof.
  revert s. induction rest as [|b rest IH]; intros s Hc Ho Ht He; cbn [fold_left].
  { split; [done|]. split; [done|]. destruct Ho as [_ Ho]. setoid_rewrite app_nil_r in Ho. split.
    - split; [done|]. intros k e Hk Hp. apply (He k e); [apply Ho; eauto|done|done].
    - split; [done|]. intros k e. split; [|by intros [? ?]]. intros Hk. split; [done|].
      apply (He k e); [apply Ho; eauto|done]. }
  assert (is_Some (entries s !! b)) as [e Hb].
  { apply Ho. rewrite elem_of_app, elem_of_cons. auto. }
  destruct (prune_blob_cases now s b e (core_tickets _ Hc) Hb)
    as [[Hl ->]|(Hl & Hp & ->)].
  - set (s1 := if blob_has_ticket s b then s else _).
    assert (entries s1 = entries s /\ tickets s1 = tickets s /\ insertion_order s1 = insertion_order s)
      as (E1 & T1 & O1) by (unfold s1; by destruct (blob_has_ticket s b)).
    assert (forall x, due_by s x -> due_by s1 x) as Hdue.
    { unfold s1. destruct (blob_has_ticket s b); [done|]. intros. by apply due_by_schedule. }
    assert (pins s b = 0 -> due_by s1 (last_access e + BLOB_IDLE_TTL)) as Hb1.
    { intros Hp. unfold s1. rewrite (proj2 (has_ticket_false s b (core_tickets _ Hc))) by done.
      apply due_by_schedule_same. }
    destruct (IH (push_back b s1)) as (H1 & H2 & H3 & [H4 H5]).
    + unfold s1. by destruct (blob_has_ticket s b); apply (core_fields s).
    + apply ordered_push. eapply ordered_ext; [..|exact Ho]; [done|]. by rewrite E1.
    + intros k t. simpl. rewrite T1. intros Hk. apply (due_by_ext s1); [done|]. eauto.
    + intros k e' Hin. simpl in Hin |- *. rewrite E1. intros Hk.
      rewrite (pins_ext s) by done. rewrite O1, elem_of_app, list_elem_of_singleton in Hin.
      split; [eapply live_ext; [exact T1|]|intros Hp; apply (due_by_ext s1); [done|]];
        (destruct Hin as [Hin| ->]; [|assert (e' = e) as -> by congruence; auto]).
      * by apply (He k e').
      * by apply Hdue, (He k e').
    + split; [done|]. split; [done|]. split; [done|]. simpl in H4, H5. rewrite T1, E1 in *.
      split; [done|]. intros k e'. rewrite H5. unfold live. by rewrite (pins_ext s).
  - destruct (remove_entry_fields b s) as (E & T & O & N & _).
    destruct (IH (remove_entry b s)) as (H1 & H2 & H3 & [H4 H5]).
    + by apply remove_entry_core.
    + by eapply ordered_drop.
    + intros k t. rewrite T. intros Hk. apply (due_by_ext s); [done|]. eauto.
    + intros k e'. rewrite O, E. intros Hin [_ Hk]%lookup_delete_Some.
      rewrite (pins_ext s) by done. split; [eapply live_ext; [exact T|]; by apply (He k e')|].
      intros. apply (due_by_ext s); [done|]. by apply (He k e').
    + split; [done|]. split; [done|]. split; [done|]. split; [congruence|].
      intros k e'. rewrite H5, E, lookup_delete_Some. unfold live. rewrite (pins_ext s) by done.
      split; [tauto|]. intros [Hk Hlv]. split; [|done]. split; [|done].
      intros <-. assert (e' = e) as -> by congruence. done.
Qed.

Lemma remove_tickets_spec l s :
  core s ->
  core (fold_left (fun self ticket => remove_ticket ticket self) l s)
  /\ entries (fold_left (fun self ticket => remove_ticket ticket self) l s) = entries s
  /\ insertion_order (fold_left (fun self ticket => remove_ticket ticket self) l s)
     = insertion_order s
  /\ forall k t, tickets (fold_left (fun self ticket => remove_ticket ticket self) l s) !! k = Some t
       <-> tickets s !! k = Some t /\ k ∉ l.
Proof.
  revert s. induction l as [|x l IH]; intros s Hc; cbn [fold_left].
  - repeat (split; [done|]). intros k t. split; [|tauto]. intros. split; [done|].
    apply not_elem_of_nil.
  - destruct (IH (remove_ticket x s)) as (H1 & H2 & H3 & H4); [by apply remove_ticket_core|].
    destruct (remove_ticket_fields x s) as (E & T & O & _).
    split; [done|]. split; [congruence|]. split; [congruence|]. intros k t.
    rewrite H4, T, lookup_delete_Some, not_elem_of_cons. split.
    + intros [[? ?] ?]. auto.
    + intros [? [? ?]]. auto.
Qed.

(** What [prune_scan] does, before the loop over the blobs. *)
Definition drop_tickets (now : Z) (s : BlobStoreInner) : BlobStoreInner :=
  fold_left (fun self ticket => remove_ticket ticket self)
    (map_to_list (filter (fun kv => expires_at kv.2 <= now) (tickets s))).*1
    (set_next_prune None s).

Lemma drop_tickets_spec now s :
  core s ->
  core (drop_tickets now s) /\ entries (drop_tickets now s) = entries s
  /\ insertion_order (drop_tickets now s) = insertion_order s
  /\ tickets (drop_tickets now s) = filter (fun kv => now < expires_at kv.2) (tickets s).
Proof.
  intros Hc. unfold drop_tickets.
  match goal with |- context [fold_left _ ?l ?x] =>
    destruct (remove_tickets_spec l x) as (H1 & H2 & H3 & H4) end.
  { by apply (core_fields s). }
  split; [done|]. split; [done|]. split; [done|].
  apply map_eq. intros k. apply option_eq. intros t. rewrite H4, map_lookup_filter_Some. simpl.
  split; intros [Hk Hx]; (split; [done|]).
  - destruct (decide (expires_at t <= now)) as [Hle|]; [|lia]. exfalso. apply Hx.
    apply list_elem_of_fmap. exists (k, t). split; [done|]. apply elem_of_map_to_list.
    by apply map_lookup_filter_Some.
  - intros ([k' t'] & -> & Hin)%list_elem_of_fmap. apply elem_of_map_to_list in Hin.
    apply map_lookup_filter_Some in Hin as [Hk' Hle]. simpl in *.
    assert (t' = t) as -> by congruence. lia.
Qed.

Lemma prune_scan_spec now s :
  core s -> ordered [] s ->
  let s1 := drop_tickets now s in
  core (prune_scan now s) /\ ordered [] (prune_scan now s) /\ scheduled (prune_scan now s)
  /\ tickets (prune_scan now s) = filter (fun kv => now < expires_at kv.2) (tickets s)
  /\ (forall k e, entries (prune_scan now s) !! k = Some e <->
        entries s !! k = Some e /\ live now s1 k e).
Proof.
  intros Hc Ho s1. destruct (drop_tickets_spec now s Hc) as (D1 & D2 & D3 & D4). fold s1 in D1, D2, D3, D4.
  assert (prune_scan now s = fold_left (prune_blob now) (insertion_order s)
    (set_order [] (set_next_prune (list_min (expires_at <$> (map_to_list (tickets s1)).*2)) s1)))
    as ->.
  { unfold prune_scan. fold (drop_tickets now s). fold s1. cbn zeta.
    replace (insertion_order (set_next_prune _ s1)) with (insertion_order s) by (by rewrite <- D3).
    done. }
  set (s2 := set_order _ _).
  destruct (prune_loop_spec now (insertion_order s) s2) as (H1 & H2 & H3 & [H4 H5]).
  - by apply (core_fields s1).
  - eapply ordered_ext in Ho; [|reflexivity|reflexivity]. unfold ordered in *.
    simpl in *. rewrite app_nil_r in Ho. by rewrite D2.
  - intros k t Hk. apply list_min_le. apply list_elem_of_fmap. exists t. split; [done|].
    apply list_elem_of_fmap. exists (k, t). split; [done|]. by apply elem_of_map_to_list.
  - simpl. by intros k e ?%not_elem_of_nil.
  - split; [done|]. split; [done|]. split; [done|]. split; [by rewrite H4, <- D4|].
    intros k e. rewrite H5. unfold live. simpl. rewrite D2. by rewrite (pins_ext s1 s2).
Qed.
End pruning.

(** Everything but the schedule. *)
Definition unscheduled (s : BlobStoreInner) : BlobStoreInner := set_next_prune None s.

Section prune_wf.
Context `{!Sha256}.

Lemma wf_later t t' s : wf t s -> t <= t' -> wf t' s.
Proof.
  intros [H1 H2 H3 [P1 P2] H5] Ht. split; [done..| |done]. split.
  - intros k e Hk. etrans; [by eapply P1 | done].
  - intros k e Hk. specialize (P2 k e Hk). lia.
Qed.

Lemma prune_loop_idle now rest s :
  core s -> (forall k, k ∈ rest -> exists e, entries s !! k = Some e /\ live now s k e) ->
  unscheduled (fold_left (prune_blob now) rest s)
  = unscheduled (set_order (insertion_order s ++ rest) s).
Proof.
  revert s. induction rest as [|b rest IH]; intros s Hc Hl; cbn [fold_left].
  { rewrite app_nil_r. by destruct s. }
  destruct (Hl b) as (e & Hb & Hlv); [left|].
  destruct (prune_blob_cases now s b e (core_tickets _ Hc) Hb) as [[_ ->]|(? & _ & _)]; [|done].
  rewrite IH.
  - by destruct (blob_has_ticket s b); unfold unscheduled; simpl; rewrite <- app_assoc.
  - by destruct (blob_has_ticket s b); apply (core_fields s).
  - intros k Hk. destruct (Hl k) as (e' & Hk' & Hlv'); [by right|]. exists e'.
    by destruct (blob_has_ticket s b).
Qed.

(** Before the deadline nothing has expired. *)
Lemma not_due now s :
  scheduled s -> match next_prune_at s with None => True | Some deadline => now < deadline end ->
  (forall k t, tickets s !! k = Some t -> now < expires_at t)
  /\ (forall k e, entries s !! k = Some e -> live now s k e).
Proof.
  intros [S1 S2] Hd. split.
  - intros k t Hk. destruct (S1 k t Hk) as (n & Hn & Hle). rewrite Hn in Hd. lia.
  - intros k e Hk. unfold live. destruct (decide (pins s k = 0)) as [Hp|]; [|by left]. right.
    destruct (S2 k e Hk Hp) as (n & Hn & Hle). rewrite Hn in Hd. lia.
Qed.

Lemma drop_tickets_idle now s :
  (forall k t, tickets s !! k = Some t -> now < expires_at t) ->
  drop_tickets now s = set_next_prune None s.
Proof.
  intros Ht. unfold drop_tickets.
  replace (filter (fun kv => expires_at kv.2 <= now) (tickets s)) with (∅ : gmap bytes TicketEntry);
    [by rewrite map_to_list_empty|].
  symmetry. apply map_empty_filter_2. intros k t Hk. simpl. specialize (Ht k t Hk). lia.
Qed.

Lemma prune_scan_idle now s :
  core s -> ordered [] s ->
  (forall k t, tickets s !! k = Some t -> now < expires_at t) ->
  (forall k e, entries s !! k = Some e -> live now s k e) ->
  unscheduled (prune_scan now s) = unscheduled s.
Proof.
  intros Hc Ho Ht He. unfold prune_scan. cbn zeta. simpl tickets.
  change (fold_left _ (map_to_list (filter _ (tickets s))).*1 (set_next_prune None s))
    with (drop_tickets now s).
  rewrite (drop_tickets_idle now s Ht). rewrite prune_loop_idle.
  - by destruct s.
  - by apply (core_fields s).
  - intros k Hk. destruct Ho as [_ Ho]. simpl in *. rewrite app_nil_r in Ho.
    apply Ho in Hk as [e Hk]. exists e. split; [done|]. by apply He.
Qed.

(** The state left by [prune], described without its schedule. *)
Lemma prune_facts t now s :
  wf t s ->
  wf t (prune now s)
  /\ tickets (prune now s) = filter (fun kv => now < expires_at kv.2) (tickets s)
  /\ (forall k e, entries (prune now s) !! k = Some e <->
        entries s !! k = Some e /\ live now (prune now s) k e).
Proof.
  intros Hwf. pose proof Hwf as [Hc Ho Hl Hp Hs]. unfold prune.
  destruct (match next_prune_at s with None => true | Some deadline => now <? deadline end) eqn:E.
  - destruct (not_due now s Hs) as [Ht He].
    { destruct (next_prune_at s); [by bool_arith | done]. }
    split; [done|]. split.
    + symmetry. by apply map_filter_id.
    + intros k e. split; [auto|tauto].
  - destruct (prune_scan_spec now s Hc Ho) as (H1 & H2 & H3 & H4 & H5).
    destruct (drop_tickets_spec now s Hc) as (_ & _ & _ & D4).
    assert (shrinks s (prune_scan now s)) as Hsh.
    { split; [|rewrite H4; apply map_filter_subseteq]. intros k e [Hk _]%H5. eauto with rust. }
    split; [|split; [done|]].
    + split; [done|done|by eapply shrinks_limits|by eapply shrinks_past|done].
    + intros k e. rewrite H5. unfold live. by rewrite (pins_ext (drop_tickets now s) (prune_scan now s)) by congruence.
Qed.

Lemma prune_shrinks t now s : wf t s -> shrinks s (prune now s).
Proof.
  intros Hwf. destruct (prune_facts t now s Hwf) as (_ & HT & HE). split.
  - intros k e [Hk _]%HE. eauto with rust.
  - rewrite HT. apply map_filter_subseteq.
Qed.
End prune_wf.

(** *** The steps the operations are made of *)

Section op_wf.
Context `{!Sha256}.

(** A change of access time and delivery marks. *)
Definition same_claim (e e' : BlobEntry) : Prop :=
  reference e' = reference e /\ payload e' = payload e /\ owners e' = owners e.

Lemma same_claim_sum (f : BlobEntry -> Z) (b : bytes) (e e' : BlobEntry) (m : gmap bytes BlobEntry) :
  m !! b = Some e -> f e' = f e -> msum (fun _ => f) (<[b := e']> m) = msum (fun _ => f) m.
Proof. intros Hb Hf. rewrite (msum_update _ _ _ _ _ Hb). lia. Qed.

(** Tickets stay backed, and nothing moves into the future, when one entry is set. *)
Lemma pinned_entry s s' b e' :
  tickets s' = tickets s -> entries s' = <[b := e']> (entries s) ->
  (forall e, entries s !! b = Some e -> owners e ⊆ owners e') -> pinned_ok s -> pinned_ok s'.
Proof.
  intros Et Ee Ho Hp k tk. rewrite Et, Ee. intros Hk. destruct (Hp k tk Hk) as [Hid (e & He & Hin)].
  split; [done|]. destruct (decide (b = ticket_blob_id tk)) as [->|Hne].
  - exists e'. rewrite lookup_insert_eq. split; [done|]. by apply (Ho e He).
  - exists e. by rewrite lookup_insert_ne.
Qed.
Lemma past_entry t t' s s' b e' :
  tickets s' = tickets s -> entries s' = <[b := e']> (entries s) -> t <= t' -> last_access e' <= t' ->
  past t s -> past t' s'.
Proof.
  intros Et Ee Ht He' [P1 P2]. split.
  - intros k e. rewrite Ee, lookup_insert_Some. intros [[<- <-]|[_ Hk]]; [lia|]. specialize (P1 k e Hk). lia.
  - intros k tk. rewrite Et. intros Hk. specialize (P2 k tk Hk). lia.
Qed.
Lemma entry_ok_insert s s' b e' :
  entries s' = <[b := e']> (entries s) -> entry_ok b e' ->
  (forall k e, entries s !! k = Some e -> entry_ok k e) -> forall k e, entries s' !! k = Some e -> entry_ok k e.
Proof. intros Ee He' He k e. rewrite Ee, lookup_insert_Some. intros [[<- <-]|[_ ?]]; auto. Qed.
(** An entry that was there is replaced. *)
Lemma ordered_update s b e e' : entries s !! b = Some e -> ordered [] s -> ordered [] (set_entries (<[b := e']> (entries s)) s).
Proof.
  intros Hb [O1 O2]. split; [done|]. intros k. rewrite O2. simpl. rewrite lookup_insert_is_Some.
  destruct (decide (b = k)) as [<-|]; [|tauto]. rewrite Hb. split; eauto.
Qed.
Lemma scheduled_update s b e e' :
  entries s !! b = Some e -> last_access e <= last_access e' -> scheduled s ->
  scheduled (set_entries (<[b := e']> (entries s)) s).
Proof.
  intros Hb Hla [S1 S2]. split; [exact S1|]. intros k e2. simpl. rewrite lookup_insert_Some.
  intros [[<- <-]|[_ Hk]] Hp; [|by apply (S2 k e2)]. eapply due_by_le; [by apply (S2 b e)|]. lia.
Qed.

Lemma update_entry_wf t t' b e e' s :
  wf t s -> t <= t' -> entries s !! b = Some e -> same_claim e e' ->
  delivered_owners e' ⊆ owners e -> last_access e <= last_access e' <= t' ->
  wf t' (set_entries (<[b := e']> (entries s)) s).
Proof.
  intros [[[A1 A2 A3] C2 C3 C4] O L P S] Ht Hb (R & Py & Ow) Hd Hla.
  assert (forall d, msum (own_size d) (<[b := e']> (entries s)) = owned_bytes s d) as Hs1.
  { intros d. apply (same_claim_sum (own_size d b) b e); [done|]. unfold own_size. by rewrite Ow, Py. }
  assert (forall d, msum (own_one d) (<[b := e']> (entries s)) = owned_entries s d) as Hs2.
  { intros d. apply (same_claim_sum (own_one d b) b e); [done|]. unfold own_one. by rewrite Ow. }
  assert (msum (fun _ e => blen (payload e)) (<[b := e']> (entries s)) = live_bytes s) as Hs3.
  { apply (same_claim_sum (fun e => blen (payload e)) b e); [done|]. by rewrite Py. }
  split.
  - split.
    + split; unfold live_bytes; simpl;
        [congruence | eapply tight_ext; [exact A2|]; intros; symmetry; apply Hs1
         | eapply tight_ext; [exact A3|]; intros; symmetry; apply Hs2].
    + by apply (tickets_accounted_ext s).
    + eapply (entry_ok_insert s); [done| |done].
      destruct (C3 b e Hb) as [K1 K2 K3 K4 K5]. split; rewrite ?R, ?Py, ?Ow; done.
    + eapply (pinned_entry s); [done|done| |done]. intros e2 He2. rewrite Ow. by replace e2 with e by congruence.
  - by eapply ordered_update.
  - destruct L as [L1 L2 L3 L4 L5 L6]. split; unfold live_bytes, owned_bytes, owned_entries; simpl;
      [by rewrite Hs3 | rewrite map_size_insert_Some; eauto | intros d; by rewrite Hs1 | intros d; by rewrite Hs2
       | done | done].
  - eapply (past_entry t t' s); try done. lia.
  - eapply scheduled_update; [done|lia|done].
Qed.

Lemma remove_ticket_wf t k tk s :
  wf t s -> tickets s !! k = Some tk ->
  (forall e, entries s !! ticket_blob_id tk = Some e ->
     expires_at tk <= last_access e + BLOB_IDLE_TTL) ->
  wf t (remove_ticket k s).
Proof.
  intros [Hc Ho Hl Hp [S1 S2]] Hk Hd.
  destruct (remove_ticket_fields k s) as (E & T & O & N & _).
  split.
  - by apply remove_ticket_core.
  - unfold ordered. by rewrite E, O.
  - by eapply shrinks_limits; [apply remove_ticket_shrinks|].
  - by eapply shrinks_past; [apply remove_ticket_shrinks|].
  - split.
    + intros k' t'. rewrite T. intros [_ Hk']%lookup_delete_Some.
      by apply (due_by_ext s), (S1 k' t').
    + intros b e. rewrite E. intros Hb Hz. apply (due_by_ext s); [done|].
      destruct (decide (ticket_blob_id tk = b)) as [<-|Hne].
      * eapply due_by_le; [by apply (S1 k tk)|]. eauto.
      * apply (S2 b e Hb). unfold pins in *. rewrite T in Hz.
        rewrite (msum_delete (tk_blob b) _ _ _ Hk), Hz. unfold tk_blob. by rewrite decide_False.
Qed.

(** A ticket more: whose it is and what it pins. *)
Lemma add_ticket_owned k x d s :
  tickets s !! k = None -> owned_tickets (add_ticket k x s) d = (if decide (owner x = d) then 1 else 0) + owned_tickets s d.
Proof. intros Hk. unfold owned_tickets. simpl. by rewrite msum_insert. Qed.
Lemma add_ticket_pins k x b s :
  tickets s !! k = None -> pins (add_ticket k x s) b = (if decide (ticket_blob_id x = b) then 1 else 0) + pins s b.
Proof. intros Hk. unfold pins. simpl. by rewrite msum_insert. Qed.
Lemma pins_bounded s b : 0 <= pins s b <= Z.of_nat (size (tickets s)).
Proof.
  split; [apply msum_nonneg; auto with rust|]. unfold pins. rewrite <- msum_one. apply msum_le.
  intros. unfold tk_blob. case_decide; lia.
Qed.
Lemma add_ticket_accounted k x s :
  tickets_accounted s -> tickets s !! k = None -> transfer_id x ∉ transfer_ids s ->
  Z.of_nat (size (tickets s)) < MAX_OUTSTANDING_TICKETS ->
  owned_tickets s (owner x) < MAX_OUTSTANDING_TICKETS_PER_DEVICE ->
  tickets_accounted (add_ticket k x s).
Proof.
  intros [T1 T2 T3 T4] Hk Hfresh Hn Hnd. pose proof (pins_bounded s (ticket_blob_id x)).
  assert (0 <= owned_tickets s (owner x)) by (apply msum_nonneg; auto with rust). split.
  - eapply tight_ext; [apply (tight_add _ _ _ 1 T1); try lia; budgets|].
    intros d'. rewrite add_ticket_owned by done. simpl. case_decide; lia.
  - eapply tight_ext; [apply (tight_add _ _ _ 1 T2); try lia; budgets|].
    intros b'. rewrite add_ticket_pins by done. simpl. case_decide; lia.
  - intros i'. simpl. rewrite elem_of_union, elem_of_singleton, T3. split.
    + intros [->|(k' & t0 & Hk' & Hi')].
      * exists k, x. by rewrite lookup_insert_eq.
      * exists k', t0. rewrite lookup_insert_ne by congruence. done.
    + intros (k' & t0 & Hk' & Hi'). apply lookup_insert_Some in Hk' as [[<- <-]|[_ ?]]; [by left|right; eauto].
  - intros k1 k2 t1 t2. simpl. intros Hk1 Hk2 Heq. rewrite T3 in Hfresh.
    apply lookup_insert_Some in Hk1 as [[<- <-]|[_ Hk1]];
      apply lookup_insert_Some in Hk2 as [[<- <-]|[_ Hk2]]; [done| | |by eapply T4]; (exfalso; apply Hfresh; eauto).
Qed.
Lemma add_ticket_wf t t' k b d i e s :
  wf t s -> t <= t' -> entries s !! b = Some e -> d ∈ owners e -> tickets s !! k = None ->
  0 < i <= i64_max -> i ∉ transfer_ids s ->
  Z.of_nat (size (tickets s)) < MAX_OUTSTANDING_TICKETS ->
  owned_tickets s d < MAX_OUTSTANDING_TICKETS_PER_DEVICE ->
  wf t' (add_ticket k {| transfer_id := i; ticket_blob_id := b; owner := d;
                         expires_at := t' + TICKET_TTL |}
           (schedule_prune (t' + TICKET_TTL) s)).
Proof.
  intros [[C1 C2 C3 C4] Ho L [P1 P2] [S1 S2]] Ht Hb Hd Hk Hi Hfresh Hn Hnd.
  set (x := {| transfer_id := i |}) in *. set (s1 := schedule_prune (t' + TICKET_TTL) s).
  assert (forall dl, due_by s1 dl -> due_by (add_ticket k x s1) dl) as Hdue by done.
  split.
  - split; [by apply (entries_accounted_ext s)| |exact C3|].
    + apply add_ticket_accounted; [by apply (tickets_accounted_ext s)|done..].
    + intros k' t0. simpl. rewrite lookup_insert_Some. intros [[<- <-]|[_ Hk']]; [|by eapply C4].
      simpl. eauto.
  - exact Ho.
  - destruct L as [L1 L2 L3 L4 L5 L6]. split; [done..| |].
    + simpl. rewrite map_size_insert_None by done. lia.
    + intros d'. rewrite add_ticket_owned by done. specialize (L6 d').
      change (owned_tickets s1 d') with (owned_tickets s d'). simpl. case_decide; subst; lia.
  - split.
    + intros k' e' Hk'. specialize (P1 k' e' Hk'). lia.
    + intros k' t0. simpl. rewrite lookup_insert_Some.
      intros [[<- <-]|[_ Hk']]; [simpl; lia|]. specialize (P2 k' t0 Hk'). lia.
  - split.
    + intros k' t0. simpl. rewrite lookup_insert_Some. intros [[<- <-]|[_ Hk']]; apply Hdue.
      * apply due_by_schedule_same.
      * by apply due_by_schedule, (S1 k' t0).
    + intros k' e' Hk' Hz. apply Hdue, due_by_schedule, (S2 k' e' Hk'). rewrite add_ticket_pins in Hz by done.
      pose proof (pins_bounded s k'). change (pins s1 k') with (pins s k') in Hz. case_decide; lia.
Qed.
End op_wf.

Section insert_wf.
Context `{!Sha256} `{!WireLimits}.

Lemma reclaim_wf t d ab ae s :
  wf t s ->
  wf t (reclaim_delivered_for_owner d ab ae s)
  /\ reclaims d s (reclaim_delivered_for_owner d ab ae s).
Proof.
  intros [Hc Ho Hl Hp [S1 S2]]. destruct (reclaim_spec d ab ae s Hc Ho) as (H1 & H2 & H3).
  split; [|done]. destruct H3 as [R1 R2 R3 R4].
  split; [done|done|by eapply shrinks_limits|by eapply shrinks_past|]. split.
  - intros k tk. rewrite R2. intros Hk. by apply (due_by_ext s), (S1 k tk).
  - intros k e Hk. rewrite (pins_ext s) by done. intros Hz. apply (due_by_ext s); [done|].
    destruct R1 as [R1 _]. destruct (R1 k e Hk) as (e0 & Hk0 & _ & _ & -> & _). by apply (S2 k e0).
Qed.

(** The admission test shared by both branches of [insert]. *)
Definition over_device_limit (d : bytes) (n : Z) (s : BlobStoreInner) : bool :=
  (sat_add usize_max (counter_get (device_bytes s) d) n >? MAX_CACHED_BLOB_BYTES_PER_DEVICE)
  || (counter_get (device_entries s) d >=? MAX_CACHED_BLOBS_PER_DEVICE).

Lemma over_device_limit_false t d n s :
  wf t s -> 0 <= n -> over_device_limit d n s = false ->
  counter_get (device_bytes s) d = owned_bytes s d
  /\ counter_get (device_entries s) d = owned_entries s d
  /\ 0 <= owned_bytes s d /\ owned_bytes s d + n <= MAX_CACHED_BLOB_BYTES_PER_DEVICE
  /\ 0 <= owned_entries s d < MAX_CACHED_BLOBS_PER_DEVICE.
Proof.
  intros [[[A1 A2 A3] _ _ _] _ _ _ _] Hn. unfold over_device_limit.
  rewrite (tight_get _ _ _ A2), (tight_get _ _ _ A3).
  assert (0 <= owned_bytes s d) by (apply msum_nonneg; auto with rust).
  assert (0 <= owned_entries s d) by (apply msum_nonneg; auto with rust).
  intros Hf. bool_arith.
  unfold sat_add in *. repeat split; try done; budgets.
Qed.

(** Charging [n] bytes and one entry to [d]. *)
Definition charge_owner (d : bytes) (n : Z) (s : BlobStoreInner) : BlobStoreInner :=
  set_devices
    (<[d := sat_add usize_max (counter_get (device_bytes s) d) n]> (device_bytes s))
    (<[d := sat_add usize_max (counter_get (device_entries s) d) 1]> (device_entries s)) s.

Lemma charge_owner_tight t d n s :
  wf t s -> 0 < n -> over_device_limit d n s = false ->
  tight (device_bytes (charge_owner d n s))
        (fun d' => if decide (d = d') then owned_bytes s d' + n else owned_bytes s d')
  /\ tight (device_entries (charge_owner d n s))
        (fun d' => if decide (d = d') then owned_entries s d' + 1 else owned_entries s d').
Proof.
  intros Hwf Hn Hf.
  destruct (over_device_limit_false t d n s Hwf ltac:(lia) Hf) as (E1 & E2 & ? & ? & ?).
  destruct Hwf as [[[A1 A2 A3] _ _ _] _ _ _ _]. unfold charge_owner. simpl. rewrite E1, E2.
  rewrite !sat_add_exact by budgets. split.
  - eapply tight_ext; [apply (tight_set _ _ _ _ A2); lia|].
    intros d'. simpl. case_decide; by subst.
  - eapply tight_ext; [apply (tight_set _ _ _ _ A3); lia|].
    intros d'. simpl. case_decide; by subst.
Qed.

Definition add_owner (t1 : Z) (d : bytes) (e : BlobEntry) : BlobEntry :=
  {| reference := reference e; payload := payload e; last_access := t1;
     owners := {[d]} ∪ owners e; delivered_owners := delivered_owners e |}.

Lemma add_owner_wf t t1 d b e s :
  wf t s -> t <= t1 -> entries s !! b = Some e -> d ∉ owners e ->
  over_device_limit d (blen (payload e)) s = false ->
  wf t1 (set_entries (<[b := add_owner t1 d e]> (entries s)) (charge_owner d (blen (payload e)) s)).
Proof.
  intros Hwf Ht Hb Hd Hf. pose proof Hwf as [[[A1 A2 A3] C2 C3 C4] O L P S].
  destruct (C3 b e Hb) as [K1 K2 K3 K4 K5]. pose proof (proj1 P b e Hb) as Hla.
  destruct (charge_owner_tight t d _ s Hwf K3 Hf) as [B1 B2].
  destruct (over_device_limit_false t d (blen (payload e)) s Hwf ltac:(lia) Hf) as (_ & _ & Q1 & Q2 & Q3).
  assert (forall d', msum (own_size d') (<[b := add_owner t1 d e]> (entries s)) =
            if decide (d = d') then owned_bytes s d' + blen (payload e) else owned_bytes s d') as Hs1.
  { intros d'. rewrite (msum_update _ _ _ _ _ Hb). fold (owned_bytes s d').
    unfold own_size. simpl. repeat case_decide; subst; try done; try lia; set_solver. }
  assert (forall d', msum (own_one d') (<[b := add_owner t1 d e]> (entries s)) =
            if decide (d = d') then owned_entries s d' + 1 else owned_entries s d') as Hs2.
  { intros d'. rewrite (msum_update _ _ _ _ _ Hb). fold (owned_entries s d').
    unfold own_one. simpl. repeat case_decide; subst; try done; try lia; set_solver. }
  assert (msum (fun _ e => blen (payload e)) (<[b := add_owner t1 d e]> (entries s)) = live_bytes s)
    as Hs3 by (by apply (same_claim_sum (fun e => blen (payload e)) b e)).
  split.
  - split.
    + split; [simpl; unfold live_bytes; simpl; congruence
        | eapply tight_ext; [exact B1|]; intros; symmetry; apply Hs1
        | eapply tight_ext; [exact B2|]; intros; symmetry; apply Hs2].
    + by apply (tickets_accounted_ext s).
    + eapply (entry_ok_insert s); [done| |done]. split; simpl; [done..| |]; set_solver.
    + eapply (pinned_entry s); [done|done| |done]. intros e2 He2. replace e2 with e by congruence. simpl. set_solver.
  - by apply (ordered_update s b e).
  - destruct L as [L1 L2 L3 L4 L5 L6].
    split; unfold live_bytes, owned_bytes, owned_entries; simpl;
      [by rewrite Hs3 | rewrite map_size_insert_Some; eauto
       | intros d'; rewrite Hs1; case_decide; subst; auto
       | intros d'; rewrite Hs2; case_decide; subst; auto; lia | done | done].
  - by eapply (past_entry t t1 s).
  - apply (scheduled_update s b e); [done|simpl; lia|done].
Qed.

(** The bookkeeping of a new entry. *)
Definition new_entry (t1 : Z) (d data : bytes) (mt : string) : BlobEntry :=
  {| reference := {| blob_id := sha256 data; ref_size := blen data; Proto.media_type := mt;
                     ref_sha256 := sha256 data |};
     payload := data; last_access := t1; owners := {[d]}; delivered_owners := ∅ |}.
Definition push_entry (t1 : Z) (d data : bytes) (mt : string) (s : BlobStoreInner)
  : BlobStoreInner :=
  charge_owner d (blen data)
    (set_entries (<[sha256 data := new_entry t1 d data mt]> (entries s))
      (push_back (sha256 data)
        (schedule_prune (t1 + BLOB_IDLE_TTL)
          (set_total (sat_add usize_max (total_bytes s) (blen data)) s)))).

(** What a new entry adds to the sums. *)
Lemma push_entry_sum t1 d data mt s w :
  entries s !! sha256 data = None ->
  msum w (entries (push_entry t1 d data mt s)) = w (sha256 data) (new_entry t1 d data mt) + msum w (entries s).
Proof. intros Hb. simpl. by apply msum_insert. Qed.
Lemma push_entry_bytes t1 d data mt s d' :
  entries s !! sha256 data = None ->
  owned_bytes (push_entry t1 d data mt s) d' = (if decide (d = d') then blen data else 0) + owned_bytes s d'.
Proof.
  intros Hb. unfold owned_bytes. rewrite push_entry_sum by done. f_equal.
  unfold own_size. simpl. repeat case_decide; try done; set_solver.
Qed.
Lemma push_entry_entries t1 d data mt s d' :
  entries s !! sha256 data = None ->
  owned_entries (push_entry t1 d data mt s) d' = (if decide (d = d') then 1 else 0) + owned_entries s d'.
Proof.
  intros Hb. unfold owned_entries. rewrite push_entry_sum by done. f_equal.
  unfold own_one. simpl. repeat case_decide; try done; set_solver.
Qed.
Lemma push_entry_live t1 d data mt s :
  entries s !! sha256 data = None -> live_bytes (push_entry t1 d data mt s) = blen data + live_bytes s.
Proof. intros Hb. unfold live_bytes. by rewrite push_entry_sum. Qed.
Lemma make_room_true t s n :
  wf t s -> 0 <= n -> make_room_for s n = true ->
  0 <= live_bytes s /\ live_bytes s + n <= MAX_CACHED_BLOB_BYTES /\ Z.of_nat (size (entries s)) < MAX_CACHED_BLOBS.
Proof.
  intros [[[A1 _ _] _ _ _] _ _ _ _] Hn Hroom.
  assert (0 <= live_bytes s) by (apply msum_nonneg; intros; apply blen_nonneg). split; [done|].
  unfold make_room_for in Hroom. destruct (_ >? _) eqn:?; [done|]. bool_arith.
  rewrite A1 in *. unfold sat_add in *. split; [budgets|done].
Qed.

Lemma push_entry_core t t1 d data mt s :
  wf t s -> entries s !! sha256 data = None -> 0 < blen data ->
  over_device_limit d (blen data) s = false -> make_room_for s (blen data) = true ->
  core (push_entry t1 d data mt s).
Proof.
  intros Hwf Hb Hn Hf Hroom. destruct (charge_owner_tight t d _ s Hwf Hn Hf) as [B1 B2].
  destruct (make_room_true t s (blen data) Hwf ltac:(lia) Hroom) as (Hl0 & Hr1 & Hr2).
  destruct (wf_core _ _ Hwf) as [[A1 A2 A3] C2 C3 C4]. split.
  - split.
    + rewrite push_entry_live by done. simpl. rewrite A1, sat_add_exact by budgets. lia.
    + eapply tight_ext; [exact B1|]. intros d'. rewrite push_entry_bytes by done. case_decide; lia.
    + eapply tight_ext; [exact B2|]. intros d'. rewrite push_entry_entries by done. case_decide; lia.
  - by apply (tickets_accounted_ext s).
  - eapply (entry_ok_insert s); [done| |done]. split; simpl; [done..| |]; set_solver.
  - eapply (pinned_entry s); [done|done| |done]. intros e He. congruence.
Qed.
Lemma push_entry_wf t t1 d data mt s :
  wf t s -> t <= t1 -> entries s !! sha256 data = None -> 0 < blen data ->
  over_device_limit d (blen data) s = false -> make_room_for s (blen data) = true ->
  wf t1 (push_entry t1 d data mt s).
Proof.
  intros Hwf Ht Hb Hn Hf Hroom. pose proof (push_entry_core t t1 d data mt s Hwf Hb Hn Hf Hroom) as Hcore.
  pose proof Hwf as [_ [O1 O2] [L1 L2 L3 L4 L5 L6] P [S1 S2]].
  destruct (over_device_limit_false t d (blen data) s Hwf ltac:(lia) Hf) as (_ & _ & Q1 & Q2 & Q3).
  destruct (make_room_true t s (blen data) Hwf ltac:(lia) Hroom) as (_ & Hr1 & Hr2).
  assert (forall x, due_by (schedule_prune (t1 + BLOB_IDLE_TTL) s) x ->
            due_by (push_entry t1 d data mt s) x) as Hdue by done.
  split; [done| | | |].
  - unfold ordered in *. simpl. rewrite app_nil_r in *. split.
    + apply NoDup_app. split; [done|]. split; [|apply NoDup_singleton].
      intros k Hk ->%list_elem_of_singleton. apply O2 in Hk. rewrite Hb in Hk. by apply is_Some_None in Hk.
    + intros k. specialize (O2 k). rewrite ?app_nil_r in O2.
      rewrite elem_of_app, list_elem_of_singleton, O2, lookup_insert_is_Some.
      destruct (decide (sha256 data = k)); naive_solver.
  - split; [rewrite push_entry_live by done; lia| | | |done|done].
    + simpl. rewrite map_size_insert_None by done. lia.
    + intros d'. rewrite push_entry_bytes by done. specialize (L3 d'). case_decide; subst; lia.
    + intros d'. rewrite push_entry_entries by done. specialize (L4 d'). case_decide; subst; lia.
  - by eapply (past_entry t t1 s).
  - split.
    + intros k tk Hk. by apply Hdue, due_by_schedule, (S1 k tk).
    + intros k e2. simpl. rewrite lookup_insert_Some.
      intros [[<- <-]|[_ Hk]] Hp; apply Hdue; [apply due_by_schedule_same|]. by apply due_by_schedule, (S2 k e2).
Qed.
End insert_wf.

(** *** The operations, branch by branch *)

Section op_facts.
Context `{!Sha256} `{!WireLimits}.

(** The content stored under a digest is the content being inserted. *)
Definition no_collision (data : bytes) (s : BlobStoreInner) : Prop :=
  forall e, entries s !! sha256 data = Some e -> payload e = data.

Lemma insert_eq t0 t1 d data mt s :
  insert_rejected d data mt = false ->
  insert t0 t1 d data mt s =
  let s1 := prune t0 s in
  let s2 := reclaim_delivered_for_owner d (blen data) 1 s1 in
  match entries s1 !! sha256 data with
  | Some e =>
    if bool_decide (d ∈ owners e)
    then (set_entries (<[sha256 data := touch t1 e]> (entries s1)) s1, Some (reference e))
    else if over_device_limit d (blen data) s2 then (s2, None)
    else match entries s2 !! sha256 data with
         | None => (charge_owner d (blen data) s2, None)
         | Some e2 =>
           (set_entries (<[sha256 data := add_owner t1 d e2]> (entries s2))
              (charge_owner d (blen data) s2), Some (reference e2))
         end
  | None =>
    if over_device_limit d (blen data) s2 then (s2, None)
    else if negb (make_room_for s2 (blen data)) then (s2, None)
    else (push_entry t1 d data mt s2, Some (reference (new_entry t1 d data mt)))
  end.
Proof.
  intros Hr. unfold insert, over_device_limit. rewrite Hr. cbn zeta.
  destruct (entries (prune t0 s) !! sha256 data) as [e|] eqn:He.
  - destruct (bool_decide (d ∈ owners e)); [by rewrite He|].
    destruct (_ || _); [done|]. simpl. unfold charge_owner, add_owner.
    by destruct (entries (reclaim_delivered_for_owner _ _ _ _) !! sha256 data).
  - destruct (_ || _); [done|]. unfold push_entry, charge_owner, new_entry.
    set (s2 := reclaim_delivered_for_owner _ _ _ _). clearbody s2.
    destruct (make_room_for s2 _); reflexivity.
Qed.

Lemma insert_rejected_nonempty d data mt : insert_rejected d data mt = false -> 0 < blen data.
Proof.
  unfold insert_rejected. intros Hr. bool_arith. destruct data; [done|]. unfold blen. simpl. lia.
Qed.

(** From [s] to [s'] nothing is lost but what the device [d] has had delivered and has not pinned. *)
Definition isolates (d : bytes) (s s' : BlobStoreInner) : Prop :=
  forall k e d', entries s !! k = Some e -> d' ∈ owners e ->
    (d' <> d \/ d' ∉ delivered_owners e \/ pins s k <> 0) ->
    exists e', entries s' !! k = Some e' /\ payload e' = payload e /\ d' ∈ owners e'.

Lemma isolates_refl d s : isolates d s s.
Proof. intros k e d' Hk Hd _. by exists e. Qed.

Lemma reclaims_isolates d s s' : reclaims d s s' -> isolates d s s'.
Proof.
  intros [[Hsh _] _ _ Hkeep] k e d' Hk Hd Hc. destruct (Hkeep k e d' Hk Hd Hc) as (e' & Hk' & Hd').
  destruct (Hsh k e' Hk') as (e0 & Hk0 & _ & Hp & _). exists e'.
  assert (e0 = e) as -> by congruence. done.
Qed.

Lemma isolates_insert d s s1 s' k e :
  isolates d s s1 -> entries s' = <[k := e]> (entries s1) ->
  (forall e0, entries s1 !! k = Some e0 -> payload e = payload e0 /\ owners e0 ⊆ owners e) ->
  isolates d s s'.
Proof.
  intros Hiso E Hle k' e' d' Hk Hd Hc. destruct (Hiso k' e' d' Hk Hd Hc) as (e1 & Hk1 & Hp & Hd1).
  rewrite E. destruct (decide (k = k')) as [<-|Hne].
  - destruct (Hle e1 Hk1) as [Hp1 Ho]. exists e. rewrite lookup_insert_eq. split; [done|].
    split; [congruence|set_solver].
  - exists e1. by rewrite lookup_insert_ne.
Qed.

Record insert_post (t0 t1 : Z) (d data : bytes) (mt : string) (s s' : BlobStoreInner)
  (r : option BlobRef) : Prop := {
  ip_wf : wf t1 s';
  ip_entry : forall ref, r = Some ref -> exists e, entries s' !! sha256 data = Some e
    /\ payload e = data /\ reference e = ref /\ d ∈ owners e /\ last_access e = t1;
  ip_isolated : isolates d (prune t0 s) s';
  ip_tickets : tickets s' = tickets (prune t0 s);
}.

Lemma insert_spec t t0 t1 d data mt s s' r :
  wf t s -> t <= t1 -> no_collision data s -> insert_rejected d data mt = false ->
  insert t0 t1 d data mt s = (s', r) -> insert_post t0 t1 d data mt s s' r.
Proof.
  intros Hwf0 Ht Hnc Hr. rewrite (insert_eq t0 t1 d data mt s Hr). cbn zeta.
  destruct (prune_facts t t0 s Hwf0) as (Hwf & _ & HE). set (s1 := prune t0 s) in *.
  pose proof (insert_rejected_nonempty _ _ _ Hr) as Hlen.
  destruct (reclaim_wf t d (blen data) 1 s1 Hwf) as [Hwf2 Hrec].
  set (s2 := reclaim_delivered_for_owner d (blen data) 1 s1) in *.
  pose proof (reclaims_isolates d s1 s2 Hrec) as Hiso. destruct Hrec as [[Hsh _] Hrt _ _].
  destruct (entries s1 !! sha256 data) as [e|] eqn:He.
  - assert (payload e = data) as Hpay by (apply Hnc; by apply HE in He as [? _]).
    destruct (bool_decide (d ∈ owners e)) eqn:Hd; bool_arith.
    { intros [= <- <-]. assert (last_access e <= t) by (by eapply (wf_past _ _ Hwf)).
      split; [|intros ? [= <-]| |done].
      - apply (update_entry_wf t t1 (sha256 data) e); try done; simpl; [|lia].
        by apply (core_entry _ (wf_core _ _ Hwf) _ _ He).
      - exists (touch t1 e). simpl. by rewrite lookup_insert_eq.
      - eapply isolates_insert; [apply isolates_refl|done|]. intros e0. fold s1. by rewrite He; intros [= <-]. }
    destruct (over_device_limit d (blen data) s2) eqn:Hov.
    { intros [= <- <-]. split; [by eapply wf_later|done|done|done]. }
    assert (exists d', d' ∈ owners e) as [d' Hd'].
    { apply set_choose_L. apply (core_entry _ (wf_core _ _ Hwf) _ _ He). }
    destruct (Hiso _ e d' He Hd') as (e2 & He2 & Hp2 & _); [left; congruence|]. rewrite He2.
    destruct (Hsh _ e2 He2) as (e0 & He0 & Hle). assert (e0 = e) as -> by congruence.
    assert (d ∉ owners e2) as Hd2 by (destruct Hle as (_ & _ & _ & ? & _); set_solver).
    rewrite Hpay in Hp2. intros [= <- <-]. split; [|intros ? [= <-]| |done].
    + rewrite <- Hp2 at 2. by eapply (add_owner_wf t); rewrite ?Hp2.
    + exists (add_owner t1 d e2). simpl. rewrite lookup_insert_eq. repeat split; try done.
      set_solver.
    + eapply isolates_insert; [exact Hiso|done|]. rewrite He2. intros ? [= <-]. split; [done|set_solver].
  - assert (entries s2 !! sha256 data = None) as He2.
    { apply eq_None_not_Some. intros [e2 He2]. destruct (Hsh _ e2 He2) as (? & ? & _). congruence. }
    destruct (over_device_limit d (blen data) s2) eqn:Hov; cbn [negb].
    { intros [= <- <-]. split; [by eapply wf_later|done|done|done]. }
    destruct (make_room_for s2 (blen data)) eqn:Hroom; cbn [negb]; cycle 1.
    { intros [= <- <-]. split; [by eapply wf_later|done|done|done]. }
    intros [= <- <-]. split; [by apply (push_entry_wf t)|intros ? [= <-]| |done].
    + exists (new_entry t1 d data mt). simpl. rewrite lookup_insert_eq. repeat split; try done.
      set_solver.
    + eapply isolates_insert; [exact Hiso|done|]. rewrite He2. done.
Qed.

(** *** Tickets *)

Lemma draw_Some {A} (f : A -> bool) l x : draw f l = Some x -> f x = true /\ x ∈ l.
Proof.
  unfold draw. intros Hx. assert (x ∈ List.filter f l) as Hin.
  { destruct (List.filter f l); [done|]. simpl in Hx. simplify_eq. left. }
  rewrite list_elem_of_In in Hin. apply List.filter_In in Hin as [? ?].
  by rewrite list_elem_of_In.
Qed.

Lemma draw_is_Some {A} (f : A -> bool) l x : x ∈ l -> f x = true -> exists y, draw f l = Some y.
Proof.
  unfold draw. intros Hx Hf. assert (In x (List.filter f l)) as Hin.
  { apply List.filter_In. by rewrite <- list_elem_of_In. }
  destruct (List.filter f l); [done|]. simpl. eauto.
Qed.

Lemma land_i64_max raw : 0 <= Z.land raw i64_max <= i64_max.
Proof.
  unfold i64_max. replace (2 ^ 63 - 1) with (Z.ones 63) by reflexivity.
  rewrite Z.land_ones by lia. pose proof (Z.mod_pos_bound raw (2 ^ 63) eq_refl). change (Z.ones 63) with (2 ^ 63 - 1). lia.
Qed.

Record issue_post (t2 wall : Z) (d b : bytes) (s1 s' : BlobStoreInner)
  (r : result BlobTicket IssueTicketError) : Prop := {
  sp_wf : wf t2 s';
  sp_kept : forall k tk, tickets s1 !! k = Some tk -> tickets s' !! k = Some tk;
  sp_ok : forall bt, r = Ok bt -> exists e, entries s1 !! b = Some e /\ d ∈ owners e
    /\ tickets s1 !! bt_ticket bt = None /\ bt_blob bt = Some (reference e)
    /\ 0 < bt_transfer_id bt <= i64_max
    /\ (forall k tk, tickets s1 !! k = Some tk -> transfer_id tk <> bt_transfer_id bt)
    /\ (exists e', entries s' !! b = Some e' /\ payload e' = payload e
          /\ reference e' = reference e)
    /\ tickets s' = <[bt_ticket bt := {| transfer_id := bt_transfer_id bt; ticket_blob_id := b;
         owner := d; expires_at := t2 + TICKET_TTL |}]> (tickets s1);
}.

Lemma issue_spec t t0 t1 t2 wall ids tks d b s s' r :
  wf t s -> t <= t1 <= t2 -> issue_ticket t0 t1 t2 wall ids tks d b s = Some (s', r) ->
  issue_post t2 wall d b (prune t0 s) s' r.
Proof.
  intros Hwf0 Ht. unfold issue_ticket. cbn zeta.
  destruct (prune_facts t t0 s Hwf0) as (Hwf & _ & _). set (s1 := prune t0 s) in *.
  destruct (entries s1 !! b) as [e|] eqn:He;
    [|intros [= <- <-]; split; [apply (wf_later t); [done|lia]|done|done]].
  destruct (bool_decide (d ∈ owners e)) eqn:Hd; bool_arith; cbn [negb];
    [|intros [= <- <-]; split; [apply (wf_later t); [done|lia]|done|done]].
  set (s2 := set_entries (<[b := touch t1 e]> (entries s1)) s1).
  assert (wf t1 s2) as Hwf2.
  { assert (last_access e <= t) by (by eapply (wf_past _ _ Hwf)).
    apply (update_entry_wf t t1 b e); try done; simpl; [lia| |lia].
    by apply (core_entry _ (wf_core _ _ Hwf) _ _ He). }
  destruct (_ || _) eqn:Hlim; [intros [= <- <-]; split; [apply (wf_later t1); [done|lia]|done|done]|].
  destruct (draw _ (_ <$> ids)) as [i|] eqn:Hi; [|done].
  destruct (draw _ tks) as [k|] eqn:Hk; [|done]. intros [= <- <-].
  apply draw_Some in Hi as [Hi Hin]. apply draw_Some in Hk as [Hk _].
  apply list_elem_of_fmap in Hin as (raw & -> & _). pose proof (land_i64_max raw).
  bool_arith. pose proof (acct_tickets _ (core_tickets _ (wf_core _ _ Hwf2))) as Htk.
  rewrite (tight_get _ _ _ Htk) in *. simpl in Hk.
  pose proof (acct_ids _ (core_tickets _ (wf_core _ _ Hwf)) (Z.land raw i64_max)) as Hids.
  split.
  - eapply (add_ticket_wf t1 t2 k b d _ (touch t1 e)); try done; try lia. apply lookup_insert_eq.
  - intros k' tk Hk'. simpl. rewrite lookup_insert_ne by congruence. done.
  - intros bt [= <-]. exists e. simpl. repeat split; try done; try lia.
    + intros k' tk Hk' Heq. apply H3, Hids. eauto.
    + exists (touch t1 e). by rewrite lookup_insert_eq.
Qed.

Lemma redeem_spec t t0 t1 t2 d i k s :
  wf t s -> t <= t2 ->
  wf t2 (redeem t0 t1 t2 d i k s).1
  /\ match redeem t0 t1 t2 d i k s with
     | (s', Err _) => tickets s' = tickets (prune t0 s) /\ entries s' = entries (prune t0 s)
     | (s', Ok b) => exists tk e, tickets (prune t0 s) !! k = Some tk /\ transfer_id tk = i
         /\ owner tk = d /\ t1 < expires_at tk /\ entries s !! ticket_blob_id tk = Some e
         /\ redeemed_bytes b = payload e /\ redeemed_reference b = reference e
         /\ tickets s' = delete k (tickets (prune t0 s))
     end.
Proof.
  intros Hwf0 Ht. unfold redeem. cbn zeta.
  destruct (prune_facts t t0 s Hwf0) as (Hwf & _ & HE). set (s1 := prune t0 s) in *.
  destruct (tickets s1 !! k) as [tk|] eqn:Hk; [|split; [by eapply wf_later|done]].
  destruct (transfer_id tk =? i) eqn:Hi; cbn [negb]; [|split; [by eapply wf_later|done]].
  destruct (bool_decide (owner tk = d)) eqn:Hd; cbn [negb]; [|split; [by eapply wf_later|done]].
  destruct (expires_at tk <=? t1) eqn:Hx; [split; [by eapply wf_later|done]|]. bool_arith.
  destruct (core_pinned _ (wf_core _ _ Hwf) k tk Hk) as [_ (e & He & Ho)].
  destruct (remove_ticket_fields k s1) as (E & T & _). rewrite E, He.
  set (e' := {| reference := reference e |}).
  assert (last_access e <= t) by (by eapply (wf_past _ _ Hwf)).
  assert (set_entries (<[ticket_blob_id tk := e']> (entries s1)) (remove_ticket k s1)
    = remove_ticket k (set_entries (<[ticket_blob_id tk := e']> (entries s1)) s1)) as Hcomm.
  { unfold remove_ticket. simpl. by rewrite Hk. }
  split.
  - simpl. rewrite Hcomm.
    apply (remove_ticket_wf t2 k tk); [|done|].
    + apply (update_entry_wf t t2 (ticket_blob_id tk) e); try done; simpl; [|lia].
      pose proof (entry_delivered _ _ (core_entry _ (wf_core _ _ Hwf) _ _ He)). set_solver.
    + simpl. rewrite lookup_insert_eq. intros ? [= <-]. simpl.
      pose proof (proj2 (wf_past _ _ Hwf) k tk Hk). budgets.
  - exists tk, e. apply HE in He as [He _]. repeat split; try done.
Qed.
End op_facts.

(** ** Histories of operations *)

Section histories.
Context `{!Sha256} `{!WireLimits}.

(** One operation of the store between the clock readings [now] and [now']. *)
Inductive blob_step : Z * BlobStoreInner -> Z * BlobStoreInner -> Prop :=
| step_insert now t0 t1 d data mt s :
    now <= t0 <= t1 -> no_collision data s ->
    blob_step (now, s) (t1, (insert t0 t1 d data mt s).1)
| step_issue now t0 t1 t2 wall ids tks d b s s' r :
    now <= t0 <= t1 -> t1 <= t2 ->
    issue_ticket t0 t1 t2 wall ids tks d b s = Some (s', r) ->
    blob_step (now, s) (t2, s')
| step_redeem now t0 t1 t2 d i k s :
    now <= t0 <= t1 -> t1 <= t2 ->
    blob_step (now, s) (t2, (redeem t0 t1 t2 d i k s).1).

Lemma insert_rejected_same t0 t1 d data mt s :
  insert_rejected d data mt = true -> insert t0 t1 d data mt s = (s, None).
Proof. unfold insert. by intros ->. Qed.

Lemma blob_step_wf c c' : blob_step c c' -> wf c.1 c.2 -> wf c'.1 c'.2 /\ c.1 <= c'.1.
Proof.
  intros [now t0 t1 d data mt s Ht Hnc|now t0 t1 t2 wall ids tks d b s s' r Ht Ht2 Hi
         |now t0 t1 t2 d i k s Ht Ht2] Hwf; simpl in *; (split; [|lia]).
  - destruct (insert_rejected d data mt) eqn:Hr.
    + rewrite insert_rejected_same by done. apply (wf_later now); [done|lia].
    + destruct (insert t0 t1 d data mt s) as [s' r] eqn:E. simpl.
      eapply insert_spec in E; [by eapply ip_wf|done|lia|done|done].
  - eapply issue_spec in Hi; [by eapply sp_wf|done|lia].
  - apply (redeem_spec now t0 t1 t2 d i k s); [done|lia].
Qed.

Lemma blob_store_new_wf t : wf t new.
Proof.
  assert (forall w, msum (K := bytes) (V := BlobEntry) w ∅ = 0) as He by (intros; apply msum_empty).
  assert (forall w, msum (K := bytes) (V := TicketEntry) w ∅ = 0) as Ht by (intros; apply msum_empty).
  split.
  - split.
    + split; [by unfold live_bytes; simpl; rewrite He|..];
        (eapply tight_ext; [apply tight_empty|]; intros; symmetry; apply He).
    + split; [eapply tight_ext; [apply tight_empty|]; intros; symmetry; apply Ht..| |].
      * intros i. simpl. setoid_rewrite lookup_empty. set_solver.
      * intros k1 k2 t1 t2. simpl. by rewrite lookup_empty.
    + intros k e. simpl. by rewrite lookup_empty.
    + intros k tk. simpl. by rewrite lookup_empty.
  - split; [constructor|]. intros k. simpl. rewrite lookup_empty.
    split; [by intros ?%not_elem_of_nil | by intros [? ?]].
  - split; unfold live_bytes, owned_bytes, owned_entries, owned_tickets; simpl;
      [rewrite He | rewrite map_size_empty | intros d; rewrite He | intros d; rewrite He
       | rewrite map_size_empty | intros d; rewrite Ht]; budgets.
  - split; intros k x; simpl; by rewrite lookup_empty.
  - split; intros k x; simpl; by rewrite lookup_empty.
Qed.

(** A ticket a history has not spent is kept until it expires. *)
Lemma prune_keeps_ticket t now s k tk :
  wf t s -> tickets s !! k = Some tk -> now < expires_at tk -> tickets (prune now s) !! k = Some tk.
Proof.
  intros Hwf Hk Hx. destruct (prune_facts t now s Hwf) as (_ & -> & _).
  by apply map_lookup_filter_Some.
Qed.
Lemma redeem_ok t t0 t1 t2 k tk s :
  wf t s -> t <= t0 <= t1 -> t1 <= t2 -> tickets s !! k = Some tk -> t1 < expires_at tk ->
  exists s' e, entries s !! ticket_blob_id tk = Some e /\ wf t2 s'
    /\ redeem t0 t1 t2 (owner tk) (transfer_id tk) k s =
       (s', Ok {| redeemed_reference := reference e; redeemed_bytes := payload e |})
    /\ tickets s' = delete k (tickets (prune t0 s)).
Proof.
  intros Hwf Ht Ht2 Hk Hx.
  pose proof (prune_keeps_ticket t t0 s k tk Hwf Hk ltac:(lia)) as Hk1.
  destruct (prune_facts t t0 s Hwf) as (Hwf1 & _ & HE).
  destruct (core_pinned _ (wf_core _ _ Hwf1) k tk Hk1) as [_ (e & He & Ho)].
  destruct (redeem_spec t t0 t1 t2 (owner tk) (transfer_id tk) k s Hwf ltac:(lia)) as [Hwf' Hr].
  destruct (redeem t0 t1 t2 (owner tk) (transfer_id tk) k s) as [s' [b|m]] eqn:E.
  - destruct Hr as (tk' & e' & Hk' & _ & _ & _ & He' & Hb & Href & HT).
    assert (tk' = tk) as -> by congruence. exists s', e'. split; [done|]. split; [done|]. split; [|done].
    destruct b; simpl in *. congruence.
  - exfalso. revert E. unfold redeem. cbn zeta. rewrite Hk1, Z.eqb_refl, bool_decide_true by done.
    cbn [negb]. destruct (expires_at tk <=? t1) eqn:?; bool_arith; [lia|].
    destruct (remove_ticket_fields k (prune t0 s)) as (E2 & _). by rewrite E2, He.
Qed.

(** A request that finds the blob, its owner and room for a ticket is granted as soon as a usable
    id and a fresh ticket value are drawn. *)
Lemma issue_ok t u0 u1 u2 wall ids tks d b e s raw tk0 :
  wf t s -> entries (prune u0 s) !! b = Some e -> d ∈ owners e ->
  Z.of_nat (size (tickets (prune u0 s))) < MAX_OUTSTANDING_TICKETS ->
  owned_tickets (prune u0 s) d < MAX_OUTSTANDING_TICKETS_PER_DEVICE ->
  raw ∈ ids -> Z.land raw i64_max <> 0 -> Z.land raw i64_max ∉ transfer_ids (prune u0 s) ->
  tk0 ∈ tks -> tickets (prune u0 s) !! tk0 = None ->
  exists s2 bt, issue_ticket u0 u1 u2 wall ids tks d b s = Some (s2, Ok bt).
Proof.
  intros Hwf He Hd Hn1 Hn2 Hraw Hnz Hfr Htk Htf.
  destruct (prune_facts t u0 s Hwf) as (Hwf2 & _ & _).
  unfold issue_ticket. cbn zeta. rewrite He, bool_decide_true by done. cbn [negb].
  pose proof (acct_tickets _ (core_tickets _ (wf_core _ _ Hwf2))) as Hacc.
  simpl tickets. simpl device_tickets. rewrite (tight_get _ _ _ Hacc).
  destruct (_ || _) eqn:Hlim; [apply orb_true_iff in Hlim; destruct Hlim; bool_arith; lia|].
  simpl transfer_ids.
  match goal with |- context [draw ?f ((fun raw => Z.land raw i64_max) <$> ids)] =>
    destruct (draw_is_Some f ((fun raw => Z.land raw i64_max) <$> ids) (Z.land raw i64_max))
      as [i ->] end.
  { apply list_elem_of_fmap. eauto. }
  { rewrite bool_decide_false by done. apply andb_true_iff. split; [|done].
    apply negb_true_iff, Z.eqb_neq. done. }
  match goal with |- context [draw ?f tks] => destruct (draw_is_Some f tks tk0 Htk) as [x ->] end;
    [by rewrite bool_decide_true|]. eauto.
Qed.
End histories.

(** ** Properties *)

Section properties.
Context `{!Sha256} `{!WireLimits}.

(** C9: every state the store can reach from empty, by any history of inserts, tickets issued and
    redeems on a monotone clock, is well formed: entries are content addressed and counted
    exactly, the global and per-device byte, entry and ticket budgets hold, each outstanding
    ticket names a blob its owner still owns, transfer ids are distinct, and the next scan is
    scheduled no later than the first expiry. *)
Theorem blob_store_invariant t0 c :
  rtc blob_step (t0, new) c -> wf c.1 c.2.
Proof.
  intros Hr. remember (t0, new) as c0 eqn:E.
  assert (wf c0.1 c0.2) as Hwf by (subst; apply blob_store_new_wf). clear E.
  induction Hr as [|c0 c1 c2 Hs _ IH]; [done|]. apply IH. by eapply blob_step_wf.
Qed.

(** C36: the deadline kept in [next_prune_at] is a pure optimisation: on a well-formed store
    [prune] gives the same entries, tickets, order and counters as an unconditional scan, and
    afterwards no expired ticket and no idle unpinned blob is left. *)
Theorem prune_is_full_scan t now s :
  wf t s ->
  unscheduled (prune now s) = unscheduled (prune_scan now s)
  /\ (forall k tk, tickets (prune now s) !! k = Some tk -> now < expires_at tk)
  /\ (forall k e, entries (prune now s) !! k = Some e ->
        pins (prune now s) k = 0 -> now - last_access e < BLOB_IDLE_TTL).
Proof.
  intros Hwf. destruct (prune_facts t now s Hwf) as (_ & HT & HE). split; [|split].
  - unfold prune.
    destruct (match next_prune_at s with None => true | Some deadline => now <? deadline end) eqn:E;
      [|done]. destruct Hwf as [Hc Ho _ _ Hs].
    destruct (not_due now s Hs) as [Ht He].
    { destruct (next_prune_at s); [by bool_arith | done]. }
    symmetry. by apply prune_scan_idle.
  - intros k tk. rewrite HT. by intros [_ ?]%map_lookup_filter_Some.
  - intros k e [_ [?|?]]%HE ?; done.
Qed.

(** Redeeming an outstanding ticket before it expires succeeds, whatever happened since it
    was issued: the caller gets the blob's exact content, whose SHA-256 is the blob id, with the
    reference advertised for it, and the ticket cannot be used again. *)
Theorem redeem_valid t t0 t1 t2 k tk s :
  wf t s -> t <= t0 <= t1 -> t1 <= t2 -> tickets s !! k = Some tk -> t1 < expires_at tk ->
  exists s' b, redeem t0 t1 t2 (owner tk) (transfer_id tk) k s = (s', Ok b)
    /\ sha256 (redeemed_bytes b) = ticket_blob_id tk
    /\ blob_id (redeemed_reference b) = ticket_blob_id tk
    /\ ref_size (redeemed_reference b) = blen (redeemed_bytes b)
    /\ forall u0 u1 u2 d i, u0 <= u1 -> is_ok (redeem u0 u1 u2 d i k s').2 = false.
Proof.
  intros Hwf Ht Ht2 Hk Hx.
  destruct (redeem_ok t t0 t1 t2 k tk s Hwf Ht Ht2 Hk Hx) as (s' & e & He & Hwf' & E & HT).
  destruct (core_entry _ (wf_core _ _ Hwf) _ _ He) as [K1 (K2 & K3 & K4) _ _ _].
  eexists s', _. split; [exact E|]. repeat split; try done.
  intros u0 u1 u2 d i Hu. unfold redeem. cbn zeta.
  destruct (prune_facts t2 u0 s' Hwf') as (_ & -> & _). rewrite HT.
  replace (filter _ (delete k _) !! k) with (@None TicketEntry); [done|].
  symmetry. apply map_lookup_filter_None. left. apply lookup_delete_eq.
Qed.

(** A redeem that fails (wrong transfer id, another device's ticket, unknown ticket, expired
    ticket) spends nothing: the store keeps every ticket and entry that is not expired at that
    moment, so the rightful owner can still redeem.  The internal error of an evicted blob under
    a live ticket is never returned. *)
Theorem redeem_error_spends_nothing t t0 t1 t2 d i k s s' m :
  wf t s -> t <= t0 <= t1 -> t1 <= t2 -> redeem t0 t1 t2 d i k s = (s', Err m) ->
  tickets s' = filter (fun kv => t0 < expires_at kv.2) (tickets s)
  /\ entries s' = entries (prune t0 s) /\ m <> "blob was evicted"%string.
Proof.
  intros Hwf Ht Ht2 E. destruct (prune_facts t t0 s Hwf) as (Hwf1 & <- & _).
  destruct (redeem_spec t t0 t1 t2 d i k s Hwf ltac:(lia)) as [_ Hr]. rewrite E in Hr.
  destruct Hr as [? ?]. split; [done|]. split; [done|]. revert E. unfold redeem. cbn zeta.
  destruct (tickets (prune t0 s) !! k) as [tk|] eqn:Hk; [|by intros [= <- <-]].
  destruct (transfer_id tk =? i); [|by intros [= <- <-]].
  destruct (bool_decide (owner tk = d)); [|by intros [= <- <-]]. cbn [negb].
  destruct (expires_at tk <=? t1); [by intros [= <- <-]|].
  destruct (core_pinned _ (wf_core _ _ Hwf1) k tk Hk) as [_ (e & He & _)].
  destruct (remove_ticket_fields k (prune t0 s)) as (-> & _). by rewrite He.
Qed.

(** Inserting never costs another device anything: every blob another device owned after the
    scan is still there, with the same content and still owned by that device, and every
    outstanding ticket survives; a device loses only its own delivered, unpinned blobs. *)
Theorem insert_isolates_devices t t0 t1 d data mt s k e d' :
  wf t s -> t <= t0 <= t1 -> no_collision data s ->
  entries (prune t0 s) !! k = Some e -> d' ∈ owners e ->
  (d' <> d \/ d' ∉ delivered_owners e \/ pins (prune t0 s) k <> 0) ->
  (exists e', entries (insert t0 t1 d data mt s).1 !! k = Some e'
     /\ payload e' = payload e /\ d' ∈ owners e')
  /\ (forall kt tk, tickets (prune t0 s) !! kt = Some tk ->
        tickets (insert t0 t1 d data mt s).1 !! kt = Some tk).
Proof.
  intros Hwf Ht Hnc Hk Hd Hc. destruct (insert_rejected d data mt) eqn:Hr.
  - rewrite insert_rejected_same by done. simpl.
    destruct (prune_facts t t0 s Hwf) as (_ & HT & HE). split.
    + apply HE in Hk as [Hk _]. eauto.
    + intros kt tk. rewrite HT. by intros [? _]%map_lookup_filter_Some.
  - destruct (insert t0 t1 d data mt s) as [s' r] eqn:E. simpl.
    eapply insert_spec in E; [|done|lia|done|done]. split; [by eapply ip_isolated|].
    intros kt tk. by rewrite (ip_tickets _ _ _ _ _ _ _ _ E).
Qed.

(** C35: publish, ticket, download: when [insert] returns a reference, a ticket issued to the
    same device within the idle TTL is granted (given room for one more ticket and some usable
    random draw), carries that reference, and redeeming it before it expires returns exactly the
    bytes that were inserted. *)
Theorem blob_roundtrip t t0 t1 d data mt s s1 ref u0 u1 u2 wall ids tks raw tk0 :
  wf t s -> t <= t0 <= t1 -> no_collision data s ->
  insert t0 t1 d data mt s = (s1, Some ref) ->
  t1 <= u0 <= u1 -> u1 <= u2 -> u0 - t1 < BLOB_IDLE_TTL ->
  Z.of_nat (size (tickets (prune u0 s1))) < MAX_OUTSTANDING_TICKETS ->
  owned_tickets (prune u0 s1) d < MAX_OUTSTANDING_TICKETS_PER_DEVICE ->
  raw ∈ ids -> Z.land raw i64_max <> 0 -> Z.land raw i64_max ∉ transfer_ids (prune u0 s1) ->
  tk0 ∈ tks -> tickets (prune u0 s1) !! tk0 = None ->
  exists s2 bt, issue_ticket u0 u1 u2 wall ids tks d (blob_id ref) s1 = Some (s2, Ok bt)
    /\ bt_blob bt = Some ref
    /\ forall v0 v1 v2, u2 <= v0 <= v1 -> v1 <= v2 -> v1 < u2 + TICKET_TTL ->
       (redeem v0 v1 v2 d (bt_transfer_id bt) (bt_ticket bt) s2).2
       = Ok {| redeemed_reference := ref; redeemed_bytes := data |}.
Proof.
  intros Hwf Ht Hnc Hins Hu Hu2 Hidle Hn1 Hn2 Hraw Hnz Hfr Htk Htf.
  destruct (insert_rejected d data mt) eqn:Hr; [by rewrite insert_rejected_same in Hins|].
  eapply insert_spec in Hins; [|exact Hwf|lia|done|done].
  destruct Hins as [Hwf1 He _ _]. destruct (He ref eq_refl) as (e & He1 & Hpay & Href & Hd & Hla).
  assert (blob_id ref = sha256 data) as Hid.
  { rewrite <- Href. apply (core_entry _ (wf_core _ _ Hwf1) _ _ He1). }
  destruct (prune_facts t1 u0 s1 Hwf1) as (Hwf2 & _ & HE).
  assert (entries (prune u0 s1) !! sha256 data = Some e) as He2.
  { apply HE. split; [done|]. right. lia. }
  rewrite Hid. destruct (issue_ok t1 u0 u1 u2 wall ids tks d _ e s1 raw tk0 Hwf1 He2 Hd Hn1 Hn2
    Hraw Hnz Hfr Htk Htf) as (s2 & bt & Hi).
  exists s2, bt. split; [done|]. eapply issue_spec in Hi; [|exact Hwf1|lia].
  destruct Hi as [Hwf3 _ Hok].
  destruct (Hok bt eq_refl) as (e2 & Hb & _ & _ & Hblob & _ & _ & (e3 & He3 & Hp3 & Hr3) & HT).
  assert (e2 = e) as -> by congruence. split; [congruence|].
  intros v0 v1 v2 Hv Hv2 Hx.
  set (tk := {| transfer_id := bt_transfer_id bt |}) in HT.
  assert (tickets s2 !! bt_ticket bt = Some tk) as Hk by (rewrite HT; apply lookup_insert_eq).
  destruct (redeem_ok u2 v0 v1 v2 _ tk s2 Hwf3 Hv Hv2 Hk Hx) as (s3 & e4 & He4 & _ & E & _).
  simpl in E, He4. rewrite E. simpl. assert (e4 = e3) as -> by congruence. congruence.
Qed.
End properties.

(** *** Witnesses: one blob inserted, one ticket issued for it *)

Definition wdata : bytes := [Byte.x61; Byte.x62].
Definition wowner : bytes := [Byte.x01].
Definition wstore1 : BlobStoreInner :=
  (@insert toy_digest 10 11 wowner wdata "image/png" new).1.
Definition wref : BlobRef :=
  {| blob_id := toy_sha256 wdata; ref_size := 2; Proto.media_type := "image/png";
     ref_sha256 := toy_sha256 wdata |}.
Definition wstore2 : BlobStoreInner :=
  default new (fst <$> @issue_ticket toy_limits 12 13 14 0 [7] [[Byte.x09]] wowner
                         (toy_sha256 wdata) wstore1).
Definition wticket : TicketEntry :=
  {| transfer_id := 7; ticket_blob_id := toy_sha256 wdata; owner := wowner;
     expires_at := 14 + TICKET_TTL |}.

Lemma wno_collision : @no_collision toy_digest wdata new.
Proof. intros e. simpl. by rewrite lookup_empty. Qed.

Lemma wstep1 : @blob_step toy_digest toy_limits (0, new) (11, wstore1).
Proof. apply (@step_insert toy_digest toy_limits); [lia|apply wno_collision]. Qed.

Lemma wstep2 : @blob_step toy_digest toy_limits (11, wstore1) (14, wstore2).
Proof.
  eapply (@step_issue toy_digest toy_limits 11 12 13 14 0 [7] [[Byte.x09]] wowner
    (toy_sha256 wdata)); [lia|lia|]. vm_compute. reflexivity.
Qed.

Lemma wstore1_wf : @wf toy_digest 11 wstore1.
Proof. apply (@blob_step_wf toy_digest toy_limits _ _ wstep1), blob_store_new_wf. Qed.
Lemma wstore2_wf : @wf toy_digest 14 wstore2.
Proof. apply (@blob_step_wf toy_digest toy_limits _ _ wstep2), wstore1_wf. Qed.

Lemma blob_store_invariant_witness : @wf toy_digest 14 wstore2.
Proof.
  apply (@blob_store_invariant toy_digest toy_limits 0 (14, wstore2)).
  eapply rtc_l; [apply wstep1|]. eapply rtc_l; [apply wstep2|]. apply rtc_refl.
Defined.

Lemma prune_is_full_scan_witness :
  unscheduled (prune 20 wstore2) = unscheduled (prune_scan 20 wstore2).
Proof. apply (@prune_is_full_scan toy_digest 14 20 wstore2 wstore2_wf). Defined.

Lemma redeem_valid_witness :
  exists s' b, redeem 20 21 22 wowner 7 [Byte.x09] wstore2 = (s', Ok b)
    /\ toy_sha256 (redeemed_bytes b) = toy_sha256 wdata.
Proof.
  destruct (@redeem_valid toy_digest 14 20 21 22 [Byte.x09] wticket wstore2 wstore2_wf)
    as (s' & b & H1 & H2 & _); [lia|lia|vm_compute; reflexivity|vm_compute; reflexivity|].
  exists s', b. split; [exact H1|exact H2].
Defined.

Lemma redeem_error_spends_nothing_witness :
  tickets (redeem 20 21 22 wowner 8 [Byte.x09] wstore2).1 !! [Byte.x09] = Some wticket.
Proof.
  destruct (@redeem_error_spends_nothing toy_digest 14 20 21 22 wowner 8 [Byte.x09] wstore2
    (redeem 20 21 22 wowner 8 [Byte.x09] wstore2).1 "blob transfer id does not match ticket"
    wstore2_wf) as (-> & _); [lia|lia|vm_compute; reflexivity|].
  vm_compute. reflexivity.
Defined.

Lemma insert_isolates_devices_witness :
  exists e', entries (@insert toy_digest 20 21 [Byte.x02] wdata "image/png" wstore2).1
               !! toy_sha256 wdata = Some e' /\ payload e' = wdata /\ wowner ∈ owners e'.
Proof.
  apply (@insert_isolates_devices toy_digest 14 20 21 [Byte.x02] wdata "image/png" wstore2
    (toy_sha256 wdata)
    {| reference := wref; payload := wdata; last_access := 13; owners := {[wowner]};
       delivered_owners := ∅ |} wowner wstore2_wf).
  - lia.
  - intros e He. vm_compute in He. injection He as <-. reflexivity.
  - vm_compute. reflexivity.
  - simpl. set_solver.
  - left. discriminate.
Defined.

Lemma blob_roundtrip_witness :
  exists s2 bt, @issue_ticket toy_limits 12 13 14 0 [7] [[Byte.x09]] wowner
                  (toy_sha256 wdata) wstore1 = Some (s2, Ok bt)
    /\ (redeem 20 21 22 wowner (bt_transfer_id bt) (bt_ticket bt) s2).2
       = Ok {| redeemed_reference := wref; redeemed_bytes := wdata |}.
Proof.
  destruct (@blob_roundtrip toy_digest toy_limits 0 10 11 wowner wdata "image/png" new wstore1 wref
    12 13 14 0 [7] [[Byte.x09]] 7 [Byte.x09] (@blob_store_new_wf toy_digest 0))
    as (s2 & bt & H1 & _ & H2); [lia|apply wno_collision|vm_compute; reflexivity|lia|lia
    |vm_compute; reflexivity|vm_compute; reflexivity|vm_compute; reflexivity|left
    |vm_compute; discriminate| |left|vm_compute; reflexivity|].
  - assert (transfer_ids (prune 12 wstore1) = ∅) as -> by (vm_compute; reflexivity).
    apply not_elem_of_empty.
  - exists s2, bt. split; [exact H1|]. apply H2; [lia|lia|vm_compute; reflexivity].
Defined.

End BlobStore.
