(* ===== verification/ClipboardUpload.v ===== *)
(** * Uploaded clipboard blobs

    Models [src/server/clipboard_upload.rs]: [ClipboardUploadStore::insert], [get] and the
    [prune] both run first.  Each [Instant::now()] is an argument, in the order of the calls. *)

From Stdlib Require Import ZArith Lia.
From stdpp Require Import base tactics option list strings gmap countable fin_maps.
From S2P Require Import Prelude Proto.

Module ClipboardUpload.

Definition MAX_BLOB_BYTES : Z := 20 * 1024 * 1024.
Definition MAX_TOTAL_BYTES : Z := 64 * 1024 * 1024.
Definition UPLOAD_TTL : Z := from_secs (2 * 60).

Record ClipboardUpload := {
  upload_bytes : bytes;
  upload_sha256 : bytes;
  upload_created_at : Z;
}.

Record ClipboardUploadStoreInner := {
  uploads : gmap (bytes * string) ClipboardUpload;
  total_bytes : Z;
}.

Definition default_store : ClipboardUploadStoreInner := {| uploads := ∅; total_bytes := 0 |}.

(** One round of the removal loop of [prune]. *)
Definition remove_upload (self : ClipboardUploadStoreInner) (key : bytes * string)
  : ClipboardUploadStoreInner :=
  match uploads self !! key with
  | None => self
  | Some upload => {| uploads := delete key (uploads self);
                      total_bytes := sat_sub (total_bytes self) (blen (upload_bytes upload)) |}
  end.

Definition prune (now : Z) (self : ClipboardUploadStoreInner) : ClipboardUploadStoreInner :=
  let expired :=
    (map_to_list (filter (fun kv => UPLOAD_TTL <= duration_since now (upload_created_at kv.2))
                         (uploads self))).*1 in
  fold_left remove_upload expired self.

Definition media_type_allowed (media_type : string) : bool :=
  str_eqb media_type "image/png" || str_eqb media_type "text/html; charset=utf-8"
  || str_eqb media_type "text/rtf".

Section operations.
Context `{!Sha256}.

Definition insert (t0 t1 : Z) (upload_id data expected_sha256 : bytes) (media_type : string)
  (self : ClipboardUploadStoreInner) : ClipboardUploadStoreInner * result unit string :=
  if negb (blen upload_id =? 32) || is_empty data || (blen data >? MAX_BLOB_BYTES)
     || negb (media_type_allowed media_type)
  then (self, Err "invalid clipboard blob upload"%string) else
  let digest := sha256 data in
  if negb (blen expected_sha256 =? 32) || negb (bytes_eqb digest expected_sha256)
  then (self, Err "clipboard blob digest mismatch"%string) else
  let self := prune t0 self in
  let key := (upload_id, media_type) in
  let previous := match uploads self !! key with
                  | Some upload => blen (upload_bytes upload)
                  | None => 0
                  end in
  let next_total := sat_add usize_max (sat_sub (total_bytes self) previous) (blen data) in
  if next_total >? MAX_TOTAL_BYTES
  then (self, Err "clipboard blob upload cache is full"%string) else
  ({| uploads := <[key := {| upload_bytes := data; upload_sha256 := digest;
                             upload_created_at := t1 |}]> (uploads self);
      total_bytes := next_total |}, Ok tt).

Definition get (t0 : Z) (upload_id expected_sha256 : bytes) (expected_media_type : string)
  (self : ClipboardUploadStoreInner) : ClipboardUploadStoreInner * option bytes :=
  let self := prune t0 self in
  (self, match uploads self !! (upload_id, expected_media_type) with
         | Some upload =>
           if bytes_eqb (upload_sha256 upload) expected_sha256
           then Some (upload_bytes upload) else None
         | None => None
         end).

End operations.

(** ** Invariant *)

Definition live_bytes (s : ClipboardUploadStoreInner) : Z :=
  msum (fun _ u => blen (upload_bytes u)) (uploads s).

(** The running total is exact and bounded; every upload carries its digest, an approved media
    type and a bounded, non-empty content. *)
Record wf `{!Sha256} (s : ClipboardUploadStoreInner) : Prop := {
  wf_total : total_bytes s = live_bytes s;
  wf_bound : live_bytes s <= MAX_TOTAL_BYTES;
  wf_upload : forall k u, uploads s !! k = Some u ->
    upload_sha256 u = sha256 (upload_bytes u) /\ 0 < blen (upload_bytes u) <= MAX_BLOB_BYTES
    /\ length k.1 = 32%nat /\ media_type_allowed k.2 = true;
}.

Section invariant.
Context `{!Sha256}.

Lemma remove_uploads_uploads l s k u :
  uploads (fold_left remove_upload l s) !! k = Some u <-> uploads s !! k = Some u /\ k ∉ l.
Proof.
  revert s. induction l as [|x l IH]; intros s; cbn [fold_left].
  { split; [|tauto]. intros. split; [done|]. apply not_elem_of_nil. }
  rewrite IH, not_elem_of_cons. unfold remove_upload.
  destruct (uploads s !! x) eqn:Hx; simpl.
  - rewrite lookup_delete_Some. split; [intros [[? ?] ?]|intros [? [? ?]]]; auto.
  - split; [|tauto]. intros [Hk ?]. split; [done|]. split; [|done]. congruence.
Qed.

Lemma remove_upload_wf s k : wf s -> wf (remove_upload s k).
Proof.
  intros [W1 W2 W3]. unfold remove_upload. destruct (uploads s !! k) as [u|] eqn:Hk; [|done].
  assert (live_bytes {| uploads := delete k (uploads s);
            total_bytes := sat_sub (total_bytes s) (blen (upload_bytes u)) |}
          = live_bytes s - blen (upload_bytes u)) as Hl.
  { unfold live_bytes. simpl. rewrite (msum_delete _ _ _ _ Hk). lia. }
  assert (blen (upload_bytes u) <= live_bytes s).
  { apply (msum_lookup_le (fun _ u => blen (upload_bytes u)) _ k); [|done].
    intros; apply blen_nonneg. }
  pose proof (blen_nonneg (upload_bytes u)).
  split; [rewrite Hl; simpl; unfold sat_sub; lia | lia|].
  intros k' u'. simpl. intros [_ ?]%lookup_delete_Some. by apply W3.
Qed.

Lemma upload_prune_wf now s : wf s -> wf (prune now s).
Proof.
  unfold prune. generalize ((map_to_list (filter (fun kv => UPLOAD_TTL <=
    duration_since now (upload_created_at kv.2)) (uploads s))).*1).
  intros l. revert s. induction l as [|x l IH]; intros s Hwf; [done|]. cbn [fold_left].
  by apply IH, remove_upload_wf.
Qed.

Lemma upload_prune_lookup now s k u :
  uploads (prune now s) !! k = Some u <->
  uploads s !! k = Some u /\ now - upload_created_at u < UPLOAD_TTL.
Proof.
  unfold prune. rewrite remove_uploads_uploads.
  assert (k ∈ (map_to_list (filter (fun kv => UPLOAD_TTL <=
      duration_since now (upload_created_at kv.2)) (uploads s))).*1
    <-> exists u, uploads s !! k = Some u /\ UPLOAD_TTL <= duration_since now (upload_created_at u))
    as ->.
  { rewrite list_elem_of_fmap. split.
    - intros ([k' u'] & -> & Hin%elem_of_map_to_list). apply map_lookup_filter_Some in Hin.
      simpl in *. eauto.
    - intros (u' & Hk & Hx). exists (k, u'). split; [done|]. apply elem_of_map_to_list.
      by apply map_lookup_filter_Some. }
  unfold duration_since. split; intros [Hk Hx]; (split; [done|]).
  - apply Z.nle_gt. intros Hle. apply Hx. exists u. split; [done|]. lia.
  - intros (u' & Hk' & Hle). assert (u' = u) as -> by congruence.
    unfold UPLOAD_TTL, from_secs in *. lia.
Qed.

Lemma default_store_wf : wf default_store.
Proof.
  split; [done|done|]. intros k u. simpl. by rewrite lookup_empty.
Qed.
End invariant.

(** ** Properties *)

Section properties.
Context `{!Sha256}.

Lemma upload_insert_wf t0 t1 id data sha mt s : wf s -> wf (insert t0 t1 id data sha mt s).1.
Proof.
  intros Hwf0. pose proof (upload_prune_wf t0 s Hwf0) as Hwf.
  unfold insert. destruct (_ || negb (media_type_allowed mt)) eqn:G1; [done|].
  destruct (_ || negb (bytes_eqb _ _)) eqn:G2; [done|]. cbn zeta.
  set (s1 := prune t0 s) in *. destruct (_ >? MAX_TOTAL_BYTES) eqn:G3; [done|].
  destruct Hwf as [W1 W2 W3]. bool_arith. rewrite W1 in *.
  pose proof (blen_nonneg data).
  assert (forall u, msum (fun _ u => blen (upload_bytes u)) (<[(id, mt) := u]> (uploads s1))
    = sat_sub (live_bytes s1) (match uploads s1 !! (id, mt) with
        | Some upload => blen (upload_bytes upload) | None => 0 end) + blen (upload_bytes u)) as Hsum.
  { intros u. unfold live_bytes. destruct (uploads s1 !! (id, mt)) as [u0|] eqn:Hk.
    - rewrite (msum_update _ _ _ _ _ Hk). unfold sat_sub.
      pose proof (msum_lookup_le (fun _ u => blen (upload_bytes u)) (uploads s1) _ u0
        (fun _ _ _ => blen_nonneg _) Hk). cbn beta in *. lia.
    - rewrite msum_insert by done. unfold sat_sub.
      pose proof (msum_nonneg (fun _ u => blen (upload_bytes u)) (uploads s1)
        (fun _ _ _ => blen_nonneg _)). cbn beta in *. lia. }
  generalize dependent (live_bytes s1). intros L W1 W2 G3 Hsum.
  unfold sat_add in *. unfold MAX_TOTAL_BYTES, usize_max in *.
  split.
  - unfold live_bytes. simpl. rewrite Hsum. simpl. lia.
  - unfold live_bytes, MAX_TOTAL_BYTES. simpl. rewrite Hsum. simpl. lia.
  - intros k u. simpl. rewrite lookup_insert_Some. intros [[<- <-]|[_ Hk]]; [|by apply W3]. simpl.
    split; [done|]. split; [|split; [unfold blen in *; lia|done]].
    split; [destruct data; [done|]; unfold blen; simpl; lia|done].
Qed.

Lemma upload_insert_Ok t0 t1 id data sha mt s s' :
  insert t0 t1 id data sha mt s = (s', Ok tt) ->
  sha = sha256 data
  /\ uploads s' !! (id, mt) = Some {| upload_bytes := data; upload_sha256 := sha256 data;
                                      upload_created_at := t1 |}.
Proof.
  unfold insert. destruct (_ || negb (media_type_allowed mt)) eqn:G1; [done|].
  destruct (_ || negb (bytes_eqb _ _)) eqn:G2; [done|]. cbn zeta.
  destruct (_ >? MAX_TOTAL_BYTES) eqn:G3; [done|]. intros [= <-].
  bool_arith. unfold bytes_eqb in *. bool_arith. split; [done|]. apply lookup_insert_eq.
Qed.

(** Both operations keep the upload store exact and bounded: the running total is the sum of
    the stored sizes, never above 64 MiB, and every stored upload has an approved media type, a
    32-byte id, between 1 byte and 20 MiB of content and the digest of that content. *)
Theorem upload_store_invariant t0 t1 id data sha mt s :
  wf s -> wf (insert t0 t1 id data sha mt s).1 /\ wf (get t0 id sha mt s).1.
Proof.
  intros Hwf. split; [by apply upload_insert_wf | by apply upload_prune_wf].
Qed.

(** An accepted upload is what its consumer reads: [insert] accepts only content whose
    SHA-256 is the announced one, and within the two-minute TTL [get] with the same id, digest
    and media type returns exactly that content; asking for any other digest returns nothing. *)
Theorem upload_roundtrip t0 t1 id data sha mt s s' u0 :
  insert t0 t1 id data sha mt s = (s', Ok tt) -> u0 - t1 < UPLOAD_TTL ->
  sha = sha256 data /\ (get u0 id sha mt s').2 = Some data
  /\ forall sha', sha' <> sha -> (get u0 id sha' mt s').2 = None.
Proof.
  intros [-> Hk]%upload_insert_Ok Hu. split; [done|].
  assert (uploads (prune u0 s') !! (id, mt) = Some {| upload_bytes := data;
    upload_sha256 := sha256 data; upload_created_at := t1 |}) as Hk' by by apply upload_prune_lookup.
  unfold get. cbn zeta. simpl snd. rewrite Hk'. simpl. unfold bytes_eqb. split.
  - by rewrite bool_decide_true.
  - intros sha' Hne. by rewrite bool_decide_false.
Qed.
End properties.

(** *** Witnesses *)

Definition wid : bytes := replicate 32 Byte.x07.
Definition wdata : bytes := [Byte.x61].

Lemma upload_store_invariant_witness :
  @wf toy_digest (@insert toy_digest 1 2 wid wdata (toy_sha256 wdata) "text/rtf" default_store).1.
Proof.
  apply (@upload_store_invariant toy_digest 1 2 wid wdata (toy_sha256 wdata) "text/rtf"
    default_store (@default_store_wf toy_digest)).
Defined.

Lemma upload_roundtrip_witness :
  (get 5 wid (toy_sha256 wdata) "text/rtf"
     (@insert toy_digest 1 2 wid wdata (toy_sha256 wdata) "text/rtf" default_store).1).2
  = Some wdata.
Proof.
  apply (@upload_roundtrip toy_digest 1 2 wid wdata (toy_sha256 wdata) "text/rtf" default_store);
    vm_compute; reflexivity.
Defined.

End ClipboardUpload.
