(* ===== verification/ConnectionRegistry.v ===== *)
(** * The registry of live connections

    Models [src/server/connection_registry.rs].  An [Arc<Notify>] is the number of its
    allocation, so [Arc::ptr_eq] is equality of numbers; [notified] is the set of notifiers that
    hold a permit from [notify_one].  [quinn::Connection] is the parameter [Transport]. *)

From Stdlib Require Import ZArith Lia.
From stdpp Require Import base tactics option list strings gmap countable fin_maps.
From S2P Require Import Prelude.

Module ConnectionRegistry.

Section registry.
Context {Transport : Type}.

Record ActiveConnection := {
  disconnect_notify : nat;
  connection_transport : option Transport;
  negotiated_features : gmap Z Z;
}.

Definition supports_feature (self : ActiveConnection) (feature version : Z) : bool :=
  bool_decide (negotiated_features self !! feature = Some version).

Record ConnectionRegistry := {
  inner : gmap string ActiveConnection;
  notified : gset nat;
  next_notify : nat;
}.

Definition new : ConnectionRegistry := {| inner := ∅; notified := ∅; next_notify := 0 |}.

Definition register_inner (device_id : string) (transport : option Transport)
  (features : gmap Z Z) (self : ConnectionRegistry) : ConnectionRegistry * nat :=
  let notify := next_notify self in
  let connection := {| disconnect_notify := notify; connection_transport := transport;
                       negotiated_features := features |} in
  ({| inner := <[device_id := connection]> (inner self);
      notified := match inner self !! device_id with
                  | Some previous => {[disconnect_notify previous]} ∪ notified self
                  | None => notified self
                  end;
      next_notify := S notify |}, notify).

Definition register (device_id : string) (self : ConnectionRegistry) : ConnectionRegistry * nat :=
  register_inner device_id None ∅ self.
Definition register_transport_with_features (device_id : string) (transport : Transport)
  (features : gmap Z Z) (self : ConnectionRegistry) : ConnectionRegistry * nat :=
  register_inner device_id (Some transport) features self.
Definition register_transport (device_id : string) (transport : Transport)
  (self : ConnectionRegistry) : ConnectionRegistry * nat :=
  register_transport_with_features device_id transport ∅ self.

Definition unregister (device_id : string) (notify : nat) (self : ConnectionRegistry)
  : ConnectionRegistry :=
  if match inner self !! device_id with
     | Some active => Nat.eqb (disconnect_notify active) notify
     | None => false
     end
  then {| inner := delete device_id (inner self); notified := notified self;
          next_notify := next_notify self |}
  else self.

Definition disconnect (device_id : string) (self : ConnectionRegistry)
  : ConnectionRegistry * bool :=
  match inner self !! device_id with
  | Some connection =>
    ({| inner := inner self; notified := {[disconnect_notify connection]} ∪ notified self;
        next_notify := next_notify self |}, true)
  | None => (self, false)
  end.

Definition transport (self : ConnectionRegistry) (device_id : string) : option Transport :=
  match inner self !! device_id with
  | Some connection => connection_transport connection
  | None => None
  end.

Definition transport_for_feature (self : ConnectionRegistry) (device_id : string)
  (feature version : Z) : option Transport :=
  match inner self !! device_id with
  | Some connection =>
    if supports_feature connection feature version then connection_transport connection else None
  | None => None
  end.

Definition list_connected (self : ConnectionRegistry) : list string :=
  (map_to_list (inner self)).*1.

Definition list_connected_with_feature (self : ConnectionRegistry) (feature version : Z)
  : list string :=
  (List.filter (fun kv => bool_decide (is_Some (connection_transport kv.2))
                     && supports_feature kv.2 feature version)
               (map_to_list (inner self))).*1.

(** ** Histories *)

Inductive reg_op :=
| OpRegister (device_id : string) (transport : option Transport) (features : gmap Z Z)
| OpUnregister (device_id : string) (notify : nat)
| OpDisconnect (device_id : string).

Definition apply_op (s : ConnectionRegistry) (op : reg_op) : ConnectionRegistry :=
  match op with
  | OpRegister d t f => (register_inner d t f s).1
  | OpUnregister d n => unregister d n s
  | OpDisconnect d => (disconnect d s).1
  end.
Definition run (ops : list reg_op) : ConnectionRegistry := fold_left apply_op ops new.

(** The abstract registry, by replaying the history: a device is connected with what its latest
    registration brought, the number of that registration, its transport and its features, until
    that very connection unregisters. *)
Fixpoint spec_connected (ops : list reg_op) (d : string) (n : nat)
    (cur : option (nat * option Transport * gmap Z Z)) : option (nat * option Transport * gmap Z Z) :=
  match ops with
  | [] => cur
  | OpRegister d' t f :: ops =>
    spec_connected ops d (S n) (if bool_decide (d' = d) then Some (n, t, f) else cur)
  | OpUnregister d' k :: ops =>
    spec_connected ops d n
      (if bool_decide (d' = d) && bool_decide (fst ∘ fst <$> cur = Some k) then None else cur)
  | OpDisconnect _ :: ops => spec_connected ops d n cur
  end.

(** The notifiers handed out, with their devices. *)
Fixpoint issued (ops : list reg_op) (n : nat) : list (string * nat) :=
  match ops with
  | [] => []
  | OpRegister d _ _ :: ops => (d, n) :: issued ops (S n)
  | _ :: ops => issued ops n
  end.

(** ** Lemmas *)

Definition current (s : ConnectionRegistry) (d : string) : option nat :=
  disconnect_notify <$> inner s !! d.

Lemma current_op s op d :
  current (apply_op s op) d =
  match op with
  | OpRegister d' _ _ => if bool_decide (d' = d) then Some (next_notify s) else current s d
  | OpUnregister d' k =>
    if bool_decide (d' = d) && bool_decide (current s d = Some k) then None else current s d
  | OpDisconnect _ => current s d
  end.
Proof.
  unfold current. destruct op as [d' t f|d' k|d']; simpl.
  - rewrite lookup_insert. case_decide; [by rewrite bool_decide_true | by rewrite bool_decide_false].
  - unfold unregister. destruct (decide (d' = d)) as [->|Hne].
    + rewrite (bool_decide_true (d = d)) by done. simpl.
      destruct (inner s !! d) as [c|] eqn:Hc; simpl.
      * destruct (Nat.eqb_spec (disconnect_notify c) k) as [->|Hk]; simpl.
        -- by rewrite lookup_delete_eq, bool_decide_true.
        -- rewrite Hc, bool_decide_false by congruence. done.
      * by rewrite Hc.
    + rewrite (bool_decide_false (d' = d)) by done. simpl.
      destruct (match inner s !! d' with Some a => _ | None => _ end); [|done]. simpl.
      by rewrite lookup_delete_ne.
  - unfold disconnect. by destruct (inner s !! d').
Qed.

Lemma next_notify_op s op :
  next_notify (apply_op s op) =
  match op with OpRegister _ _ _ => S (next_notify s) | _ => next_notify s end.
Proof.
  destruct op as [| |d]; simpl; [done| |].
  - unfold unregister. by destruct (match inner s !! _ with Some a => _ | None => _ end).
  - unfold disconnect. by destruct (inner s !! d).
Qed.

Definition details (c : ActiveConnection) : nat * option Transport * gmap Z Z :=
  (disconnect_notify c, connection_transport c, negotiated_features c).
Lemma details_current s d : fst ∘ fst <$> (details <$> inner s !! d) = current s d.
Proof. unfold current. by destruct (inner s !! d). Qed.
Lemma details_op s op d :
  details <$> inner (apply_op s op) !! d =
  match op with
  | OpRegister d' t f => if bool_decide (d' = d) then Some (next_notify s, t, f) else details <$> inner s !! d
  | OpUnregister d' k =>
    if bool_decide (d' = d) && bool_decide (current s d = Some k) then None else details <$> inner s !! d
  | OpDisconnect _ => details <$> inner s !! d
  end.
Proof.
  destruct op as [d' t f|d' k|d']; simpl.
  - rewrite lookup_insert. case_decide; [by rewrite bool_decide_true | by rewrite bool_decide_false].
  - pose proof (current_op s (OpUnregister d' k) d) as Hc. simpl in Hc. destruct (bool_decide (d' = d) && _).
    + unfold current in Hc. by destruct (inner (unregister d' k s) !! d).
    + unfold unregister in *. destruct (match inner s !! d' with Some a => _ | None => _ end); [|done].
      unfold current in Hc. simpl in *. destruct (decide (d' = d)) as [->|]; [|by rewrite lookup_delete_ne].
      rewrite lookup_delete_eq in *. by destruct (inner s !! d).
  - unfold disconnect. by destruct (inner s !! d').
Qed.

Lemma run_details ops s d :
  details <$> inner (fold_left apply_op ops s) !! d
  = spec_connected ops d (next_notify s) (details <$> inner s !! d).
Proof.
  revert s. induction ops as [|op ops IH]; intros s; [done|]. cbn [fold_left]. rewrite IH.
  rewrite details_op, next_notify_op. destruct op; cbn [spec_connected]; [done| |done].
  by rewrite details_current.
Qed.

Lemma list_connected_elem s d : d ∈ list_connected s <-> is_Some (inner s !! d).
Proof.
  unfold list_connected. rewrite list_elem_of_fmap. split.
  - intros ([d' c] & -> & Hin%elem_of_map_to_list). by exists c.
  - intros [c Hc]. exists (d, c). by rewrite elem_of_map_to_list.
Qed.
Lemma list_with_feature_elem s d f v :
  d ∈ list_connected_with_feature s f v <->
  exists c, inner s !! d = Some c /\ is_Some (connection_transport c) /\ negotiated_features c !! f = Some v.
Proof.
  unfold list_connected_with_feature, supports_feature. rewrite list_elem_of_fmap. split.
  - intros ([d' c] & -> & Hin). rewrite list_elem_of_In, List.filter_In, <- list_elem_of_In in Hin.
    simpl in *. rewrite elem_of_map_to_list in Hin. destruct Hin as [Hd Hb]. bool_arith. by exists c.
  - intros (c & Hd & Ht & Hf). exists (d, c). split; [done|].
    rewrite list_elem_of_In, List.filter_In, <- list_elem_of_In, elem_of_map_to_list. simpl.
    by rewrite !bool_decide_true by done.
Qed.

Lemma notified_mono s op n : n ∈ notified s -> n ∈ notified (apply_op s op).
Proof.
  destruct op as [d t f|d k|d]; simpl.
  - destruct (inner s !! d); set_solver.
  - unfold unregister. by destruct (match inner s !! d with Some a => _ | None => _ end).
  - unfold disconnect. destruct (inner s !! d); set_solver.
Qed.

(** A connection leaves the table only by being told, or by its own unregistration. *)
Lemma current_step s op d n :
  current s d = Some n ->
  current (apply_op s op) d = Some n \/ n ∈ notified (apply_op s op) \/ op = OpUnregister d n.
Proof.
  intros Hc. rewrite current_op. destruct op as [d' t f|d' k|d']; [| |by left].
  - destruct (decide (d' = d)) as [->|]; [|rewrite bool_decide_false by done; by left].
    right. left. unfold current in Hc. simpl. destruct (inner s !! d); simplify_eq/=. set_solver.
  - destruct (bool_decide (d' = d) && _) eqn:E; [|by left]. bool_arith. right. right. congruence.
Qed.

Lemma settled_run ops s d n :
  current s d = Some n \/ n ∈ notified s ->
  current (fold_left apply_op ops s) d = Some n \/ n ∈ notified (fold_left apply_op ops s)
  \/ OpUnregister d n ∈ ops.
Proof.
  revert s. induction ops as [|op ops IH]; intros s Hc; [naive_solver|]. cbn [fold_left].
  rewrite elem_of_cons. destruct Hc as [Hc|Hc].
  - destruct (current_step s op d n Hc) as [?|[?|?]]; [| |auto];
      (destruct (IH (apply_op s op)) as [?|[?|?]]; auto).
  - destruct (IH (apply_op s op)) as [?|[?|?]]; auto. right. by apply notified_mono.
Qed.

(** ** Properties *)

(** C39: the registry implements its abstract specification.  After every history of registrations,
    unregistrations and forced disconnects, the devices listed are, each once, exactly those whose
    latest registration was not undone by that same connection's unregistration, so a stale
    connection never removes its replacement; a device's transport is the one of that registration;
    and it is listed, and its transport handed out, for a feature exactly when that registration
    brought a transport and negotiated that very version. *)
Theorem registry_refines ops d feature v :
  let latest := spec_connected ops d 0 None in
  NoDup (list_connected (run ops))
  /\ (d ∈ list_connected (run ops) <-> is_Some latest)
  /\ transport (run ops) d = ('(_, t, _) ← latest; t)
  /\ transport_for_feature (run ops) d feature v
     = ('(_, t, f) ← latest; if decide (f !! feature = Some v) then t else None)
  /\ (d ∈ list_connected_with_feature (run ops) feature v <->
      exists n t f, latest = Some (n, Some t, f) /\ f !! feature = Some v).
Proof.
  cbn zeta. unfold run. rewrite <- (run_details ops new d : _ = spec_connected ops d 0 None).
  set (s := fold_left apply_op ops new). split_and!.
  - unfold list_connected. apply NoDup_fst_map_to_list.
  - rewrite list_connected_elem. by destruct (inner s !! d); split; intros []; eauto.
  - unfold transport. by destruct (inner s !! d).
  - unfold transport_for_feature, supports_feature. destruct (inner s !! d) as [c|]; [|done]. simpl.
    destruct (decide (negotiated_features c !! feature = Some v)); by case_bool_decide.
  - rewrite list_with_feature_elem. split.
    + intros (c & -> & [t Ht] & Hf). unfold details. simpl. rewrite Ht. eauto 10.
    + intros (n & t & f & Hc & Hf). destruct (inner s !! d) as [c|]; [|done]. exists c.
      injection Hc as _ Ht <-. by rewrite Ht.
Qed.

(** No connection is orphaned: whatever the history, a notifier that was handed out for a
    device is still the one registered for it, or has been signalled, or its own connection has
    unregistered. *)
Theorem registry_no_orphan ops d n :
  (d, n) ∈ issued ops 0 ->
  (disconnect_notify <$> inner (run ops) !! d) = Some n \/ n ∈ notified (run ops)
  \/ OpUnregister d n ∈ ops.
Proof.
  unfold run. change 0%nat with (next_notify new).
  generalize new. induction ops as [|op ops IH]; intros s; [by intros ?%not_elem_of_nil|].
  cbn [fold_left]. rewrite elem_of_cons. intros Hin.
  destruct op as [d' t f|d' k|d']; cbn [issued] in Hin.
  - apply elem_of_cons in Hin as [[= <- ->]|Hin].
    + destruct (settled_run ops (apply_op s (OpRegister d t f)) d (next_notify s))
        as [?|[?|?]]; auto.
      left. rewrite current_op. by rewrite bool_decide_true.
    + rewrite <- (next_notify_op s (OpRegister d' t f)) in Hin. destruct (IH _ Hin) as [?|[?|?]]; auto.
  - rewrite <- (next_notify_op s (OpUnregister d' k)) in Hin. destruct (IH _ Hin) as [?|[?|?]]; auto.
  - rewrite <- (next_notify_op s (OpDisconnect d')) in Hin. destruct (IH _ Hin) as [?|[?|?]]; auto.
Qed.

End registry.

Lemma registry_no_orphan_witness :
  1%nat ∈ @notified nat (run [OpRegister "a" None ∅; OpRegister "a" (Some 3%nat) ∅; OpDisconnect "a"]).
Proof.
  destruct (@registry_no_orphan nat
    [OpRegister "a" None ∅; OpRegister "a" (Some 3%nat) ∅; OpDisconnect "a"] "a" 1)
    as [_|[H|H]].
  - vm_compute. right. left.
  - vm_compute. reflexivity.
  - exact H.
  - exfalso. rewrite list_elem_of_In in H. simpl in H. destruct H as [H|[H|[H|[]]]]; discriminate H.
Defined.

End ConnectionRegistry.
