(* ===== verification/InputEvents.v ===== *)
(** * Reliable input events

    Models [convert_reliable_events] and [button_down] of
    [src/server/proto_handler/input/events.rs], with the protobuf and domain event types they
    connect.  [arcrelay_core]'s system gestures and the generated enum codes are outside the
    repository: they are the class [InputCore].  A motion or scroll amount is kept in 1/256 units;
    the code divides by 256 into an [f32], which is exact for the amounts the session accepts. *)

From Stdlib Require Import ZArith Lia.
From stdpp Require Import base tactics option list strings gmap countable.
From S2P Require Import Prelude.

Module InputEvents.

(** [proto::MouseButton] and [proto::ScrollGesturePhase]. *)
Inductive ProtoMouseButton := PbLeft | PbRight | PbMiddle | PbUnspecified.
Inductive ProtoScrollPhase :=
| PpBegan | PpEnded | PpCancelled | PpMomentumBegan | PpMomentumEnded | PpUnspecified.

Inductive MouseButton := Left | Right | Middle.
Inductive ScrollGesturePhase := Began | Ended | Cancelled | MomentumBegan | MomentumEnded.

#[global] Instance MouseButton_eq_dec : EqDecision MouseButton.
Proof. solve_decision. Defined.
#[global] Instance MouseButton_countable : Countable MouseButton.
Proof.
  refine (inj_countable'
    (fun b => match b with Left => 0%nat | Right => 1%nat | Middle => 2%nat end)
    (fun n => match n with 0%nat => Left | 1%nat => Right | _ => Middle end) _).
  by intros [].
Defined.

(** [arcrelay_core::domain::input_control] and the enum codes of [arcrelay-wire]. *)
Class InputCore := {
  f32 : Type;
  f32_zero : f32;
  (** [proto::MouseButton::try_from], [proto::ScrollGesturePhase::try_from]. *)
  mouse_button_try_from : Z -> option ProtoMouseButton;
  scroll_phase_try_from : Z -> option ProtoScrollPhase;
  SYSTEM_GESTURE_FORMAT_VERSION : Z;
}.

(** [SystemGestureEvent] of the domain and of the wire. *)
Record SystemGestureEvent `{!InputCore} := {
  axis : Z;
  phase : Z;
  progress : f32;
  velocity_x : f32;
  velocity_y : f32;
  inverted_from_device : bool;
  delta_x : f32;
  delta_y : f32;
  finger_count : Z;
}.

Record WireSystemGesture `{!InputCore} := {
  wg_format_version : Z;
  wg_axis : Z;
  wg_phase : Z;
  wg_progress : f32;
  wg_velocity_x : f32;
  wg_velocity_y : f32;
}.

(** [SystemGestureEvent::validate], [validate_format] and [SystemGestureSequence]. *)
Class GestureCore `{!InputCore} := {
  GestureSequence : Type;
  gesture_default : GestureSequence;
  gesture_is_active : GestureSequence -> bool;
  gesture_validate : SystemGestureEvent -> result unit string;
  gesture_validate_format : SystemGestureEvent -> Z -> result SystemGestureEvent string;
  gesture_apply : GestureSequence -> SystemGestureEvent ->
    result (GestureSequence * list SystemGestureEvent) string;
  gesture_cancel : GestureSequence -> GestureSequence * option SystemGestureEvent;
  (** Validated gestures can be applied in every state, as the caller's [expect] relies on. *)
  gesture_apply_validated : forall s g,
    gesture_validate g = Ok tt -> exists s' out, gesture_apply s g = Ok (s', out);
}.

Inductive InputEvent `{!InputCore} :=
| Key (hid_usage : Z) (down repeat : bool)
| PointerButton (button : MouseButton) (down : bool) (click_count : Z)
| TextCommit (text : string)
| ReleaseAll
| SystemGesture (gesture : SystemGestureEvent)
| ScrollGesture (phase : ScrollGesturePhase)
| PointerMove (delta_x_256 delta_y_256 : Z)
| Scroll (delta_x_256 delta_y_256 : Z) (precise : bool).

(** [proto::ReliableInputEvent]: the [oneof], absent or one of its cases. *)
Inductive WireInputEvent `{!InputCore} :=
| WPointerButton (button : Z) (down : bool) (click_count : Z)
| WKey (hid_usage : Z) (down repeat : bool)
| WTextCommit (text : string)
| WReleaseAll
| WSystemGesture (gesture : WireSystemGesture)
| WScrollGesture (phase : Z).

Section convert.
Context `{!InputCore} `{!GestureCore}.

Definition button_down (event : option WireInputEvent) : bool :=
  match event with
  | Some (WPointerButton _ down _) => down
  | _ => false
  end.

(** The body of the loop in [convert_reliable_events]; [click_count as u8] and
    [hid_usage as u16] truncate. *)
Definition convert_event (event : option WireInputEvent) : result InputEvent string :=
  match event with
  | Some (WPointerButton button down click_count) =>
    if negb ((1 <=? click_count) && (click_count <=? 3))
    then Err "pointer click count must be between 1 and 3"%string else
    let? button := match default PbUnspecified (mouse_button_try_from button) with
                   | PbLeft => Ok Left
                   | PbRight => Ok Right
                   | PbMiddle => Ok Middle
                   | PbUnspecified => Err "invalid mouse button"%string
                   end in
    Ok (PointerButton button (button_down event) (click_count mod 2 ^ 8))
  | Some (WKey hid_usage down repeat) =>
    if (hid_usage =? 0) || (hid_usage >? 0xE7) then Err "invalid HID keyboard usage"%string else
    if repeat && negb down
    then Err "key repeat is only valid for key-down events"%string else
    Ok (Key (hid_usage mod 2 ^ 16) down repeat)
  | Some (WTextCommit text) =>
    if str_is_empty text then Err "text commit is empty"%string else
    if slen text >? 4096 then Err "text commit is too large"%string else
    Ok (TextCommit text)
  | Some WReleaseAll => Ok ReleaseAll
  | Some (WSystemGesture gesture) =>
    if negb (wg_format_version gesture =? SYSTEM_GESTURE_FORMAT_VERSION)
    then Err "unsupported system gesture format"%string else
    let? gesture := gesture_validate_format
      {| axis := wg_axis gesture; phase := wg_phase gesture; progress := wg_progress gesture;
         velocity_x := wg_velocity_x gesture; velocity_y := wg_velocity_y gesture;
         inverted_from_device := false; delta_x := f32_zero; delta_y := f32_zero;
         finger_count := 0 |} (wg_format_version gesture) in
    Ok (SystemGesture gesture)
  | Some (WScrollGesture phase) =>
    let? phase := match default PpUnspecified (scroll_phase_try_from phase) with
                  | PpBegan => Ok Began
                  | PpEnded => Ok Ended
                  | PpCancelled => Ok Cancelled
                  | PpMomentumBegan => Ok MomentumBegan
                  | PpMomentumEnded => Ok MomentumEnded
                  | PpUnspecified => Err "invalid scroll gesture phase"%string
                  end in
    Ok (ScrollGesture phase)
  | None => Err "empty reliable input event"%string
  end.

Definition convert_reliable_events (events : list (option WireInputEvent))
  : result (list InputEvent) string :=
  collect_results convert_event events.

(** What the domain may rely on for an event that came off the wire. *)
Definition event_ok (e : InputEvent) : Prop :=
  match e with
  | Key hid_usage down repeat => 1 <= hid_usage <= 0xE7 /\ (repeat = true -> down = true)
  | PointerButton _ _ click_count => 1 <= click_count <= 3
  | TextCommit text => 1 <= slen text <= 4096
  | PointerMove _ _ | Scroll _ _ _ => False
  | _ => True
  end.

(** The wire event an accepted event stands for: nothing is lost in the narrowing casts. *)
Definition same_event (w : option WireInputEvent) (e : InputEvent) : Prop :=
  match w, e with
  | Some (WPointerButton code down clicks), PointerButton b down' clicks' =>
    down' = down /\ clicks' = clicks
    /\ mouse_button_try_from code =
       Some (match b with Left => PbLeft | Right => PbRight | Middle => PbMiddle end)
  | Some (WKey usage down repeat), Key usage' down' repeat' =>
    usage' = usage /\ down' = down /\ repeat' = repeat
  | Some (WTextCommit text), TextCommit text' => text' = text
  | Some WReleaseAll, ReleaseAll => True
  | Some (WSystemGesture g), SystemGesture _ =>
    wg_format_version g = SYSTEM_GESTURE_FORMAT_VERSION
  | Some (WScrollGesture code), ScrollGesture _ => scroll_phase_try_from code <> Some PpUnspecified
  | _, _ => False
  end.

Definition wire_event_wf (w : option WireInputEvent) : Prop :=
  match w with
  | Some (WPointerButton _ _ clicks) => 0 <= clicks <= u32_max
  | Some (WKey usage _ _) => 0 <= usage <= u32_max
  | _ => True
  end.

Lemma convert_event_sound w e :
  wire_event_wf w -> convert_event w = Ok e -> event_ok e /\ same_event w e.
Proof.
  intros Hw. destruct w as [[b d c|u d r|t| |g|p]|]; simpl; try done.
  - destruct ((1 <=? c) && (c <=? 3)) eqn:G; simpl; [|done]. bool_arith.
    rewrite rbind_Ok. intros (b' & Hb & [= <-]). simpl.
    rewrite Z.mod_small by lia. split; [lia|]. split; [done|]. split; [done|].
    destruct (mouse_button_try_from b) as [[]|]; simplify_eq/=; done.
  - destruct ((u =? 0) || (u >? 231)) eqn:G; [done|].
    destruct (r && negb d) eqn:G2; [done|]. bool_arith. simpl in Hw. intros [= <-]. simpl.
    rewrite Z.mod_small by lia. split; [|done]. split; [lia|]. intros ->. by destruct d.
  - destruct (str_is_empty t) eqn:G; [done|]. destruct (slen t >? 4096) eqn:G2; [done|].
    bool_arith. intros [= <-]. simpl. split; [|done]. split; [|done].
    destruct t; [done|]. unfold slen. simpl. lia.
  - by intros [= <-].
  - destruct (wg_format_version g =? _) eqn:G; simpl; [|done]. bool_arith.
    rewrite rbind_Ok. by intros (g' & _ & [= <-]).
  - rewrite rbind_Ok. intros (p' & Hp & [= <-]). simpl. split; [done|].
    destruct (scroll_phase_try_from p) as [[]|]; simplify_eq/=; done.
Qed.

(** Every event list that [convert_reliable_events] accepts is inside the documented input
    ranges (HID usages 1..0xE7, 1 to 3 clicks, 1..4096 bytes of text, repeats only on key-down),
    and each event is exactly the one sent: the [as u8] and [as u16] casts lose nothing, no
    pointer motion can be smuggled in, and there are as many events out as in. *)
Theorem convert_reliable_events_sound events out :
  Forall wire_event_wf events -> convert_reliable_events events = Ok out ->
  Forall event_ok out /\ Forall2 same_event events out.
Proof.
  unfold convert_reliable_events. intros Hw Hc. apply collect_results_Ok in Hc.
  induction Hc as [|w e events out Hc1 _ IH]; [done|]. apply Forall_cons_1 in Hw as [Hw Hws].
  destruct (convert_event_sound w e Hw Hc1) as [? ?]. destruct (IH Hws) as [? ?].
  split; by constructor.
Qed.

End convert.

(** *** A concrete gesture engine for the witnesses: no gesture is ever active *)

Definition toy_input : InputCore :=
  {| f32 := unit; f32_zero := tt;
     mouse_button_try_from := fun z => if z =? 1 then Some PbLeft else None;
     scroll_phase_try_from := fun _ => None; SYSTEM_GESTURE_FORMAT_VERSION := 1 |}.
Definition toy_gesture : @GestureCore toy_input.
Proof.
  refine (@Build_GestureCore toy_input unit tt (fun _ => false) (fun _ => Ok tt)
    (fun g _ => Ok g) (fun s g => Ok (s, [g])) (fun s => (s, None)) _).
  intros s g _. eauto.
Defined.

Lemma convert_reliable_events_sound_witness :
  Forall (@event_ok toy_input) [@Key toy_input 4 true false; @PointerButton toy_input Left true 2].
Proof.
  apply (@convert_reliable_events_sound toy_input toy_gesture
    [Some (WKey 4 true false); Some (WPointerButton 1 true 2)]).
  - repeat constructor; unfold u32_max; lia.
  - vm_compute. reflexivity.
Defined.

End InputEvents.
