(* ===== verification/InputSession.v ===== *)
(** * The exclusive input session

    Models [src/server/input_session.rs] in full.  Each [Instant::now()] (and the one inside
    [elapsed()]) is an argument in the order of the calls; the random draws of
    [acquire_with_routing] are a list; [drain_keys] and [drain_buttons] give the unspecified
    order of [HashSet::drain]. *)

From Stdlib Require Import ZArith Lia.
From stdpp Require Import base tactics option list strings pretty gmap countable fin_maps sorting.
From S2P Require Import Prelude InputEvents.
Import InputEvents.

Module InputSession.

Definition INPUT_LEASE_TIMEOUT : Z := from_secs 5.
Definition MAX_RELIABLE_EVENTS_PER_FRAME : Z := 64.
Definition MAX_RELIABLE_FRAMES_PER_SECOND : Z := 240.

Record InputLease := {
  session_id : Z;
  epoch : Z;
}.

#[global] Instance InputLease_eq_dec : EqDecision InputLease.
Proof. solve_decision. Defined.
#[global] Instance InputLease_countable : Countable InputLease.
Proof.
  refine (inj_countable' (fun l => (session_id l, epoch l))
                         (fun p => {| session_id := p.1; epoch := p.2 |}) _).
  by intros [].
Defined.

Record InputFeedbackSnapshot := {
  feedback_reliable_sequence : Z;
  motion_sequence : Z;
  motion_datagrams_received : Z;
  motion_datagrams_missing : Z;
}.

Record MotionDelta := {
  pointer_x_256 : Z;
  pointer_y_256 : Z;
  scroll_x_256 : Z;
  scroll_y_256 : Z;
  precise_scroll : bool;
  feedback : InputFeedbackSnapshot;
}.

(** Where the iteration order of a hash set shows: any permutation of its elements. *)
Class DrainOrder := {
  drain_keys : gset Z -> list Z;
  drain_buttons : gset MouseButton -> list MouseButton;
  drain_keys_perm : forall s, drain_keys s ≡ₚ elements s;
  drain_buttons_perm : forall s, drain_buttons s ≡ₚ elements s;
}.

Section session.
Context `{!InputCore} `{!GestureCore} `{!DrainOrder}.

Record ActiveInputSession := {
  lease : InputLease;
  device_id : string;
  last_activity : Z;
  reliable_sequence : Z;
  reliable_elapsed_us : Z;
  reliable_frames : list Z;
  pointer_total_x_256 : Z;
  pointer_total_y_256 : Z;
  scroll_total_x_256 : Z;
  scroll_total_y_256 : Z;
  pressed_keys : gset Z;
  pressed_buttons : gset MouseButton;
  system_gesture : GestureSequence;
  system_gesture_updated : option Z;
  workspace_routed : bool;
}.

Record InputSessionState := {
  active : gmap InputLease ActiveInputSession;
  pressed_key_counts : gmap Z Z;
  pressed_button_counts : gmap MouseButton Z;
}.

(** [InputSessionManager::new]. *)
Definition new : InputSessionState :=
  {| active := ∅; pressed_key_counts := ∅; pressed_button_counts := ∅ |}.

(** Assignments to groups of fields. *)
Definition set_active (m : gmap InputLease ActiveInputSession) (s : InputSessionState)
  : InputSessionState :=
  {| active := m; pressed_key_counts := pressed_key_counts s;
     pressed_button_counts := pressed_button_counts s |}.
Definition set_key_counts (m : gmap Z Z) (s : InputSessionState) : InputSessionState :=
  {| active := active s; pressed_key_counts := m;
     pressed_button_counts := pressed_button_counts s |}.
Definition set_button_counts (m : gmap MouseButton Z) (s : InputSessionState)
  : InputSessionState :=
  {| active := active s; pressed_key_counts := pressed_key_counts s;
     pressed_button_counts := m |}.
Definition set_frames (frames : list Z) (a : ActiveInputSession) : ActiveInputSession :=
  {| lease := lease a; device_id := device_id a; last_activity := last_activity a;
     reliable_sequence := reliable_sequence a; reliable_elapsed_us := reliable_elapsed_us a;
     reliable_frames := frames; pointer_total_x_256 := pointer_total_x_256 a;
     pointer_total_y_256 := pointer_total_y_256 a; scroll_total_x_256 := scroll_total_x_256 a;
     scroll_total_y_256 := scroll_total_y_256 a; pressed_keys := pressed_keys a;
     pressed_buttons := pressed_buttons a; system_gesture := system_gesture a;
     system_gesture_updated := system_gesture_updated a;
     workspace_routed := workspace_routed a |}.
Definition set_sequence (seq elapsed now : Z) (a : ActiveInputSession) : ActiveInputSession :=
  {| lease := lease a; device_id := device_id a; last_activity := now;
     reliable_sequence := seq; reliable_elapsed_us := elapsed;
     reliable_frames := reliable_frames a; pointer_total_x_256 := pointer_total_x_256 a;
     pointer_total_y_256 := pointer_total_y_256 a; scroll_total_x_256 := scroll_total_x_256 a;
     scroll_total_y_256 := scroll_total_y_256 a; pressed_keys := pressed_keys a;
     pressed_buttons := pressed_buttons a; system_gesture := system_gesture a;
     system_gesture_updated := system_gesture_updated a;
     workspace_routed := workspace_routed a |}.
Definition set_totals (px py sx sy now : Z) (a : ActiveInputSession) : ActiveInputSession :=
  {| lease := lease a; device_id := device_id a; last_activity := now;
     reliable_sequence := reliable_sequence a; reliable_elapsed_us := reliable_elapsed_us a;
     reliable_frames := reliable_frames a; pointer_total_x_256 := px;
     pointer_total_y_256 := py; scroll_total_x_256 := sx;
     scroll_total_y_256 := sy; pressed_keys := pressed_keys a;
     pressed_buttons := pressed_buttons a; system_gesture := system_gesture a;
     system_gesture_updated := system_gesture_updated a;
     workspace_routed := workspace_routed a |}.
Definition set_pressed (keys : gset Z) (buttons : gset MouseButton) (a : ActiveInputSession)
  : ActiveInputSession :=
  {| lease := lease a; device_id := device_id a; last_activity := last_activity a;
     reliable_sequence := reliable_sequence a; reliable_elapsed_us := reliable_elapsed_us a;
     reliable_frames := reliable_frames a; pointer_total_x_256 := pointer_total_x_256 a;
     pointer_total_y_256 := pointer_total_y_256 a; scroll_total_x_256 := scroll_total_x_256 a;
     scroll_total_y_256 := scroll_total_y_256 a; pressed_keys := keys;
     pressed_buttons := buttons; system_gesture := system_gesture a;
     system_gesture_updated := system_gesture_updated a;
     workspace_routed := workspace_routed a |}.
Definition set_gesture (g : GestureSequence) (updated : option Z) (a : ActiveInputSession)
  : ActiveInputSession :=
  {| lease := lease a; device_id := device_id a; last_activity := last_activity a;
     reliable_sequence := reliable_sequence a; reliable_elapsed_us := reliable_elapsed_us a;
     reliable_frames := reliable_frames a; pointer_total_x_256 := pointer_total_x_256 a;
     pointer_total_y_256 := pointer_total_y_256 a; scroll_total_x_256 := scroll_total_x_256 a;
     scroll_total_y_256 := scroll_total_y_256 a; pressed_keys := pressed_keys a;
     pressed_buttons := pressed_buttons a; system_gesture := g;
     system_gesture_updated := updated; workspace_routed := workspace_routed a |}.

(** *** Leases *)

(** The lease drawn from a [u64] and a [u32]. *)
Definition lease_of_draw (raw : Z * Z) : InputLease :=
  let session_id := Z.land raw.1 i64_max in
  {| session_id := if session_id =? 0 then 1 else session_id;
     epoch := if raw.2 =? 0 then 1 else raw.2 |}.

Definition fresh_session (lease : InputLease) (device_id : string) (now : Z)
  (workspace_routed : bool) : ActiveInputSession :=
  {| lease := lease; device_id := device_id; last_activity := now; reliable_sequence := 0;
     reliable_elapsed_us := 0; reliable_frames := []; pointer_total_x_256 := 0;
     pointer_total_y_256 := 0; scroll_total_x_256 := 0; scroll_total_y_256 := 0;
     pressed_keys := ∅; pressed_buttons := ∅; system_gesture := gesture_default;
     system_gesture_updated := None; workspace_routed := workspace_routed |}.

(** [None]: every draw so far was taken. *)
Definition acquire_with_routing (draws : list (Z * Z)) (now : Z) (device : string)
  (routed : bool) (state : InputSessionState)
  : option (InputSessionState * result InputLease string) :=
  match (map_to_list (active state)).*2 with
  | current :: _ =>
    Some (state, Err ("input is already controlled by " +:+ device_id current
                      +:+ " at epoch " +:+ pretty (epoch (lease current)))%string)
  | [] =>
    match List.find (fun l => bool_decide (active state !! l = None)) (lease_of_draw <$> draws) with
    | None => None
    | Some l =>
      Some (set_active (<[l := fresh_session l device now routed]> (active state)) state,
            Ok l)
    end
  end.

Definition is_workspace_routed (l : InputLease) (device : string) (state : InputSessionState)
  : bool :=
  match active state !! l with
  | Some a => str_eqb (device_id a) device && workspace_routed a
  | None => false
  end.

Definition validate_owner (current : ActiveInputSession) (l : InputLease) (device : string)
  : result unit string :=
  if negb (bool_decide (lease current = l)) || negb (str_eqb (device_id current) device)
  then Err "input session identity mismatch"%string
  else Ok tt.

Definition feedback_snapshot (current : ActiveInputSession) : InputFeedbackSnapshot :=
  {| feedback_reliable_sequence := reliable_sequence current; motion_sequence := 0;
     motion_datagrams_received := 0; motion_datagrams_missing := 0 |}.

(** *** Reliable frames *)

(** The [while] loop that drops frames older than a second. *)
Fixpoint drop_old_frames (now : Z) (frames : list Z) : list Z :=
  match frames with
  | [] => []
  | timestamp :: rest =>
    if duration_since now timestamp >=? from_secs 1 then drop_old_frames now rest else frames
  end.

Definition accept_reliable (t0 now : Z) (l : InputLease) (device : string)
  (sequence elapsed_us : Z) (state : InputSessionState)
  : InputSessionState * result InputFeedbackSnapshot string :=
  match active state !! l with
  | None => (state, Err "input session is not active"%string)
  | Some current =>
    match validate_owner current l device with
    | Err e => (state, Err e)
    | Ok _ =>
      if duration_since t0 (last_activity current) >=? INPUT_LEASE_TIMEOUT
      then (state, Err "input lease expired"%string) else
      if negb (sequence =? sat_add u64_max (reliable_sequence current) 1)
      then (state, Err "out-of-order reliable input frame"%string) else
      if elapsed_us <? reliable_elapsed_us current
      then (state, Err "reliable input clock moved backwards"%string) else
      let frames := drop_old_frames now (reliable_frames current) in
      let store a := set_active (<[l := a]> (active state)) state in
      if Z.of_nat (length frames) >=? MAX_RELIABLE_FRAMES_PER_SECOND
      then (store (set_frames frames current),
            Err "reliable input frame rate limit exceeded"%string) else
      let current := set_sequence sequence elapsed_us now
                       (set_frames (frames ++ [now]) current) in
      (store current, Ok (feedback_snapshot current))
    end
  end.

(** *** Ordered motion *)

Definition accept_ordered_motion (t0 now : Z) (l : InputLease) (device : string)
  (pointer_total scroll_total : Z * Z) (precise : bool) (state : InputSessionState)
  : InputSessionState * result MotionDelta string :=
  match active state !! l with
  | None => (state, Err "input session is not active"%string)
  | Some current =>
    match
      let? _ := validate_owner current l device in
      ensure negb (duration_since t0 (last_activity current) >=? INPUT_LEASE_TIMEOUT)
        else "input lease expired"%string in
      let? px := ok_or (checked_sub_i64 pointer_total.1 (pointer_total_x_256 current))
                       "pointer total overflow"%string in
      let? py := ok_or (checked_sub_i64 pointer_total.2 (pointer_total_y_256 current))
                       "pointer total overflow"%string in
      let? sx := ok_or (checked_sub_i64 scroll_total.1 (scroll_total_x_256 current))
                       "scroll total overflow"%string in
      let? sy := ok_or (checked_sub_i64 scroll_total.2 (scroll_total_y_256 current))
                       "scroll total overflow"%string in
      ensure negb ((Z.abs px >? 8192 * 256) || (Z.abs py >? 8192 * 256)
                   || (Z.abs sx >? 2048 * 256) || (Z.abs sy >? 2048 * 256))
        else "motion delta exceeds protocol limits"%string in
      Ok (px, py, sx, sy)
    with
    | Err e => (state, Err e)
    | Ok (px, py, sx, sy) =>
      let current := set_totals pointer_total.1 pointer_total.2 scroll_total.1 scroll_total.2 now
                       current in
      (set_active (<[l := current]> (active state)) state,
       Ok {| pointer_x_256 := px; pointer_y_256 := py; scroll_x_256 := sx; scroll_y_256 := sy;
             precise_scroll := precise; feedback := feedback_snapshot current |})
    end
  end.

Definition is_expired (t0 : Z) (l : InputLease) (device : string) (state : InputSessionState)
  : bool :=
  match active state !! l with
  | Some current => str_eqb (device_id current) device
                    && (duration_since t0 (last_activity current) >=? INPUT_LEASE_TIMEOUT)
  | None => false
  end.

(** *** Key and button state *)

Definition decrement_count {K} `{Countable K} (counts : gmap K Z) (value : K) : gmap K Z * bool :=
  match counts !! value with
  | None => (counts, false)
  | Some count =>
    if sat_sub count 1 =? 0 then (delete value counts, true)
    else (<[value := sat_sub count 1]> counts, false)
  end.

(** The loops over [pressed_keys.drain()] and [pressed_buttons.drain()]. *)
Fixpoint release_counts {K} `{Countable K} (up : K -> InputEvent) (values : list K)
  (counts : gmap K Z) : gmap K Z * list InputEvent :=
  match values with
  | [] => (counts, [])
  | v :: values =>
    let '(counts, last) := decrement_count counts v in
    let '(counts, releases) := release_counts up values counts in
    (counts, if last then up v :: releases else releases)
  end.

Definition release_session_state (state : InputSessionState) (current : ActiveInputSession)
  : InputSessionState * ActiveInputSession * list InputEvent :=
  let '(gesture, cancelled) := gesture_cancel (system_gesture current) in
  let '(keys, key_ups) := release_counts (fun k => Key k false false)
    (drain_keys (pressed_keys current)) (pressed_key_counts state) in
  let '(buttons, button_ups) := release_counts (fun b => PointerButton b false 1)
    (drain_buttons (pressed_buttons current)) (pressed_button_counts state) in
  (set_button_counts buttons (set_key_counts keys state),
   set_pressed ∅ ∅ (set_gesture gesture None current),
   (SystemGesture <$> option_list cancelled) ++ key_ups ++ button_ups).

(** One round of the loop in [normalize_reliable_events]; [None] is the panic of its [expect]. *)
Definition normalize_event (now : Z) (state : InputSessionState) (current : ActiveInputSession)
  (event : InputEvent) : option (InputSessionState * ActiveInputSession * list InputEvent) :=
  match event with
  | Key hid_usage down repeat =>
    if down then
      if bool_decide (hid_usage ∉ pressed_keys current) then
        let counts := counter_add (pressed_key_counts state) hid_usage 1 in
        Some (set_key_counts counts state,
              set_pressed ({[hid_usage]} ∪ pressed_keys current) (pressed_buttons current) current,
              if counter_get counts hid_usage =? 1 then [Key hid_usage down repeat] else [])
      else Some (state, current, if repeat then [Key hid_usage down repeat] else [])
    else
      if bool_decide (hid_usage ∈ pressed_keys current) then
        let '(counts, last) := decrement_count (pressed_key_counts state) hid_usage in
        Some (set_key_counts counts state,
              set_pressed (pressed_keys current ∖ {[hid_usage]}) (pressed_buttons current) current,
              if last then [Key hid_usage down repeat] else [])
      else Some (state, current, [])
  | PointerButton button down click_count =>
    if down then
      if bool_decide (button ∉ pressed_buttons current) then
        let counts := counter_add (pressed_button_counts state) button 1 in
        Some (set_button_counts counts state,
              set_pressed (pressed_keys current) ({[button]} ∪ pressed_buttons current) current,
              if counter_get counts button =? 1 then [PointerButton button down click_count] else [])
      else Some (state, current, [])
    else
      if bool_decide (button ∈ pressed_buttons current) then
        let '(counts, last) := decrement_count (pressed_button_counts state) button in
        Some (set_button_counts counts state,
              set_pressed (pressed_keys current) (pressed_buttons current ∖ {[button]}) current,
              if last then [PointerButton button down click_count] else [])
      else Some (state, current, [])
  | ReleaseAll => Some (release_session_state state current)
  | SystemGesture gesture =>
    match gesture_apply (system_gesture current) gesture with
    | Err _ => None
    | Ok (sequence, phases) =>
      Some (state,
            set_gesture sequence
              (if is_empty phases then system_gesture_updated current
               else if gesture_is_active sequence then Some now else None) current,
            SystemGesture <$> phases)
    end
  | other => Some (state, current, [other])
  end.

(** [now i] is the clock when the [i]-th event is handled. *)
Fixpoint normalize_events (now : nat -> Z) (i : nat) (state : InputSessionState)
  (current : ActiveInputSession) (events : list InputEvent)
  : option (InputSessionState * ActiveInputSession * list InputEvent) :=
  match events with
  | [] => Some (state, current, [])
  | event :: events =>
    match normalize_event (now i) state current event with
    | None => None
    | Some (state, current, out) =>
      match normalize_events now (S i) state current events with
      | None => None
      | Some (state, current, rest) => Some (state, current, out ++ rest)
      end
    end
  end.

(** The validation pass over the batch. *)
Fixpoint validate_gestures (events : list InputEvent) : result unit string :=
  match events with
  | [] => Ok tt
  | SystemGesture gesture :: events =>
    let? _ := gesture_validate gesture in validate_gestures events
  | _ :: events => validate_gestures events
  end.

Definition normalize_reliable_events (now : nat -> Z) (l : InputLease) (device : string)
  (events : list InputEvent) (state : InputSessionState)
  : option (InputSessionState * result (list InputEvent) string) :=
  match validate_gestures events with
  | Err e => Some (state, Err e)
  | Ok _ =>
    match active state !! l with
    | None => Some (state, Err "input session is not active"%string)
    | Some current =>
      let removed := set_active (delete l (active state)) state in
      match validate_owner current l device with
      | Err e => Some (set_active (<[l := current]> (active removed)) removed, Err e)
      | Ok _ =>
        match normalize_events now 0 removed current events with
        | None => None
        | Some (state, current, normalized) =>
          Some (set_active (<[l := current]> (active state)) state, Ok normalized)
        end
      end
    end
  end.

Definition cancel_idle_system_gesture (t0 : Z) (l : InputLease) (device : string)
  (state : InputSessionState) : InputSessionState * list InputEvent :=
  match active state !! l with
  | None => (state, [])
  | Some current =>
    if negb (is_ok (validate_owner current l device))
       || negb (match system_gesture_updated current with
                | Some updated => duration_since t0 updated >=? from_secs 2
                | None => false
                end)
    then (state, [])
    else
      let '(gesture, cancelled) := gesture_cancel (system_gesture current) in
      (set_active (<[l := set_gesture gesture None current]> (active state)) state,
       SystemGesture <$> option_list cancelled)
  end.

Definition release (l : InputLease) (state : InputSessionState)
  : InputSessionState * list InputEvent :=
  match active state !! l with
  | None => (state, [])
  | Some current =>
    let '(state, _, releases) :=
      release_session_state (set_active (delete l (active state)) state) current in
    (state, releases)
  end.

End session.

(** ** What the operating system sees

    [native_apply] is the effect of an event on the set of keys and buttons that are physically
    down: a model of the receiver, used to state what the emitted events achieve. *)

Record native := {
  native_keys : gset Z;
  native_buttons : gset MouseButton;
}.

Section native.
Context `{!InputCore} `{!GestureCore} `{!DrainOrder}.

Definition native_event (n : native) (e : InputEvent) : native :=
  match e with
  | Key k true _ => {| native_keys := {[k]} ∪ native_keys n; native_buttons := native_buttons n |}
  | Key k false _ => {| native_keys := native_keys n ∖ {[k]}; native_buttons := native_buttons n |}
  | PointerButton b true _ =>
    {| native_keys := native_keys n; native_buttons := {[b]} ∪ native_buttons n |}
  | PointerButton b false _ =>
    {| native_keys := native_keys n; native_buttons := native_buttons n ∖ {[b]} |}
  | _ => n
  end.
Definition native_apply (n : native) (es : list InputEvent) : native := fold_left native_event es n.

Lemma native_apply_app n es es' : native_apply n (es ++ es') = native_apply (native_apply n es) es'.
Proof. apply fold_left_app. Qed.

(** What the counters say is down. *)
Definition native_of (s : InputSessionState) : native :=
  {| native_keys := dom (pressed_key_counts s);
     native_buttons := dom (pressed_button_counts s) |}.

(** ** Invariant *)

(** How many sessions hold [k]. *)
Definition held {K} `{Countable K} (f : ActiveInputSession -> gset K)
  (m : gmap InputLease ActiveInputSession) (k : K) : Z :=
  msum (fun _ a => if decide (k ∈ f a) then 1 else 0) m.

Record counts_ok (s : InputSessionState) : Prop := {
  counts_keys : tight (pressed_key_counts s) (held pressed_keys (active s));
  counts_buttons : tight (pressed_button_counts s) (held pressed_buttons (active s));
}.

Record wf (s : InputSessionState) : Prop := {
  wf_counts : counts_ok s;
  wf_single : (size (active s) <= 1)%nat;
  wf_lease : forall l a, active s !! l = Some a -> lease a = l;
}.

Section counters.
Context {K : Type} `{Countable K}.
Implicit Types (c : gmap K Z) (f : K -> Z) (k : K).

Lemma tight_dom c f k : tight c f -> k ∈ dom c <-> f k <> 0.
Proof.
  intros Ht. rewrite elem_of_dom, (Ht k). destruct (f k =? 0) eqn:E; bool_arith.
  - split; [by intros []|done].
  - split; eauto.
Qed.

Lemma decrement_count_spec c f k :
  tight c f -> 1 <= f k ->
  tight (decrement_count c k).1 (fun k' => if decide (k = k') then f k' - 1 else f k')
  /\ dom (decrement_count c k).1 =
     (if (decrement_count c k).2 then dom c ∖ {[k]} else dom c)
  /\ ((decrement_count c k).2 = true <-> f k = 1).
Proof.
  intros Ht Hk. pose proof (tight_sub c f k 1 Ht ltac:(lia)) as Hs.
  assert ((decrement_count c k).1 = counter_sub c k 1) as Heq.
  { unfold decrement_count, counter_sub. destruct (c !! k); [|done]. by destruct (_ =? 0). }
  rewrite Heq. split; [exact Hs|].
  unfold decrement_count, counter_sub. rewrite (Ht k).
  destruct (f k =? 0) eqn:E; bool_arith; [lia|]. unfold sat_sub in *.
  destruct (Z.max 0 (f k - 1) =? 0) eqn:E2; bool_arith; simpl.
  - split; [apply dom_delete_L|]. split; [lia|done].
  - split; [|split; [done|lia]]. rewrite dom_insert_L.
    assert (k ∈ dom c) by (apply (tight_dom c f k Ht); lia). set_solver.
Qed.

Lemma counter_press c f k :
  tight c f -> 0 <= f k <= 1 ->
  tight (counter_add c k 1) (fun k' => if decide (k = k') then f k' + 1 else f k')
  /\ dom (counter_add c k 1) = {[k]} ∪ dom c
  /\ counter_get (counter_add c k 1) k = f k + 1.
Proof.
  intros Ht Hk. pose proof (tight_add c f k 1 Ht) as Ha. unfold usize_max in Ha.
  split; [apply Ha; lia|]. split; [unfold counter_add; apply dom_insert_L|].
  rewrite (tight_get _ _ k (Ha ltac:(lia) ltac:(lia) ltac:(lia))). by rewrite decide_True.
Qed.

(** Releasing every element of a set: the events are one [up] per element no one else holds. *)
Lemma release_counts_spec (up : K -> InputEvent) values c f :
  tight c f -> NoDup values -> (forall v, v ∈ values -> 1 <= f v) ->
  exists zs,
    release_counts up values c = ((release_counts up values c).1, up <$> zs)
    /\ tight (release_counts up values c).1 (fun k => if decide (k ∈ values) then f k - 1 else f k)
    /\ dom (release_counts up values c).1 = dom c ∖ list_to_set zs.
Proof.
  revert c f. induction values as [|v values IH]; intros c f Ht Hnd Hf; cbn [release_counts].
  { exists []. split; [done|]. split; [|set_solver].
    eapply tight_ext; [exact Ht|]. intros k. rewrite decide_False by apply not_elem_of_nil. done. }
  apply NoDup_cons in Hnd as [Hv Hnd].
  destruct (decrement_count_spec c f v Ht) as (Ht1 & Hd1 & _); [apply Hf; left|].
  destruct (decrement_count c v) as [c1 last]. simpl in Ht1, Hd1.
  destruct (IH c1 _ Ht1 Hnd) as (zs & Hz & Ht2 & Hd2).
  { intros k Hk. rewrite decide_False by congruence. apply Hf. by right. }
  destruct (release_counts up values c1) as [c2 out]. simpl in *. injection Hz as ->.
  exists (if last then v :: zs else zs). split; [by destruct last|]. split.
  - eapply tight_ext; [exact Ht2|]. intros k. simpl.
    destruct (decide (k ∈ v :: values)) as [Hin|Hin].
    + apply elem_of_cons in Hin as [->|Hin].
      * rewrite decide_False by done. by rewrite decide_True.
      * rewrite (decide_True (P := k ∈ values)) by done. by rewrite decide_False by congruence.
    + apply not_elem_of_cons in Hin as [? ?]. rewrite !decide_False by congruence. done.
  - rewrite Hd2, Hd1. destruct last; set_solver.
Qed.
End counters.

Section held.
Context {K : Type} `{Countable K} (f : ActiveInputSession -> gset K).

Lemma held_nonneg m k : 0 <= held f m k.
Proof. apply msum_nonneg. intros. case_decide; lia. Qed.
Lemma held_insert m l a k :
  m !! l = None -> held f (<[l := a]> m) k = (if decide (k ∈ f a) then 1 else 0) + held f m k.
Proof. intros Hl. unfold held. by rewrite msum_insert. Qed.
Lemma held_update m l a a' k :
  m !! l = Some a -> f a' = f a -> held f (<[l := a']> m) k = held f m k.
Proof. intros Hl Hf. unfold held. rewrite (msum_update _ _ _ _ _ Hl), Hf. lia. Qed.
Lemma held_le_size m k : held f m k <= Z.of_nat (size m).
Proof. unfold held. rewrite <- msum_one. apply msum_le. intros. case_decide; lia. Qed.
Lemma held_pos m k : held f m k <> 0 <-> exists l a, m !! l = Some a /\ k ∈ f a.
Proof.
  split.
  - intros (l & a & Hl & Ha)%msum_nonzero. exists l, a. simpl in Ha. by case_decide.
  - intros (l & a & Hl & Ha). pose proof (msum_lookup_le
      (fun _ a => if decide (k ∈ f a) then 1 else 0) m l a
      ltac:(intros; simpl; case_decide; lia) Hl) as Hle. simpl in Hle. rewrite decide_True in Hle by done.
    unfold held. lia.
Qed.
End held.

(** The keys that are down are the keys some session holds. *)
Lemma native_of_held s k :
  counts_ok s -> k ∈ native_keys (native_of s) <->
  exists l a, active s !! l = Some a /\ k ∈ pressed_keys a.
Proof. intros [Hk _]. simpl. rewrite (tight_dom _ _ _ Hk). apply held_pos. Qed.
Lemma native_of_held_buttons s b :
  counts_ok s -> b ∈ native_buttons (native_of s) <->
  exists l a, active s !! l = Some a /\ b ∈ pressed_buttons a.
Proof. intros [_ Hb]. simpl. rewrite (tight_dom _ _ _ Hb). apply held_pos. Qed.

(** [current] put back under [l]. *)
Definition restore (l : InputLease) (a : ActiveInputSession) (s : InputSessionState)
  : InputSessionState := set_active (<[l := a]> (active s)) s.

Lemma native_key_ups n zs :
  native_apply n ((fun k => Key k false false) <$> zs) =
  {| native_keys := native_keys n ∖ list_to_set zs; native_buttons := native_buttons n |}.
Proof.
  revert n. induction zs as [|z zs IH]; intros n; simpl.
  - destruct n; simpl. f_equal. set_solver.
  - unfold native_apply in *. simpl. rewrite IH. simpl. f_equal. set_solver.
Qed.
Lemma native_button_ups n zs :
  native_apply n ((fun b => PointerButton b false 1) <$> zs) =
  {| native_keys := native_keys n; native_buttons := native_buttons n ∖ list_to_set zs |}.
Proof.
  revert n. induction zs as [|z zs IH]; intros n; simpl.
  - destruct n; simpl. f_equal. set_solver.
  - unfold native_apply in *. simpl. rewrite IH. simpl. f_equal. set_solver.
Qed.
Lemma native_gestures n gs : native_apply n (SystemGesture <$> gs) = n.
Proof. revert n. induction gs as [|g gs IH]; intros n; [done|]. apply IH. Qed.
End native.

(** *** The session being normalised *)

Section normalize.
Context `{!InputCore} `{!GestureCore} `{!DrainOrder}.

Definition ind {K} `{Countable K} (s : gset K) (k : K) : Z := if decide (k ∈ s) then 1 else 0.

(** The only session [current], taken out of the table while its events are handled. *)
Record inner (l : InputLease) (st : InputSessionState) (cur : ActiveInputSession) : Prop := {
  inner_alone : active st = ∅;
  inner_lease : lease cur = l;
  inner_keys : tight (pressed_key_counts st) (ind (pressed_keys cur));
  inner_buttons : tight (pressed_button_counts st) (ind (pressed_buttons cur));
}.

Lemma held_singleton {K} `{Countable K} (f : ActiveInputSession -> gset K) l a k :
  held f {[l := a]} k = ind (f a) k.
Proof.
  unfold ind. rewrite <- insert_empty, held_insert by apply lookup_empty.
  unfold held. rewrite msum_empty. lia.
Qed.

Lemma inner_restore l st cur : inner l st cur -> wf (restore l cur st).
Proof.
  intros [Ha Hl Hk Hb]. unfold restore. rewrite Ha, insert_empty. split; simpl.
  - split; (eapply tight_ext; [eassumption|]; intros; simpl; by rewrite held_singleton).
  - by rewrite map_size_singleton.
  - intros l' a [<- <-]%lookup_singleton_Some. done.
Qed.

Lemma wf_alone s l a : wf s -> active s !! l = Some a -> active s = {[l := a]}.
Proof.
  intros [_ Hs _] Hl. rewrite <- (insert_delete_id _ _ _ Hl), <- insert_empty. f_equal.
  apply map_size_empty_inv. rewrite map_size_delete_Some by eauto. lia.
Qed.

Lemma wf_inner s l cur :
  wf s -> active s !! l = Some cur -> inner l (set_active (delete l (active s)) s) cur.
Proof.
  intros Hwf Hl. pose proof (wf_alone s l cur Hwf Hl) as Ha. destruct Hwf as [[Hk Hb] _ Hls].
  rewrite Ha in Hk, Hb. split; simpl.
  - rewrite Ha. apply delete_singleton_eq.
  - by apply Hls.
  - eapply tight_ext; [exact Hk|]. intros. apply held_singleton.
  - eapply tight_ext; [exact Hb|]. intros. apply held_singleton.
Qed.

Lemma ind_cases {K} `{Countable K} (s : gset K) k :
  (k ∈ s /\ ind s k = 1) \/ (k ∉ s /\ ind s k = 0).
Proof. unfold ind. case_decide; auto. Qed.

Lemma ind_add {K} `{Countable K} (s : gset K) k k' :
  k ∉ s -> (if decide (k = k') then ind s k' + 1 else ind s k') = ind ({[k]} ∪ s) k'.
Proof. intros. unfold ind. repeat case_decide; try lia; set_solver. Qed.
Lemma ind_remove {K} `{Countable K} (s : gset K) k k' :
  k ∈ s -> (if decide (k = k') then ind s k' - 1 else ind s k') = ind (s ∖ {[k]}) k'.
Proof. intros. unfold ind. repeat case_decide; try lia; set_solver. Qed.
Lemma ind_clear {K} `{Countable K} (s : gset K) values k :
  values ≡ₚ elements s -> (if decide (k ∈ values) then ind s k - 1 else ind s k) = ind ∅ k.
Proof.
  intros Hp. unfold ind. rewrite (decide_False (P := k ∈ ∅)) by apply not_elem_of_empty.
  destruct (decide (k ∈ values)) as [Hin|Hin]; rewrite Hp, elem_of_elements in Hin.
  - rewrite decide_True by done. lia.
  - by rewrite decide_False.
Qed.

Lemma release_session_spec l st cur :
  inner l st cur ->
  let '(st', cur', out) := release_session_state st cur in
  inner l st' cur' /\ native_apply (native_of st) out = native_of st'
  /\ dom (pressed_key_counts st') = ∅ /\ dom (pressed_button_counts st') = ∅
  /\ pressed_keys cur' = ∅ /\ pressed_buttons cur' = ∅ /\ device_id cur' = device_id cur.
Proof.
  intros [Ha Hl Hk Hb]. unfold release_session_state.
  destruct (gesture_cancel (system_gesture cur)) as [g cancelled].
  destruct (release_counts_spec (fun k => Key k false false) (drain_keys (pressed_keys cur)) _ _ Hk)
    as (zk & Ek & Tk & Dk).
  { rewrite drain_keys_perm. apply NoDup_elements. }
  { intros v. rewrite drain_keys_perm, elem_of_elements. intros. unfold ind.
    by rewrite decide_True. }
  destruct (release_counts_spec (fun b => PointerButton b false 1)
    (drain_buttons (pressed_buttons cur)) _ _ Hb) as (zb & Eb & Tb & Db).
  { rewrite drain_buttons_perm. apply NoDup_elements. }
  { intros v. rewrite drain_buttons_perm, elem_of_elements. intros. unfold ind.
    by rewrite decide_True. }
  destruct (release_counts _ (drain_keys _) _) as [ck ok].
  destruct (release_counts _ (drain_buttons _) _) as [cb ob]. simpl in *.
  injection Ek as ->. injection Eb as ->.
  assert (tight ck (ind ∅)) as Tk0.
  { eapply tight_ext; [exact Tk|]. intros k. apply ind_clear, drain_keys_perm. }
  assert (tight cb (ind ∅)) as Tb0.
  { eapply tight_ext; [exact Tb|]. intros k. apply ind_clear, drain_buttons_perm. }
  split; [by split|]. split.
  { rewrite !native_apply_app, native_gestures, native_key_ups, native_button_ups. simpl.
    unfold native_of. simpl. by rewrite Dk, Db. }
  split; [|split; [|done]]; apply set_eq; intros k.
  - rewrite (tight_dom _ _ _ Tk0). unfold ind.
    rewrite decide_False by apply not_elem_of_empty. set_solver.
  - rewrite (tight_dom _ _ _ Tb0). unfold ind.
    rewrite decide_False by apply not_elem_of_empty. set_solver.
Qed.

Lemma native_of_eq st st' :
  dom (pressed_key_counts st') = dom (pressed_key_counts st) ->
  dom (pressed_button_counts st') = dom (pressed_button_counts st) ->
  native_of st' = native_of st.
Proof. unfold native_of. by intros -> ->. Qed.

Lemma normalize_key_spec now l st cur k down repeat st' cur' out :
  inner l st cur -> normalize_event now st cur (Key k down repeat) = Some (st', cur', out) ->
  inner l st' cur' /\ native_apply (native_of st) out = native_of st' /\ device_id cur' = device_id cur.
Proof.
  intros Hi. pose proof Hi as [Ha Hl Hk Hb]. simpl.
  destruct down.
  + destruct (bool_decide (k ∉ pressed_keys cur)) eqn:Hin; bool_arith.
    * destruct (ind_cases (pressed_keys cur) k) as [[? _]|[_ E0]]; [done|].
      destruct (counter_press _ _ k Hk) as (T & D & G); [lia|]. rewrite G, E0. simpl.
      intros [= <- <- <-]. split; [|split; [|done]].
      -- split; [done|done| |done]. simpl. eapply tight_ext; [exact T|].
         intros. by apply ind_add.
      -- unfold native_of. simpl. by rewrite D.
    * apply dec_stable in Hin.
      assert (k ∈ dom (pressed_key_counts st)).
      { apply (tight_dom _ _ _ Hk). unfold ind. by rewrite decide_True. }
      destruct repeat; intros [= <- <- <-]; [|done].
      split; [done|]. split; [|done]. unfold native_of. simpl. f_equal. set_solver.
  + destruct (bool_decide (k ∈ pressed_keys cur)) eqn:Hin; bool_arith;
      [|by intros [= <- <- <-]].
    destruct (ind_cases (pressed_keys cur) k) as [[_ E1]|[? _]]; [|done].
    destruct (decrement_count_spec _ _ k Hk) as (T & D & L); [lia|].
    destruct (decrement_count (pressed_key_counts st) k) as [c last]. simpl in *.
    rewrite (proj2 L E1) in *. intros [= <- <- <-]. split; [|split; [|done]].
    * split; [done|done| |done]. simpl. eapply tight_ext; [exact T|].
      intros. by apply ind_remove.
    * unfold native_of. simpl. by rewrite D.
Qed.

Lemma normalize_button_spec now l st cur b down clicks st' cur' out :
  inner l st cur -> normalize_event now st cur (PointerButton b down clicks) = Some (st', cur', out) ->
  inner l st' cur' /\ native_apply (native_of st) out = native_of st' /\ device_id cur' = device_id cur.
Proof.
  intros Hi. pose proof Hi as [Ha Hl Hk Hb]. simpl.
  destruct down.
  + destruct (bool_decide (b ∉ pressed_buttons cur)) eqn:Hin; bool_arith;
      [|by intros [= <- <- <-]].
    destruct (ind_cases (pressed_buttons cur) b) as [[? _]|[_ E0]]; [done|].
    destruct (counter_press _ _ b Hb) as (T & D & G); [lia|]. rewrite G, E0. simpl.
    intros [= <- <- <-]. split; [|split; [|done]].
    * split; [done|done|done|]. simpl. eapply tight_ext; [exact T|].
      intros. by apply ind_add.
    * unfold native_of. simpl. by rewrite D.
  + destruct (bool_decide (b ∈ pressed_buttons cur)) eqn:Hin; bool_arith;
      [|by intros [= <- <- <-]].
    destruct (ind_cases (pressed_buttons cur) b) as [[_ E1]|[? _]]; [|done].
    destruct (decrement_count_spec _ _ b Hb) as (T & D & L); [lia|].
    destruct (decrement_count (pressed_button_counts st) b) as [c last]. simpl in *.
    rewrite (proj2 L E1) in *. intros [= <- <- <-]. split; [|split; [|done]].
    * split; [done|done|done|]. simpl. eapply tight_ext; [exact T|].
      intros. by apply ind_remove.
    * unfold native_of. simpl. by rewrite D.
Qed.

Lemma normalize_event_spec now l st cur e st' cur' out :
  inner l st cur -> normalize_event now st cur e = Some (st', cur', out) ->
  inner l st' cur' /\ native_apply (native_of st) out = native_of st'
  /\ device_id cur' = device_id cur.
Proof.
  intros Hi. destruct e as [k down repeat|b down clicks| | |g| | |]; try (by intros [= <- <- <-]).
  - by apply normalize_key_spec.
  - by apply normalize_button_spec.
  - simpl. intros [= E]. pose proof (release_session_spec l st cur Hi) as Hr.
    rewrite E in Hr. naive_solver.
  - simpl. pose proof Hi as [Ha Hl Hk Hb]. destruct (gesture_apply _ g) as [[seq phases]|]; [|done]. intros [= <- <- <-].
    split; [by split|]. split; [apply native_gestures|done].
Qed.

Lemma normalize_events_spec now i l st cur es st' cur' out :
  inner l st cur -> normalize_events now i st cur es = Some (st', cur', out) ->
  inner l st' cur' /\ native_apply (native_of st) out = native_of st'
  /\ device_id cur' = device_id cur.
Proof.
  revert i st cur st' cur' out. induction es as [|e es IH]; intros i st cur st' cur' out Hi;
    cbn [normalize_events]; [by intros [= <- <- <-]|].
  destruct (normalize_event (now i) st cur e) as [[[st1 cur1] out1]|] eqn:E1; [|done].
  destruct (normalize_events now (S i) st1 cur1 es) as [[[st2 cur2] out2]|] eqn:E2; [|done].
  intros [= <- <- <-]. destruct (normalize_event_spec _ _ _ _ _ _ _ _ Hi E1) as (Hi1 & N1 & D1).
  destruct (IH _ _ _ _ _ _ Hi1 E2) as (Hi2 & N2 & D2).
  split; [done|]. split; [|congruence]. by rewrite native_apply_app, N1.
Qed.

(** The [expect] in the loop cannot fail after the validation pass. *)
Lemma normalize_events_total now i st cur es :
  validate_gestures es = Ok tt -> is_Some (normalize_events now i st cur es).
Proof.
  revert i st cur. induction es as [|e es IH]; intros i st cur Hv; [by eexists|].
  cbn [normalize_events].
  assert (is_Some (normalize_event (now i) st cur e) /\ validate_gestures es = Ok tt)
    as [[[[st1 cur1] out1] E1] Hes].
  { destruct e as [k down repeat|b down clicks| | |g| | |]; simpl in *; try (split; [by eexists|done]).
    - split; [|done]. destruct down; case_bool_decide; try by eexists.
      destruct (decrement_count _ _). by eexists.
    - split; [|done]. destruct down; case_bool_decide; try by eexists.
      destruct (decrement_count _ _). by eexists.
    - apply rbind_Ok in Hv as ([] & Hg & Hv). split; [|done].
      destruct (gesture_apply_validated (system_gesture cur) g Hg) as (s' & o & ->). by eexists. }
  rewrite E1. destruct (IH (S i) st1 cur1 Hes) as [[[st2 cur2] out2] ->]. by eexists.
Qed.
End normalize.

(** ** Histories *)

Section histories.
Context `{!InputCore} `{!GestureCore} `{!DrainOrder}.

Lemma update_session_wf s l a a' :
  wf s -> active s !! l = Some a -> pressed_keys a' = pressed_keys a ->
  pressed_buttons a' = pressed_buttons a -> lease a' = lease a -> wf (restore l a' s).
Proof.
  intros [[Ck Cb] Hs Hl] Ha Hk Hb Hla. split; simpl.
  - split; simpl.
    + eapply tight_ext; [exact Ck|]. intros k. symmetry. by eapply held_update.
    + eapply tight_ext; [exact Cb|]. intros k. symmetry. by eapply held_update.
  - rewrite map_size_insert_Some by eauto. done.
  - intros l' a'' [[<- <-]|[_ ?]]%lookup_insert_Some; [|by apply Hl]. rewrite Hla. by apply Hl.
Qed.

Lemma restore_same s l a : active s !! l = Some a -> restore l a s = s.
Proof. intros Ha. unfold restore, set_active. rewrite insert_id by done. by destruct s. Qed.

Lemma accept_reliable_wf t0 now l d seq el s :
  wf s -> wf (accept_reliable t0 now l d seq el s).1
  /\ native_of (accept_reliable t0 now l d seq el s).1 = native_of s.
Proof.
  intros Hwf. unfold accept_reliable. destruct (active s !! l) as [a|] eqn:Ha; [|done].
  destruct (validate_owner a l d); [|done]. destruct (_ >=? INPUT_LEASE_TIMEOUT); [done|].
  destruct (negb _); [done|]. destruct (_ <? _); [done|].
  destruct (_ >=? MAX_RELIABLE_FRAMES_PER_SECOND);
    (split; [|done]); by apply (update_session_wf s l a).
Qed.

Lemma accept_motion_cases t0 now l d pt st precise s :
  (exists e, accept_ordered_motion t0 now l d pt st precise s = (s, Err e))
  \/ exists a delta, active s !! l = Some a /\ validate_owner a l d = Ok tt
     /\ accept_ordered_motion t0 now l d pt st precise s =
        (restore l (set_totals pt.1 pt.2 st.1 st.2 now a) s, Ok delta)
     /\ pointer_x_256 delta = pt.1 - pointer_total_x_256 a
     /\ pointer_y_256 delta = pt.2 - pointer_total_y_256 a
     /\ scroll_x_256 delta = st.1 - scroll_total_x_256 a
     /\ scroll_y_256 delta = st.2 - scroll_total_y_256 a
     /\ Z.abs (pointer_x_256 delta) <= 2 ^ 21 /\ Z.abs (pointer_y_256 delta) <= 2 ^ 21
     /\ Z.abs (scroll_x_256 delta) <= 2 ^ 19 /\ Z.abs (scroll_y_256 delta) <= 2 ^ 19.
Proof.
  unfold accept_ordered_motion. destruct (active s !! l) as [a|] eqn:Ha; [|eauto].
  destruct (validate_owner a l d) as [[]|] eqn:Ho; [|eauto]. cbn [rbind].
  destruct (negb _); [|eauto].
  destruct (checked_sub_i64 pt.1 _) as [px|] eqn:E1; [|eauto].
  destruct (checked_sub_i64 pt.2 _) as [py|] eqn:E2; [|eauto].
  destruct (checked_sub_i64 st.1 _) as [sx|] eqn:E3; [|eauto].
  destruct (checked_sub_i64 st.2 _) as [sy|] eqn:E4; [|eauto].
  cbn [ok_or rbind]. destruct (negb _) eqn:Hb; [|eauto].
  right. eexists a, _. split; [done|]. split; [done|]. split; [reflexivity|]. simpl.
  assert (forall x y z, checked_sub_i64 x y = Some z -> z = x - y) as Hsub.
  { intros x y z. unfold checked_sub_i64. destruct (_ && _); [|done]. by intros [= <-]. }
  apply Hsub in E1, E2, E3, E4. bool_arith.
  change (8192 * 256) with (2 ^ 21) in *. change (2048 * 256) with (2 ^ 19) in *. lia.
Qed.

Lemma accept_motion_wf t0 now l d pt st precise s :
  wf s -> wf (accept_ordered_motion t0 now l d pt st precise s).1
  /\ native_of (accept_ordered_motion t0 now l d pt st precise s).1 = native_of s.
Proof.
  intros Hwf. destruct (accept_motion_cases t0 now l d pt st precise s)
    as [[e ->]|(a & delta & Ha & _ & -> & _)]; [done|].
  split; [|done]. by apply (update_session_wf s l a).
Qed.

Lemma normalize_wf now l d es s s' r :
  wf s -> normalize_reliable_events now l d es s = Some (s', r) ->
  wf s' /\ match r with
           | Ok out => native_apply (native_of s) out = native_of s'
           | Err _ => s' = s
           end.
Proof.
  intros Hwf. unfold normalize_reliable_events.
  destruct (validate_gestures es) as [u|u]; [|by intros [= <- <-]].
  destruct (active s !! l) as [a|] eqn:Ha; [|by intros [= <- <-]].
  destruct (validate_owner a l d) as [[]|m]; cycle 1.
  { intros [= Hs <-]. assert (s' = s) as ->; [|done]. rewrite <- Hs.
    rewrite insert_delete_id by done. by destruct s. }
  destruct (normalize_events _ _ _ _ _) as [[[st cur] out]|] eqn:E; [|done].
  intros [= <- <-]. pose proof (wf_inner s l a Hwf Ha) as Hi.
  destruct (normalize_events_spec _ _ _ _ _ _ _ _ _ Hi E) as (Hi' & Hn & _).
  split; [by apply inner_restore|]. exact Hn.
Qed.

Lemma cancel_idle_wf t0 l d s :
  wf s -> wf (cancel_idle_system_gesture t0 l d s).1
  /\ native_apply (native_of s) (cancel_idle_system_gesture t0 l d s).2
     = native_of (cancel_idle_system_gesture t0 l d s).1.
Proof.
  intros Hwf. unfold cancel_idle_system_gesture. destruct (active s !! l) as [a|] eqn:Ha; [|done].
  destruct (_ || _); [done|]. destruct (gesture_cancel _) as [g c]. simpl.
  split; [by apply (update_session_wf s l a)|]. apply native_gestures.
Qed.

Lemma release_wf l s :
  wf s -> wf (release l s).1
  /\ native_apply (native_of s) (release l s).2 = native_of (release l s).1
  /\ (is_Some (active s !! l) -> active (release l s).1 = ∅
        /\ native_of (release l s).1 = native_of new).
Proof.
  intros Hwf. unfold release. destruct (active s !! l) as [a|] eqn:Ha;
    [|split; [done|]; split; [done|]; by intros []].
  pose proof (release_session_spec l _ a (wf_inner s l a Hwf Ha)) as Hr.
  destruct (release_session_state _ a) as [[st cur] out]. simpl.
  destruct Hr as ([Hal _ Hk Hb] & Hn & Dk & Db & Pk & Pb & _). rewrite Pk in Hk. rewrite Pb in Hb.
  split; [|split; [exact Hn|]].
  - split; [|rewrite Hal, map_size_empty; lia|intros l' a'; by rewrite Hal, lookup_empty].
    split; rewrite Hal;
      (eapply tight_ext; [eassumption|]; intros k; unfold ind, held;
       rewrite msum_empty; rewrite decide_False by apply not_elem_of_empty; done).
  - intros _. split; [done|]. by apply native_of_eq.
Qed.

Lemma acquire_cases draws now d routed s s' r :
  acquire_with_routing draws now d routed s = Some (s', r) ->
  (exists e, r = Err e /\ s' = s /\ active s <> ∅)
  \/ exists l, r = Ok l /\ active s = ∅ /\ s' = restore l (fresh_session l d now routed) s
     /\ 0 < session_id l <= i64_max /\ epoch l <> 0.
Proof.
  unfold acquire_with_routing. destruct (map_to_list (active s)).*2 as [|a rest] eqn:Hm.
  - assert (active s = ∅) as He.
    { apply map_to_list_empty_iff. by destruct (map_to_list (active s)). }
    destruct (List.find _ _) as [l|] eqn:Hf; [|done]. intros [= <- <-]. right. exists l.
    repeat (split; [done|]). apply List.find_some in Hf as [Hin _].
    rewrite <- list_elem_of_In in Hin. apply list_elem_of_fmap in Hin as ([x y] & -> & _).
    unfold lease_of_draw. simpl. assert (0 <= Z.land x i64_max <= i64_max) as Hr.
    { unfold i64_max. change (2 ^ 63 - 1) with (Z.ones 63). rewrite Z.land_ones by lia.
      pose proof (Z.mod_pos_bound x (2 ^ 63) eq_refl). change (Z.ones 63) with (2 ^ 63 - 1). lia. }
    destruct (Z.land x i64_max =? 0) eqn:E; destruct (y =? 0) eqn:E2; bool_arith;
      unfold i64_max in *; lia.
  - intros [= <- <-]. left. eexists. split; [done|]. split; [done|]. intros He.
    rewrite He, map_to_list_empty in Hm. done.
Qed.

Lemma acquire_wf draws now d routed s s' r :
  wf s -> acquire_with_routing draws now d routed s = Some (s', r) ->
  wf s' /\ native_of s' = native_of s.
Proof.
  intros Hwf [(e & -> & -> & _)|(l & -> & He & -> & _)]%acquire_cases; [done|]. split; [|done].
  apply inner_restore. destruct Hwf as [[Ck Cb] _ _]. rewrite He in *.
  split; [done|done|..]; (eapply tight_ext; [eassumption|]; intros k; unfold ind, held;
    rewrite msum_empty; simpl; rewrite decide_False by apply not_elem_of_empty; done).
Qed.

(** One call of the manager, with the events it emits applied to the native input state. *)
Inductive input_step : InputSessionState * native -> InputSessionState * native -> Prop :=
| step_acquire draws now d routed s n s' r :
    acquire_with_routing draws now d routed s = Some (s', r) -> input_step (s, n) (s', n)
| step_reliable t0 now l d seq el s n :
    input_step (s, n) ((accept_reliable t0 now l d seq el s).1, n)
| step_motion t0 now l d pt st precise s n :
    input_step (s, n) ((accept_ordered_motion t0 now l d pt st precise s).1, n)
| step_normalize now l d es s n s' out :
    normalize_reliable_events now l d es s = Some (s', Ok out) ->
    input_step (s, n) (s', native_apply n out)
| step_normalize_err now l d es s n s' e :
    normalize_reliable_events now l d es s = Some (s', Err e) -> input_step (s, n) (s', n)
| step_cancel t0 l d s n :
    input_step (s, n) ((cancel_idle_system_gesture t0 l d s).1,
                       native_apply n (cancel_idle_system_gesture t0 l d s).2)
| step_release l s n :
    input_step (s, n) ((release l s).1, native_apply n (release l s).2).

Lemma input_step_inv c c' :
  input_step c c' -> wf c.1 -> c.2 = native_of c.1 -> wf c'.1 /\ c'.2 = native_of c'.1.
Proof.
  intros [] Hwf; simpl in *; intros ->.
  - eapply acquire_wf in Hwf as [? ?]; [|done]. auto.
  - destruct (accept_reliable_wf t0 now l d seq el s Hwf). auto.
  - destruct (accept_motion_wf t0 now l d pt st precise s Hwf). auto.
  - eapply normalize_wf in Hwf as [? ?]; [|done]. auto.
  - eapply normalize_wf in Hwf as [? Heq]; [|done]. simpl in Heq. by subst.
  - by apply cancel_idle_wf.
  - destruct (release_wf l s Hwf) as (? & ? & _). auto.
Qed.

Lemma session_new_wf : wf new.
Proof.
  split; [split|simpl; rewrite map_size_empty; lia|]; simpl.
  - eapply tight_ext; [apply tight_empty|]. intros. unfold held. by rewrite msum_empty.
  - eapply tight_ext; [apply tight_empty|]. intros. unfold held. by rewrite msum_empty.
  - intros l a. by rewrite lookup_empty.
Qed.
End histories.

(** *** Rate limit *)

Section rate.
Context `{!InputCore} `{!GestureCore} `{!DrainOrder}.

(** The calls of the manager, reliable frames on a monotone clock, with the times at which reliable
    frames were accepted since the last session began. *)
Record Rated := {
  rt_clock : Z;
  rt_state : InputSessionState;
  rt_frames : list Z;
}.
Definition set_rated (s : InputSessionState) (x : Rated) : Rated :=
  {| rt_clock := rt_clock x; rt_state := s; rt_frames := rt_frames x |}.
Inductive rated_step (x : Rated) : Rated -> Prop :=
| rated_acquire draws now d routed s' l :
    acquire_with_routing draws now d routed (rt_state x) = Some (s', Ok l) ->
    rated_step x {| rt_clock := rt_clock x; rt_state := s'; rt_frames := [] |}
| rated_refuse draws now d routed s' e :
    acquire_with_routing draws now d routed (rt_state x) = Some (s', Err e) ->
    rated_step x (set_rated s' x)
| rated_reliable t0 now l d seq el s' r :
    rt_clock x <= now -> accept_reliable t0 now l d seq el (rt_state x) = (s', r) ->
    rated_step x {| rt_clock := now; rt_state := s';
                    rt_frames := if is_ok r then rt_frames x ++ [now] else rt_frames x |}
| rated_motion t0 now l d pt st precise :
    rated_step x (set_rated (accept_ordered_motion t0 now l d pt st precise (rt_state x)).1 x)
| rated_normalize now l d es s' r :
    normalize_reliable_events now l d es (rt_state x) = Some (s', r) -> rated_step x (set_rated s' x)
| rated_cancel t0 l d : rated_step x (set_rated (cancel_idle_system_gesture t0 l d (rt_state x)).1 x)
| rated_release l : rated_step x (set_rated (release l (rt_state x)).1 x).

(** No 241 accepted frames fit in a second. *)
Definition spaced (h : list Z) : Prop :=
  forall i x y, h !! i = Some x -> h !! (i + 240)%nat = Some y -> from_secs 1 <= y - x.

Lemma spaced_snoc h now :
  spaced h -> (forall x, h !! (length h - 240)%nat = Some x -> (240 <= length h)%nat ->
    from_secs 1 <= now - x) -> spaced (h ++ [now]).
Proof.
  intros Hs Hn i x y Hx Hy. destruct (decide (i + 240 < length h)%nat) as [Hlt|Hge].
  - rewrite lookup_app_l in Hx, Hy by lia. by eapply Hs.
  - apply lookup_app_Some in Hy as [Hy|[Hle Hy]]; [apply lookup_lt_Some in Hy; lia|].
    apply list_lookup_singleton_Some in Hy as [Hi <-].
    assert (i = (length h - 240)%nat) as -> by lia.
    rewrite lookup_app_l in Hx by lia. apply Hn; [done|lia].
Qed.

Lemma drop_old_frames_split now f :
  exists old, f = old ++ drop_old_frames now f /\ Forall (fun x => from_secs 1 <= now - x) old.
Proof.
  induction f as [|x f (old & E & Ho)]; cbn [drop_old_frames]; [by exists []|].
  destruct (_ >=? _) eqn:Hx.
  - exists (x :: old). simpl. rewrite <- E. split; [done|]. constructor; [|done].
    rewrite Z.geb_leb in Hx. bool_arith. unfold duration_since, from_secs in *. lia.
  - by exists [].
Qed.

(** The remembered frames are the tail of the history; what was forgotten is a second old. *)
Definition window (m : Z) (h : list Z) (s : InputSessionState) : Prop :=
  forall l a, active s !! l = Some a ->
    exists old, h = old ++ reliable_frames a /\ Forall (fun x => from_secs 1 <= m - x) old.

Lemma window_later m m' h s : m <= m' -> window m h s -> window m' h s.
Proof.
  intros Hm Hw l a Ha. destruct (Hw l a Ha) as (old & -> & Ho). exists old. split; [done|].
  eapply Forall_impl; [exact Ho|]. simpl. intros. lia.
Qed.
Lemma window_reliable m h t0 now l d seq el s s' r :
  wf s -> m <= now -> spaced h -> window m h s -> accept_reliable t0 now l d seq el s = (s', r) ->
  let h' := if is_ok r then h ++ [now] else h in spaced h' /\ window now h' s'.
Proof.
  intros Hwf Hm Hs Hw%(window_later m now); [|done]. unfold accept_reliable.
  destruct (active s !! l) as [cur|] eqn:Ha; [|by intros [= <- <-]].
  destruct (validate_owner cur l d); [|by intros [= <- <-]].
  destruct (_ >=? INPUT_LEASE_TIMEOUT); [by intros [= <- <-]|].
  destruct (negb _); [by intros [= <- <-]|]. destruct (_ <? _); [by intros [= <- <-]|].
  destruct (Hw l cur Ha) as (old & Hh & Ho). pose proof (wf_alone _ _ _ Hwf Ha) as Halone.
  destruct (drop_old_frames_split now (reliable_frames cur)) as (old2 & E & Ho2).
  set (kept := drop_old_frames now (reliable_frames cur)) in *.
  assert (Forall (fun x => from_secs 1 <= now - x) (old ++ old2)) as Hold by (apply Forall_app; auto).
  rewrite E, app_assoc in Hh.
  destruct (_ >=? MAX_RELIABLE_FRAMES_PER_SECOND) eqn:Hr; rewrite Z.geb_leb in Hr; bool_arith;
    unfold MAX_RELIABLE_FRAMES_PER_SECOND in Hr; intros [= <- <-]; cbn [is_ok].
  - split; [done|]. intros l' a'. simpl. rewrite Halone, insert_singleton_eq.
    intros [_ <-]%lookup_singleton_Some. simpl. eauto.
  - split.
    + apply spaced_snoc; [done|]. intros x Hx Hlen. subst h.
      rewrite lookup_app_l in Hx by (rewrite length_app in *; lia). by eapply Forall_lookup_1 in Hold.
    + intros l' a'. simpl. rewrite Halone, insert_singleton_eq. intros [_ <-]%lookup_singleton_Some.
      exists (old ++ old2). simpl. split; [|done]. by rewrite Hh, <- app_assoc.
Qed.

(** The other calls leave the remembered frames of a session alone. *)
Definition keeps_frames (s s' : InputSessionState) : Prop :=
  forall l a', active s' !! l = Some a' ->
    exists a, active s !! l = Some a /\ reliable_frames a' = reliable_frames a.
Lemma keeps_frames_refl s : keeps_frames s s.
Proof. intros l a Ha. by exists a. Qed.
Lemma keeps_frames_insert s s' l a a' :
  active s !! l = Some a -> reliable_frames a' = reliable_frames a ->
  active s' = <[l := a']> (active s) -> keeps_frames s s'.
Proof.
  intros Ha Hf E l' b. rewrite E, lookup_insert_Some. intros [[<- <-]|[_ Hb]]; eauto.
Qed.
Lemma normalize_event_frames now st cur e st' cur' o :
  normalize_event now st cur e = Some (st', cur', o) ->
  reliable_frames cur' = reliable_frames cur /\ active st' = active st.
Proof.
  unfold normalize_event, release_session_state. intros Hn.
  repeat (case_match; simplify_eq; try done).
Qed.
Lemma normalize_events_frames now i st cur es st' cur' o :
  normalize_events now i st cur es = Some (st', cur', o) ->
  reliable_frames cur' = reliable_frames cur /\ active st' = active st.
Proof.
  revert i st cur st' cur' o. induction es as [|e es IH]; intros i st cur st' cur' o;
    cbn [normalize_events]; [by intros [= <- <- _]|].
  destruct (normalize_event (now i) st cur e) as [[[st1 cur1] o1]|] eqn:E1; [|done].
  destruct (normalize_events now (S i) st1 cur1 es) as [[[st2 cur2] o2]|] eqn:E2; [|done].
  intros [= <- <- _]. apply normalize_event_frames in E1 as [<- <-]. by eapply IH.
Qed.
Lemma normalize_frames now l d es s s' r :
  normalize_reliable_events now l d es s = Some (s', r) -> keeps_frames s s'.
Proof.
  unfold normalize_reliable_events. destruct (validate_gestures es) as [[]|];
    [|intros [= <- _]; apply keeps_frames_refl].
  destruct (active s !! l) as [a|] eqn:Ha; [|intros [= <- _]; apply keeps_frames_refl].
  destruct (validate_owner a l d) as [[]|].
  - destruct (normalize_events now 0 _ a es) as [[[st cur] o]|] eqn:E; [|done]. intros [= <- _].
    apply normalize_events_frames in E as [Ef Ea]. eapply keeps_frames_insert; [done|exact Ef|].
    simpl. rewrite Ea. simpl. by rewrite insert_delete_eq.
  - intros [= <- _]. eapply keeps_frames_insert; [done|done|]. simpl. by rewrite insert_delete_eq.
Qed.
Lemma release_frames l s : keeps_frames s (release l s).1.
Proof.
  unfold release. destruct (active s !! l) as [a|]; [|apply keeps_frames_refl].
  unfold release_session_state. repeat case_match. simplify_eq/=. intros l' b.
  cbn [active set_button_counts set_key_counts set_active]. intros [_ Hb]%lookup_delete_Some. eauto.
Qed.
Lemma window_kept m h s s' : keeps_frames s s' -> window m h s -> window m h s'.
Proof. intros Hk Hw l a' (a & Ha & ->)%Hk. by eapply Hw. Qed.

Record rated_inv (x : Rated) : Prop := {
  ri_wf : wf (rt_state x);
  ri_spaced : spaced (rt_frames x);
  ri_window : window (rt_clock x) (rt_frames x) (rt_state x);
}.
Lemma rated_kept x s : rated_inv x -> wf s -> keeps_frames (rt_state x) s -> rated_inv (set_rated s x).
Proof. intros [I1 I2 I3] Hwf Hk. split; simpl; [done|done|]. by eapply window_kept. Qed.
Lemma rated_step_inv x x' : rated_step x x' -> rated_inv x -> rated_inv x'.
Proof.
  intros Hs Hi. pose proof Hi as [I1 I2 I3].
  destruct Hs as [draws now d routed s' l Hacq|draws now d routed s' e Hacq|t0 now l d seq el s' r Hn Hacc
    |t0 now l d pt st precise|now l d es s' r Hnorm|t0 l d|l].
  - destruct (acquire_wf _ _ _ _ _ _ _ I1 Hacq) as [Hwf _].
    apply acquire_cases in Hacq as [(? & [=] & _)|(l' & _ & He & -> & _)]. split; simpl; [done|done|].
    intros l0 a. simpl. rewrite He, insert_empty. intros [_ <-]%lookup_singleton_Some. by exists [].
  - apply acquire_cases in Hacq as [(? & _ & -> & _)|(? & [=] & _)]. by apply rated_kept; [..|apply keeps_frames_refl].
  - destruct (window_reliable _ _ _ _ _ _ _ _ _ _ _ I1 Hn I2 I3 Hacc) as [? ?]. split; simpl; [|done|done].
    pose proof (accept_reliable_wf t0 now l d seq el _ I1) as [Hwf _]. by rewrite Hacc in Hwf.
  - apply rated_kept; [done|by apply accept_motion_wf|].
    destruct (accept_motion_cases t0 now l d pt st precise (rt_state x))
      as [[e ->]|(a & delta & Ha & _ & -> & _)]; [apply keeps_frames_refl|].
    by eapply (keeps_frames_insert _ _ l a); [done| |done].
  - apply rated_kept; [done|by eapply normalize_wf|by eapply normalize_frames].
  - apply rated_kept; [done|by apply cancel_idle_wf|]. unfold cancel_idle_system_gesture.
    destruct (active (rt_state x) !! l) as [a|] eqn:Ha; [|apply keeps_frames_refl].
    destruct (_ || _); [apply keeps_frames_refl|]. destruct (gesture_cancel _).
    by eapply (keeps_frames_insert _ _ l a); [done| |done].
  - apply rated_kept; [done|by apply release_wf|apply release_frames].
Qed.
End rate.

(** *** Motion *)

Section motion.
Context `{!InputCore} `{!GestureCore} `{!DrainOrder}.

Record motion := {
  mo_t0 : Z;
  mo_now : Z;
  mo_pointer : Z * Z;
  mo_scroll : Z * Z;
  mo_precise : bool;
}.

(** The deltas delivered for a run of cumulative totals, and the state after it. *)
Fixpoint deltas (l : InputLease) (d : string) (ms : list motion) (s : InputSessionState)
  : list MotionDelta * InputSessionState :=
  match ms with
  | [] => ([], s)
  | m :: ms =>
    match accept_ordered_motion (mo_t0 m) (mo_now m) l d (mo_pointer m) (mo_scroll m)
            (mo_precise m) s with
    | (s', Ok delta) => let '(ds, s'') := deltas l d ms s' in (delta :: ds, s'')
    | (s', Err _) => deltas l d ms s'
    end
  end.

Definition total (f : MotionDelta -> Z) (ds : list MotionDelta) : Z :=
  fold_right (fun delta acc => f delta + acc) 0 ds.

(** [amount / 256] is exact in an [f32]: 24 bits of significand hold the amount. *)
Definition f32_exact (delta : MotionDelta) : Prop :=
  Z.abs (pointer_x_256 delta) < 2 ^ 24 /\ Z.abs (pointer_y_256 delta) < 2 ^ 24
  /\ Z.abs (scroll_x_256 delta) < 2 ^ 24 /\ Z.abs (scroll_y_256 delta) < 2 ^ 24.

Lemma deltas_spec l d ms s cur :
  active s !! l = Some cur ->
  exists cur', active (deltas l d ms s).2 !! l = Some cur'
    /\ total pointer_x_256 (deltas l d ms s).1 = pointer_total_x_256 cur' - pointer_total_x_256 cur
    /\ total pointer_y_256 (deltas l d ms s).1 = pointer_total_y_256 cur' - pointer_total_y_256 cur
    /\ total scroll_x_256 (deltas l d ms s).1 = scroll_total_x_256 cur' - scroll_total_x_256 cur
    /\ total scroll_y_256 (deltas l d ms s).1 = scroll_total_y_256 cur' - scroll_total_y_256 cur
    /\ Forall f32_exact (deltas l d ms s).1.
Proof.
  revert s cur. induction ms as [|m ms IH]; intros s cur Ha; cbn [deltas].
  { exists cur. simpl. split; [done|]. do 4 (split; [lia|]). done. }
  destruct (accept_motion_cases (mo_t0 m) (mo_now m) l d (mo_pointer m) (mo_scroll m)
    (mo_precise m) s) as [[e ->]|(a & delta & Ha' & _ & -> & P1 & P2 & P3 & P4 & B)];
    [by apply IH|].
  assert (a = cur) as -> by congruence.
  destruct (IH (restore l (set_totals (mo_pointer m).1 (mo_pointer m).2 (mo_scroll m).1
    (mo_scroll m).2 (mo_now m) cur) s) _ (lookup_insert_eq _ _ _))
    as (cur' & Hc & T1 & T2 & T3 & T4 & Hf).
  destruct (deltas l d ms _) as [ds s2]. simpl in *. exists cur'. split; [done|].
  do 4 (split; [lia|]). constructor; [|done]. unfold f32_exact. lia.
Qed.
End motion.

(** ** Properties *)

Section properties.
Context `{!InputCore} `{!GestureCore} `{!DrainOrder}.

(** C19: on every history of calls, with the emitted events applied to the machine's keyboard and
    mouse: at most one session exists, a key or button is physically down exactly when that
    session holds it, and when no session exists nothing is left pressed. *)
Theorem input_session_invariant s n :
  rtc input_step (new, native_of new) (s, n) ->
  (size (active s) <= 1)%nat
  /\ (forall k, k ∈ native_keys n <-> exists l a, active s !! l = Some a /\ k ∈ pressed_keys a)
  /\ (forall b, b ∈ native_buttons n <->
        exists l a, active s !! l = Some a /\ b ∈ pressed_buttons a)
  /\ (active s = ∅ -> native_keys n = ∅ /\ native_buttons n = ∅).
Proof.
  intros Hr. remember (new, native_of new) as c eqn:E. remember (s, n) as c' eqn:E'.
  assert (wf c'.1 /\ c'.2 = native_of c'.1) as [Hwf Hn].
  { assert (wf c.1 /\ c.2 = native_of c.1) as Hc by (subst; split; [apply session_new_wf|done]).
    clear E E'. induction Hr as [|c1 c2 c3 Hs _ IH]; [done|]. apply IH.
    destruct Hc. by eapply input_step_inv. }
  subst c'. simpl in *. subst n. pose proof (wf_counts s Hwf) as Hc.
  split; [apply Hwf|]. split; [intros; by apply native_of_held|].
  split; [intros; by apply native_of_held_buttons|]. intros He.
  split; apply set_eq; intros x;
    [rewrite native_of_held by done | rewrite native_of_held_buttons by done];
    (split; [intros (l & a & Ha & _); rewrite He in Ha; by rewrite lookup_empty in Ha
            |by intros ?%not_elem_of_empty]).
Qed.

(** Input control is exclusive: a lease is granted only while nobody holds one, with an id
    in the positive 63-bit range and a non-zero epoch; otherwise the request fails and changes
    nothing.  Releasing a lease frees the machine completely: every held key and button is
    released and the next request is granted on its first draw. *)
Theorem input_lease_exclusive draws now d routed s s' r l draw0 :
  wf s -> acquire_with_routing draws now d routed s = Some (s', r) ->
  match r with
  | Ok l => active s = ∅ /\ active s' = {[l := fresh_session l d now routed]}
            /\ 0 < session_id l <= i64_max /\ epoch l <> 0
  | Err _ => active s <> ∅ /\ s' = s
  end
  /\ (is_Some (active s !! l) ->
      native_apply (native_of s) (release l s).2 = native_of new
      /\ exists s2 l2, acquire_with_routing [draw0] now d routed (release l s).1 = Some (s2, Ok l2)).
Proof.
  intros Hwf Hacq. split.
  - apply acquire_cases in Hacq as [(e & -> & -> & He)|(l' & -> & He & -> & Hid)]; [done|].
    split; [done|]. split; [|done]. simpl. by rewrite He.
  - intros Hl. destruct (release_wf l s Hwf) as (_ & Hn & Hr). destruct (Hr Hl) as [He Hn0].
    split; [by rewrite Hn|]. unfold acquire_with_routing. rewrite He, map_to_list_empty. simpl.
    rewrite lookup_empty. simpl. eauto.
Qed.

(** A lease is bound to the authenticated device: calls for a lease held by another device
    fail (or emit nothing) and leave the whole session state as it was. *)
Theorem input_owner_isolation t0 now clock l d seq el pt st precise es s a :
  wf s -> active s !! l = Some a -> device_id a <> d -> validate_gestures es = Ok tt ->
  accept_reliable t0 now l d seq el s = (s, Err "input session identity mismatch"%string)
  /\ accept_ordered_motion t0 now l d pt st precise s
     = (s, Err "input session identity mismatch"%string)
  /\ normalize_reliable_events clock l d es s
     = Some (s, Err "input session identity mismatch"%string)
  /\ cancel_idle_system_gesture t0 l d s = (s, [])
  /\ is_workspace_routed l d s = false /\ is_expired t0 l d s = false.
Proof.
  intros Hwf Ha Hd Hv.
  assert (validate_owner a l d = Err "input session identity mismatch"%string) as Ho.
  { unfold validate_owner, str_eqb. rewrite (bool_decide_false (device_id a = d)) by done.
    by rewrite orb_true_r. }
  unfold accept_reliable, accept_ordered_motion, normalize_reliable_events,
    cancel_idle_system_gesture, is_workspace_routed, is_expired, str_eqb.
  rewrite Ha, Ho, Hv, (bool_decide_false (device_id a = d)) by done. simpl.
  repeat (split; [done|]). split; [|done]. rewrite insert_delete_id by done. by destruct s.
Qed.

(** C40: the reliable channel is rate limited.  Whatever calls of the manager follow each other,
    from whatever device, with reliable frames on a monotone clock: of the frames accepted since a
    session began, no 241 lie within one second.  (A new session starts a new count.) *)
Theorem reliable_rate_limited t x :
  rtc rated_step {| rt_clock := t; rt_state := new; rt_frames := [] |} x -> spaced (rt_frames x).
Proof.
  intros Hr. refine (ri_spaced _ (rtc_ind_r rated_inv _ _ (fun y z _ => rated_step_inv y z) x Hr)).
  split; simpl; [apply session_new_wf|done|]. intros l a Ha. simpl in Ha. by rewrite lookup_empty in Ha.
Qed.

(** Reliable frames are accepted strictly in order: acceptance means the next sequence
    number, a client clock that did not move back and a lease that has not expired, and records
    exactly that number; a refused frame leaves sequence, clock and activity as they were. *)
Theorem accept_reliable_ordered t0 now l d seq el s cur :
  active s !! l = Some cur -> 0 <= reliable_sequence cur < u64_max ->
  match accept_reliable t0 now l d seq el s with
  | (s', Ok fb) => seq = reliable_sequence cur + 1 /\ reliable_elapsed_us cur <= el
      /\ t0 - last_activity cur < INPUT_LEASE_TIMEOUT /\ feedback_reliable_sequence fb = seq
      /\ exists cur', active s' !! l = Some cur' /\ reliable_sequence cur' = seq
         /\ reliable_elapsed_us cur' = el /\ last_activity cur' = now
  | (s', Err _) => exists cur', active s' !! l = Some cur'
      /\ reliable_sequence cur' = reliable_sequence cur
      /\ reliable_elapsed_us cur' = reliable_elapsed_us cur
      /\ last_activity cur' = last_activity cur /\ pressed_keys cur' = pressed_keys cur
  end.
Proof.
  intros Ha Hs. unfold accept_reliable. rewrite Ha. destruct (validate_owner cur l d); [|eauto 7].
  destruct (_ >=? INPUT_LEASE_TIMEOUT) eqn:G1; [eauto 7|].
  destruct (seq =? _) eqn:G2; simpl; [|eauto 7]. destruct (el <? _) eqn:G3; [eauto 7|].
  destruct (_ >=? MAX_RELIABLE_FRAMES_PER_SECOND) eqn:G4; simpl; rewrite lookup_insert_eq.
  - eexists. split; [reflexivity|]. done.
  - rewrite Z.geb_leb in G1. bool_arith. unfold sat_add, duration_since in *.
    split; [lia|]. split; [lia|]. split; [lia|]. split; [done|]. eexists. split; [reflexivity|].
    done.
Qed.

(** Cumulative motion loses and invents nothing: over any run of totals, accepted or
    refused, the deltas delivered add up to the change of the session's totals, and each delta is
    small enough to be exact as an [f32] of 1/256 units. *)
Theorem motion_deltas_telescope l d ms s cur :
  active s !! l = Some cur ->
  exists cur', active (deltas l d ms s).2 !! l = Some cur'
    /\ total pointer_x_256 (deltas l d ms s).1 = pointer_total_x_256 cur' - pointer_total_x_256 cur
    /\ total pointer_y_256 (deltas l d ms s).1 = pointer_total_y_256 cur' - pointer_total_y_256 cur
    /\ total scroll_x_256 (deltas l d ms s).1 = scroll_total_x_256 cur' - scroll_total_x_256 cur
    /\ total scroll_y_256 (deltas l d ms s).1 = scroll_total_y_256 cur' - scroll_total_y_256 cur
    /\ Forall f32_exact (deltas l d ms s).1.
Proof. apply deltas_spec. Qed.

(** Normalisation never panics: whatever batch of events arrives in whatever state, the call
    returns a result, because gestures are validated before any of them is applied. *)
Theorem normalize_never_panics clock l d es s :
  is_Some (normalize_reliable_events clock l d es s).
Proof.
  unfold normalize_reliable_events. destruct (validate_gestures es) as [[]|] eqn:Hv; [|eauto].
  destruct (active s !! l) as [a|]; [|eauto]. destruct (validate_owner a l d); [|eauto].
  destruct (normalize_events_total clock 0 (set_active (delete l (active s)) s) a es Hv)
    as [[[st cur] out] ->]. eauto.
Qed.
End properties.

(** *** Witnesses *)

Definition toy_drain : DrainOrder :=
  {| drain_keys := elements; drain_buttons := elements;
     drain_keys_perm := fun s => reflexivity (elements s);
     drain_buttons_perm := fun s => reflexivity (elements s) |}.
#[local] Existing Instance toy_input.
#[local] Existing Instance toy_gesture.
#[local] Existing Instance toy_drain.

Definition wlease : InputLease := {| session_id := 7; epoch := 3 |}.
Definition wcur : ActiveInputSession := fresh_session wlease "phone" 0 false.
Definition wsession : InputSessionState := restore wlease wcur new.
Definition wpressed : option (InputSessionState * result (list InputEvent) string) :=
  normalize_reliable_events (fun _ => 1) wlease "phone" [Key 4 true false] wsession.

Lemma wacquire :
  acquire_with_routing [(7, 3)] 0 "phone" false new = Some (wsession, Ok wlease).
Proof. vm_compute. reflexivity. Qed.
Lemma wsession_wf : wf wsession.
Proof. eapply acquire_wf; [apply session_new_wf|apply wacquire]. Qed.

Lemma input_session_invariant_witness :
  exists s n, wpressed = Some (s, Ok [Key 4 true false])
    /\ (4 ∈ native_keys n <-> exists l a, active s !! l = Some a /\ 4 ∈ pressed_keys a).
Proof.
  destruct wpressed as [[s [out|]]|] eqn:E; [|vm_compute in E; discriminate E..].
  exists s, (native_apply (native_of new) out).
  assert (out = [Key 4 true false]) as ->.
  { assert (option_map snd wpressed = Some (Ok [Key 4 true false])) as E'
      by (vm_compute; reflexivity). rewrite E in E'. by injection E'. }
  split; [reflexivity|].
  apply (input_session_invariant s (native_apply (native_of new) [Key 4 true false])).
  eapply rtc_l; [eapply step_acquire, wacquire|].
  eapply rtc_l; [eapply step_normalize, E|]. apply rtc_refl.
Defined.

Lemma input_lease_exclusive_witness :
  active (new (H := toy_input)) = ∅.
Proof.
  apply (input_lease_exclusive [(7, 3)] 0 "phone" false new wsession (Ok wlease) wlease (1, 1)
    session_new_wf wacquire).
Defined.

Lemma input_owner_isolation_witness :
  accept_reliable 1 1 wlease "tablet" 1 1 wsession
  = (wsession, Err "input session identity mismatch"%string).
Proof.
  apply (input_owner_isolation 1 1 (fun _ => 1) wlease "tablet" 1 1 (0, 0) (0, 0) true [] wsession
    wcur wsession_wf); [reflexivity|discriminate|reflexivity].
Defined.

Definition wframes : Rated :=
  {| rt_clock := 1;
     rt_state := (accept_reliable 1 1 wlease "phone" 1 5 wsession).1;
     rt_frames := [1] |}.
Lemma reliable_rate_limited_witness : spaced (rt_frames wframes).
Proof.
  apply (reliable_rate_limited 0).
  eapply rtc_l; [eapply (rated_acquire _ [(7, 3)] 0 "phone" false); vm_compute; reflexivity|].
  eapply rtc_l; [eapply (rated_reliable _ 1 1 wlease "phone" 1 5); [simpl; lia|vm_compute; reflexivity]|].
  apply rtc_refl.
Defined.

Lemma accept_reliable_ordered_witness :
  exists s' fb, accept_reliable 1 1 wlease "phone" 1 5 wsession = (s', Ok fb)
    /\ feedback_reliable_sequence fb = 1.
Proof.
  pose proof (accept_reliable_ordered 1 1 wlease "phone" 1 5 wsession wcur eq_refl
    ltac:(vm_compute; split; congruence)) as H.
  destruct (accept_reliable 1 1 wlease "phone" 1 5 wsession) as [s' [fb|]] eqn:E.
  - exists s', fb. split; [reflexivity|apply H].
  - exfalso. assert (is_ok (accept_reliable 1 1 wlease "phone" 1 5 wsession).2 = true) as E'
      by (vm_compute; reflexivity). rewrite E in E'. discriminate E'.
Defined.

Lemma motion_deltas_telescope_witness :
  total pointer_x_256 (deltas wlease "phone"
    [{| mo_t0 := 1; mo_now := 1; mo_pointer := (384, -128); mo_scroll := (0, 0);
        mo_precise := true |};
     {| mo_t0 := 2; mo_now := 2; mo_pointer := (512, -64); mo_scroll := (0, 0);
        mo_precise := true |}] wsession).1 = 512.
Proof.
  destruct (motion_deltas_telescope wlease "phone"
    [{| mo_t0 := 1; mo_now := 1; mo_pointer := (384, -128); mo_scroll := (0, 0);
        mo_precise := true |};
     {| mo_t0 := 2; mo_now := 2; mo_pointer := (512, -64); mo_scroll := (0, 0);
        mo_precise := true |}] wsession wcur eq_refl) as (cur' & Hc & -> & _).
  assert (pointer_total_x_256 <$> (active (deltas wlease "phone"
    [{| mo_t0 := 1; mo_now := 1; mo_pointer := (384, -128); mo_scroll := (0, 0);
        mo_precise := true |};
     {| mo_t0 := 2; mo_now := 2; mo_pointer := (512, -64); mo_scroll := (0, 0);
        mo_precise := true |}] wsession).2 !! wlease) = Some 512) as E by (vm_compute; reflexivity).
  rewrite Hc in E. simpl in E. injection E as ->. reflexivity.
Defined.

End InputSession.
