(* ===== verification/Text.v ===== *)
(** * Bounded text

    Models [truncate_utf8] and [bounded_action_output] of
    [src/server/proto_handler/requests/commands.rs] and [sanitize_text] with its numeric
    neighbours of [.../requests/snapshots.rs], over the UTF-8 encoding of the prelude. *)

From Stdlib Require Import ZArith Lia Ascii String.
From stdpp Require Import base tactics option list strings.
From S2P Require Import Prelude.

Module Text.

Definition MAX_ACTION_OUTPUT_LINE_BYTES : Z := 16 * 1024.
Definition MAX_ACTION_OUTPUT_LINES : Z := 500.
Definition MAX_ACTION_OUTPUT_SNAPSHOT_BYTES : Z := 512 * 1024.

(** The [while] loop that moves [end] back to a character boundary. *)
Fixpoint back_to_boundary (value : string) (e : nat) : nat :=
  if is_char_boundary value e then e
  else match e with
       | O => O
       | S e => back_to_boundary value e
       end.

Definition truncate_utf8 (value : string) (maximum : nat) : string :=
  if Nat.leb (String.length value) maximum then value
  else str_take (back_to_boundary value maximum) value.

(** The loop of [bounded_action_output] over the reversed lines. *)
Fixpoint take_lines (lines : list string) (selected : list string) (total : Z) : list string :=
  match lines with
  | [] => selected
  | line :: lines =>
    if Z.of_nat (length selected) >=? MAX_ACTION_OUTPUT_LINES then selected else
    let line := truncate_utf8 line (Z.to_nat MAX_ACTION_OUTPUT_LINE_BYTES) in
    if sat_add usize_max total (slen line) >? MAX_ACTION_OUTPUT_SNAPSHOT_BYTES then selected
    else take_lines lines (line :: selected) (usize_add total (slen line))
  end.

Definition bounded_action_output (lines : list string) : list string :=
  take_lines (reverse lines) [] 0.

Definition sanitize_text (value : string) (maximum : nat) : string :=
  truncate_utf8 (of_chars ((fun c => if is_control c then 0x20 else c) <$> chars value)) maximum.

Definition protocol_u64 (value : Z) : Z := Z.min value i64_max.
Definition protocol_timestamp (now_ms value : Z) : Z := if value >? 0 then value else Z.max now_ms 1.

(** ** Encoding lemmas *)

Definition byte_range (x : Z) : Prop := 0 <= x < 256.

Lemma code_unit_of z : byte_range z -> code (unit_of z) = z.
Proof.
  intros Hz. unfold code, unit_of. rewrite N_ascii_embedding; [by rewrite Z2N.id by (unfold byte_range in Hz; lia)|].
  unfold byte_range in Hz. lia.
Qed.
Lemma unit_of_code a : unit_of (code a) = a.
Proof. unfold code, unit_of. by rewrite N2Z.id, ascii_N_embedding. Qed.

Lemma units_of_units l : Forall byte_range l -> units (of_units l) = l.
Proof.
  intros Hl. unfold units, of_units. rewrite list_ascii_of_string_of_list_ascii.
  induction Hl as [|x l Hx _ IH]; [done|]. rewrite !fmap_cons, code_unit_of by done. by rewrite IH.
Qed.
Lemma of_units_units s : of_units (units s) = s.
Proof.
  unfold units, of_units. rewrite <- (string_of_list_ascii_of_string s) at 2. f_equal.
  induction (list_ascii_of_string s) as [|a l IH]; [done|]. rewrite !fmap_cons, unit_of_code. by rewrite IH.
Qed.
Lemma length_units s : length (units s) = String.length s.
Proof. unfold units. rewrite length_fmap. by induction s; simpl; congruence. Qed.
Lemma units_str_take n s : units (str_take n s) = take n (units s).
Proof.
  unfold str_take, units. revert n. induction s as [|a s IH]; intros [|n]; simpl; try done.
  by rewrite IH.
Qed.

(** The bytes of one character: a leading byte and continuation bytes. *)
Lemma encode_char_shape c :
  scalar c -> exists lead conts, encode_char c = lead :: conts /\ is_continuation lead = false
    /\ Forall (fun b => is_continuation b = true) conts /\ Forall byte_range (lead :: conts).
Proof.
  intros Hc. assert (0 <= c <= 0x10FFFF) as Hr by (unfold scalar in Hc; lia).
  assert (forall x, is_continuation (128 + x mod 64) = true /\ byte_range (128 + x mod 64)) as Hcont.
  { intros x. pose proof (Z.mod_pos_bound x 64 eq_refl). unfold is_continuation, byte_range.
    split; [|lia]. apply andb_true_iff. split; [apply Z.leb_le|apply Z.ltb_lt]; lia. }
  assert (forall lead, 0 <= lead < 128 \/ 192 <= lead < 256 ->
    is_continuation lead = false /\ byte_range lead) as Hlead.
  { intros x Hx. unfold is_continuation, byte_range. split; [|lia].
    apply andb_false_iff. destruct Hx; [left; apply Z.leb_gt|right; apply Z.ltb_ge]; lia. }
  unfold encode_char. destruct (c <? 0x80) eqn:E1; [|destruct (c <? 0x800) eqn:E2;
    [|destruct (c <? 0x10000) eqn:E3]]; bool_arith.
  - exists c, []. destruct (Hlead c); [lia|]. repeat split; auto.
  - eexists _, _. split; [reflexivity|].
    assert (0 <= c / 64 < 32) by (split; [apply Z.div_pos; lia|apply Z.div_lt_upper_bound; lia]).
    destruct (Hlead (192 + c / 64)); [lia|]. destruct (Hcont c). auto.
  - eexists _, _. split; [reflexivity|].
    assert (0 <= c / 4096 < 16) by (split; [apply Z.div_pos; lia|apply Z.div_lt_upper_bound; lia]).
    destruct (Hlead (224 + c / 4096)); [lia|]. destruct (Hcont c), (Hcont (c / 64)). auto 10.
  - eexists _, _. split; [reflexivity|].
    assert (0 <= c / 262144 < 8) by (split; [apply Z.div_pos; lia|apply Z.div_lt_upper_bound; lia]).
    destruct (Hlead (240 + c / 262144)); [lia|].
    destruct (Hcont c), (Hcont (c / 64)), (Hcont (c / 4096)). auto 10.
Qed.

Lemma encode_utf8_bytes cs : Forall scalar cs -> Forall byte_range (encode_utf8 cs).
Proof.
  induction 1 as [|c cs Hc _ IH]; [done|]. unfold encode_utf8. simpl. apply Forall_app.
  split; [|done]. destruct (encode_char_shape c Hc) as (lead & conts & -> & _ & _ & ?). done.
Qed.

Lemma encode_utf8_app cs1 cs2 : encode_utf8 (cs1 ++ cs2) = encode_utf8 cs1 ++ encode_utf8 cs2.
Proof. unfold encode_utf8. by rewrite fmap_app, concat_app. Qed.

Lemma units_of_chars cs : Forall scalar cs -> units (of_chars cs) = encode_utf8 cs.
Proof. intros. by apply units_of_units, encode_utf8_bytes. Qed.

(** A position that is not inside a character splits the characters. *)
Lemma boundary_splits cs e :
  Forall scalar cs -> (e <= length (encode_utf8 cs))%nat ->
  (forall b, encode_utf8 cs !! e = Some b -> is_continuation b = false) ->
  exists cs1 cs2, cs = cs1 ++ cs2 /\ take e (encode_utf8 cs) = encode_utf8 cs1.
Proof.
  intros Hcs. revert e. induction Hcs as [|c cs Hc Hcs IH]; intros e He Hb.
  { exists [], []. split; [done|]. by destruct e. }
  destruct (encode_char_shape c Hc) as (lead & conts & Ec & Hl & Hconts & _).
  assert (encode_utf8 (c :: cs) = (lead :: conts) ++ encode_utf8 cs) as E
    by (unfold encode_utf8; simpl; by rewrite Ec).
  rewrite E in *. destruct e as [|e]; [exists [], (c :: cs); done|].
  destruct (decide (e < length conts)%nat) as [Hin|Hout].
  - exfalso. destruct (lookup_lt_is_Some_2 conts e Hin) as [b Hcb].
    assert (is_continuation b = false) as Hf.
    { apply Hb. simpl. by rewrite lookup_app_l. }
    pose proof (Forall_lookup_1 _ _ _ _ Hconts Hcb). simpl in *. congruence.
  - rewrite length_app in He. simpl in He.
    destruct (IH (e - length conts)%nat) as (cs1 & cs2 & -> & Ht); [lia| |].
    { intros b Hcb. apply Hb. simpl. rewrite lookup_app_r by lia. done. }
    exists (c :: cs1), cs2. split; [done|]. rewrite take_app_ge by (simpl; lia).
    simpl length. replace (S e - S (length conts))%nat with (e - length conts)%nat by lia.
    rewrite Ht. unfold encode_utf8 at 2. simpl. by rewrite Ec.
Qed.

Lemma back_to_boundary_spec s e :
  (back_to_boundary s e <= e)%nat /\ is_char_boundary s (back_to_boundary s e) = true
  /\ forall i, (back_to_boundary s e < i <= e)%nat -> is_char_boundary s i = false.
Proof.
  induction e as [|e (IH1 & IH2 & IH3)]; cbn [back_to_boundary].
  - change (is_char_boundary s 0) with true. split; [lia|]. split; [done|]. lia.
  - destruct (is_char_boundary s (S e)) eqn:E; [split; [lia|]; split; [done|lia]|].
    split; [lia|]. split; [done|]. intros i Hi.
    destruct (decide (i = S e)) as [->|]; [done|]. apply IH3. lia.
Qed.

Lemma boundary_lookup s e b :
  (0 < e)%nat -> is_char_boundary s e = true -> units s !! e = Some b -> is_continuation b = false.
Proof.
  intros He. destruct e; [lia|]. unfold is_char_boundary. intros Hb Hu. rewrite Hu in Hb.
  by apply negb_true_iff in Hb.
Qed.

(** Characters are at most four bytes, so truncation loses at most three bytes more than asked. *)
Lemma boundary_near cs e :
  Forall scalar cs -> (e <= length (encode_utf8 cs))%nat ->
  exists i, (e < i + 4)%nat /\ (i <= e)%nat /\ is_char_boundary (of_chars cs) i = true.
Proof.
  intros Hcs. revert e.
  assert (forall i, (i = 0%nat \/ i = length (encode_utf8 cs) \/
    exists b, encode_utf8 cs !! i = Some b /\ is_continuation b = false) ->
    is_char_boundary (of_chars cs) i = true) as Hb.
  { intros i. unfold is_char_boundary. rewrite units_of_chars by done.
    rewrite <- length_units, units_of_chars by done. destruct i; [done|].
    intros [?|[->|(b & -> & ->)]]; [done| |done].
    rewrite lookup_ge_None_2 by lia. by rewrite Nat.eqb_refl. }
  assert (forall e, (e <= length (encode_utf8 cs))%nat ->
    exists i, (e < i + 4)%nat /\ (i <= e)%nat /\ (i = 0%nat \/ i = length (encode_utf8 cs) \/
      exists b, encode_utf8 cs !! i = Some b /\ is_continuation b = false)) as Hn.
  { clear Hb. induction Hcs as [|c cs Hc Hcs IH]; intros e He.
    { exists 0%nat. simpl in *. lia. }
    destruct (encode_char_shape c Hc) as (lead & conts & Ec & Hl & Hconts & _).
    assert (length conts <= 3)%nat as H3.
    { assert (length (encode_char c) <= 4)%nat as H4
        by (unfold encode_char; repeat case_match; simpl; lia). rewrite Ec in H4. simpl in H4. lia. }
    assert (encode_utf8 (c :: cs) = (lead :: conts) ++ encode_utf8 cs) as E
      by (unfold encode_utf8; simpl; by rewrite Ec).
    rewrite E in *. rewrite length_app in *. simpl length in *.
    destruct (decide (e <= length conts)%nat) as [Hin|Hout].
    - exists 0%nat. split; [lia|]. split; [lia|by left].
    - destruct (IH (e - S (length conts))%nat) as (i & H1 & H2 & Hi); [lia|].
      exists (i + S (length conts))%nat. split; [lia|]. split; [lia|].
      destruct Hi as [->|[->|(b & Hb & Hcb)]].
      + destruct (encode_utf8 cs !! 0%nat) as [b|] eqn:Hb0.
        * right. right. exists b. simpl. rewrite lookup_app_r by lia.
          rewrite Nat.sub_diag. split; [done|].
          destruct cs as [|c' cs']; [done|]. apply Forall_cons_1 in Hcs as [Hc' _].
          destruct (encode_char_shape c' Hc') as (lead' & conts' & Ec' & Hl' & _).
          unfold encode_utf8 in Hb0. simpl in Hb0. rewrite Ec' in Hb0. simpl in Hb0. congruence.
        * right. left. apply lookup_ge_None in Hb0. lia.
      + right. left. lia.
      + right. right. exists b. split; [|done]. rewrite lookup_app_r by (simpl; lia).
        simpl length. by replace (i + S (length conts) - S (length conts))%nat with i by lia. }
  intros e He. destruct (Hn e He) as (i & ? & ? & Hi). exists i. auto.
Qed.

Lemma truncate_length v m : (String.length (truncate_utf8 v m) <= m)%nat.
Proof.
  unfold truncate_utf8. destruct (Nat.leb_spec (String.length v) m); [done|].
  rewrite <- length_units, units_str_take, length_take.
  pose proof (back_to_boundary_spec v m). lia.
Qed.

Lemma truncate_chars cs m :
  Forall scalar cs ->
  exists cs1 cs2, cs = cs1 ++ cs2 /\ truncate_utf8 (of_chars cs) m = of_chars cs1.
Proof.
  intros Hcs. unfold truncate_utf8. destruct (Nat.leb_spec (String.length (of_chars cs)) m).
  { exists cs, []. by rewrite app_nil_r. }
  destruct (back_to_boundary_spec (of_chars cs) m) as (B1 & B2 & _).
  set (e := back_to_boundary (of_chars cs) m) in *.
  rewrite <- length_units, units_of_chars in H by done.
  destruct (boundary_splits cs e Hcs) as (cs1 & cs2 & E & Ht); [lia| |].
  { intros b Hb. destruct e as [|e'] eqn:He.
    - destruct cs as [|c cs]; [done|]. apply Forall_cons_1 in Hcs as [Hc _].
      destruct (encode_char_shape c Hc) as (lead & conts & Ec & Hl & _).
      unfold encode_utf8 in Hb. simpl in Hb. rewrite Ec in Hb. simpl in Hb. congruence.
    - eapply (boundary_lookup (of_chars cs) (S e')); [lia|done|]. by rewrite units_of_chars. }
  exists cs1, cs2. split; [done|].
  rewrite <- (of_units_units (str_take e (of_chars cs))), units_str_take, units_of_chars by done.
  by rewrite Ht.
Qed.

(** ** Properties *)

(** Truncation keeps text well formed: on every valid UTF-8 string the result is at most
    [maximum] bytes, consists of the leading characters of the input, whole, and is as long as
    possible: it is the input, or a further character would start within four bytes of the
    limit. *)
Theorem truncate_utf8_sound cs m :
  Forall scalar cs ->
  (String.length (truncate_utf8 (of_chars cs) m) <= m)%nat
  /\ (exists cs1 cs2, cs = cs1 ++ cs2 /\ truncate_utf8 (of_chars cs) m = of_chars cs1)
  /\ (truncate_utf8 (of_chars cs) m = of_chars cs
      \/ (m < String.length (truncate_utf8 (of_chars cs) m) + 4)%nat).
Proof.
  intros Hcs. split; [apply truncate_length|]. split; [by apply truncate_chars|].
  unfold truncate_utf8. destruct (Nat.leb_spec (String.length (of_chars cs)) m); [by left|]. right.
  rewrite <- (length_units (str_take _ _)), units_str_take, length_take, length_units.
  destruct (back_to_boundary_spec (of_chars cs) m) as (B1 & B2 & B3).
  destruct (boundary_near cs m Hcs) as (i & H1 & H2 & Hi).
  { rewrite <- units_of_chars by done. rewrite length_units. lia. }
  destruct (decide (back_to_boundary (of_chars cs) m < i)%nat) as [Hlt|]; [|lia].
  rewrite B3 in Hi by lia. done.
Qed.

Lemma take_lines_bound lines selected total :
  0 <= total -> total = fold_right (fun l acc => slen l + acc) 0 selected ->
  total <= MAX_ACTION_OUTPUT_SNAPSHOT_BYTES ->
  Z.of_nat (length selected) <= MAX_ACTION_OUTPUT_LINES ->
  Forall (fun l => slen l <= MAX_ACTION_OUTPUT_LINE_BYTES) selected ->
  let out := take_lines lines selected total in
  Z.of_nat (length out) <= MAX_ACTION_OUTPUT_LINES
  /\ Forall (fun l => slen l <= MAX_ACTION_OUTPUT_LINE_BYTES) out
  /\ fold_right (fun l acc => slen l + acc) 0 out <= MAX_ACTION_OUTPUT_SNAPSHOT_BYTES
  /\ exists n, out = ((fun l => truncate_utf8 l (Z.to_nat MAX_ACTION_OUTPUT_LINE_BYTES))
                        <$> reverse (take n lines)) ++ selected.
Proof.
  revert selected total. induction lines as [|line lines IH]; intros selected total Ht0 Ht Hb Hn Hl.
  { simpl. split; [done|]. split; [done|]. split; [lia|]. by exists 0%nat. }
  assert (forall b : bool, (if b then selected else selected) = selected) by (by intros []).
  assert (Z.of_nat (length selected) <= MAX_ACTION_OUTPUT_LINES
    /\ Forall (fun l => slen l <= MAX_ACTION_OUTPUT_LINE_BYTES) selected
    /\ fold_right (fun l acc => slen l + acc) 0 selected <= MAX_ACTION_OUTPUT_SNAPSHOT_BYTES
    /\ exists n, selected = ((fun l => truncate_utf8 l (Z.to_nat MAX_ACTION_OUTPUT_LINE_BYTES))
                        <$> reverse (take n (line :: lines))) ++ selected) as Hstop.
  { split; [done|]. split; [done|]. split; [lia|]. by exists 0%nat. }
  cbn [take_lines]. destruct (_ >=? MAX_ACTION_OUTPUT_LINES) eqn:G1; [done|].
  set (line' := truncate_utf8 line (Z.to_nat MAX_ACTION_OUTPUT_LINE_BYTES)).
  pose proof (truncate_length line (Z.to_nat MAX_ACTION_OUTPUT_LINE_BYTES)) as Hlen.
  fold line' in Hlen.
  assert (0 <= slen line' <= MAX_ACTION_OUTPUT_LINE_BYTES) as Hsl
    by (unfold slen, MAX_ACTION_OUTPUT_LINE_BYTES in *; lia).
  destruct (_ >? MAX_ACTION_OUTPUT_SNAPSHOT_BYTES) eqn:G2; [done|].
  rewrite Z.geb_leb in G1. bool_arith.
  unfold sat_add, MAX_ACTION_OUTPUT_SNAPSHOT_BYTES, MAX_ACTION_OUTPUT_LINES, usize_max in *.
  rewrite usize_add_exact by (unfold usize_max; lia).
  destruct (IH (line' :: selected) (total + slen line')) as (H1 & H2 & H3 & n & Hout);
    [lia|simpl; lia|lia|simpl; lia|constructor; [lia|done]|].
  split; [done|]. split; [done|]. split; [done|]. exists (S n). rewrite Hout. simpl.
  rewrite reverse_cons, fmap_app, <- app_assoc. done.
Qed.

(** The action output snapshot is bounded and is the latest output: at most 500 lines, each
    at most 16 KiB, 512 KiB together, and exactly the last lines in their order, each cut only at
    a character boundary. *)
Theorem bounded_action_output_sound lines :
  let out := bounded_action_output lines in
  Z.of_nat (length out) <= MAX_ACTION_OUTPUT_LINES
  /\ Forall (fun l => slen l <= MAX_ACTION_OUTPUT_LINE_BYTES) out
  /\ fold_right (fun l acc => slen l + acc) 0 out <= MAX_ACTION_OUTPUT_SNAPSHOT_BYTES
  /\ exists n, out = (fun l => truncate_utf8 l (Z.to_nat MAX_ACTION_OUTPUT_LINE_BYTES))
                       <$> drop n lines.
Proof.
  intros out. destruct (take_lines_bound (reverse lines) [] 0) as (H1 & H2 & H3 & n & Hn);
    [done|done|by vm_compute|by vm_compute|done|].
  split; [done|]. split; [done|]. split; [done|]. exists (length lines - n)%nat.
  unfold out, bounded_action_output. rewrite Hn, app_nil_r. f_equal.
  unfold reverse. rewrite <- !List.rev_alt, List.firstn_rev. apply List.rev_involutive.
Qed.

Lemma truncate_utf8_sound_witness :
  truncate_utf8 (of_chars [0x61%Z; 0x20AC%Z]) 3 = of_chars [0x61%Z]
  /\ (String.length (truncate_utf8 (of_chars [0x61%Z; 0x20AC%Z]) 3) <= 3)%nat.
Proof.
  split; [reflexivity|]. apply (truncate_utf8_sound [0x61%Z; 0x20AC%Z] 3).
  repeat constructor; unfold scalar; lia.
Defined.

End Text.
