(* ===== verification/Negotiation.v ===== *)
(** * Feature negotiation, receive limits and status

    Models the top of [src/server/proto_handler/requests/control.rs]: [server_features],
    [feature], [negotiate_features], [selected_feature_versions], [protocol_limits],
    [validate_receive_limits], [ok_status] and [status]. *)

From Stdlib Require Import ZArith Lia.
From stdpp Require Import base tactics option list strings gmap countable fin_maps sorting.
From S2P Require Import Prelude Proto Text.

Module Negotiation.

Definition MAX_STATUS_MESSAGE_BYTES : Z := 8 * 1024.
Definition MAX_CONCURRENT_REQUESTS : Z := 16.
Definition HEARTBEAT_TIMEOUT : Z := from_secs 45.
(** [remote_files::REMOTE_FILE_PROTOCOL_VERSION] and [clipboard_replication::VERSION]. *)
Definition REMOTE_FILE_PROTOCOL_VERSION : Z := 3.
Definition CLIPBOARD_REPLICATION_VERSION : Z := 3.

(** ** Status *)

Definition ok_status : Status :=
  {| st_code := ECOk; st_message := EmptyString; st_retryable := false; st_retry_after_ms := 0;
     st_recovery_action := RANone; st_error_id := EmptyString |}.

Definition recovery_action (code : ErrorCode) : RecoveryAction :=
  match code with
  | ECBusy | ECResourceExhausted | ECDeadlineExceeded | ECUnavailable => RARetryWithBackoff
  | ECConflict => RARefresh
  | ECInvalidArgument | ECFailedPrecondition => RAChangeRequest
  | _ => RANone
  end.

(** [fresh_id] is the formatted random id of an internal error. *)
Definition status (fresh_id : string) (code : ErrorCode) (message : string) : Status :=
  let action := recovery_action code in
  let message := Text.truncate_utf8 message (Z.to_nat MAX_STATUS_MESSAGE_BYTES) in
  let internal := bool_decide (code = ECInternal) in
  {| st_code := code;
     st_message := if internal then "operation failed internally"%string else message;
     st_retryable := match action with RARetry | RARetryWithBackoff => true | _ => false end;
     st_retry_after_ms := 0;
     st_recovery_action := action;
     st_error_id := if internal then fresh_id else EmptyString |}.

(** ** Features *)

(** [proto::FeatureVersion]. *)
Record FeatureVersion := {
  fv_feature : Z;
  min_version : Z;
  max_version : Z;
}.

Definition fv_le (a b : FeatureVersion) : Prop := fv_feature a <= fv_feature b.
#[global] Instance fv_le_dec : RelDecision fv_le.
Proof. intros a b. unfold fv_le. apply _. Defined.
#[global] Instance fv_le_total : Total fv_le.
Proof. intros a b. unfold fv_le. lia. Qed.

Section features.
Context `{!FeatureCodes}.

Definition feature (f : Feature) : FeatureVersion :=
  let version := if bool_decide (f = FRemoteFiles) then REMOTE_FILE_PROTOCOL_VERSION else 1 in
  {| fv_feature := feature_code f; min_version := version;
     max_version := if bool_decide (f = FClipboardSync) then CLIPBOARD_REPLICATION_VERSION
                    else version |}.

(** The features pushed by [server_features], before its sort; [input_supported] is
    [permission_state() != Unsupported]. *)
Definition offered_features (actions notifications remote_files input_supported workspace : bool)
  : list Feature :=
  [FSubscriptions; FSystem; FProcesses; FMedia; FClipboard; FClipboardSync; FWindows; FBlobs]
  ++ (if actions then [FActions] else [])
  ++ (if notifications then [FNotifications] else [])
  ++ (if remote_files then [FRemoteFiles] else [])
  ++ (if input_supported
      then FInputReliable :: (if workspace then [FWorkspaceInput] else []) else []).

Definition server_features (actions notifications remote_files input_supported workspace : bool)
  : list FeatureVersion :=
  merge_sort fv_le
    (feature <$> offered_features actions notifications remote_files input_supported workspace).

(** The validation loop: the ranges seen so far, by feature. *)
Fixpoint client_ranges (client : list FeatureVersion) (ranges : gmap Z (Z * Z))
  : result (gmap Z (Z * Z)) string :=
  match client with
  | [] => Ok ranges
  | f :: client =>
    if negb (feature_known (fv_feature f))
       || (fv_feature f =? feature_code FUnspecified)
       || (min_version f =? 0)
       || (min_version f >? max_version f)
       || bool_decide (is_Some (ranges !! fv_feature f))
    then Err "invalid client feature range"%string
    else client_ranges client (<[fv_feature f := (min_version f, max_version f)]> ranges)
  end.

Definition select_feature (ranges : gmap Z (Z * Z)) (selected : gmap Z Z) (f : FeatureVersion)
  : gmap Z Z :=
  match ranges !! fv_feature f with
  | None => selected
  | Some (client_min, client_max) =>
    let minimum := Z.max client_min (min_version f) in
    let maximum := Z.min client_max (max_version f) in
    if minimum <=? maximum then <[fv_feature f := maximum]> selected else selected
  end.

Definition negotiate_features (client server : list FeatureVersion)
  : result (gmap Z Z) string :=
  ensure Z.of_nat (length client) <=? 64 else "too many client features"%string in
  let? ranges := client_ranges client ∅ in
  Ok (fold_left (select_feature ranges) server ∅).

End features.

Definition selected_feature_versions (features : gmap Z Z) : list FeatureVersion :=
  merge_sort fv_le
    ((fun kv => {| fv_feature := kv.1; min_version := kv.2; max_version := kv.2 |})
       <$> map_to_list features).

(** ** Limits *)

(** [proto::ProtocolLimits]. *)
Record ProtocolLimits := {
  max_control_frame_bytes : Z;
  max_reliable_input_frame_bytes : Z;
  max_datagram_bytes : Z;
  max_concurrent_requests : Z;
  heartbeat_interval_ms : Z;
  heartbeat_timeout_ms : Z;
  max_blob_chunk_bytes : Z;
  max_remote_file_message_bytes : Z;
  max_remote_file_content_bytes : Z;
  max_print_chunk_bytes : Z;
  max_print_document_bytes : Z;
}.

(** [x as u32]. *)
Definition as_u32 (x : Z) : Z := x mod 2 ^ 32.
Definition sat_mul_u32 (a b : Z) : Z := Z.min u32_max (a * b).

Section limits.
Context `{!FeatureCodes} `{!WireLimits}.

Definition protocol_limits : ProtocolLimits :=
  {| max_control_frame_bytes := as_u32 MAX_CONTROL_FRAME_SIZE;
     max_reliable_input_frame_bytes := as_u32 MAX_RELIABLE_INPUT_FRAME_SIZE;
     max_datagram_bytes := as_u32 MAX_DATAGRAM_SIZE;
     max_concurrent_requests := as_u32 MAX_CONCURRENT_REQUESTS;
     heartbeat_interval_ms := 15000;
     heartbeat_timeout_ms := as_u32 (HEARTBEAT_TIMEOUT / 1000000);
     max_blob_chunk_bytes := as_u32 MAX_BLOB_CHUNK_SIZE;
     max_remote_file_message_bytes := as_u32 MAX_REMOTE_FILE_MESSAGE_SIZE;
     max_remote_file_content_bytes := MAX_REMOTE_FILE_CONTENT_SIZE;
     max_print_chunk_bytes := as_u32 MAX_PRINT_DOCUMENT_CHUNK_SIZE;
     max_print_document_bytes := MAX_PRINT_DOCUMENT_SIZE |}.

Definition offers (features : list FeatureVersion) (f : Feature) : bool :=
  existsb (fun candidate => fv_feature candidate =? feature_code f) features.

Definition invalid (field : string) : string :=
  ("invalid client receive limit: " +:+ field)%string.

Definition validate_receive_limits (limits : option ProtocolLimits)
  (features : list FeatureVersion) : result unit string :=
  let? limits := ok_or limits "client receive limits are required"%string in
  ensure (4096 <=? max_control_frame_bytes limits)
         && (max_control_frame_bytes limits <=? as_u32 MAX_CONTROL_FRAME_SIZE)
    else invalid "max_control_frame_bytes" in
  ensure negb ((max_reliable_input_frame_bytes limits >? as_u32 MAX_RELIABLE_INPUT_FRAME_SIZE)
         || (offers features FInputReliable && (max_reliable_input_frame_bytes limits =? 0)))
    else invalid "max_reliable_input_frame_bytes" in
  ensure negb ((max_datagram_bytes limits >? as_u32 MAX_DATAGRAM_SIZE)
         || (offers features FInputDatagram && (max_datagram_bytes limits =? 0)))
    else invalid "max_datagram_bytes" in
  ensure (1 <=? max_concurrent_requests limits) && (max_concurrent_requests limits <=? 1024)
    else invalid "max_concurrent_requests" in
  ensure negb ((max_blob_chunk_bytes limits >? as_u32 MAX_BLOB_CHUNK_SIZE)
         || (offers features FBlobs && (max_blob_chunk_bytes limits =? 0)))
    else invalid "max_blob_chunk_bytes" in
  ensure (1000 <=? heartbeat_interval_ms limits) && (heartbeat_interval_ms limits <=? 120000)
    else invalid "heartbeat_interval_ms" in
  ensure negb ((heartbeat_timeout_ms limits <? sat_mul_u32 (heartbeat_interval_ms limits) 2)
         || (heartbeat_timeout_ms limits >? 300000))
    else invalid "heartbeat_timeout_ms" in
  ensure negb ((max_remote_file_message_bytes limits >? as_u32 MAX_REMOTE_FILE_MESSAGE_SIZE)
         || (offers features FRemoteFiles && (max_remote_file_message_bytes limits <? 4096)))
    else invalid "max_remote_file_message_bytes" in
  ensure negb ((max_remote_file_content_bytes limits >? MAX_REMOTE_FILE_CONTENT_SIZE)
         || (offers features FRemoteFiles && (max_remote_file_content_bytes limits =? 0)))
    else invalid "max_remote_file_content_bytes" in
  ensure negb ((max_print_chunk_bytes limits >? as_u32 MAX_PRINT_DOCUMENT_CHUNK_SIZE)
         || (offers features FPrinting && (max_print_chunk_bytes limits =? 0)))
    else invalid "max_print_chunk_bytes" in
  ensure negb ((max_print_document_bytes limits >? MAX_PRINT_DOCUMENT_SIZE)
         || (offers features FPrinting && (max_print_document_bytes limits =? 0)))
    else invalid "max_print_document_bytes" in
  Ok tt.

End limits.

(** ** Lemmas *)

(** What negotiation promises: the greatest version both sides support. *)
Definition agreed (client server : list FeatureVersion) (f v : Z) : Prop :=
  exists c s, c ∈ client /\ s ∈ server /\ fv_feature c = f /\ fv_feature s = f
    /\ (min_version c <= v <= max_version c) /\ (min_version s <= v <= max_version s)
    /\ forall v', min_version c <= v' <= max_version c -> min_version s <= v' <= max_version s ->
         v' <= v.

Section lemmas.
Context `{!FeatureCodes}.

Lemma client_ranges_spec client ranges out :
  client_ranges client ranges = Ok out ->
  (forall f r, out !! f = Some r <-> ranges !! f = Some r
     \/ exists c, c ∈ client /\ fv_feature c = f /\ r = (min_version c, max_version c))
  /\ NoDup (fv_feature <$> client)
  /\ Forall (fun c => ranges !! fv_feature c = None /\ min_version c <= max_version c) client.
Proof.
  revert ranges. induction client as [|c client IH]; intros ranges; cbn [client_ranges].
  { intros [= <-]. split; [|split; constructor]. intros f r.
    split; [by left|]. intros [?|(c & Hc%not_elem_of_nil & _)]; done. }
  destruct (_ || bool_decide _) eqn:G; [done|]. intros Hout.
  destruct (IH _ Hout) as (H1 & H2 & H3). bool_arith.
  assert (ranges !! fv_feature c = None) as Hnone by (by apply eq_None_not_Some).
  split; [|split].
  - intros f r. rewrite H1, lookup_insert_Some. setoid_rewrite elem_of_cons. split.
    + intros [[[<- <-]|[_ ?]]|(c' & ? & ? & ?)]; [right; eauto|by left|right; eauto].
    + intros [Hr|(c' & [->|Hin] & <- & ->)]; [left; right; split; congruence|left; by left|].
      right. eauto.
  - rewrite fmap_cons. constructor; [|done]. rewrite list_elem_of_fmap. intros (c' & E & Hin).
    rewrite Forall_forall in H3. destruct (H3 c' Hin) as [Hn _].
    rewrite <- E, lookup_insert_eq in Hn. done.
  - constructor; [split; [done|lia]|]. eapply Forall_impl; [exact H3|]. simpl.
    intros c' [Hn ?]. split; [|done]. destruct (decide (fv_feature c = fv_feature c')) as [E|].
    + rewrite E, lookup_insert_eq in Hn. done.
    + by rewrite lookup_insert_ne in Hn.
Qed.

Lemma select_fold_spec ranges server sel :
  NoDup (fv_feature <$> server) ->
  forall f v, fold_left (select_feature ranges) server sel !! f = Some v <->
    (sel !! f = Some v /\ ~ (exists s, s ∈ server /\ fv_feature s = f
        /\ exists lo hi, ranges !! f = Some (lo, hi) /\ Z.max lo (min_version s) <= Z.min hi (max_version s)))
    \/ exists s lo hi, s ∈ server /\ fv_feature s = f /\ ranges !! f = Some (lo, hi)
         /\ Z.max lo (min_version s) <= Z.min hi (max_version s) /\ v = Z.min hi (max_version s).
Proof.
  revert sel. induction server as [|s server IH]; intros sel Hnd f v; cbn [fold_left].
  { split; [|by intros [[? _]|(s & ? & ? & Hs%not_elem_of_nil & _)]].
    intros ?. left. split; [done|]. by intros (s & Hs%not_elem_of_nil & _). }
  rewrite fmap_cons in Hnd. apply NoDup_cons in Hnd as [Hs Hnd]. rewrite IH by done.
  assert (forall s', s' ∈ server -> fv_feature s' <> fv_feature s) as Hne.
  { intros s' Hs' E. apply Hs. rewrite <- E. by apply list_elem_of_fmap_2. }
  setoid_rewrite elem_of_cons. destruct (decide (fv_feature s = f)) as [<-|Hf].
  - assert (~ (exists s', s' ∈ server /\ fv_feature s' = fv_feature s
      /\ exists lo hi, ranges !! fv_feature s = Some (lo, hi)
         /\ Z.max lo (min_version s') <= Z.min hi (max_version s'))) as Hno
      by (intros (s' & ? & ? & _); by eapply Hne).
    unfold select_feature. destruct (ranges !! fv_feature s) as [[lo hi]|] eqn:Hr.
    + destruct (_ <=? _) eqn:E; bool_arith.
      * rewrite lookup_insert_eq. split.
        -- intros [[[= <-] _]|(s' & ? & ? & Hin & E' & _)]; [|by eapply Hne in E'].
           right. exists s, lo, hi. auto.
        -- intros [[_ Hn]|(s' & lo' & hi' & [->|Hin] & E' & [= <- <-] & _ & ->)].
           ++ exfalso. apply Hn. exists s. split; [by left|]. split; [done|]. eauto.
           ++ left. auto.
           ++ by eapply Hne in E'.
      * split.
        -- intros [[Hsel _]|(s' & ? & ? & Hin & E' & _)]; [|by eapply Hne in E'].
           left. split; [done|]. intros (s' & [->|Hin] & E' & lo' & hi' & [= <- <-] & ?); [lia|].
           by eapply Hne in E'.
        -- intros [[Hsel _]|(s' & lo' & hi' & [->|Hin] & E' & [= <- <-] & ? & _)];
             [by left|lia|by eapply Hne in E'].
    + split.
      * intros [[Hsel _]|(s' & ? & ? & Hin & E' & _)]; [|by eapply Hne in E'].
        left. split; [done|]. by intros (s' & _ & _ & ? & ? & ? & _).
      * intros [[Hsel _]|(s' & ? & ? & _ & _ & ? & _)]; [by left|done].
  - assert (select_feature ranges sel s !! f = sel !! f) as ->.
    { unfold select_feature. destruct (ranges !! fv_feature s) as [[lo hi]|]; [|done].
      destruct (_ <=? _); [|done]. by rewrite lookup_insert_ne. }
    split.
    + intros [[Hsel Hn]|(s' & lo & hi & Hin & Hrest)]; [left|right; eauto 10].
      split; [done|]. intros (s' & [->|Hin] & E' & Hrest); [done|]. apply Hn. eauto.
    + intros [[Hsel Hn]|(s' & lo & hi & [->|Hin] & E' & Hrest)]; [left|done|right; eauto 10].
      split; [done|]. intros (s' & Hin & Hrest). apply Hn. eauto.
Qed.

Lemma offered_NoDup a n r i w : NoDup (offered_features a n r i w).
Proof.
  destruct a, n, r, i, w; apply (bool_decide_unpack _); vm_compute; exact I.
Qed.

Lemma server_features_NoDup a n r i w : NoDup (fv_feature <$> server_features a n r i w).
Proof.
  unfold server_features. rewrite merge_sort_Permutation, <- list_fmap_compose.
  apply (NoDup_fmap_2_strong _ _); [|apply offered_NoDup].
  intros f g _ _. simpl. apply feature_code_inj.
Qed.
End lemmas.

(** ** Properties *)

Section properties.
Context `{!FeatureCodes} `{!WireLimits}.

(** Negotiation selects, for each feature, exactly the greatest version inside both the
    client's and the server's range, and nothing for a feature that one side does not offer or
    whose ranges do not meet; this for every server configuration [server_features] can
    advertise. *)
Theorem negotiate_features_spec a n r i w client sel :
  negotiate_features client (server_features a n r i w) = Ok sel ->
  NoDup (fv_feature <$> client)
  /\ forall f v, sel !! f = Some v <-> agreed client (server_features a n r i w) f v.
Proof.
  unfold negotiate_features. destruct (_ <=? 64); [|done]. rewrite rbind_Ok.
  intros (ranges & Hr & [= <-]). destruct (client_ranges_spec client ∅ ranges Hr) as (H1 & H2 & H3).
  split; [done|]. intros f v. rewrite select_fold_spec by apply server_features_NoDup.
  rewrite lookup_empty. split.
  - intros [[? _]|(s & lo & hi & Hs & Es & Hr' & Hle & ->)]; [done|].
    apply H1 in Hr' as [Hr'|(c & Hc & Ec & [= -> ->])]; [by rewrite lookup_empty in Hr'|].
    exists c, s. split; [done|]. split; [done|]. split; [done|]. split; [done|].
    split; [lia|]. split; [lia|]. intros. lia.
  - intros (c & s & Hc & Hs & Ec & Es & B1 & B2 & Hmax). right.
    exists s, (min_version c), (max_version c). split; [done|]. split; [done|].
    split; [apply H1; right; eauto|]. split; [lia|].
    enough (Z.min (max_version c) (max_version s) <= v) by lia. apply Hmax; lia.
Qed.

(** The server's own limits are within what it demands of clients, whatever features are
    offered; and limits it accepts are bounded and usable: a control frame between 4096 bytes and
    the protocol maximum, a heartbeat timeout of at least two intervals and at most five minutes,
    and a non-zero size for every offered feature that needs one. *)
Theorem receive_limits_spec features :
  validate_receive_limits (Some protocol_limits) features = Ok tt
  /\ forall limits, validate_receive_limits (Some limits) features = Ok tt ->
     4096 <= max_control_frame_bytes limits <= MAX_CONTROL_FRAME_SIZE
     /\ 2 * heartbeat_interval_ms limits <= heartbeat_timeout_ms limits <= 300000
     /\ 1 <= max_concurrent_requests limits <= 1024
     /\ max_blob_chunk_bytes limits <= MAX_BLOB_CHUNK_SIZE
     /\ (offers features FBlobs = true -> max_blob_chunk_bytes limits <> 0)
     /\ (offers features FInputReliable = true -> max_reliable_input_frame_bytes limits <> 0)
     /\ (offers features FRemoteFiles = true ->
           4096 <= max_remote_file_message_bytes limits <= MAX_REMOTE_FILE_MESSAGE_SIZE
           /\ max_remote_file_content_bytes limits <> 0).
Proof.
  assert (forall x, 0 <= x <= u32_max -> as_u32 x = x) as Hcast.
  { intros x Hx. apply Z.mod_small. unfold u32_max in Hx. lia. }
  pose proof MAX_CONTROL_FRAME_SIZE_range. pose proof MAX_RELIABLE_INPUT_FRAME_SIZE_range.
  pose proof MAX_DATAGRAM_SIZE_range. pose proof MAX_BLOB_CHUNK_SIZE_range.
  pose proof MAX_PRINT_DOCUMENT_CHUNK_SIZE_range. pose proof MAX_PRINT_DOCUMENT_SIZE_range.
  pose proof MAX_REMOTE_FILE_MESSAGE_SIZE_range. pose proof MAX_REMOTE_FILE_CONTENT_SIZE_range.
  assert (forall (b : bool) x m, 0 < x <= m -> negb ((x >? m) || (b && (x =? 0))) = true) as Hfield.
  { intros b x m Hx. rewrite Z.gtb_ltb. destruct (Z.ltb_spec m x), (Z.eqb_spec x 0), b; simpl; lia. }
  unfold validate_receive_limits. split.
  - assert (forall (b : bool) x m, 4096 <= x <= m -> negb ((x >? m) || (b && (x <? 4096))) = true)
      as Hfield2.
    { intros b x m Hx. rewrite Z.gtb_ltb.
      destruct (Z.ltb_spec m x), (Z.ltb_spec x 4096), b; simpl; lia. }
    cbn [ok_or rbind protocol_limits max_control_frame_bytes max_reliable_input_frame_bytes
      max_datagram_bytes max_concurrent_requests heartbeat_interval_ms heartbeat_timeout_ms
      max_blob_chunk_bytes max_remote_file_message_bytes max_remote_file_content_bytes
      max_print_chunk_bytes max_print_document_bytes].
    change (as_u32 MAX_CONCURRENT_REQUESTS) with 16.
    change (as_u32 (HEARTBEAT_TIMEOUT / 1000000)) with 45000.
    rewrite (Hcast MAX_CONTROL_FRAME_SIZE), (Hcast MAX_RELIABLE_INPUT_FRAME_SIZE),
      (Hcast MAX_DATAGRAM_SIZE), (Hcast MAX_BLOB_CHUNK_SIZE), (Hcast MAX_REMOTE_FILE_MESSAGE_SIZE),
      (Hcast MAX_PRINT_DOCUMENT_CHUNK_SIZE) by lia.
    rewrite (proj2 (Z.leb_le 4096 MAX_CONTROL_FRAME_SIZE)), Z.leb_refl by lia.
    rewrite !Hfield, Hfield2 by lia. done.
  - intros limits. cbn [ok_or rbind].
    rewrite (Hcast MAX_CONTROL_FRAME_SIZE), (Hcast MAX_RELIABLE_INPUT_FRAME_SIZE),
      (Hcast MAX_DATAGRAM_SIZE), (Hcast MAX_BLOB_CHUNK_SIZE), (Hcast MAX_REMOTE_FILE_MESSAGE_SIZE),
      (Hcast MAX_PRINT_DOCUMENT_CHUNK_SIZE) by lia. clear Hcast Hfield.
    repeat (match goal with |- (if ?b then _ else _) = _ -> _ =>
      let E := fresh "G" in destruct b eqn:E; [|done] end).
    intros _. bool_arith. unfold sat_mul_u32, u32_max in *.
    do 4 (split; [lia|]). split; [|split]; intros Ho;
      repeat match goal with H : (offers features ?f && ?c)%bool = false,
                             Ho : offers features ?f = true |- _ => rewrite Ho in H; simpl in H end;
      bool_arith; lia.
Qed.
End properties.

Definition wclient : list FeatureVersion :=
  [{| fv_feature := 5; min_version := 1; max_version := 4 |}].

Lemma negotiate_features_spec_witness :
  agreed wclient (@server_features toy_features true true true true true) 5 1.
Proof.
  apply (@negotiate_features_spec toy_features true true true true true wclient {[5 := 1]}).
  - vm_compute. reflexivity.
  - vm_compute. reflexivity.
Defined.

End Negotiation.
