(* ===== verification/Requests.v ===== *)
(** * Request validation and authorisation

    Models [authorize_query], [validate_query], [authorize_command], [validate_command] and their
    helpers in [src/server/proto_handler/requests/control.rs], and [collections::decode] of
    [src/clipboard_replication/collections.rs], which command validation calls. *)

From Stdlib Require Import ZArith Lia.
From stdpp Require Import base tactics option list strings gmap countable finite fin_maps.
From S2P Require Import Prelude Proto.

Module Requests.

Definition MAX_CLIPBOARD_ITEMS : Z := 200.
Definition MAX_CLIPBOARD_TEXT_BYTES : Z := 512 * 1024.

(** [CapabilityId]: the capabilities the source names. *)
Inductive CapabilityId :=
| SystemRead | ProcessRead | ProcessManage | MediaRead | MediaControl | ClipboardRead
| ClipboardWrite | ClipboardSync | WindowRead | WindowControl | ActionRead | ActionExecute
| NotificationRead | NotificationAcknowledge | RemoteInputInject | RemoteFilesRead
| RemoteFilesWrite | Transfer.

#[global] Instance CapabilityId_eq_dec : EqDecision CapabilityId.
Proof. solve_decision. Defined.
#[global] Program Instance CapabilityId_finite : Finite CapabilityId := {|
  enum := [SystemRead; ProcessRead; ProcessManage; MediaRead; MediaControl; ClipboardRead;
    ClipboardWrite; ClipboardSync; WindowRead; WindowControl; ActionRead; ActionExecute;
    NotificationRead; NotificationAcknowledge; RemoteInputInject; RemoteFilesRead;
    RemoteFilesWrite; Transfer] |}.
Next Obligation. apply (bool_decide_unpack _). vm_compute. exact I. Qed.
Next Obligation. intros []; apply (bool_decide_unpack _); vm_compute; exact I. Qed.

(** Protobuf enumerations, by their variants. *)
Inductive ProcessSortBy := SortUnspecified | SortCpu | SortMemory | SortName.
Inductive ProtoPlaybackAction :=
| PaUnspecified | PaPlay | PaPause | PaNext | PaPrevious | PaSeekForward | PaSeekBackward.
Inductive ContentKind := CkUnspecified | CkText | CkHtml | CkImage | CkFiles.
#[global] Instance ContentKind_eq_dec : EqDecision ContentKind.
Proof. solve_decision. Defined.

(** [E::try_from], the capability tokens and the collection documents of [arcrelay_core]. *)
Class RequestCodes := {
  process_sort_try_from : Z -> option ProcessSortBy;
  playback_try_from : Z -> option ProtoPlaybackAction;
  content_kind_try_from : Z -> option ContentKind;
  (** [ClipboardSyncChangeKind::try_from(z)] succeeds with a kind other than [Unspecified]. *)
  change_kind_specified : Z -> bool;
  token : CapabilityId -> string;
  ClipboardCollection : Type;
  MAX_COLLECTION_BYTES : Z;
  collection_from_json : string -> option ClipboardCollection;
  collection_validate : ClipboardCollection -> result unit string;
}.

(** ** Messages *)

(** [proto::query::Body]. *)
Record ClipboardQuery := {
  history_limit : Z;
  search : string;
  cursor_timestamp_ms : option Z;
  cursor_id : option Z;
  kinds : list Z;
  favorite_only : bool;
  label_ids : list string;
}.

Inductive QueryBody :=
| GetSystem
| ListProcesses (sort_by : Z)
| GetMedia
| GetClipboard (request : ClipboardQuery)
| GetDevices
| ListWindows (include_thumbnails : bool) (thumbnail_window_ids : list Z)
| ListActions
| GetActionOutput (action_id : string)
| GetNotifications (include_read : bool) (limit : Z)
| GetClipboardCollections (after_id : string)
| GetClipboardSync (after_local_id limit : Z).

(** [proto::command::Action]. *)
Inductive Action :=
| PlaybackAction (action : Z)
| SetSystemVolume (volume : Z)
| SetAppVolume (app_name : string) (volume : Z)
| SetMicrophone (active : bool)
| SetDnd (active : bool)
| KillProcess (pid : Z)
| SetClipboard (content : string)
| ClearClipboardHistory
| PasteClipboardRecord (record_id : Z)
| DeleteClipboardRecord (record_id : Z)
| SetClipboardFavorite (record_id : Z) (favorite : bool)
| CreateClipboardLabel (name color : string)
| UpdateClipboardLabel (label_id name color : string)
| DeleteClipboardLabel (label_id : string)
| SetClipboardLabels (record_id : Z) (label_ids : list string)
| UpdateClipboardPolicy (policy : option PClipboardPolicy)
| FocusWindow (window_id : Z)
| SwitchSpace (space_id : Z)
| ExecuteQuickAction (action_id : string)
| RunAutomation (automation_id : string)
| SetAutomationEnabled (automation_id : string) (enabled : bool)
| CancelAutomation (activity_id : string)
| MarkNotificationRead (notification_id : string)
| ApplyClipboardCollection (format_version : Z) (document_json : string)
| ApplyClipboardSyncRecord (record : option SyncRecord).

Record RequestRejection := {
  rej_request_id : Z;
  rej_code : ErrorCode;
  rej_message : string;
}.

Section requests.
Context `{!FeatureCodes} `{!RequestCodes}.

(** [collections::decode]. *)
Definition collection_decode (format_version : Z) (document_json : string)
  : result ClipboardCollection string :=
  if negb (format_version =? 1) || (slen document_json >? MAX_COLLECTION_BYTES)
  then Err "unsupported or oversized clipboard collection"%string else
  let? value := ok_or (collection_from_json document_json)
                      "invalid clipboard collection document"%string in
  let? _ := collection_validate value in
  Ok value.

Definition valid_control_identifier (value : string) : bool :=
  let value := trim value in
  negb (str_is_empty value) && (slen value <=? 256) && negb (has_control value).

Definition valid_clipboard_blob_ref (reference : option BlobRef) (media : string) (maximum : Z)
  : bool :=
  match reference with
  | None => false
  | Some r => (blen (blob_id r) =? 32) && (blen (ref_sha256 r) =? 32)
              && bytes_eqb (blob_id r) (ref_sha256 r)
              && (ref_size r >? 0) && (ref_size r <=? maximum) && str_eqb (media_type r) media
  end.

(** *** Queries *)

Definition validate_query (query : option QueryBody) : result unit string :=
  match query with
  | Some (ListProcesses sort_by) =>
    match process_sort_try_from sort_by with
    | None | Some SortUnspecified => Err "invalid process sort order"%string
    | Some _ => Ok tt
    end
  | Some (GetClipboard request) =>
    if history_limit request >? MAX_CLIPBOARD_ITEMS
    then Err "clipboard history limit must not exceed 200"%string else
    if (slen (search request) >? 512) || has_control (search request)
    then Err "invalid clipboard search query"%string else
    if negb (Bool.eqb (bool_decide (is_Some (cursor_timestamp_ms request)))
                      (bool_decide (is_Some (cursor_id request))))
       || bool_decide (cursor_id request = Some 0)
    then Err "clipboard cursor is incomplete"%string else
    if existsb (fun kind => match content_kind_try_from kind with
                            | None | Some CkUnspecified => true
                            | Some _ => false
                            end) (kinds request)
    then Err "invalid clipboard content kind"%string else Ok tt
  | Some (GetActionOutput action_id) =>
    if negb (valid_control_identifier action_id) then Err "invalid quick action id"%string
    else Ok tt
  | Some (GetNotifications _ limit) =>
    if limit >? 100 then Err "notification limit must not exceed 100"%string else Ok tt
  | Some (GetClipboardCollections after_id) =>
    if slen after_id >? 64 then Err "invalid collection cursor"%string else Ok tt
  | Some (GetClipboardSync _ limit) =>
    if limit >? 200 then Err "clipboard sync page limit must not exceed 200"%string else Ok tt
  | Some (GetSystem | GetMedia | GetDevices | ListWindows _ _ | ListActions) => Ok tt
  | None => Err "empty query"%string
  end.

Definition require_feature (request_id : Z) (features : gset Z) (f : Feature)
  : result unit RequestRejection :=
  if bool_decide (feature_code f ∈ features) then Ok tt
  else Err {| rej_request_id := request_id; rej_code := ECUnsupported;
              rej_message := ("feature " +:+ feature_debug f +:+ " was not negotiated")%string |}.

Definition require_capability (request_id : Z) (capabilities : gset CapabilityId)
  (capability : CapabilityId) : result unit RequestRejection :=
  if bool_decide (capability ∈ capabilities) then Ok tt
  else Err {| rej_request_id := request_id; rej_code := ECPermissionDenied;
              rej_message := ("capability " +:+ token capability +:+ " was not granted")%string |}.

Definition require_any_capability (request_id : Z) (capabilities : gset CapabilityId)
  (required : list CapabilityId) : result unit RequestRejection :=
  if existsb (fun c => bool_decide (c ∈ capabilities)) required then Ok tt
  else Err {| rej_request_id := request_id; rej_code := ECPermissionDenied;
              rej_message := "required capability was not granted"%string |}.

(** The table at the heart of [authorize_query]. *)
Definition query_requires (query : QueryBody) : Feature * CapabilityId :=
  match query with
  | GetSystem => (FSystem, SystemRead)
  | ListProcesses _ => (FProcesses, ProcessRead)
  | GetMedia => (FMedia, MediaRead)
  | GetClipboard _ => (FClipboard, ClipboardRead)
  | GetDevices => (FSystem, SystemRead)
  | ListWindows _ _ => (FWindows, WindowRead)
  | ListActions | GetActionOutput _ => (FActions, ActionRead)
  | GetNotifications _ _ => (FNotifications, NotificationRead)
  | GetClipboardCollections _ | GetClipboardSync _ _ => (FClipboardSync, ClipboardSync)
  end.

Definition authorize_query (request_id : Z) (query : option QueryBody) (features : gset Z)
  (capabilities : gset CapabilityId) : result unit RequestRejection :=
  match validate_query query with
  | Err message => Err {| rej_request_id := request_id; rej_code := ECInvalidArgument;
                          rej_message := message |}
  | Ok _ =>
    match query with
    | None => Err {| rej_request_id := request_id; rej_code := ECInvalidArgument;
                     rej_message := "empty query"%string |}
    | Some body =>
      let '(f, capability) := query_requires body in
      let? _ := require_feature request_id features f in
      require_capability request_id capabilities capability
    end
  end.

(** *** Commands *)

(** [now_ms] is the wall clock read by the timestamp check. *)
Definition validate_clipboard_sync_record (now_ms : Z) (record : SyncRecord)
  : result unit string :=
  if negb (slen (sr_sync_id record) =? 64) || negb (forallb is_ascii_hexdigit (units (sr_sync_id record)))
  then Err "invalid clipboard sync identifier"%string else
  if (sr_favorite_revision record =? 0) || (sr_favorite_revision record >? i64_max)
  then Err "invalid clipboard sync favorite revision"%string else
  if negb (is_empty (sr_labels record)) || negb (is_empty (sr_label_memberships record))
  then Err "clipboard sync labels are not supported"%string else
  if slen (sr_preview record) >? 2 * 1024
  then Err "clipboard sync preview exceeds limit"%string else
  if (sr_revision record =? 0) || (sr_revision record >? i64_max)
  then Err "invalid clipboard sync revision"%string else
  if (sr_captured_at_ms record <=? 0)
     || (sr_captured_at_ms record >? Z.min i64_max (now_ms + 5 * 60 * 1000))
  then Err "invalid clipboard sync capture timestamp"%string else
  let kind := default CkUnspecified (content_kind_try_from (sr_kind record)) in
  if negb (change_kind_specified (sr_change_kind record)) || bool_decide (kind = CkUnspecified)
  then Err "invalid clipboard sync kind"%string else
  if sr_deleted record then
    match sr_payload record with
    | Some _ => Err "deleted clipboard sync records cannot include payloads"%string
    | None => Ok tt
    end
  else
  match kind with
  | CkText =>
    match sr_payload record with
    | Some (PayloadText text) =>
      if negb (str_is_empty text) && (slen text <=? 768 * 1024) then Ok tt
      else Err "invalid synchronized text payload"%string
    | _ => Err "invalid synchronized text payload"%string
    end
  | CkHtml =>
    match sr_payload record with
    | Some (PayloadRichText plain_text html rtf) =>
      if (slen plain_text >? 1024 * 1024)
         || negb (valid_clipboard_blob_ref html "text/html; charset=utf-8" (16 * 1024 * 1024))
         || match rtf with
            | Some _ => negb (valid_clipboard_blob_ref rtf "text/rtf" (16 * 1024 * 1024))
            | None => false
            end
      then Err "invalid synchronized rich-text payload"%string else Ok tt
    | _ => Err "synchronized rich text is required"%string
    end
  | CkImage =>
    match sr_payload record with
    | Some (PayloadImage image) =>
      if valid_clipboard_blob_ref (Some image) "image/png" (20 * 1024 * 1024) then Ok tt
      else Err "invalid synchronized image reference"%string
    | _ => Err "synchronized image reference is required"%string
    end
  | CkFiles =>
    match sr_payload record with
    | Some _ => Err "synchronized file metadata cannot include payloads"%string
    | None => Ok tt
    end
  | CkUnspecified => Err "invalid clipboard sync kind"%string
  end.

Definition validate_command (now_ms : Z) (action : option Action) : result unit string :=
  match action with
  | Some (PlaybackAction action) =>
    match playback_try_from action with
    | None | Some PaUnspecified => Err "invalid playback action"%string
    | Some _ => Ok tt
    end
  | Some (SetSystemVolume volume) =>
    if volume >? 100 then Err "system volume must be between 0 and 100"%string else Ok tt
  | Some (SetAppVolume app_name volume) =>
    if negb (valid_control_identifier app_name) then Err "invalid application name"%string else
    if volume >? 100 then Err "application volume must be between 0 and 100"%string else Ok tt
  | Some (KillProcess pid) =>
    if pid =? 0 then Err "process id must be non-zero"%string else Ok tt
  | Some (SetClipboard content) =>
    if slen content >? MAX_CLIPBOARD_TEXT_BYTES
    then Err "clipboard content is too large"%string else Ok tt
  | Some (PasteClipboardRecord record_id)
  | Some (DeleteClipboardRecord record_id)
  | Some (SetClipboardFavorite record_id _)
  | Some (SetClipboardLabels record_id _) =>
    if record_id =? 0 then Err "clipboard record id must be non-zero"%string else Ok tt
  | Some (CreateClipboardLabel name _) =>
    if str_is_empty (trim name) then Err "clipboard label name is required"%string else Ok tt
  | Some (UpdateClipboardLabel label_id name _) =>
    if str_is_empty label_id || str_is_empty (trim name)
    then Err "clipboard label id and name are required"%string else Ok tt
  | Some (DeleteClipboardLabel label_id) =>
    if str_is_empty label_id then Err "clipboard label id is required"%string else Ok tt
  | Some (UpdateClipboardPolicy policy) =>
    match policy with
    | None => Err "clipboard policy is required"%string
    | Some policy =>
      if ppol_retention_days policy >? 3650 then Err "invalid clipboard retention policy"%string else Ok tt
    end
  | Some (FocusWindow window_id) =>
    if window_id =? 0 then Err "window id must be non-zero"%string else Ok tt
  | Some (SwitchSpace space_id) =>
    if space_id =? 0 then Err "space id must be non-zero"%string else Ok tt
  | Some (ExecuteQuickAction action_id) =>
    if negb (valid_control_identifier action_id) then Err "invalid quick action id"%string
    else Ok tt
  | Some (RunAutomation automation_id) | Some (SetAutomationEnabled automation_id _) =>
    if negb (valid_control_identifier automation_id) then Err "invalid automation id"%string
    else Ok tt
  | Some (CancelAutomation activity_id) =>
    if negb (valid_control_identifier activity_id)
    then Err "invalid automation activity id"%string else Ok tt
  | Some (MarkNotificationRead notification_id) =>
    if negb (valid_control_identifier notification_id)
    then Err "invalid notification id"%string else Ok tt
  | Some (ApplyClipboardCollection format_version document_json) =>
    match collection_decode format_version document_json with
    | Ok _ => Ok tt
    | Err _ => Err "invalid collection"%string
    end
  | Some (ApplyClipboardSyncRecord record) =>
    match record with
    | None => Err "clipboard sync record is required"%string
    | Some record => validate_clipboard_sync_record now_ms record
    end
  | Some (SetMicrophone _ | SetDnd _ | ClearClipboardHistory) => Ok tt
  | None => Err "empty command"%string
  end.

(** The table at the heart of [authorize_command]. *)
Definition command_requires (action : Action) : Feature * CapabilityId :=
  match action with
  | PlaybackAction _ | SetSystemVolume _ | SetAppVolume _ _ | SetMicrophone _ | SetDnd _ =>
    (FMedia, MediaControl)
  | KillProcess _ => (FProcesses, ProcessManage)
  | SetClipboard _ | ClearClipboardHistory | PasteClipboardRecord _ | DeleteClipboardRecord _
  | SetClipboardFavorite _ _ | CreateClipboardLabel _ _ | UpdateClipboardLabel _ _ _
  | DeleteClipboardLabel _ | SetClipboardLabels _ _ | UpdateClipboardPolicy _ =>
    (FClipboard, ClipboardWrite)
  | FocusWindow _ | SwitchSpace _ => (FWindows, WindowControl)
  | ExecuteQuickAction _ | RunAutomation _ | SetAutomationEnabled _ _ | CancelAutomation _ =>
    (FActions, ActionExecute)
  | MarkNotificationRead _ => (FNotifications, NotificationAcknowledge)
  | ApplyClipboardCollection _ _ | ApplyClipboardSyncRecord _ => (FClipboardSync, ClipboardSync)
  end.

Definition authorize_command (now_ms request_id : Z) (action : option Action) (features : gset Z)
  (capabilities : gset CapabilityId) : result unit RequestRejection :=
  match validate_command now_ms action with
  | Err message => Err {| rej_request_id := request_id; rej_code := ECInvalidArgument;
                          rej_message := message |}
  | Ok _ =>
    match action with
    | Some (PasteClipboardRecord _) =>
      let? _ := require_feature request_id features FClipboard in
      let? _ := require_capability request_id capabilities ClipboardRead in
      let? _ := require_capability request_id capabilities ClipboardWrite in
      require_capability request_id capabilities RemoteInputInject
    | Some action =>
      let '(f, capability) := command_requires action in
      let? _ := require_feature request_id features f in
      require_capability request_id capabilities capability
    | None => Err {| rej_request_id := request_id; rej_code := ECInvalidArgument;
                     rej_message := "empty command"%string |}
    end
  end.

(** ** Lemmas *)

(** The least privilege a command needs: every capability it is checked against. *)
Definition command_privileges (action : Action) : gset CapabilityId :=
  match action with
  | PasteClipboardRecord _ => {[ClipboardRead; ClipboardWrite; RemoteInputInject]}
  | action => {[(command_requires action).2]}
  end.

Lemma require_feature_Ok i fs f : require_feature i fs f = Ok tt <-> feature_code f ∈ fs.
Proof. unfold require_feature. case_bool_decide; split; done. Qed.
Lemma require_capability_Ok i cs c : require_capability i cs c = Ok tt <-> c ∈ cs.
Proof. unfold require_capability. case_bool_decide; split; done. Qed.

Lemma authorize_query_Ok i q fs cs :
  authorize_query i q fs cs = Ok tt <->
  exists body, q = Some body /\ validate_query q = Ok tt
    /\ feature_code (query_requires body).1 ∈ fs /\ (query_requires body).2 ∈ cs.
Proof.
  unfold authorize_query. destruct (validate_query q) as [[]|m] eqn:Hv;
    [|split; [done|]; by intros (b & -> & ? & _)].
  destruct q as [body|]; [|split; [done|]; by intros (b & ? & _)].
  destruct (query_requires body) as [f c] eqn:Hr. rewrite rbind_Ok. split.
  - intros ([] & Hf%require_feature_Ok & Hc%require_capability_Ok). exists body. by rewrite Hr.
  - intros (b & [= <-] & _ & Hf & Hc). rewrite Hr in *. exists tt.
    by rewrite require_feature_Ok, require_capability_Ok.
Qed.

Lemma authorize_command_Ok now i a fs cs :
  authorize_command now i a fs cs = Ok tt <->
  exists action, a = Some action /\ validate_command now a = Ok tt
    /\ feature_code (command_requires action).1 ∈ fs /\ command_privileges action ⊆ cs.
Proof.
  unfold authorize_command. destruct (validate_command now a) as [[]|m] eqn:Hv;
    [|split; [done|]; by intros (b & -> & ? & _)].
  destruct a as [action|]; [|split; [done|]; by intros (b & ? & _)].
  assert ((let '(f, capability) := command_requires action in
      let? _ := require_feature i fs f in require_capability i cs capability) = Ok tt <->
    feature_code (command_requires action).1 ∈ fs /\ (command_requires action).2 ∈ cs) as Hgen.
  { destruct (command_requires action) as [f c]. rewrite rbind_Ok. simpl. split.
    - by intros ([] & Hf%require_feature_Ok & Hc%require_capability_Ok).
    - intros [Hf Hc]. exists tt. by rewrite require_feature_Ok, require_capability_Ok. }
  destruct action; simpl command_privileges;
    try (rewrite Hgen; split;
         [intros [? ?]; eexists; split; [done|]; split; [done|]; split; [done|]; simpl in *; by apply singleton_subseteq_l
         |intros (b & [= <-] & _ & ? & ?); split; [done|]; simpl in *; by apply singleton_subseteq_l]).
  clear Hgen. rewrite !rbind_Ok. split.
  - intros ([] & Hf%require_feature_Ok & Hrest).
    apply rbind_Ok in Hrest as ([] & Hr%require_capability_Ok & Hrest).
    apply rbind_Ok in Hrest as ([] & Hw%require_capability_Ok & Hi%require_capability_Ok).
    eexists. split; [done|]. split; [done|]. split; [done|]. set_solver.
  - intros (b & [= <-] & _ & Hf & Hc). simpl in Hc. exists tt.
    rewrite require_feature_Ok. split; [done|]. rewrite rbind_Ok. exists tt.
    rewrite require_capability_Ok. split; [set_solver|]. rewrite rbind_Ok. exists tt.
    rewrite !require_capability_Ok. set_solver.
Qed.

(** ** What commands are allowed to be

    The specification of authorisation, apart from the code's checks and tables. *)

(** The domain a command belongs to and the privileges it exercises. *)
Inductive belongs : Action -> Feature -> Prop :=
| belongs_playback z : belongs (PlaybackAction z) FMedia
| belongs_volume v : belongs (SetSystemVolume v) FMedia
| belongs_app_volume n v : belongs (SetAppVolume n v) FMedia
| belongs_microphone b : belongs (SetMicrophone b) FMedia
| belongs_dnd b : belongs (SetDnd b) FMedia
| belongs_kill pid : belongs (KillProcess pid) FProcesses
| belongs_copy t : belongs (SetClipboard t) FClipboard
| belongs_clear : belongs ClearClipboardHistory FClipboard
| belongs_paste r : belongs (PasteClipboardRecord r) FClipboard
| belongs_delete r : belongs (DeleteClipboardRecord r) FClipboard
| belongs_favorite r b : belongs (SetClipboardFavorite r b) FClipboard
| belongs_new_label n c : belongs (CreateClipboardLabel n c) FClipboard
| belongs_edit_label l n c : belongs (UpdateClipboardLabel l n c) FClipboard
| belongs_drop_label l : belongs (DeleteClipboardLabel l) FClipboard
| belongs_labels r ls : belongs (SetClipboardLabels r ls) FClipboard
| belongs_policy p : belongs (UpdateClipboardPolicy p) FClipboard
| belongs_focus w : belongs (FocusWindow w) FWindows
| belongs_space w : belongs (SwitchSpace w) FWindows
| belongs_action a : belongs (ExecuteQuickAction a) FActions
| belongs_run a : belongs (RunAutomation a) FActions
| belongs_enable a b : belongs (SetAutomationEnabled a b) FActions
| belongs_cancel a : belongs (CancelAutomation a) FActions
| belongs_read n : belongs (MarkNotificationRead n) FNotifications
| belongs_collection v d : belongs (ApplyClipboardCollection v d) FClipboardSync
| belongs_sync r : belongs (ApplyClipboardSyncRecord r) FClipboardSync.
Inductive exercises : Action -> CapabilityId -> Prop :=
| exercises_media a : belongs a FMedia -> exercises a MediaControl
| exercises_kill pid : exercises (KillProcess pid) ProcessManage
| exercises_clipboard a : belongs a FClipboard -> exercises a ClipboardWrite
| exercises_paste_read r : exercises (PasteClipboardRecord r) ClipboardRead
| exercises_paste_type r : exercises (PasteClipboardRecord r) RemoteInputInject
| exercises_windows a : belongs a FWindows -> exercises a WindowControl
| exercises_actions a : belongs a FActions -> exercises a ActionExecute
| exercises_notification n : exercises (MarkNotificationRead n) NotificationAcknowledge
| exercises_sync a : belongs a FClipboardSync -> exercises a ClipboardSync.

(** An identifier a peer may name: 1 to 256 bytes after trimming, none of them a control character. *)
Definition identifier (s : string) : Prop :=
  trim s <> EmptyString /\ slen (trim s) <= 256 /\ Forall (fun c => is_control c = false) (chars (trim s)).

Record blob_reference (media : string) (maximum : Z) (r : BlobRef) : Prop := {
  br_length : blen (blob_id r) = 32;
  br_digest : ref_sha256 r = blob_id r;
  br_size : 0 < ref_size r <= maximum;
  br_media : media_type r = media;
}.
Inductive sync_payload : ContentKind -> option SyncPayload -> Prop :=
| payload_text t : t <> EmptyString -> slen t <= 768 * 1024 -> sync_payload CkText (Some (PayloadText t))
| payload_rich plain html rtf :
    slen plain <= 1024 * 1024 ->
    blob_reference "text/html; charset=utf-8" (16 * 1024 * 1024) html ->
    (forall r, rtf = Some r -> blob_reference "text/rtf" (16 * 1024 * 1024) r) ->
    sync_payload CkHtml (Some (PayloadRichText plain (Some html) rtf))
| payload_image image :
    blob_reference "image/png" (20 * 1024 * 1024) image -> sync_payload CkImage (Some (PayloadImage image))
| payload_files : sync_payload CkFiles None.
Record sync_record (now_ms : Z) (r : SyncRecord) : Prop := {
  so_id : slen (sr_sync_id r) = 64 /\ Forall (fun b => is_ascii_hexdigit b = true) (units (sr_sync_id r));
  so_favorite : sr_favorite_revision r <> 0 /\ sr_favorite_revision r <= i64_max;
  so_labels : sr_labels r = [] /\ sr_label_memberships r = [];
  so_preview : slen (sr_preview r) <= 2 * 1024;
  so_revision : sr_revision r <> 0 /\ sr_revision r <= i64_max;
  so_captured : 0 < sr_captured_at_ms r <= Z.min i64_max (now_ms + 5 * 60 * 1000);
  so_change : change_kind_specified (sr_change_kind r) = true;
  so_payload : exists kind, content_kind_try_from (sr_kind r) = Some kind /\ kind <> CkUnspecified
    /\ if sr_deleted r then sr_payload r = None else sync_payload kind (sr_payload r);
}.

Definition well_formed (now_ms : Z) (action : Action) : Prop :=
  match action with
  | PlaybackAction z => exists p, playback_try_from z = Some p /\ p <> PaUnspecified
  | SetSystemVolume volume => volume <= 100
  | SetAppVolume app_name volume => identifier app_name /\ volume <= 100
  | SetMicrophone _ | SetDnd _ | ClearClipboardHistory => True
  | KillProcess pid => pid <> 0
  | SetClipboard content => slen content <= 512 * 1024
  | PasteClipboardRecord id | DeleteClipboardRecord id | SetClipboardFavorite id _
  | SetClipboardLabels id _ | FocusWindow id | SwitchSpace id => id <> 0
  | CreateClipboardLabel name _ => trim name <> EmptyString
  | UpdateClipboardLabel label_id name _ => label_id <> EmptyString /\ trim name <> EmptyString
  | DeleteClipboardLabel label_id => label_id <> EmptyString
  | UpdateClipboardPolicy policy => exists p, policy = Some p /\ ppol_retention_days p <= 3650
  | ExecuteQuickAction id | RunAutomation id | SetAutomationEnabled id _ | CancelAutomation id
  | MarkNotificationRead id => identifier id
  | ApplyClipboardCollection format_version document_json =>
    format_version = 1 /\ slen document_json <= MAX_COLLECTION_BYTES
    /\ exists c, collection_from_json document_json = Some c /\ collection_validate c = Ok tt
  | ApplyClipboardSyncRecord record => exists r, record = Some r /\ sync_record now_ms r
  end.

(** *** The checks decide the specification *)

Lemma refused_if {A} (b : bool) (e : string) (x : result A string) y :
  (if b then Err e else x) = Ok y <-> b = false /\ x = Ok y.
Proof. destruct b; split; [done|by intros [? _]|done|by intros [_ ?]]. Qed.
Lemma accepted_if (b : bool) (e : string) : (if b then Ok tt else Err e) = Ok tt <-> b = true.
Proof. by destruct b. Qed.
Lemma str_is_empty_spec s : str_is_empty s = true <-> s = EmptyString.
Proof. by destruct s. Qed.
Lemma existsb_none {A} (f : A -> bool) l : existsb f l = false <-> Forall (fun x => f x = false) l.
Proof. induction l; simpl; [done|]. by rewrite orb_false_iff, Forall_cons, IHl. Qed.
Lemma forallb_all {A} (f : A -> bool) l : forallb f l = true <-> Forall (fun x => f x = true) l.
Proof. induction l; simpl; [done|]. by rewrite andb_true_iff, Forall_cons, IHl. Qed.
Lemma identifier_spec s : valid_control_identifier s = true <-> identifier s.
Proof.
  unfold valid_control_identifier, identifier, has_control.
  rewrite !andb_true_iff, !negb_true_iff, Z.leb_le, existsb_none, <- (not_true_iff_false (str_is_empty _)),
    str_is_empty_spec. tauto.
Qed.
Lemma blob_reference_spec r media maximum :
  valid_clipboard_blob_ref (Some r) media maximum = true <-> blob_reference media maximum r.
Proof.
  unfold valid_clipboard_blob_ref, bytes_eqb, str_eqb. split.
  - intros Hv. bool_arith. split; [done|done|lia|done].
  - intros [E1 E2 E3 E4]. rewrite E2, E4, Z.gtb_ltb, !andb_true_iff, !bool_decide_eq_true, !Z.eqb_eq, Z.leb_le, Z.ltb_lt.
    tauto.
Qed.
Lemma rich_text_spec html media maximum :
  valid_clipboard_blob_ref html media maximum = true <-> exists r, html = Some r /\ blob_reference media maximum r.
Proof.
  destruct html as [r|]; [|by split; [done|intros (? & ? & _)]]. rewrite blob_reference_spec.
  split; [eauto|by intros (? & [= <-] & ?)].
Qed.
Lemma optional_reference_spec rtf media maximum :
  match rtf with Some _ => negb (valid_clipboard_blob_ref rtf media maximum) | None => false end = false
  <-> forall r, rtf = Some r -> blob_reference media maximum r.
Proof.
  destruct rtf as [r|]; [|done]. rewrite negb_false_iff, blob_reference_spec.
  split; [by intros ? ? [= <-]|by auto].
Qed.
(** Boolean checks as propositions. *)
Ltac checks_to_props :=
  rewrite ?refused_if, ?accepted_if, ?orb_false_iff, ?andb_true_iff, ?negb_false_iff, ?negb_true_iff,
    ?bool_decide_eq_false, ?bool_decide_eq_true, ?Z.gtb_ltb, ?Z.eqb_eq, ?Z.eqb_neq, ?Z.ltb_ge, ?Z.leb_le,
    ?Z.leb_gt, ?rich_text_spec, ?optional_reference_spec, ?blob_reference_spec, ?identifier_spec.
Lemma empty_neq s : str_is_empty s = false <-> s <> EmptyString.
Proof. by destruct s. Qed.
Lemma no_elements {A} (l : list A) : is_empty l = true <-> l = [].
Proof. by destruct l. Qed.
Lemma sync_record_spec now r : validate_clipboard_sync_record now r = Ok tt <-> sync_record now r.
Proof.
  unfold validate_clipboard_sync_record. cbv zeta. checks_to_props.
  rewrite forallb_all, !no_elements. split.
  - intros (Hid & Hfav & Hlab & Hprev & Hrev & Hcap & (Hch & Hk) & Hp).
    split; try (done || lia).
    destruct (content_kind_try_from (sr_kind r)) as [kind|]; [|done].
    change (default CkUnspecified (Some kind)) with kind in *. exists kind. split; [done|].
    split; [done|]. destruct (sr_deleted r), (sr_payload r) as [[]|]; destruct kind; try done.
    all: revert Hp; checks_to_props; rewrite ?empty_neq; intros Hp.
    + destruct Hp. by constructor.
    + destruct Hp as (((? & ? & -> & ?) & ?) & _). by constructor.
    + destruct Hp as (? & [= <-] & ?). by constructor.
    + constructor.
  - intros [[] [] [] ? [] [] ? (kind & -> & Hk & Hp)]. change (default CkUnspecified (Some kind)) with kind. split_and!; try (done || lia).
    destruct (sr_deleted r); [by rewrite Hp|]. destruct Hp; checks_to_props; rewrite ?empty_neq; eauto 10.
Qed.
Lemma collection_decode_spec v doc :
  is_ok (collection_decode v doc) = true <->
  v = 1 /\ slen doc <= MAX_COLLECTION_BYTES
  /\ exists c, collection_from_json doc = Some c /\ collection_validate c = Ok tt.
Proof.
  unfold collection_decode. destruct (_ || _) eqn:E.
  - split; [done|]. intros (-> & Hl & _). rewrite Z.gtb_ltb in E. simpl in E. apply Z.ltb_lt in E. lia.
  - bool_arith. destruct (collection_from_json doc) as [c|] eqn:Ec; simpl.
    + destruct (collection_validate c) as [[]|] eqn:Ev; simpl.
      * split; [|done]. intros _. split; [lia|]. split; [lia|]. eauto.
      * split; [done|]. by intros (_ & _ & c' & [= <-] & ?%(eq_trans (eq_sym Ev))).
    + split; [done|]. by intros (_ & _ & c' & ? & _).
Qed.
Lemma well_formed_spec now a : validate_command now (Some a) = Ok tt <-> well_formed now a.
Proof.
  destruct a; simpl; try done; checks_to_props; rewrite ?empty_neq; unfold MAX_CLIPBOARD_TEXT_BYTES;
    try (by intuition).
  - destruct (playback_try_from action) as [p|]; [|by split; [done|intros (? & ? & _)]].
    destruct p; (split; [|by intros (? & [= <-] & ?)]); eauto.
  - destruct policy as [p|]; [|by split; [done|intros (? & ? & _)]]. checks_to_props.
    split; [intros [? _]; eauto|by intros (? & [= <-] & ?)].
  - rewrite <- collection_decode_spec. by destruct (collection_decode _ _).
  - destruct record as [r|]; [|by split; [done|intros (? & ? & _)]]. rewrite sync_record_spec.
    split; [eauto|by intros (? & [= <-] & ?)].
Qed.
Lemma belongs_spec a f : belongs a f <-> (command_requires a).1 = f.
Proof. split; [by destruct 1|]. intros <-. destruct a; constructor. Qed.
Lemma exercises_spec a c : exercises a c <-> c ∈ command_privileges a.
Proof.
  split.
  - intros [b Hb|?|b Hb|?|?|b Hb|b Hb|?|b Hb]; try (inversion Hb; subst); set_solver.
  - destruct a; simpl; rewrite ?elem_of_union, !elem_of_singleton; intros Hc;
      repeat destruct Hc as [Hc|Hc]; subst; repeat constructor.
Qed.

Lemma require_feature_Err i fs f r :
  require_feature i fs f = Err r -> rej_request_id r = i /\ rej_code r = ECUnsupported /\ feature_code f ∉ fs.
Proof. unfold require_feature. case_bool_decide; [done|]. by intros [= <-]. Qed.
Lemma require_capability_Err i cs c r :
  require_capability i cs c = Err r -> rej_request_id r = i /\ rej_code r = ECPermissionDenied /\ c ∉ cs.
Proof. unfold require_capability. case_bool_decide; [done|]. by intros [= <-]. Qed.
(** Why a well-formed command is refused. *)
Lemma action_refused i fs cs action r :
  match action with
  | PasteClipboardRecord _ =>
    let? _ := require_feature i fs FClipboard in
    let? _ := require_capability i cs ClipboardRead in
    let? _ := require_capability i cs ClipboardWrite in
    require_capability i cs RemoteInputInject
  | action =>
    let '(f, capability) := command_requires action in
    let? _ := require_feature i fs f in require_capability i cs capability
  end = Err r ->
  rej_request_id r = i
  /\ (rej_code r = ECUnsupported /\ feature_code (command_requires action).1 ∉ fs
      \/ exists c, rej_code r = ECPermissionDenied /\ feature_code (command_requires action).1 ∈ fs
           /\ c ∈ command_privileges action /\ c ∉ cs).
Proof.
  destruct action; simpl;
    repeat match goal with
    | |- rbind ?x _ = Err r -> _ => let E := fresh "E" in destruct x as [[]|] eqn:E; simpl
    end; intros Hr; simplify_eq;
    repeat match goal with
    | E : require_feature _ _ _ = Ok _ |- _ => apply require_feature_Ok in E
    | E : require_feature _ _ _ = Err _ |- _ => apply require_feature_Err in E as (? & ? & ?)
    | E : require_capability _ _ _ = Err _ |- _ => apply require_capability_Err in E as (? & ? & ?)
    end; (split; [done|]); ((left; done) || (right; eexists; split_and!; [done|done| |done]; set_solver)).
Qed.

(** ** Properties *)

(** C25: authorisation is exact.  A command is admitted if and only if it is well formed, the feature
    it belongs to was negotiated and every privilege it exercises was granted; pasting, which reads
    the clipboard, counts as changing it and types into the focused window, needs all three
    privileges.  A refusal carries the id of the request and names the first reason: an invalid
    argument when there is no command or it is not well formed, otherwise an unsupported feature,
    otherwise a permission that is missing. *)
Theorem command_authorization_exact now i a fs cs :
  match authorize_command now i a fs cs with
  | Ok _ => exists action f, a = Some action /\ well_formed now action
      /\ belongs action f /\ feature_code f ∈ fs /\ forall c, exercises action c -> c ∈ cs
  | Err r => rej_request_id r = i
      /\ match rej_code r with
         | ECInvalidArgument => forall action, a = Some action -> ~ well_formed now action
         | ECUnsupported => exists action f, a = Some action /\ well_formed now action
             /\ belongs action f /\ feature_code f ∉ fs
         | ECPermissionDenied => exists action f c, a = Some action /\ well_formed now action
             /\ belongs action f /\ feature_code f ∈ fs /\ exercises action c /\ c ∉ cs
         | _ => False
         end
  end.
Proof.
  destruct (authorize_command now i a fs cs) as [[]|r] eqn:E.
  - apply authorize_command_Ok in E as (action & -> & Hv & Hf & Hp). exists action, (command_requires action).1.
    rewrite belongs_spec, <- well_formed_spec. split_and!; try done. intros c Hc%exercises_spec. by apply Hp.
  - revert E. unfold authorize_command. destruct (validate_command now a) as [[]|m] eqn:Hv; last first.
    { intros [= <-]. split; [done|]. intros action -> ?%well_formed_spec. congruence. }
    destruct a as [action|]; [|done]. pose proof (proj1 (well_formed_spec now action) Hv) as Hw.
    pose proof (proj2 (belongs_spec action _) eq_refl) as Hb. intros Hr.
    destruct (action_refused i fs cs action r Hr) as (Hi & Hwhy). split; [done|].
    destruct Hwhy as [[-> Hf]|(c & -> & Hf & Hc & Hn)]; [by eexists _, _|].
    exists action, (command_requires action).1, c. by rewrite exercises_spec.
Qed.

(** Read capabilities cannot act: a peer granted only read and sync capabilities cannot have
    any command admitted other than applying synchronised clipboard data, whatever it sends and
    whatever was negotiated. *)
Theorem read_grants_cannot_act now i a fs cs :
  cs ⊆ {[SystemRead; ProcessRead; MediaRead; ClipboardRead; ClipboardSync; WindowRead; ActionRead;
         NotificationRead]} ->
  authorize_command now i a fs cs = Ok tt ->
  (exists fv doc, a = Some (ApplyClipboardCollection fv doc))
  \/ exists r, a = Some (ApplyClipboardSyncRecord r).
Proof.
  intros Hcs (action & -> & _ & _ & Hp)%authorize_command_Ok.
  assert (forall c, c ∈ command_privileges action -> c ∈ ({[SystemRead; ProcessRead; MediaRead;
    ClipboardRead; ClipboardSync; WindowRead; ActionRead; NotificationRead]} : gset CapabilityId))
    as Hsub by set_solver.
  clear Hcs Hp. destruct action; simpl in Hsub; eauto; exfalso;
    match type of Hsub with forall c, c ∈ {[?x]} -> _ => specialize (Hsub x)
    | _ => specialize (Hsub ClipboardWrite) end; set_solver.
Qed.

End requests.

(** *** Witness *)

Definition toy_codes : RequestCodes :=
  {| process_sort_try_from := fun z => if z =? 1 then Some SortCpu else None;
     playback_try_from := fun z => if z =? 1 then Some PaPlay else None;
     content_kind_try_from := fun z => if z =? 1 then Some CkText else None;
     change_kind_specified := fun z => z =? 1; token := fun _ => "token"%string;
     ClipboardCollection := string; MAX_COLLECTION_BYTES := 1024;
     collection_from_json := fun s => Some s; collection_validate := fun _ => Ok tt |}.

Lemma read_grants_cannot_act_witness :
  (exists fv doc, Some (ApplyClipboardCollection 1 "x") = Some (ApplyClipboardCollection fv doc))
  \/ exists r, Some (ApplyClipboardCollection 1 "x") = Some (ApplyClipboardSyncRecord r).
Proof.
  apply (@read_grants_cannot_act toy_features toy_codes 0 1
    (Some (ApplyClipboardCollection 1 "x")) {[6]} {[ClipboardSync]}).
  - set_solver.
  - vm_compute. reflexivity.
Defined.

End Requests.
