(* ===== verification/CommandExec.v ===== *)
(** * Idempotent command execution

    Models [handle_request] of [src/server/proto_handler/requests/control.rs] for commands and
    blob requests, with [cached_command_frame] and [response_frame_for_request].  The handler's
    two critical sections on the command cache, the spawned task's completion under the lock and
    the publication of its result are separate steps, so that any number of callers and tasks
    interleave.  A watch channel is the number of its creation; [command_limit] is the number of
    permits left.  The command itself runs outside this repository's control: its response frame
    is whatever [handle_command] returned. *)

From Stdlib Require Import ZArith Lia.
From stdpp Require Import base tactics option list strings gmap countable fin_maps relations.
From S2P Require Import Prelude Proto CommandCache BlobStore Negotiation Requests.
Import CommandCache Negotiation Requests.

Module CommandExec.

Definition MAX_BACKGROUND_COMMANDS : Z := 32.

(** [proto::Response]; [body] is its [oneof]. *)
Record Response {Body : Type} := {
  rs_request_id : Z;
  rs_status : option Status;
  rs_body : option Body;
}.
Arguments Response : clear implicits.

Section exec.
Context {Body : Type} (encoded_len : Response Body -> Z).
Implicit Types (key : CommandCacheKey) (encoded : bytes).

(** [response_error], for codes that carry no error id. *)
Definition response_error (request_id : Z) (code : ErrorCode) (message : string) : Response Body :=
  {| rs_request_id := request_id; rs_status := Some (status EmptyString code message);
     rs_body := None |}.

(** [RequestRejection::into_frame]. *)
Definition into_frame (r : RequestRejection) : Response Body :=
  response_error (rej_request_id r) (rej_code r) (rej_message r).

Definition response_frame_for_request (response : Response Body) (request_id : Z) : Response Body :=
  {| rs_request_id := request_id; rs_status := rs_status response; rs_body := rs_body response |}.

Definition cached_command_frame (cache : CommandCache (Response Body)) key encoded
  (request_id : Z) : result (option (Response Body)) RequestRejection :=
  match entries cache !! key with
  | None => Ok None
  | Some cached =>
    if negb (bytes_eqb (command cached) encoded)
    then Err {| rej_request_id := request_id; rej_code := ECInvalidArgument;
                rej_message := "idempotency key was reused for a different command"%string |}
    else Ok (Some (response_frame_for_request (response cached) request_id))
  end.

(** A spawned command: [task_result] is set once it has completed under the lock, and it holds
    its permit until the result is published. *)
Record Task := {
  task_key : CommandCacheKey;
  task_command : bytes;
  task_result : option (Response Body);
}.

Record state := {
  cache : CommandCache (Response Body);
  permits : Z;
  tasks : gmap nat Task;
  channels : gmap nat (option (Response Body));
  next_channel : nat;
}.

Definition initial : state :=
  {| cache := CommandCache.new; permits := MAX_BACKGROUND_COMMANDS; tasks := ∅; channels := ∅;
     next_channel := 0 |}.

(** What a critical section decides. *)
Inductive outcome :=
| Reply (frame : Response Body)
| Proceed
| Wait (channel : nat).

Definition set_cache (c : CommandCache (Response Body)) (s : state) : state :=
  {| cache := c; permits := permits s; tasks := tasks s; channels := channels s;
     next_channel := next_channel s |}.

(** The first critical section: answer from the cache. *)
Definition check_cache (now : Z) key encoded (request_id : Z) (s : state) : state * outcome :=
  let c := prune now (cache s) in
  (set_cache c s,
   match cached_command_frame c key encoded request_id with
   | Ok (Some frame) => Reply frame
   | Err error => Reply (into_frame error)
   | Ok None => Proceed
   end).

(** The second: answer from the cache, join the command in flight, or start it. *)
Definition join_or_start (now : Z) key encoded (request_id : Z) (s : state) : state * outcome :=
  let c := prune now (cache s) in
  let s := set_cache c s in
  match cached_command_frame c key encoded request_id with
  | Ok (Some frame) => (s, Reply frame)
  | Err error => (s, Reply (into_frame error))
  | Ok None =>
    match in_flight c !! key with
    | Some running =>
      if negb (bytes_eqb (in_flight_command running) encoded)
      then (s, Reply (response_error request_id ECInvalidArgument
                        "idempotency key was reused for a different command"))
      else (s, Wait (result_tx running))
    | None =>
      if permits s =? 0
      then (s, Reply (response_error request_id ECResourceExhausted
                        "too many background commands are active"))
      else
        let channel := next_channel s in
        ({| cache := set_in_flight (<[key := {| in_flight_command := encoded;
                                                result_tx := channel |}]> (in_flight c)) c;
            permits := permits s - 1;
            tasks := <[channel := {| task_key := key; task_command := encoded;
                                     task_result := None |}]> (tasks s);
            channels := <[channel := None]> (channels s);
            next_channel := S channel |}, Wait channel)
    end
  end.

(** The task's last critical section, after the command returned [response]. *)
Definition complete (t1 t2 : Z) (channel : nat) (response : Response Body) (s : state) : state :=
  match tasks s !! channel with
  | Some {| task_key := key; task_command := encoded; task_result := None |} =>
    let c := set_in_flight (delete key (in_flight (cache s))) (cache s) in
    let c := if match rs_status response with Some st => negb (st_retryable st) | None => false end
             then insert encoded_len t1 t2 key encoded response c else c in
    {| cache := c; permits := permits s;
       tasks := <[channel := {| task_key := key; task_command := encoded;
                                task_result := Some response |}]> (tasks s);
       channels := channels s; next_channel := next_channel s |}
  | _ => s
  end.

(** [result_tx.send(Some(response))] and the drop of the permit. *)
Definition publish (channel : nat) (s : state) : state :=
  match tasks s !! channel with
  | Some {| task_result := Some response |} =>
    {| cache := cache s; permits := permits s + 1; tasks := delete channel (tasks s);
       channels := <[channel := Some response]> (channels s); next_channel := next_channel s |}
  | _ => s
  end.

(** The caller's wait on its receiver: the published result; [None] while the task that holds the
    sender is alive; an error if the sender is gone without a result. *)
Definition await (channel : nat) (request_id : Z) (s : state) : option (Response Body) :=
  match channels s !! channel with
  | Some (Some response) => Some (response_frame_for_request response request_id)
  | _ => match tasks s !! channel with
         | Some _ => None
         | None => Some (response_error request_id ECUnavailable
                           "the original command ended without a result")
         end
  end.

(** ** The request handler's guards

    [start] runs the guards of the command branch of [handle_request] before the cache is
    consulted: [None] means the request goes on to [check_cache]. *)
Definition command_guard `{!FeatureCodes} `{!RequestCodes} (now_ms request_id : Z)
  (idempotency_key : bytes) (action : option Action) (features : gset Z)
  (capabilities : gset CapabilityId) : option (Response Body) :=
  if negb ((16 <=? blen idempotency_key) && (blen idempotency_key <=? 64))
  then Some (response_error request_id ECInvalidArgument
               "commands require a 16-64 byte idempotency key")
  else match authorize_command now_ms request_id action features capabilities with
       | Err rejection => Some (into_frame rejection)
       | Ok _ => None
       end.

(** The [GetBlob] branch of [handle_request]: the guards, then [BlobStore::issue_ticket].  The
    outer [None] is a ticket loop still drawing. *)
Definition get_blob `{!FeatureCodes} `{!RequestCodes} `{!WireLimits}
  (ticket_body : BlobTicket -> Body)
  (t0 t1 t2 wall : Z) (ids : list Z) (tks : list bytes)
  (request_id : Z) (idempotency_key blob_id device_public_key : bytes) (features : gset Z)
  (capabilities : gset CapabilityId) (store : BlobStore.BlobStoreInner)
  : option (BlobStore.BlobStoreInner * Response Body) :=
  if negb (is_empty idempotency_key)
  then Some (store, response_error request_id ECInvalidArgument
                      "Blob requests must not include an idempotency key") else
  if negb (blen blob_id =? 32)
  then Some (store, response_error request_id ECInvalidArgument
                      "Blob IDs must be 32-byte SHA-256 digests") else
  match require_feature request_id features FBlobs with
  | Err rejection => Some (store, into_frame rejection)
  | Ok _ =>
    match require_any_capability request_id capabilities [ClipboardRead; ClipboardSync] with
    | Err rejection => Some (store, into_frame rejection)
    | Ok _ =>
      match BlobStore.issue_ticket t0 t1 t2 wall ids tks device_public_key blob_id store with
      | None => None
      | Some (store, Ok ticket) =>
        Some (store, {| rs_request_id := request_id; rs_status := Some ok_status;
                        rs_body := Some (ticket_body ticket) |})
      | Some (store, Err BlobStore.NotFound) =>
        Some (store, response_error request_id ECNotFound "blob is not available")
      | Some (store, Err BlobStore.ResourceExhausted) =>
        Some (store, response_error request_id ECResourceExhausted
                       "too many Blob tickets are outstanding")
      end
    end
  end.

(** ** Histories

    Ghost state: the clock, the executions started on each channel, and the completed ones. *)

Record world := {
  clock : Z;
  st : state;
  started : gmap nat (CommandCacheKey * bytes);
  completed : list (CommandCacheKey * bytes * Response Body);
}.

Definition world0 (t : Z) : world :=
  {| clock := t; st := initial; started := ∅; completed := [] |}.

Inductive exec_step : world -> world -> Prop :=
| step_check w now key encoded id :
    clock w <= now ->
    exec_step w {| clock := now; st := (check_cache now key encoded id (st w)).1;
                   started := started w; completed := completed w |}
| step_join w now key encoded id :
    clock w <= now ->
    exec_step w {| clock := now; st := (join_or_start now key encoded id (st w)).1;
                   started := if bool_decide (next_channel (join_or_start now key encoded id (st w)).1
                                              = next_channel (st w))
                              then started w
                              else <[next_channel (st w) := (key, encoded)]> (started w);
                   completed := completed w |}
| step_complete w t1 t2 channel response task :
    clock w <= t1 <= t2 ->
    tasks (st w) !! channel = Some task -> task_result task = None ->
    exec_step w {| clock := t2; st := complete t1 t2 channel response (st w);
                   started := started w;
                   completed := (task_key task, task_command task, response) :: completed w |}
| step_publish w channel :
    exec_step w {| clock := clock w; st := publish channel (st w); started := started w;
                   completed := completed w |}.

(** ** Invariant *)

Record inv (w : world) : Prop := {
  inv_cache : CommandCache.wf (clock w) (cache (st w));
  inv_permits : permits (st w) + Z.of_nat (size (tasks (st w))) = MAX_BACKGROUND_COMMANDS
    /\ 0 <= permits (st w);
  (** A key is in flight exactly while its task runs. *)
  inv_flight : forall key running, in_flight (cache (st w)) !! key = Some running ->
    tasks (st w) !! result_tx running =
      Some {| task_key := key; task_command := in_flight_command running; task_result := None |};
  inv_tasks : forall ch task, tasks (st w) !! ch = Some task ->
    started w !! ch = Some (task_key task, task_command task)
    /\ channels (st w) !! ch = Some None
    /\ match task_result task with
       | None => in_flight (cache (st w)) !! task_key task =
                   Some {| in_flight_command := task_command task; result_tx := ch |}
       | Some r => (task_key task, task_command task, r) ∈ completed w
       end;
  inv_started : forall ch x, started w !! ch = Some x -> (ch < next_channel (st w))%nat;
  inv_channels : forall ch r, channels (st w) !! ch = Some (Some r) ->
    exists key encoded, started w !! ch = Some (key, encoded)
      /\ (key, encoded, r) ∈ completed w;
  inv_entries : forall key e, entries (cache (st w)) !! key = Some e ->
    (key, command e, response e) ∈ completed w;
  (** An execution either runs or has published its result. *)
  inv_live : forall ch x, started w !! ch = Some x ->
    is_Some (tasks (st w) !! ch) \/ exists r, channels (st w) !! ch = Some (Some r);
}.

Hypothesis encoded_len_nonneg : forall r, 0 <= encoded_len r.

Lemma world0_inv t : inv (world0 t).
Proof.
  split; simpl.
  - apply new_wf.
  - split; [|by vm_compute]. by rewrite map_size_empty.
  - intros key running. by rewrite lookup_empty.
  - intros ch task. by rewrite lookup_empty.
  - intros ch x. by rewrite lookup_empty.
  - intros ch r. by rewrite lookup_empty.
  - intros key e. by rewrite lookup_empty.
  - intros ch x. by rewrite lookup_empty.
Qed.

(** Pruning the cache and moving the clock keeps the invariant. *)
Lemma prune_inv w now :
  inv w -> clock w <= now ->
  inv {| clock := now; st := set_cache (prune now (cache (st w))) (st w); started := started w;
         completed := completed w |}.
Proof.
  intros [I1 I2 I3 I4 I5 I6 I7 I8] Ht. split; simpl; try done.
  - eapply cache_wf_later; [|exact Ht]. by apply (prune_keeps_wf (clock w) now).
  - by rewrite prune_in_flight.
  - intros ch task Htk. rewrite prune_in_flight. by apply I4.
  - intros key e He. apply I7. by eapply prune_lookup_fresh.
Qed.

Lemma join_cases now key encoded id s :
  (next_channel (join_or_start now key encoded id s).1 = next_channel s
   /\ (join_or_start now key encoded id s).1 = set_cache (prune now (cache s)) s
   /\ (forall ch, (join_or_start now key encoded id s).2 = Wait ch ->
        in_flight (cache s) !! key = Some {| in_flight_command := encoded; result_tx := ch |})
   /\ ~ (entries (prune now (cache s)) !! key = None /\ in_flight (cache s) !! key = None
         /\ permits s <> 0))
  \/ (entries (prune now (cache s)) !! key = None /\ in_flight (cache s) !! key = None
      /\ permits s <> 0
      /\ join_or_start now key encoded id s =
         ({| cache := set_in_flight (<[key := {| in_flight_command := encoded;
                                                 result_tx := next_channel s |}]>
                                      (in_flight (cache s))) (prune now (cache s));
             permits := permits s - 1;
             tasks := <[next_channel s := {| task_key := key; task_command := encoded;
                                             task_result := None |}]> (tasks s);
             channels := <[next_channel s := None]> (channels s);
             next_channel := S (next_channel s) |}, Wait (next_channel s))).
Proof.
  unfold join_or_start, cached_command_frame.
  destruct (entries (prune now (cache s)) !! key) as [e|] eqn:He.
  { left. destruct (negb _); split_and!; try done; by intros (? & _). }
  rewrite prune_in_flight. destruct (in_flight (cache s) !! key) as [running|] eqn:Hf.
  { left. destruct (bytes_eqb (in_flight_command running) encoded) eqn:Hb; simpl;
      split_and!; try done; try (by intros (_ & ? & _)). intros ch [= <-].
    unfold bytes_eqb in Hb. bool_arith. subst encoded. by destruct running. }
  simpl. destruct (permits s =? 0) eqn:Hp; bool_arith; [left; split_and!; try done; tauto|right; done].
Qed.

Lemma start_inv w now key encoded :
  inv w -> clock w <= now -> in_flight (cache (st w)) !! key = None -> permits (st w) <> 0 ->
  inv {| clock := now;
         st := {| cache := set_in_flight (<[key := {| in_flight_command := encoded;
                                                 result_tx := next_channel (st w) |}]>
                                      (in_flight (cache (st w)))) (prune now (cache (st w)));
             permits := permits (st w) - 1;
             tasks := <[next_channel (st w) := {| task_key := key; task_command := encoded;
                                             task_result := None |}]> (tasks (st w));
             channels := <[next_channel (st w) := None]> (channels (st w));
             next_channel := S (next_channel (st w)) |};
         started := <[next_channel (st w) := (key, encoded)]> (started w);
         completed := completed w |}.
Proof.
  intros Hi Ht Hf Hp. destruct (prune_inv w now Hi Ht) as [P1 _ _ _ _ _ P7 _].
  destruct Hi as [I1 I2 I3 I4 I5 I6 I7 I8]. simpl in *.
  assert (tasks (st w) !! next_channel (st w) = None) as Hnew.
  { apply eq_None_not_Some. intros [task Htk]. destruct (I4 _ _ Htk) as (Hs & _).
    apply I5 in Hs. lia. }
  assert (forall ch task, tasks (st w) !! ch = Some task -> ch <> next_channel (st w)) as Hne
    by (intros ch task Htk ->; congruence).
  split; simpl.
  - by apply set_in_flight_wf.
  - rewrite map_size_insert_None by done. lia.
  - intros k running. rewrite lookup_insert_Some. intros [[<- <-]|[Hk Hr]]; simpl.
    + apply lookup_insert_eq.
    + specialize (I3 k running Hr). rewrite lookup_insert_ne; [done|].
      intros E. eapply Hne; [exact I3|done].
  - intros ch task. rewrite lookup_insert_Some. intros [[<- <-]|[Hch Htk]]; simpl.
    + by rewrite !lookup_insert_eq.
    + destruct (I4 ch task Htk) as (H1 & H2 & H3).
      rewrite !(lookup_insert_ne _ (next_channel (st w))) by done. split; [done|]. split; [done|].
      destruct (task_result task); [done|]. rewrite lookup_insert_ne; [done|congruence].
  - intros ch x. rewrite lookup_insert_Some. intros [[<- _]|[_ Hx]]; [lia|].
    apply I5 in Hx. lia.
  - intros ch r. rewrite lookup_insert_Some. intros [[_ ?]|[Hch Hr]]; [done|].
    rewrite lookup_insert_ne by done. eauto.
  - intros k e. apply P7.
  - intros ch x. rewrite lookup_insert_Some. intros [[<- _]|[Hch Hx]].
    + left. rewrite lookup_insert_eq. eauto.
    + rewrite !(lookup_insert_ne _ (next_channel (st w))) by done. eauto.
Qed.

Lemma complete_inv w t1 t2 ch response task :
  inv w -> clock w <= t1 <= t2 -> tasks (st w) !! ch = Some task -> task_result task = None ->
  inv {| clock := t2; st := complete t1 t2 ch response (st w); started := started w;
         completed := (task_key task, task_command task, response) :: completed w |}.
Proof.
  intros [I1 I2 I3 I4 I5 I6 I7 I8] Ht Htk Hres. destruct (I4 ch task Htk) as (Hst & Hch & Hfl).
  rewrite Hres in Hfl. destruct task as [key encoded res]. simpl in *. subst res.
  unfold complete. rewrite Htk. cbn zeta.
  set (c1 := set_in_flight (delete key (in_flight (cache (st w)))) (cache (st w))).
  assert (CommandCache.wf (clock w) c1) as Hwf1 by (by apply set_in_flight_wf).
  match goal with |- context [{| cache := ?x |}] => set (c2 := x) end.
  assert (CommandCache.wf t2 c2 /\ in_flight c2 = delete key (in_flight (cache (st w)))
    /\ forall k e, entries c2 !! k = Some e ->
         (k = key /\ command e = encoded /\ CommandCache.response e = response)
         \/ entries (cache (st w)) !! k = Some e) as (Hwf2 & Hf2 & He2).
  { unfold c2. destruct (match rs_status response with Some _ => _ | None => _ end).
    - split; [|split].
      + eapply cache_wf_later; [|apply Ht].
        apply (insert_keeps_wf encoded_len encoded_len_nonneg (clock w)); [done|lia].
      + by rewrite (insert_in_flight encoded_len (clock w)).
      + intros k e He. by eapply (insert_entries encoded_len (clock w)) in He.
    - split; [eapply cache_wf_later; [done|lia]|]. split; [done|]. by right. }
  clearbody c2. split; simpl.
  - done.
  - rewrite map_size_insert_Some by eauto. done.
  - intros k running. rewrite Hf2, lookup_delete_Some. intros [Hne Hr].
    specialize (I3 k running Hr). rewrite lookup_insert_ne; [done|]. intros E.
    rewrite <- E, Htk in I3. congruence.
  - intros ch' task'. rewrite lookup_insert_Some. intros [[<- <-]|[Hne Htk']]; simpl.
    + split; [done|]. split; [done|]. left.
    + destruct (I4 ch' task' Htk') as (H1 & H2 & H3). split; [done|]. split; [done|].
      destruct (task_result task') as [r|]; [by right|].
      rewrite Hf2, lookup_delete_ne; [done|]. intros Heq. rewrite <- Heq in H3. congruence.
  - done.
  - intros ch' r Hr. destruct (I6 ch' r Hr) as (k & enc & ? & ?). exists k, enc.
    split; [done|]. by right.
  - intros k e He. destruct (He2 k e He) as [(-> & <- & <-)|He']; [left|]. right. by apply I7.
  - intros ch' x Hx. destruct (I8 ch' x Hx) as [[task' Ht']|?]; [left|by right].
    rewrite lookup_insert. case_decide; eauto.
Qed.

Lemma publish_inv w ch :
  inv w -> inv {| clock := clock w; st := publish ch (st w); started := started w;
                  completed := completed w |}.
Proof.
  intros Hi. unfold publish. destruct (tasks (st w) !! ch) as [[key encoded [r|]]|] eqn:Htk;
    [|by destruct Hi..].
  destruct Hi as [I1 I2 I3 I4 I5 I6 I7 I8]. destruct (I4 ch _ Htk) as (Hst & Hch & Hc). simpl in *.
  split; simpl; try done.
  - assert (size (delete ch (tasks (st w))) = pred (size (tasks (st w)))) as Hsz
      by (apply map_size_delete_Some; eauto).
    assert (size (tasks (st w)) <> 0%nat).
    { intros Hz. apply map_size_empty_inv in Hz. rewrite Hz, lookup_empty in Htk. done. }
    rewrite Hsz. lia.
  - intros k running Hr. specialize (I3 k running Hr). rewrite lookup_delete_ne; [done|].
    intros E. rewrite <- E in I3. congruence.
  - intros ch' task'. rewrite lookup_delete_Some. intros [Hne Htk'].
    rewrite lookup_insert_ne by done. by apply I4.
  - intros ch' r'. rewrite lookup_insert_Some. intros [[<- [= <-]]|[_ Hr]]; eauto.
  - intros ch' x Hx. destruct (decide (ch = ch')) as [<-|Hne].
    + right. exists r. by rewrite lookup_insert_eq.
    + rewrite lookup_delete_ne, lookup_insert_ne by done. eauto.
Qed.

Lemma exec_step_inv w w' : exec_step w w' -> inv w -> inv w'.
Proof.
  intros [w0 now key encoded id Ht|w0 now key encoded id Ht
         |w0 t1 t2 ch response task Ht Htk Hres|w0 ch] Hi.
  - by apply prune_inv.
  - destruct (join_cases now key encoded id (st w0)) as [(Hn & E & _)|(_ & Hf & Hp & E)].
    + rewrite bool_decide_true by done. rewrite E. by apply prune_inv.
    + rewrite E. cbn [fst next_channel]. rewrite bool_decide_false by (simpl; lia).
      by apply start_inv.
  - by apply complete_inv.
  - by apply publish_inv.
Qed.

Lemma reachable_inv t w : rtc exec_step (world0 t) w -> inv w.
Proof.
  intros Hr. assert (inv (world0 t)) as Hi by apply world0_inv.
  induction Hr as [|w1 w2 w3 Hs _ IH]; [done|]. apply IH. by eapply exec_step_inv.
Qed.

(** ** Properties *)

(** C10: in every interleaving of callers and tasks, at most 32 commands hold a permit, and no
    two executions of the same device and idempotency key ever run at the same time. *)
Theorem command_execution_exclusive t w :
  rtc exec_step (world0 t) w ->
  Z.of_nat (size (tasks (st w))) <= MAX_BACKGROUND_COMMANDS
  /\ forall ch1 ch2 task1 task2,
       tasks (st w) !! ch1 = Some task1 -> tasks (st w) !! ch2 = Some task2 ->
       task_result task1 = None -> task_result task2 = None ->
       task_key task1 = task_key task2 -> ch1 = ch2.
Proof.
  intros [I1 I2 I3 I4 I5 I6 I7 I8]%reachable_inv. split; [lia|].
  intros ch1 ch2 task1 task2 H1 H2 R1 R2 Hk.
  destruct (I4 _ _ H1) as (_ & _ & F1). destruct (I4 _ _ H2) as (_ & _ & F2).
  rewrite R1 in F1. rewrite R2 in F2. rewrite Hk in F1. congruence.
Qed.

(** A frame that carries the result [r] under the request id [id], and one that refuses the request. *)
Definition carries (frame r : Response Body) (id : Z) : Prop :=
  rs_request_id frame = id /\ rs_status frame = rs_status r /\ rs_body frame = rs_body r.
Definition refuses (frame : Response Body) (code : ErrorCode) (id : Z) : Prop :=
  rs_request_id frame = id /\ st_code <$> rs_status frame = Some code /\ rs_body frame = None.

(** The immediate replies to a command: the result of a completed execution of the same key and
    command; a refusal because the key stands for another command, completed or running; or, where
    the command would have to be started, a refusal for want of a permit. *)
Inductive answered (w : world) key encoded (id : Z) (frame : Response Body) : Prop :=
| answered_replay r :
    (key, encoded, r) ∈ completed w -> carries frame r id -> answered w key encoded id frame
| answered_reused other :
    other <> encoded ->
    (exists r, (key, other, r) ∈ completed w)
      \/ (exists running, in_flight (cache (st w)) !! key = Some running /\ in_flight_command running = other) ->
    refuses frame ECInvalidArgument id -> answered w key encoded id frame
| answered_busy :
    permits (st w) = 0 -> in_flight (cache (st w)) !! key = None ->
    refuses frame ECResourceExhausted id -> answered w key encoded id frame.

Lemma insert_changes (ch : nat) (task : Task) (m : gmap nat Task) : m !! ch = None -> <[ch := task]> m <> m.
Proof. intros Hm E. rewrite <- E, lookup_insert_eq in Hm. done. Qed.

Lemma cached_frame_answered w now key encoded id :
  inv w ->
  match cached_command_frame (prune now (cache (st w))) key encoded id with
  | Ok (Some frame) => answered w key encoded id frame
  | Err error => answered w key encoded id (into_frame error)
  | Ok None => entries (prune now (cache (st w))) !! key = None
  end.
Proof.
  intros Hi. unfold cached_command_frame.
  destruct (entries (prune now (cache (st w))) !! key) as [e|] eqn:He; [|done].
  assert ((key, command e, CommandCache.response e) ∈ completed w) as Hc
    by (apply (inv_entries w Hi); by eapply prune_lookup_fresh, He; apply Hi).
  unfold bytes_eqb. case_bool_decide as Hb; simpl.
  - subst encoded. by apply (answered_replay _ _ _ _ _ (CommandCache.response e)).
  - eapply answered_reused; [exact Hb|eauto|done].
Qed.
Lemma join_answered w now key encoded id frame :
  inv w -> (join_or_start now key encoded id (st w)).2 = Reply frame -> answered w key encoded id frame.
Proof.
  intros Hi. unfold join_or_start. pose proof (cached_frame_answered w now key encoded id Hi) as Hc.
  destruct (cached_command_frame _ _ _ _) as [[f|]|e]; [by intros [= <-]| |by intros [= <-]].
  rewrite prune_in_flight. destruct (in_flight (cache (st w)) !! key) as [running|] eqn:Hf.
  - unfold bytes_eqb. case_bool_decide as Hb; [done|]. intros [= <-].
    eapply answered_reused; [exact Hb|eauto|done].
  - simpl. destruct (permits (st w) =? 0) eqn:Hp; [|done]. intros [= <-]. bool_arith.
    by apply answered_busy.
Qed.

(** C20: in every interleaving of callers and tasks, a command is executed only when it has to be and
    nobody is given another command's result.  Looking into the cache starts nothing, and whatever
    either critical section replies at once is the result of a completed execution of the caller's
    own key and command under its own request id, or the refusal of a key that stands for another
    command, or the refusal for want of a permit; the result remembered for the same command is
    replayed by both.  An execution is started exactly when the key is neither remembered nor in
    flight and a permit is free, for that key and command.  A caller that waits, waits for an
    execution of its own key and command, and what it is then given is the result of that execution
    under its own id: no caller is told that its command ended without a result. *)
Theorem command_replies_genuine t w now key encoded id :
  rtc exec_step (world0 t) w -> clock w <= now ->
  let remembered := entries (prune now (cache (st w))) !! key in
  let checked := check_cache now key encoded id (st w) in
  let joined := join_or_start now key encoded id (st w) in
  (forall frame, checked.2 = Reply frame \/ joined.2 = Reply frame -> answered w key encoded id frame)
  /\ (forall e, remembered = Some e -> command e = encoded ->
        exists frame, checked.2 = Reply frame /\ joined.2 = Reply frame
          /\ carries frame (CommandCache.response e) id)
  /\ (checked.2 = Proceed <-> remembered = None)
  /\ tasks checked.1 = tasks (st w) /\ in_flight (cache checked.1) = in_flight (cache (st w))
  /\ (tasks joined.1 <> tasks (st w) <->
        remembered = None /\ in_flight (cache (st w)) !! key = None /\ permits (st w) <> 0)
  /\ (tasks joined.1 <> tasks (st w) ->
        joined.2 = Wait (next_channel (st w))
        /\ tasks joined.1 = <[next_channel (st w) := {| task_key := key; task_command := encoded;
                                                         task_result := None |}]> (tasks (st w)))
  /\ (forall ch, joined.2 = Wait ch ->
        ch = next_channel (st w) /\ tasks joined.1 <> tasks (st w)
        \/ started w !! ch = Some (key, encoded))
  /\ (forall ch id' r, started w !! ch = Some (key, encoded) -> await ch id' (st w) = Some r ->
        exists r0, (key, encoded, r0) ∈ completed w /\ carries r r0 id').
Proof.
  intros Hr Ht remembered checked joined. pose proof (reachable_inv t w Hr) as Hi.
  pose proof (cached_frame_answered w now key encoded id Hi) as Hc.
  pose proof (fun frame => join_answered w now key encoded id frame Hi) as Hj.
  pose proof Hi as [I1 I2 I3 I4 I5 I6 I7 I8].
  assert (tasks (st w) !! next_channel (st w) = None) as Hnew.
  { apply eq_None_not_Some. intros [task Htk]. destruct (I4 _ _ Htk) as (Hs & _). apply I5 in Hs. lia. }
  pose proof (join_cases now key encoded id (st w)) as Hcase.
  split_and!; try done.
  - intros frame [E|E]; [|by apply Hj]. unfold checked, check_cache in E. simpl in E.
    destruct (cached_command_frame _ _ _ _) as [[f|]|e]; by simplify_eq.
  - intros e He Hce. exists (response_frame_for_request (CommandCache.response e) id).
    unfold checked, joined, check_cache, join_or_start, cached_command_frame. unfold remembered in He.
    rewrite He. unfold bytes_eqb. by rewrite bool_decide_true.
  - unfold checked, check_cache, remembered, cached_command_frame. simpl.
    destruct (entries _ !! key); [|done]. by destruct (negb _).
  - simpl. apply prune_in_flight.
  - destruct Hcase as [(_ & E & _ & Hn)|(Ha & Hb & Hd & E)]; fold joined in E; rewrite E; simpl; [done|].
    split; [done|]. intros _. apply insert_changes, Hnew.
  - destruct Hcase as [(_ & E & _ & Hn)|(_ & _ & _ & E)]; fold joined in E; rewrite E; simpl; [done|].
    done.
  - intros ch Hw. destruct Hcase as [(_ & _ & Hch & _)|(_ & _ & _ & E)].
    + right. specialize (I3 key _ (Hch ch Hw)). by apply I4 in I3 as (? & _).
    + left. fold joined in E. rewrite E in Hw |- *. injection Hw as <-. split; [done|].
      apply insert_changes, Hnew.
  - intros ch id' r Hs. unfold await. destruct (I8 ch _ Hs) as [[task Htk]|[r0 Hch]].
    { destruct (I4 ch task Htk) as (_ & -> & _). by rewrite Htk. }
    rewrite Hch. intros [= <-]. destruct (I6 ch r0 Hch) as (k & enc & Hs' & Hc'). rewrite Hs in Hs'.
    injection Hs' as <- <-. by exists r0.
Qed.

(** A finished command is remembered: once its non-retryable response is stored and fits the
    device budget, a retry with the same key and command within the five-minute TTL gets that
    very response without executing anything, and reusing the key for another command is refused
    as an invalid argument. *)
Theorem completed_command_replayed t w t1 t2 ch response task stt now encoded' id :
  rtc exec_step (world0 t) w -> clock w <= t1 <= t2 -> t2 - t1 < COMMAND_CACHE_TTL ->
  tasks (st w) !! ch = Some task -> task_result task = None ->
  rs_status response = Some stt -> st_retryable stt = false ->
  charge encoded_len (task_key task) (task_command task) response
    <= MAX_CACHED_COMMAND_BYTES_PER_DEVICE ->
  t2 <= now -> now - t1 < COMMAND_CACHE_TTL ->
  let s1 := complete t1 t2 ch response (st w) in
  check_cache now (task_key task) (task_command task) id s1
    = (set_cache (prune now (cache s1)) s1, Reply (response_frame_for_request response id))
  /\ (encoded' <> task_command task ->
      (check_cache now (task_key task) encoded' id s1).2
        = Reply (response_error id ECInvalidArgument
                   "idempotency key was reused for a different command")).
Proof.
  intros Hr Ht Hd Htk Hres Hst Hretry Hfit Hnow Hnow2 s1.
  pose proof (reachable_inv t w Hr) as [I1 _ _ _ _ _ _].
  set (c1 := set_in_flight (delete (task_key task) (in_flight (cache (st w)))) (cache (st w))).
  assert (CommandCache.wf (clock w) c1) as Hwf1 by (by apply set_in_flight_wf).
  assert (cache s1 = insert encoded_len t1 t2 (task_key task) (task_command task) response c1) as Hc1.
  { unfold s1, complete. rewrite Htk. destruct task as [key encoded res]. simpl in *. subst res.
    by rewrite Hst, Hretry. }
  pose proof (insert_newest encoded_len encoded_len_nonneg (clock w) t1 t2 (task_key task)
    (task_command task) response c1 Hwf1 ltac:(lia) Hd Hfit) as Hn.
  pose proof (insert_keeps_wf encoded_len encoded_len_nonneg (clock w) t1 t2 (task_key task)
    (task_command task) response c1 Hwf1 ltac:(lia)) as Hwf2.
  rewrite <- Hc1 in Hn, Hwf2.
  apply (prune_newest t1 now) in Hn as [He _]; [|apply Hwf2|apply Hwf2|done].
  unfold check_cache, cached_command_frame. rewrite He. unfold bytes_eqb. simpl.
  split; [by rewrite bool_decide_true|]. intros Hne. by rewrite bool_decide_false.
Qed.
End exec.

(** *** Witnesses: one command started and completed *)

Definition wlen (r : Response unit) : Z := 10.
Lemma wlen_nonneg r : 0 <= wlen r.
Proof. unfold wlen. lia. Qed.
Definition wkey : CommandCacheKey := new_key [Byte.x01] [Byte.x02].
Definition wresponse : Response unit :=
  {| rs_request_id := 1; rs_status := Some ok_status; rs_body := Some tt |}.
Definition wtask : Task :=
  {| task_key := wkey; task_command := [Byte.x03]; task_result := @None (Response unit) |}.
Definition wrunning : @world unit :=
  {| clock := 1; st := (join_or_start 1 wkey [Byte.x03] 1 initial).1;
     started := <[0%nat := (wkey, [Byte.x03])]> ∅; completed := @nil _ |}.

Lemma wrunning_reachable : rtc (exec_step wlen) (world0 0) wrunning.
Proof.
  eapply rtc_l; [|apply rtc_refl].
  exact (step_join wlen (world0 0) 1 wkey [Byte.x03] 1 ltac:(simpl; lia)).
Qed.

Lemma command_execution_exclusive_witness :
  Z.of_nat (size (tasks (st wrunning))) <= MAX_BACKGROUND_COMMANDS.
Proof. apply (command_execution_exclusive wlen wlen_nonneg 0 wrunning wrunning_reachable). Defined.

(** The command completed: the same command is replayed, another one under the key is refused. *)
Definition wfinished : @world unit :=
  {| clock := 3; st := complete wlen 2 3 0 wresponse (st wrunning); started := started wrunning;
     completed := [(wkey, [Byte.x03], wresponse)] |}.
Lemma wfinished_reachable : rtc (exec_step wlen) (world0 0) wfinished.
Proof.
  eapply rtc_r; [apply wrunning_reachable|].
  refine (step_complete wlen wrunning 2 3 0 wresponse wtask _ _ _);
    [simpl; lia|vm_compute; reflexivity|reflexivity].
Qed.
Lemma command_replies_genuine_witness :
  answered wfinished wkey [Byte.x03] 9 {| rs_request_id := 9; rs_status := Some ok_status; rs_body := Some tt |}
  /\ exists frame, (join_or_start 4 wkey [Byte.x04] 9 (st wfinished)).2 = Reply frame
       /\ answered wfinished wkey [Byte.x04] 9 frame.
Proof.
  split.
  - apply (command_replies_genuine wlen wlen_nonneg 0 wfinished 4 wkey [Byte.x03] 9 wfinished_reachable
      ltac:(simpl; lia)). left. vm_compute. reflexivity.
  - eexists. split; [vm_compute; reflexivity|].
    apply (command_replies_genuine wlen wlen_nonneg 0 wfinished 4 wkey [Byte.x04] 9 wfinished_reachable
      ltac:(simpl; lia)). right. vm_compute. reflexivity.
Defined.

Lemma completed_command_replayed_witness :
  (check_cache 5 wkey [Byte.x03] 77 (complete wlen 2 3 0 wresponse (st wrunning))).2
  = Reply (response_frame_for_request wresponse 77).
Proof.
  destruct (completed_command_replayed wlen wlen_nonneg 0 wrunning 2 3 0 wresponse wtask ok_status 5
    [Byte.x04] 77 wrunning_reachable) as [H _];
    [simpl; lia|vm_compute; reflexivity|vm_compute; reflexivity|reflexivity|reflexivity|reflexivity
    |vm_compute; congruence|lia|vm_compute; reflexivity|].
  exact (f_equal snd H).
Defined.

End CommandExec.
