(* ===== verification/RemoteFiles.v ===== *)
(** * Remote file messages

    Models [src/remote_files.rs]: the access rights computed from grants, the requests and
    responses with their validation, and their translation to and from protobuf frames.  The
    protobuf codec and the frame transport are other crates: they are classes with their round
    trip law. *)

From Stdlib Require Import ZArith Lia Ascii String.
From stdpp Require Import base tactics option list strings gmap.
From S2P Require Import Prelude Proto Text Requests.

(** [M::decode] and [M::encode_to_vec] of a [prost] message, and [x as i32] with [E::try_from]
    for a [prost] enumeration. *)
Class ProstMessage (M : Type) := {
  encode_to_vec : M -> bytes;
  prost_decode : bytes -> option M;
  prost_decode_encode : forall m, prost_decode (encode_to_vec m) = Some m;
}.
Class ProstEnum (E : Type) := {
  as_i32 : E -> Z;
  try_from : Z -> option E;
  try_from_as_i32 : forall e, try_from (as_i32 e) = Some e;
}.
(** [arcrelay_transport::write_frame] and [read_frame] with a size bound, on the bytes of a
    stream. *)
Class FrameTransport := {
  write_frame : Z -> bytes -> option bytes;
  read_frame : Z -> bytes -> option (bytes * bytes);
  write_frame_fits : forall limit b, blen b <= limit -> limit <= u32_max -> exists w, write_frame limit b = Some w;
  read_write_frame : forall limit b w rest,
    write_frame limit b = Some w -> read_frame limit (w ++ rest) = Some (b, rest);
}.

Module RemoteFiles.
Import Requests.

Definition DEFAULT_REMOTE_DIRECTORY_PAGE_SIZE : Z := 100.
Definition MAX_REMOTE_DIRECTORY_PAGE_SIZE : Z := 200.
Definition MAX_REMOTE_RANGE_BYTES : Z := 256 * 1024.
(** The literal [8 * 1024] that bounds an error message. *)
Definition MAX_ERROR_MESSAGE : Z := 8 * 1024.

Inductive RemoteFileErrorCode :=
| RInvalidArgument | RPermissionDenied | RNotFound | RConflict | RResourceExhausted
| RFailedPrecondition | RUnavailable | RCancelled | RInternal.
#[global] Instance RemoteFileErrorCode_eq_dec : EqDecision RemoteFileErrorCode.
Proof. solve_decision. Defined.

Record RemoteFileError := { re_code : RemoteFileErrorCode; re_message : string }.

(** [RemoteFileCodecError]: the validation message; the foreign errors are opaque. *)
Inductive RemoteFileCodecError := Validation (message : string) | Decode | Frame.

(** ** Access rights *)

(** [arcrelay_peer]'s [Grant]. *)
Inductive GrantDirection := Inbound | Outbound.
#[global] Instance GrantDirection_eq_dec : EqDecision GrantDirection.
Proof. solve_decision. Defined.
Inductive GrantConstraints :=
| GNone
| GRemoteFileShares (share_ids : list string) (writable : bool).
#[global] Instance GrantConstraints_eq_dec : EqDecision GrantConstraints.
Proof. solve_decision. Defined.
Record Grant := {
  g_peer_id : string;
  g_direction : GrantDirection;
  g_capability : CapabilityId;
  g_constraints : GrantConstraints;
  g_granted_at_ms : Z;
}.

Record RemoteFileAccess := {
  read_all : bool;
  write_all : bool;
  read_shares : gset string;
  write_shares : gset string;
}.
Definition default_access : RemoteFileAccess :=
  {| read_all := false; write_all := false; read_shares := ∅; write_shares := ∅ |}.

(** The body of the [for] loop of [from_grants]. *)
Definition add_grant (access : RemoteFileAccess) (grant : Grant) : RemoteFileAccess :=
  let '(all, shares, writable_constraint) :=
    match g_constraints grant with
    | GNone => (true, [], true)
    | GRemoteFileShares share_ids writable => (false, share_ids, writable)
    end in
  match g_capability grant with
  | RemoteFilesRead =>
    {| read_all := read_all access || all; write_all := write_all access;
       read_shares := read_shares access ∪ list_to_set shares;
       write_shares := write_shares access |}
  | RemoteFilesWrite =>
    if writable_constraint : bool then
      {| read_all := read_all access; write_all := write_all access || all;
         read_shares := read_shares access;
         write_shares := write_shares access ∪ list_to_set shares |}
    else access
  | _ => access
  end.
Definition from_grants (grants : list Grant) (direction : GrantDirection) : RemoteFileAccess :=
  fold_left add_grant
    (List.filter (fun grant => bool_decide (g_direction grant = direction)) grants) default_access.

Definition can_read (a : RemoteFileAccess) (share_id : string) : bool :=
  read_all a || bool_decide (share_id ∈ read_shares a).
Definition can_write (a : RemoteFileAccess) (share_id : string) : bool :=
  write_all a || bool_decide (share_id ∈ write_shares a).
Definition can_list_shares (a : RemoteFileAccess) : bool :=
  read_all a || write_all a || negb (bool_decide (read_shares a = ∅))
  || negb (bool_decide (write_shares a = ∅)).

(** ** Data *)

Record RemoteFileShare := { sh_id : string; sh_name : string; sh_writable : bool }.
Inductive RemoteFileKind := KFile | KFolder.
#[global] Instance RemoteFileKind_eq_dec : EqDecision RemoteFileKind.
Proof. solve_decision. Defined.
Inductive RemoteFileSortKey := SName | SModified | SType | SSize.
Inductive RemoteFileSortDirection := Ascending | Descending.
Record RemoteFileEntry := {
  e_id : string;
  e_name : string;
  e_relative_path : string;
  e_kind : RemoteFileKind;
  e_size : Z;
  e_modified_at_ms : Z;
  e_revision : string;
}.

Inductive RemoteFileRequest :=
| ListShares
| WatchChanges (share_id epoch : string) (after_sequence : Z)
| Stat (share_id relative_path : string)
| Move (share_id relative_path destination_path : string) (overwrite : bool)
    (expected_revision : string)
| ConditionalDelete (share_id relative_path expected_revision : string) (recursive : bool)
| ReadRange (share_id relative_path : string) (offset length : Z) (revision : string)
| ConditionalUpload (share_id relative_path name : string) (size : Z) (expected_revision : string)
| ListDirectory (share_id relative_path : string) (cursor : option string) (limit : Z)
    (search : option string) (sort_key : RemoteFileSortKey)
    (sort_direction : RemoteFileSortDirection)
| CreateDirectory (share_id relative_path name : string)
| Rename (share_id relative_path new_name : string)
| Delete (share_id relative_path : string)
| Download (share_id relative_path : string)
| Thumbnail (share_id relative_path : string) (max_dimension : Z)
| Upload (share_id relative_path name : string) (size : Z) (overwrite : bool)
    (expected_modified_at_ms : option Z).

Record RemoteFileResponse := {
  ok : bool;
  error : option RemoteFileError;
  shares : list RemoteFileShare;
  entries : list RemoteFileEntry;
  next_cursor : option string;
  entry : option RemoteFileEntry;
  thumbnail_size : Z;
  thumbnail_media_type : option string;
  r_revision : string;
  range_data : bytes;
  change_epoch : string;
  change_sequence : Z;
  changed_directories : list string;
  change_reset : bool;
}.

(** ** Validation *)

Definition backslash : ascii := "092"%char.
Definition nul : ascii := "000"%char.
Definition slash : ascii := "/"%char.
Definition is_some_and {A} (o : option A) (p : A -> bool) : bool :=
  match o with Some a => p a | None => false end.
Definition is_none {A} (o : option A) : bool :=
  match o with Some _ => false | None => true end.

Definition validate_share_id (value : string) : result unit string :=
  if str_is_empty value || (slen value >? 256) || has_control value
  then Err "invalid remote file share id"%string else Ok tt.

Definition bad_component (component : string) : bool :=
  str_is_empty component || str_eqb component "." || str_eqb component ".."
  || (slen component >? 255).

Definition validate_relative_path (value : string) : result unit string :=
  if (slen value >? 4096) || str_contains backslash value
     || existsb (fun c => (c =? 0) || is_control c) (chars value)
     || (negb (str_is_empty value) && existsb bad_component (split_on slash value))
  then Err "invalid remote file path"%string else Ok tt.

Definition validate_file_name (value : string) : result unit string :=
  if str_is_empty value || (slen value >? 255)
     || (str_eqb value "." || str_eqb value "..")
     || (str_contains slash value || str_contains backslash value || str_contains nul value)
     || has_control value
  then Err "invalid remote file name"%string else Ok tt.

Section remote_files.
Context `{!WireLimits}.

Definition validate_request (request : RemoteFileRequest) : result unit string :=
  match request with
  | ListShares => Ok tt
  | WatchChanges share_id epoch _ =>
    let? _ := validate_share_id share_id in
    if (slen epoch >? 64) || has_control epoch then Err "invalid change epoch"%string else Ok tt
  | Stat share_id relative_path =>
    let? _ := validate_share_id share_id in validate_relative_path relative_path
  | ConditionalDelete share_id relative_path expected_revision _ =>
    let? _ := validate_share_id share_id in
    let? _ := validate_relative_path relative_path in
    if str_is_empty relative_path || str_is_empty expected_revision
       || (slen expected_revision >? 128)
    then Err "invalid conditional delete"%string else Ok tt
  | Move share_id relative_path destination_path _ expected_revision =>
    let? _ := validate_share_id share_id in
    let? _ := validate_relative_path relative_path in
    let? _ := validate_relative_path destination_path in
    if str_is_empty expected_revision || (slen expected_revision >? 128)
    then Err "invalid move revision"%string else
    if str_is_empty relative_path || str_is_empty destination_path
    then Err "cannot move a shared root"%string else Ok tt
  | ReadRange share_id relative_path offset length revision =>
    let? _ := validate_share_id share_id in
    let? _ := validate_relative_path relative_path in
    if (length =? 0) || (length >? MAX_REMOTE_RANGE_BYTES) || (offset + length >? u64_max)
       || str_is_empty revision || (slen revision >? 128)
    then Err "invalid remote file range"%string else Ok tt
  | ConditionalUpload share_id relative_path name size expected_revision =>
    let? _ := validate_share_id share_id in
    let? _ := validate_relative_path relative_path in
    let? _ := validate_file_name name in
    if (size >? MAX_REMOTE_FILE_CONTENT_SIZE) || (slen expected_revision >? 128)
    then Err "invalid conditional upload"%string else Ok tt
  | ListDirectory share_id relative_path cursor limit search _ _ =>
    let? _ := validate_share_id share_id in
    let? _ := validate_relative_path relative_path in
    if (limit >? MAX_REMOTE_DIRECTORY_PAGE_SIZE)
       || is_some_and cursor (fun value => (slen value >? 1024) || has_control value)
       || is_some_and search (fun value => (slen value >? 512) || has_control value)
    then Err "invalid remote directory query"%string else Ok tt
  | CreateDirectory share_id relative_path name
  | Upload share_id relative_path name _ _ _
  | Rename share_id relative_path name =>
    let? _ := validate_share_id share_id in
    let? _ := validate_relative_path relative_path in
    validate_file_name name
  | Delete share_id relative_path
  | Download share_id relative_path =>
    let? _ := validate_share_id share_id in validate_relative_path relative_path
  | Thumbnail share_id relative_path max_dimension =>
    let? _ := validate_share_id share_id in
    let? _ := validate_relative_path relative_path in
    if negb ((16 <=? max_dimension) && (max_dimension <=? 4096))
    then Err "invalid thumbnail dimensions"%string else Ok tt
  end.

Definition success : RemoteFileResponse :=
  {| ok := true; error := None; shares := []; entries := []; next_cursor := None; entry := None;
     thumbnail_size := 0; thumbnail_media_type := None; r_revision := EmptyString;
     range_data := []; change_epoch := EmptyString; change_sequence := 0;
     changed_directories := []; change_reset := false |}.

(** The truncation at the head of [RemoteFileResponse::failure]. *)
Definition bounded_message (message : string) : string :=
  if slen message >? MAX_ERROR_MESSAGE
  then str_take (Text.back_to_boundary message (Z.to_nat MAX_ERROR_MESSAGE)) message
  else message.

Definition failure (code : RemoteFileErrorCode) (message : string) : RemoteFileResponse :=
  let message := bounded_message message in
  {| ok := false; error := Some {| re_code := code; re_message := message |};
     shares := []; entries := []; next_cursor := None; entry := None;
     thumbnail_size := 0; thumbnail_media_type := None; r_revision := EmptyString;
     range_data := []; change_epoch := EmptyString; change_sequence := 0;
     changed_directories := []; change_reset := false |}.

Definition from_error (error : RemoteFileError) : RemoteFileResponse :=
  failure (re_code error) (re_message error).

(** The bodies of the two [for] loops of [RemoteFileResponse::validate]. *)
Definition validate_share (share : RemoteFileShare) : result unit string :=
  let? _ := validate_share_id (sh_id share) in
  if str_is_empty (sh_name share) || (slen (sh_name share) >? 255)
  then Err "invalid remote file share"%string else Ok tt.
Definition validate_entry (entry : RemoteFileEntry) : result unit string :=
  let? _ := validate_file_name (e_name entry) in
  let? _ := validate_relative_path (e_relative_path entry) in
  if e_size entry >? MAX_REMOTE_FILE_CONTENT_SIZE
  then Err "remote file entry exceeds the content limit"%string else
  if slen (e_revision entry) >? 128 then Err "invalid remote file revision"%string else Ok tt.

Definition validate_response (r : RemoteFileResponse) : result unit string :=
  if Bool.eqb (ok r) (negb (is_none (error r)))
     || (slen (r_revision r) >? 128)
     || (blen (range_data r) >? MAX_REMOTE_RANGE_BYTES)
     || (slen (change_epoch r) >? 64)
     || (Z.of_nat (length (changed_directories r)) >? 200)
     || existsb (fun path => negb (is_ok (validate_relative_path path))) (changed_directories r)
     || is_some_and (error r) (fun error => slen (re_message error) >? MAX_ERROR_MESSAGE)
     || (Z.of_nat (length (shares r)) >? 128)
     || (Z.of_nat (length (entries r)) >? MAX_REMOTE_DIRECTORY_PAGE_SIZE)
     || is_some_and (next_cursor r) (fun cursor => (slen cursor >? 1024) || has_control cursor)
     || (thumbnail_size r >? MAX_REMOTE_FILE_THUMBNAIL_SIZE)
     || negb (Bool.eqb (thumbnail_size r =? 0) (is_none (thumbnail_media_type r)))
     || is_some_and (thumbnail_media_type r) (fun media_type => slen media_type >? 256)
  then Err "invalid remote file response"%string else
  let? _ := collect_results validate_share (shares r) in
  let? _ := collect_results validate_entry (entries r ++ option_list (entry r)) in
  Ok tt.
End remote_files.

(** ** Wire format *)

(** The protobuf enumerations and messages [arcrelay_wire::proto] generates. *)
Inductive ProtoErrorCode :=
| PEUnspecified | PEInvalidArgument | PEPermissionDenied | PENotFound | PEConflict
| PEResourceExhausted | PEFailedPrecondition | PEUnavailable | PECancelled | PEInternal.
Inductive ProtoEntryKind := PKUnspecified | PKFile | PKFolder.
Inductive ProtoSortKey := PSUnspecified | PSName | PSModified | PSType | PSSize.
Inductive ProtoSortDirection := PDUnspecified | PDAscending | PDDescending.
Record RemoteFileShareInfo := { psh_id : string; psh_name : string; psh_writable : bool }.
Record RemoteFileEntryInfo := {
  pe_id : string;
  pe_name : string;
  pe_relative_path : string;
  pe_kind : Z;
  pe_size : Z;
  pe_modified_at_ms : Z;
  pe_revision : string;
}.
(** [proto::remote_file_request_frame::Body]. *)
Inductive Body :=
| BListShares
| BWatchChanges (share_id epoch : string) (after_sequence : Z)
| BStat (share_id relative_path : string)
| BMove (share_id relative_path destination_path : string) (overwrite : bool)
    (expected_revision : string)
| BConditionalDelete (share_id relative_path expected_revision : string) (recursive : bool)
| BReadRange (share_id relative_path : string) (offset length : Z) (revision : string)
| BConditionalUpload (share_id relative_path name : string) (size : Z) (expected_revision : string)
| BListDirectory (share_id relative_path : string) (cursor : option string) (limit : Z)
    (search : option string) (sort_key sort_direction : Z)
| BCreateDirectory (share_id relative_path name : string)
| BRename (share_id relative_path new_name : string)
| BDelete (share_id relative_path : string)
| BDownload (share_id relative_path : string)
| BThumbnail (share_id relative_path : string) (max_dimension : Z)
| BUpload (share_id relative_path name : string) (size : Z) (overwrite : bool)
    (expected_modified_at_ms : option Z).
Record RemoteFileRequestFrame := { body : option Body }.
Record RemoteFileResponseFrame := {
  p_ok : bool;
  p_error : option string;
  p_shares : list RemoteFileShareInfo;
  p_entries : list RemoteFileEntryInfo;
  p_next_cursor : option string;
  p_entry : option RemoteFileEntryInfo;
  p_thumbnail_size : Z;
  p_thumbnail_media_type : option string;
  p_revision : string;
  p_range_data : bytes;
  p_error_code : option Z;
  p_change_epoch : string;
  p_change_sequence : Z;
  p_changed_directories : list string;
  p_change_reset : bool;
}.

(** The trait [RemoteFileWireMessage]. *)
Class RemoteFileWireMessage (T : Type) := {
  encode_wire : T -> result bytes RemoteFileCodecError;
  decode_wire : bytes -> result T RemoteFileCodecError;
}.

Section wire.
Context `{!WireLimits} `{!ProstEnum ProtoErrorCode} `{!ProstEnum ProtoEntryKind}
  `{!ProstEnum ProtoSortKey} `{!ProstEnum ProtoSortDirection}
  `{!ProstMessage RemoteFileRequestFrame} `{!ProstMessage RemoteFileResponseFrame}.

Definition encode_error_code (code : RemoteFileErrorCode) : Z :=
  match code with
  | RInvalidArgument => as_i32 PEInvalidArgument
  | RPermissionDenied => as_i32 PEPermissionDenied
  | RNotFound => as_i32 PENotFound
  | RConflict => as_i32 PEConflict
  | RResourceExhausted => as_i32 PEResourceExhausted
  | RFailedPrecondition => as_i32 PEFailedPrecondition
  | RUnavailable => as_i32 PEUnavailable
  | RCancelled => as_i32 PECancelled
  | RInternal => as_i32 PEInternal
  end.
Definition decode_error_code (code : Z) : result RemoteFileErrorCode RemoteFileCodecError :=
  match try_from code with
  | Some PEInvalidArgument => Ok RInvalidArgument
  | Some PEPermissionDenied => Ok RPermissionDenied
  | Some PENotFound => Ok RNotFound
  | Some PEConflict => Ok RConflict
  | Some PEResourceExhausted => Ok RResourceExhausted
  | Some PEFailedPrecondition => Ok RFailedPrecondition
  | Some PEUnavailable => Ok RUnavailable
  | Some PECancelled => Ok RCancelled
  | Some PEInternal => Ok RInternal
  | Some PEUnspecified | None => Err (Validation "invalid remote file error code")
  end.

Definition encode_share (share : RemoteFileShare) : RemoteFileShareInfo :=
  {| psh_id := sh_id share; psh_name := sh_name share; psh_writable := sh_writable share |}.
Definition decode_share (share : RemoteFileShareInfo) : RemoteFileShare :=
  {| sh_id := psh_id share; sh_name := psh_name share; sh_writable := psh_writable share |}.

Definition encode_entry (entry : RemoteFileEntry) : RemoteFileEntryInfo :=
  {| pe_id := e_id entry; pe_name := e_name entry; pe_relative_path := e_relative_path entry;
     pe_kind := match e_kind entry with KFile => as_i32 PKFile | KFolder => as_i32 PKFolder end;
     pe_size := e_size entry; pe_modified_at_ms := e_modified_at_ms entry;
     pe_revision := e_revision entry |}.
Definition decode_entry (entry : RemoteFileEntryInfo)
  : result RemoteFileEntry RemoteFileCodecError :=
  let? kind := match try_from (pe_kind entry) with
               | Some PKFile => Ok KFile
               | Some PKFolder => Ok KFolder
               | _ => Err (Validation "invalid remote file entry kind")
               end in
  Ok {| e_id := pe_id entry; e_name := pe_name entry; e_relative_path := pe_relative_path entry;
        e_kind := kind; e_size := pe_size entry; e_modified_at_ms := pe_modified_at_ms entry;
        e_revision := pe_revision entry |}.

Definition encode_sort_key (key : RemoteFileSortKey) : Z :=
  match key with
  | SName => as_i32 PSName | SModified => as_i32 PSModified
  | SType => as_i32 PSType | SSize => as_i32 PSSize
  end.
Definition decode_sort_key (key : Z) : result RemoteFileSortKey RemoteFileCodecError :=
  match try_from key with
  | Some PSUnspecified | Some PSName => Ok SName
  | Some PSModified => Ok SModified
  | Some PSType => Ok SType
  | Some PSSize => Ok SSize
  | None => Err (Validation "invalid remote file sort key")
  end.
Definition encode_sort_direction (direction : RemoteFileSortDirection) : Z :=
  match direction with Ascending => as_i32 PDAscending | Descending => as_i32 PDDescending end.
Definition decode_sort_direction (direction : Z)
  : result RemoteFileSortDirection RemoteFileCodecError :=
  match try_from direction with
  | Some PDUnspecified | Some PDAscending => Ok Ascending
  | Some PDDescending => Ok Descending
  | None => Err (Validation "invalid remote file sort direction")
  end.

Definition encode_request (request : RemoteFileRequest) : result bytes RemoteFileCodecError :=
  let? _ := map_err Validation (validate_request request) in
  let body :=
    match request with
    | ListShares => BListShares
    | WatchChanges share_id epoch after_sequence => BWatchChanges share_id epoch after_sequence
    | Stat share_id relative_path => BStat share_id relative_path
    | Move share_id relative_path destination_path overwrite expected_revision =>
      BMove share_id relative_path destination_path overwrite expected_revision
    | ConditionalDelete share_id relative_path expected_revision recursive =>
      BConditionalDelete share_id relative_path expected_revision recursive
    | ReadRange share_id relative_path offset length revision =>
      BReadRange share_id relative_path offset length revision
    | ConditionalUpload share_id relative_path name size expected_revision =>
      BConditionalUpload share_id relative_path name size expected_revision
    | ListDirectory share_id relative_path cursor limit search sort_key sort_direction =>
      BListDirectory share_id relative_path cursor limit search (encode_sort_key sort_key)
        (encode_sort_direction sort_direction)
    | CreateDirectory share_id relative_path name => BCreateDirectory share_id relative_path name
    | Rename share_id relative_path new_name => BRename share_id relative_path new_name
    | Delete share_id relative_path => BDelete share_id relative_path
    | Download share_id relative_path => BDownload share_id relative_path
    | Thumbnail share_id relative_path max_dimension =>
      BThumbnail share_id relative_path max_dimension
    | Upload share_id relative_path name size overwrite expected_modified_at_ms =>
      BUpload share_id relative_path name size overwrite expected_modified_at_ms
    end in
  Ok (encode_to_vec {| body := Some body |}).

Definition decode_request (b : bytes) : result RemoteFileRequest RemoteFileCodecError :=
  let? frame := ok_or (prost_decode (M := RemoteFileRequestFrame) b) Decode in
  let? body := ok_or (body frame) (Validation "remote file request body is missing") in
  let? request :=
    match body with
    | BListShares => Ok ListShares
    | BWatchChanges share_id epoch after_sequence =>
      Ok (WatchChanges share_id epoch after_sequence)
    | BStat share_id relative_path => Ok (Stat share_id relative_path)
    | BMove share_id relative_path destination_path overwrite expected_revision =>
      Ok (Move share_id relative_path destination_path overwrite expected_revision)
    | BConditionalDelete share_id relative_path expected_revision recursive =>
      Ok (ConditionalDelete share_id relative_path expected_revision recursive)
    | BReadRange share_id relative_path offset length revision =>
      Ok (ReadRange share_id relative_path offset length revision)
    | BConditionalUpload share_id relative_path name size expected_revision =>
      Ok (ConditionalUpload share_id relative_path name size expected_revision)
    | BListDirectory share_id relative_path cursor limit search sort_key sort_direction =>
      let? sort_key := decode_sort_key sort_key in
      let? sort_direction := decode_sort_direction sort_direction in
      Ok (ListDirectory share_id relative_path cursor limit search sort_key sort_direction)
    | BCreateDirectory share_id relative_path name =>
      Ok (CreateDirectory share_id relative_path name)
    | BRename share_id relative_path new_name => Ok (Rename share_id relative_path new_name)
    | BDelete share_id relative_path => Ok (Delete share_id relative_path)
    | BDownload share_id relative_path => Ok (Download share_id relative_path)
    | BThumbnail share_id relative_path max_dimension =>
      Ok (Thumbnail share_id relative_path max_dimension)
    | BUpload share_id relative_path name size overwrite expected_modified_at_ms =>
      Ok (Upload share_id relative_path name size overwrite expected_modified_at_ms)
    end in
  let? _ := map_err Validation (validate_request request) in
  Ok request.

Definition encode_response (r : RemoteFileResponse) : result bytes RemoteFileCodecError :=
  let? _ := map_err Validation (validate_response r) in
  Ok (encode_to_vec
    {| p_ok := ok r;
       p_error := re_message <$> error r;
       p_shares := encode_share <$> shares r;
       p_entries := encode_entry <$> entries r;
       p_next_cursor := next_cursor r;
       p_entry := encode_entry <$> entry r;
       p_thumbnail_size := thumbnail_size r;
       p_thumbnail_media_type := thumbnail_media_type r;
       p_revision := r_revision r;
       p_range_data := range_data r;
       p_error_code := (fun error => encode_error_code (re_code error)) <$> error r;
       p_change_epoch := change_epoch r;
       p_change_sequence := change_sequence r;
       p_changed_directories := changed_directories r;
       p_change_reset := change_reset r |}).

Definition decode_response (b : bytes) : result RemoteFileResponse RemoteFileCodecError :=
  let? frame := ok_or (prost_decode (M := RemoteFileResponseFrame) b) Decode in
  let? error :=
    match p_error_code frame, p_error frame with
    | Some code, Some message =>
      let? code := decode_error_code code in
      Ok (Some {| re_code := code; re_message := message |})
    | None, None => Ok None
    | _, _ =>
      Err (Validation "remote file response error code and message must appear together")
    end in
  let? entries := collect_results decode_entry (p_entries frame) in
  let? entry := match p_entry frame with
                | None => Ok None
                | Some entry => let? entry := decode_entry entry in Ok (Some entry)
                end in
  let response :=
    {| ok := p_ok frame; error := error; shares := decode_share <$> p_shares frame;
       entries := entries; next_cursor := p_next_cursor frame; entry := entry;
       thumbnail_size := p_thumbnail_size frame;
       thumbnail_media_type := p_thumbnail_media_type frame;
       r_revision := p_revision frame; range_data := p_range_data frame;
       change_epoch := p_change_epoch frame; change_sequence := p_change_sequence frame;
       changed_directories := p_changed_directories frame;
       change_reset := p_change_reset frame |} in
  let? _ := map_err Validation (validate_response response) in
  Ok response.

#[global] Instance request_wire : RemoteFileWireMessage RemoteFileRequest :=
  {| encode_wire := encode_request; decode_wire := decode_request |}.
#[global] Instance response_wire : RemoteFileWireMessage RemoteFileResponse :=
  {| encode_wire := encode_response; decode_wire := decode_response |}.

(** [write_remote_message] and [read_remote_message] over the bytes of a stream. *)
Definition write_remote_message `{!FrameTransport} {T} `{!RemoteFileWireMessage T}
    (writer : bytes) (message : T) : result bytes RemoteFileCodecError :=
  let? b := encode_wire message in
  let? w := ok_or (write_frame MAX_REMOTE_FILE_MESSAGE_SIZE b) Frame in
  Ok (writer ++ w).
Definition read_remote_message `{!FrameTransport} {T} `{!RemoteFileWireMessage T}
    (reader : bytes) : result (T * bytes) RemoteFileCodecError :=
  let? (b, reader) := ok_or (read_frame MAX_REMOTE_FILE_MESSAGE_SIZE reader) Frame in
  let? message := decode_wire b in
  Ok (message, reader).
End wire.


(** ** Access rights are exactly the grants *)

Definition grants_read (grants : list Grant) (d : GrantDirection) (share : string) : Prop :=
  exists g, g ∈ grants /\ g_direction g = d /\ g_capability g = RemoteFilesRead
    /\ match g_constraints g with GNone => True | GRemoteFileShares ids _ => share ∈ ids end.
Definition grants_write (grants : list Grant) (d : GrantDirection) (share : string) : Prop :=
  exists g, g ∈ grants /\ g_direction g = d /\ g_capability g = RemoteFilesWrite
    /\ match g_constraints g with
       | GNone => True
       | GRemoteFileShares ids writable => writable = true /\ share ∈ ids
       end.

Lemma can_read_true a s : can_read a s = true <-> read_all a = true \/ s ∈ read_shares a.
Proof. unfold can_read. by rewrite orb_true_iff, bool_decide_eq_true. Qed.
Lemma can_write_true a s : can_write a s = true <-> write_all a = true \/ s ∈ write_shares a.
Proof. unfold can_write. by rewrite orb_true_iff, bool_decide_eq_true. Qed.

Definition reads (g : Grant) (s : string) : Prop :=
  g_capability g = RemoteFilesRead
  /\ match g_constraints g with GNone => True | GRemoteFileShares ids _ => s ∈ ids end.
Definition writes (g : Grant) (s : string) : Prop :=
  g_capability g = RemoteFilesWrite
  /\ match g_constraints g with
     | GNone => True
     | GRemoteFileShares ids writable => writable = true /\ s ∈ ids
     end.

(** One step of the loop adds exactly what the grant gives. *)
Lemma add_grant_read a g s :
  can_read (add_grant a g) s = true <-> can_read a s = true \/ reads g s.
Proof.
  rewrite !can_read_true. unfold add_grant, reads.
  destruct g as [pid d c [|ids w] at_ms]; destruct c; simpl; try destruct w; simpl;
    rewrite ?orb_true_iff, ?elem_of_union, ?elem_of_list_to_set; naive_solver.
Qed.
Lemma add_grant_write a g s :
  can_write (add_grant a g) s = true <-> can_write a s = true \/ writes g s.
Proof.
  rewrite !can_write_true. unfold add_grant, writes.
  destruct g as [pid d c [|ids w] at_ms]; destruct c; simpl; try destruct w; simpl;
    rewrite ?orb_true_iff, ?elem_of_union, ?elem_of_list_to_set; naive_solver.
Qed.

Lemma fold_grants_read gs a s :
  can_read (fold_left add_grant gs a) s = true
  <-> can_read a s = true \/ exists g, g ∈ gs /\ reads g s.
Proof.
  revert a. induction gs as [|g gs IH]; intros a; simpl; [|rewrite IH, add_grant_read];
    set_solver.
Qed.
Lemma fold_grants_write gs a s :
  can_write (fold_left add_grant gs a) s = true
  <-> can_write a s = true \/ exists g, g ∈ gs /\ writes g s.
Proof.
  revert a. induction gs as [|g gs IH]; intros a; simpl; [|rewrite IH, add_grant_write];
    set_solver.
Qed.

Lemma elem_of_direction gs d g :
  g ∈ List.filter (fun grant => bool_decide (g_direction grant = d)) gs
  <-> g ∈ gs /\ g_direction g = d.
Proof. by rewrite !list_elem_of_In, filter_In, bool_decide_eq_true. Qed.

Lemma from_grants_read gs d s : can_read (from_grants gs d) s = true <-> grants_read gs d s.
Proof.
  unfold from_grants, grants_read. rewrite fold_grants_read. setoid_rewrite elem_of_direction.
  unfold reads. rewrite can_read_true. simpl. set_solver.
Qed.
Lemma from_grants_write gs d s : can_write (from_grants gs d) s = true <-> grants_write gs d s.
Proof.
  unfold from_grants, grants_write. rewrite fold_grants_write. setoid_rewrite elem_of_direction.
  unfold writes. rewrite can_write_true. simpl. set_solver.
Qed.

Lemma can_list_shares_true a :
  can_list_shares a = true <-> exists s, can_read a s = true \/ can_write a s = true.
Proof.
  setoid_rewrite can_read_true. setoid_rewrite can_write_true. unfold can_list_shares.
  rewrite !orb_true_iff, !negb_true_iff, !bool_decide_eq_false. split.
  - intros [[[?|?]|[s ?]%set_choose_L]|[s ?]%set_choose_L];
      [exists EmptyString|exists EmptyString|exists s|exists s]; auto.
  - intros [s [[?|?]|[?|?]]]; eauto; [left; right|right]; set_solver.
Qed.

(** The rights computed from a peer's grants are exactly those the grants give: a share can
    be read (written) if and only if some grant of the right direction and capability is
    unconstrained or lists the share (and is writable); shares can be listed if and only if some
    share can be read or written. *)
Theorem remote_access_exact grants direction share :
  (can_read (from_grants grants direction) share = true <-> grants_read grants direction share)
  /\ (can_write (from_grants grants direction) share = true <-> grants_write grants direction share)
  /\ (can_list_shares (from_grants grants direction) = true
      <-> exists s, grants_read grants direction s \/ grants_write grants direction s).
Proof.
  rewrite can_list_shares_true. setoid_rewrite from_grants_read.
  setoid_rewrite from_grants_write. done.
Qed.

(** ** Accepted paths stay inside the share *)

(** The components of a relative path; the empty path is the share's root. *)
Definition components (p : string) : list string :=
  if str_is_empty p then [] else split_on slash p.

(** How a file system walks components from a directory at depth [stack] (innermost first):
    empty and [.] components stay, [..] leaves, and [None] is an escape above the root. *)
Fixpoint walk (stack : list string) (cs : list string) : option (list string) :=
  match cs with
  | [] => Some stack
  | c :: cs =>
    if str_is_empty c || str_eqb c "." then walk stack cs
    else if str_eqb c ".." then match stack with [] => None | _ :: stack => walk stack cs end
    else walk (c :: stack) cs
  end.

(** Every place of a share a request addresses. *)
Definition targets (r : RemoteFileRequest) : list (list string) :=
  match r with
  | ListShares | WatchChanges _ _ _ => []
  | Stat _ p | ConditionalDelete _ p _ _ | ReadRange _ p _ _ _ | ListDirectory _ p _ _ _ _ _
  | Delete _ p | Download _ p | Thumbnail _ p _ => [components p]
  | Move _ p q _ _ => [components p; components q]
  | ConditionalUpload _ p n _ _ | CreateDirectory _ p n | Upload _ p n _ _ _ =>
    [components p; components p ++ components n]
  | Rename _ p n => [components p; components n]
  end.

Definition safe_component (c : string) : Prop :=
  c <> EmptyString /\ c <> "."%string /\ c <> ".."%string /\ slen c <= 255
  /\ str_contains slash c = false /\ str_contains backslash c = false.

Lemma str_contains_cons a b s :
  str_contains a (String b s) = bool_decide (b = a) || str_contains a s.
Proof. done. Qed.

Lemma split_on_free sep s : Forall (fun c => str_contains sep c = false) (split_on sep s).
Proof.
  induction s as [|a s IH]; simpl; [by repeat constructor|].
  case_bool_decide as Ha; [by constructor|].
  destruct (split_on sep s) as [|w ws]; inversion IH; subst; repeat constructor; try done;
    rewrite str_contains_cons; apply orb_false_iff; split; try done; by apply bool_decide_eq_false.
Qed.
Lemma split_on_contains b sep s :
  str_contains b s = false -> Forall (fun c => str_contains b c = false) (split_on sep s).
Proof.
  induction s as [|a s IH]; simpl; [by repeat constructor|].
  rewrite str_contains_cons. intros [Ha Hs]%orb_false_iff. specialize (IH Hs).
  destruct (bool_decide (a = sep)); [by constructor|].
  destruct (split_on sep s) as [|w ws]; inversion IH; subst; repeat constructor; try done;
    rewrite str_contains_cons; apply orb_false_iff; done.
Qed.
Lemma split_on_whole sep s : str_contains sep s = false -> split_on sep s = [s].
Proof.
  induction s as [|a s IH]; simpl; [done|]. rewrite str_contains_cons.
  intros [Ha Hs]%orb_false_iff. rewrite Ha, IH by done. done.
Qed.

Lemma bad_component_false c :
  bad_component c = false -> c <> EmptyString /\ c <> "."%string /\ c <> ".."%string /\ slen c <= 255.
Proof.
  unfold bad_component, str_eqb. intros H. bool_arith. split; [by intros ->|]. done.
Qed.

Lemma relative_path_components p :
  validate_relative_path p = Ok tt -> Forall safe_component (components p).
Proof.
  unfold validate_relative_path, components. destruct (_ || _)%bool eqn:E; [done|intros _].
  bool_arith. destruct (str_is_empty p) eqn:Hp; [done|]. simpl in *.
  match goal with H : existsb bad_component _ = false |- _ => rename H into Hb end.
  apply Forall_forall. intros c Hc.
  assert (bad_component c = false) as (?&?&?&?)%bad_component_false.
  { destruct (bad_component c) eqn:Ec; [|done]. rewrite <- Hb. symmetry.
    apply existsb_exists. exists c. by rewrite <- list_elem_of_In. }
  pose proof (split_on_free slash p) as Hfree.
  pose proof (split_on_contains backslash slash p) as Hback.
  rewrite Forall_forall in Hfree, Hback. unfold safe_component. auto 10.
Qed.

Lemma file_name_components n :
  validate_file_name n = Ok tt -> components n = [n] /\ safe_component n.
Proof.
  unfold validate_file_name, components, str_eqb. destruct (_ || _)%bool eqn:E; [done|intros _].
  bool_arith. rewrite split_on_whole by done. destruct n as [|a n]; [done|].
  split; [done|]. unfold safe_component. done.
Qed.

Lemma walk_safe stack cs : Forall safe_component cs -> walk stack cs = Some (reverse cs ++ stack).
Proof.
  intros Hcs. revert stack. induction Hcs as [|c cs (?&?&?&_) _ IH]; intros stack; [done|]. simpl.
  destruct c as [|a c]; [done|]. unfold str_eqb. simpl (str_is_empty _).
  rewrite !bool_decide_eq_false_2 by done. simpl. rewrite IH, reverse_cons, <- app_assoc. done.
Qed.

Lemma rbind_tt {B E} (m : result unit E) (k : unit -> result B E) b :
  rbind m k = Ok b -> m = Ok tt /\ k tt = Ok b.
Proof. intros ([] & ? & ?)%rbind_Ok. done. Qed.

Ltac split_checks :=
  repeat match goal with
  | H : rbind _ _ = Ok _ |- _ => apply rbind_tt in H as [? H]
  | H : validate_relative_path _ = Ok _ |- _ => apply relative_path_components in H
  | H : validate_file_name _ = Ok _ |- _ => apply file_name_components in H as [? H]
  | H : (if _ then Err _ else _) = Ok _ |- _ => case_match; [done|]
  end.

Lemma targets_safe `{!WireLimits} r :
  validate_request r = Ok tt -> Forall (Forall safe_component) (targets r).
Proof.
  intros Hr. destruct r; simpl in *; split_checks;
    repeat match goal with H : components _ = [_] |- _ => rewrite H; clear H end;
    repeat (apply Forall_cons_2 || apply Forall_nil_2);
    rewrite ?Forall_app, ?Forall_singleton; auto.
Qed.

(** C21: no accepted request can leave its share.  Every place a validated request addresses,
    walked component by component from the share's root, never goes above the root and ends
    exactly at the components the path names, each a non-empty plain name of at most 255 bytes
    without separators. *)
Theorem accepted_paths_confined `{!WireLimits} r :
  validate_request r = Ok tt ->
  Forall (fun cs => walk [] cs = Some (reverse cs) /\ Forall safe_component cs) (targets r).
Proof.
  intros Hr. eapply Forall_impl; [by apply targets_safe|]. intros cs Hcs.
  by rewrite walk_safe, app_nil_r.
Qed.


(** ** Round trips *)

(** What a codec promises: only messages it accepts are sent or received, and a sent message is
    received unchanged. *)
Class LawfulWire (T : Type) `{!RemoteFileWireMessage T} (valid : T -> Prop) := {
  encode_valid : forall m, valid m <-> exists b, encode_wire m = Ok b;
  wire_decode_encode : forall m b, encode_wire m = Ok b -> decode_wire b = Ok m;
  decode_valid : forall b m, decode_wire b = Ok m -> valid m;
}.

Section wire_laws.
Context `{!WireLimits} `{!ProstEnum ProtoErrorCode} `{!ProstEnum ProtoEntryKind}
  `{!ProstEnum ProtoSortKey} `{!ProstEnum ProtoSortDirection}
  `{!ProstMessage RemoteFileRequestFrame} `{!ProstMessage RemoteFileResponseFrame}.

Lemma error_code_roundtrip c : decode_error_code (encode_error_code c) = Ok c.
Proof.
  unfold decode_error_code, encode_error_code. destruct c; by rewrite try_from_as_i32.
Qed.
Lemma sort_key_roundtrip k : decode_sort_key (encode_sort_key k) = Ok k.
Proof. unfold decode_sort_key, encode_sort_key. destruct k; by rewrite try_from_as_i32. Qed.
Lemma sort_direction_roundtrip d : decode_sort_direction (encode_sort_direction d) = Ok d.
Proof.
  unfold decode_sort_direction, encode_sort_direction. destruct d; by rewrite try_from_as_i32.
Qed.
Lemma share_roundtrip s : decode_share (encode_share s) = s.
Proof. by destruct s. Qed.
Lemma entry_roundtrip e : decode_entry (encode_entry e) = Ok e.
Proof.
  unfold decode_entry, encode_entry. destruct e as [? ? ? [] ? ? ?]; simpl;
    by rewrite try_from_as_i32.
Qed.
Lemma entries_roundtrip es : collect_results decode_entry (encode_entry <$> es) = Ok es.
Proof.
  apply collect_results_Ok. induction es as [|e es IH]; constructor; [|done].
  apply entry_roundtrip.
Qed.

Lemma map_err_Ok {A E F} (f : E -> F) (m : result A E) a : map_err f m = Ok a <-> m = Ok a.
Proof. destruct m; simpl; split; congruence. Qed.

Lemma request_decode_encode r b : encode_request r = Ok b -> decode_request b = Ok r.
Proof.
  intros (Hv & [= <-])%rbind_tt. unfold decode_request. rewrite prost_decode_encode.
  destruct r; cbn [rbind ok_or body]; rewrite ?sort_key_roundtrip; cbn [rbind];
    rewrite ?sort_direction_roundtrip; cbn [rbind]; by rewrite Hv.
Qed.

Lemma response_decode_encode r b : encode_response r = Ok b -> decode_response b = Ok r.
Proof.
  intros (Hv & [= <-])%rbind_tt. unfold decode_response. rewrite prost_decode_encode. simpl.
  destruct r as [rok [[code msg]|] rsh res rnc [e|] rts rtm rrev rrd rce rcs rcd rcr]; simpl;
    rewrite ?error_code_roundtrip; simpl; rewrite entries_roundtrip; simpl;
    rewrite ?entry_roundtrip; simpl;
    rewrite <- list_fmap_compose, (list_fmap_ext _ id), list_fmap_id
      by (intros ? [] ?; done); by rewrite Hv.
Qed.

#[global] Instance request_lawful :
  LawfulWire RemoteFileRequest (fun r => validate_request r = Ok tt).
Proof.
  split.
  - intros r. simpl. unfold encode_request. split.
    + intros ->. eauto.
    + intros (b & Hb). apply rbind_tt in Hb as [Hb _]. by apply map_err_Ok in Hb.
  - exact request_decode_encode.
  - simpl. unfold decode_request. intros b r. rewrite !rbind_Ok.
    intros (f & _ & Hf). apply rbind_Ok in Hf as (bd & _ & Hf).
    apply rbind_Ok in Hf as (r' & _ & Hf). apply rbind_tt in Hf as [Hv [= ->]].
    by apply map_err_Ok in Hv.
Qed.

#[global] Instance response_lawful :
  LawfulWire RemoteFileResponse (fun r => validate_response r = Ok tt).
Proof.
  split.
  - intros r. simpl. unfold encode_response. split.
    + intros ->. eauto.
    + intros (b & Hb). apply rbind_tt in Hb as [Hb _]. by apply map_err_Ok in Hb.
  - exact response_decode_encode.
  - simpl. unfold decode_response. intros b r Hf.
    apply rbind_Ok in Hf as (f & _ & Hf). apply rbind_Ok in Hf as (er & _ & Hf).
    apply rbind_Ok in Hf as (es & _ & Hf). apply rbind_Ok in Hf as (e & _ & Hf).
    apply rbind_tt in Hf as [Hv [= <-]]. by apply map_err_Ok in Hv.
Qed.

(** An error message is cut at a character boundary, within the bound. *)
Lemma bounded_message_truncate m :
  bounded_message m = Text.truncate_utf8 m (Z.to_nat MAX_ERROR_MESSAGE).
Proof.
  unfold bounded_message, Text.truncate_utf8, slen. assert (0 <= MAX_ERROR_MESSAGE) by done.
  rewrite Z.gtb_ltb. destruct (Z.ltb_spec MAX_ERROR_MESSAGE (Z.of_nat (String.length m))),
    (Nat.leb_spec (String.length m) (Z.to_nat MAX_ERROR_MESSAGE)); (lia || done).
Qed.
Lemma bounded_message_length m : slen (bounded_message m) >? MAX_ERROR_MESSAGE = false.
Proof.
  rewrite bounded_message_truncate. unfold slen. assert (0 <= MAX_ERROR_MESSAGE) by done.
  pose proof (Text.truncate_length m (Z.to_nat MAX_ERROR_MESSAGE)).
  rewrite Z.gtb_ltb. apply Z.ltb_ge. lia.
Qed.
Lemma thumbnail_zero : 0 >? MAX_REMOTE_FILE_THUMBNAIL_SIZE = false.
Proof. pose proof MAX_REMOTE_FILE_THUMBNAIL_SIZE_range. rewrite Z.gtb_ltb. apply Z.ltb_ge. lia. Qed.

(** An error response is always sendable, whatever message the error carries. *)
Lemma failure_valid code message : validate_response (failure code message) = Ok tt.
Proof.
  pose proof (bounded_message_length message) as Hm. unfold failure.
  generalize dependent (bounded_message message). intros msg Hm.
  unfold validate_response. cbn [error is_some_and re_message]. rewrite Hm.
  cbn [thumbnail_size]. by rewrite thumbnail_zero.
Qed.
End wire_laws.

(** The sequence of messages a stream carries. *)
Section streams.
Context `{!WireLimits} `{!FrameTransport} {T} `{!RemoteFileWireMessage T} {valid} `{!LawfulWire T valid}.

Fixpoint write_messages (w : bytes) (ms : list T) : result bytes RemoteFileCodecError :=
  match ms with
  | [] => Ok w
  | m :: ms => let? w := write_remote_message w m in write_messages w ms
  end.
Fixpoint read_messages (n : nat) (r : bytes) : result (list T * bytes) RemoteFileCodecError :=
  match n with
  | O => Ok ([], r)
  | S n => let? (m, r) := read_remote_message r in
           let? (ms, r) := read_messages n r in Ok (m :: ms, r)
  end.

Lemma read_write_message w m w' rest :
  write_remote_message w m = Ok w' ->
  exists f, w' = w ++ f /\ read_remote_message (f ++ rest) = Ok (m, rest).
Proof.
  unfold write_remote_message, read_remote_message.
  intros (b & Hb & (f & Hf%ok_or_Ok & [= <-])%rbind_Ok)%rbind_Ok.
  exists f. split; [done|]. rewrite (read_write_frame _ _ _ _ Hf). simpl.
  by rewrite (wire_decode_encode _ _ Hb).
Qed.

Lemma messages_roundtrip w ms w' rest :
  write_messages w ms = Ok w' ->
  exists f, w' = w ++ f /\ read_messages (length ms) (f ++ rest) = Ok (ms, rest).
Proof.
  revert w. induction ms as [|m ms IH]; simpl; intros w.
  - intros [= <-]. exists []. by rewrite app_nil_r.
  - intros (w1 & H1 & H2)%rbind_Ok. destruct (IH _ H2) as (f2 & -> & Hr2).
    destruct (read_write_message _ _ _ (f2 ++ rest) H1) as (f1 & -> & Hr1).
    exists (f1 ++ f2). rewrite <- !app_assoc, Hr1. simpl. by rewrite Hr2.
Qed.
End streams.


Section codec_claims.
Context `{!WireLimits} `{!ProstEnum ProtoErrorCode} `{!ProstEnum ProtoEntryKind}
  `{!ProstEnum ProtoSortKey} `{!ProstEnum ProtoSortDirection}
  `{!ProstMessage RemoteFileRequestFrame} `{!ProstMessage RemoteFileResponseFrame}
  `{!FrameTransport}.

Lemma request_encodes r : validate_request r = Ok tt <-> exists b, encode_wire r = Ok b.
Proof. exact (encode_valid (valid := fun r => validate_request r = Ok tt) r). Qed.
Lemma response_encodes r : validate_response r = Ok tt <-> exists b, encode_wire r = Ok b.
Proof. exact (encode_valid (valid := fun r => validate_response r = Ok tt) r). Qed.
Lemma request_decodes_valid b r : decode_wire b = Ok r -> validate_request r = Ok tt.
Proof. exact (decode_valid (valid := fun r => validate_request r = Ok tt) b r). Qed.
Lemma response_decodes_valid b r : decode_wire b = Ok r -> validate_response r = Ok tt.
Proof. exact (decode_valid (valid := fun r => validate_response r = Ok tt) b r). Qed.

(** C38: remote file requests cross the wire unchanged and never unchecked.  Exactly the
    validated requests can be encoded; any sequence of requests written to a stream is read back
    as the same sequence, leaving what follows it; and whatever bytes arrive, a request the
    decoder accepts is a validated one. *)
Theorem remote_request_roundtrip (rs : list RemoteFileRequest) (w rest : bytes) :
  write_messages [] rs = Ok w ->
  Forall (fun r => validate_request r = Ok tt) rs
  /\ read_messages (length rs) (w ++ rest) = Ok (rs, rest)
  /\ (forall b r, decode_wire b = Ok r -> validate_request r = Ok tt)
  /\ (forall r, validate_request r = Ok tt -> exists b, encode_wire r = Ok b /\ decode_wire b = Ok r).
Proof.
  intros Hw. split; [|split; [|split]].
  - revert Hw. generalize (@nil Byte.byte).
    induction rs as [|r rs IH]; intros w0 Hw; [done|].
    apply rbind_Ok in Hw as (w1 & (b & Hb & _)%rbind_Ok & Hw).
    constructor; [apply request_encodes; by exists b|]. by eapply IH.
  - destruct (messages_roundtrip [] rs w rest Hw) as (f & -> & Hf). done.
  - exact request_decodes_valid.
  - intros r (b & Hb)%request_encodes. exists b. split; [done|]. by apply wire_decode_encode.
Qed.

(** Every remote file response the server builds from an error reaches the client: whatever
    error code and message the provider reports, the response is valid and is decoded as the same
    code with the message cut at a character boundary within 8 KiB; and exactly the valid
    responses can be encoded, each decoded unchanged. *)
Theorem remote_response_roundtrip (err : RemoteFileError) (cs : list Z) :
  Forall scalar cs -> re_message err = of_chars cs ->
  (exists b cs1 cs2, encode_wire (from_error err) = Ok b /\ decode_wire b = Ok (from_error err)
    /\ cs = cs1 ++ cs2 /\ slen (of_chars cs1) <= 8 * 1024
    /\ error (from_error err) = Some {| re_code := re_code err; re_message := of_chars cs1 |})
  /\ (forall r, validate_response r = Ok tt <-> exists b, encode_wire r = Ok b)
  /\ (forall r b, encode_wire r = Ok b -> decode_wire b = Ok r)
  /\ (forall r b, decode_wire b = Ok r -> validate_response r = Ok tt).
Proof.
  intros Hcs Hmsg. split; [|split; [|split]].
  - destruct (proj1 (response_encodes (from_error err)) (failure_valid _ _)) as (b & Hb).
    destruct (Text.truncate_chars cs (Z.to_nat MAX_ERROR_MESSAGE) Hcs) as (cs1 & cs2 & -> & Ht).
    exists b, cs1, cs2. split; [done|]. split; [by apply wire_decode_encode|]. split; [done|].
    rewrite <- Ht, <- Hmsg, <- bounded_message_truncate. split; [|done].
    pose proof (bounded_message_length (re_message err)) as Hl.
    rewrite Z.gtb_ltb in Hl. by apply Z.ltb_ge in Hl.
  - exact response_encodes.
  - exact response_decode_encode.
  - intros r b. apply response_decodes_valid.
Qed.
End codec_claims.


(** ** Concrete codecs and the witnesses *)

Fixpoint pos_bytes (p : positive) : bytes :=
  match p with
  | xH => []
  | xO p => Byte.x00 :: pos_bytes p
  | xI p => Byte.x01 :: pos_bytes p
  end.
Fixpoint bytes_pos (b : bytes) : positive :=
  match b with
  | [] => xH
  | x :: b => if bool_decide (x = Byte.x00) then xO (bytes_pos b) else xI (bytes_pos b)
  end.
Lemma bytes_pos_bytes p : bytes_pos (pos_bytes p) = p.
Proof. by induction p; simpl; rewrite ?IHp. Qed.

(** A codec for every countable message type. *)
Definition toy_message {M} `{Countable M} : ProstMessage M.
Proof.
  refine {| encode_to_vec m := pos_bytes (encode m); prost_decode b := decode (bytes_pos b) |}.
  intros m. by rewrite bytes_pos_bytes, countable.decode_encode.
Defined.

Definition toy_frames : FrameTransport.
Proof.
  refine {| write_frame limit b := if blen b <=? limit then Some (replicate (length b) Byte.x01 ++ Byte.x00 :: b) else None;
            read_frame limit :=
              fix read r := match r with
              | [] => None
              | x :: r =>
                if bool_decide (x = Byte.x00) then Some ([], r)
                else match read r with
                     | Some (b, y :: r') => Some (b ++ [y], r')
                     | _ => None
                     end
              end |}.
  - intros limit b Hb _. destruct (blen b <=? limit) eqn:E; [by eexists|]. bool_arith. lia.
  - intros limit b w rest. destruct (blen b <=? limit); [|done]. intros [= <-].
    rewrite <- app_assoc. simpl.
    enough (forall n l, (n <= length l)%nat ->
      (fix read r := match r with
              | [] => None
              | x :: r =>
                if bool_decide (x = Byte.x00) then Some ([], r)
                else match read r with
                     | Some (b, y :: r') => Some (b ++ [y], r')
                     | _ => None
                     end
              end) (replicate n Byte.x01 ++ Byte.x00 :: l) = Some (take n l, drop n l)) as Hn.
    { rewrite Hn by (rewrite length_app; lia). by rewrite take_app_length, drop_app_length. }
    induction n as [|n IH]; intros l Hl; [done|]. simpl. rewrite IH by lia.
    destruct (lookup_lt_is_Some_2 l n ltac:(lia)) as [y Hy].
    rewrite (drop_S l y n Hy). by rewrite (take_S_r l n y Hy).
Defined.

#[local] Instance share_info_eq : EqDecision RemoteFileShareInfo.
Proof. solve_decision. Defined.
#[local] Instance share_info_countable : Countable RemoteFileShareInfo.
Proof.
  refine (inj_countable' (fun s => (psh_id s, psh_name s, psh_writable s))
    (fun '(a, b, c) => {| psh_id := a; psh_name := b; psh_writable := c |}) _).
  by intros [].
Defined.
#[local] Instance entry_info_eq : EqDecision RemoteFileEntryInfo.
Proof. solve_decision. Defined.
#[local] Instance entry_info_countable : Countable RemoteFileEntryInfo.
Proof.
  refine (inj_countable' (fun e => (pe_id e, pe_name e, pe_relative_path e, pe_kind e, pe_size e,
      pe_modified_at_ms e, pe_revision e))
    (fun '(a, b, c, d, e, f, g) => {| pe_id := a; pe_name := b; pe_relative_path := c;
      pe_kind := d; pe_size := e; pe_modified_at_ms := f; pe_revision := g |}) _).
  by intros [].
Defined.
#[local] Instance response_frame_eq : EqDecision RemoteFileResponseFrame.
Proof. solve_decision. Defined.
#[local] Instance response_frame_countable : Countable RemoteFileResponseFrame.
Proof.
  refine (inj_countable' (fun r => (p_ok r, p_error r, p_shares r, p_entries r, p_next_cursor r,
      p_entry r, p_thumbnail_size r, (p_thumbnail_media_type r, p_revision r, p_range_data r,
      p_error_code r, p_change_epoch r, p_change_sequence r, p_changed_directories r,
      p_change_reset r)))
    (fun '(a, b, c, d, e, f, g, (h, i, j, k, l, m, n, o)) =>
      {| p_ok := a; p_error := b; p_shares := c; p_entries := d; p_next_cursor := e;
         p_entry := f; p_thumbnail_size := g; p_thumbnail_media_type := h; p_revision := i;
         p_range_data := j; p_error_code := k; p_change_epoch := l; p_change_sequence := m;
         p_changed_directories := n; p_change_reset := o |}) _).
  by intros [].
Defined.

(** Bodies as a tag, their strings, numbers, flags and optional fields. *)
Definition body_key : Type := nat * list string * list Z * list bool * list (option string) * option Z.
Definition body_to_key (b : Body) : body_key :=
  match b with
  | BListShares => (0%nat, [], [], [], [], None)
  | BWatchChanges s e n => (1%nat, [s; e], [n], [], [], None)
  | BStat s p => (2%nat, [s; p], [], [], [], None)
  | BMove s p q o e => (3%nat, [s; p; q; e], [], [o], [], None)
  | BConditionalDelete s p e r => (4%nat, [s; p; e], [], [r], [], None)
  | BReadRange s p o l r => (5%nat, [s; p; r], [o; l], [], [], None)
  | BConditionalUpload s p n z e => (6%nat, [s; p; n; e], [z], [], [], None)
  | BListDirectory s p c l q k d => (7%nat, [s; p], [l; k; d], [], [c; q], None)
  | BCreateDirectory s p n => (8%nat, [s; p; n], [], [], [], None)
  | BRename s p n => (9%nat, [s; p; n], [], [], [], None)
  | BDelete s p => (10%nat, [s; p], [], [], [], None)
  | BDownload s p => (11%nat, [s; p], [], [], [], None)
  | BThumbnail s p m => (12%nat, [s; p], [m], [], [], None)
  | BUpload s p n z o m => (13%nat, [s; p; n], [z], [o], [], m)
  end.
Definition key_to_body (k : body_key) : Body :=
  match k with
  | (1%nat, [s; e], [n], _, _, _) => BWatchChanges s e n
  | (2%nat, [s; p], _, _, _, _) => BStat s p
  | (3%nat, [s; p; q; e], _, [o], _, _) => BMove s p q o e
  | (4%nat, [s; p; e], _, [r], _, _) => BConditionalDelete s p e r
  | (5%nat, [s; p; r], [o; l], _, _, _) => BReadRange s p o l r
  | (6%nat, [s; p; n; e], [z], _, _, _) => BConditionalUpload s p n z e
  | (7%nat, [s; p], [l; k; d], _, [c; q], _) => BListDirectory s p c l q k d
  | (8%nat, [s; p; n], _, _, _, _) => BCreateDirectory s p n
  | (9%nat, [s; p; n], _, _, _, _) => BRename s p n
  | (10%nat, [s; p], _, _, _, _) => BDelete s p
  | (11%nat, [s; p], _, _, _, _) => BDownload s p
  | (12%nat, [s; p], [m], _, _, _) => BThumbnail s p m
  | (13%nat, [s; p; n], [z], [o], _, m) => BUpload s p n z o m
  | _ => BListShares
  end.
#[local] Instance body_eq : EqDecision Body.
Proof. solve_decision. Defined.
#[local] Instance request_frame_eq : EqDecision RemoteFileRequestFrame.
Proof. solve_decision. Defined.
#[local] Instance request_frame_countable : Countable RemoteFileRequestFrame.
Proof.
  refine (inj_countable' (fun f => body_to_key <$> body f)
    (fun k => {| body := key_to_body <$> k |}) _).
  intros [[b|]]; [|done]. simpl. by destruct b.
Defined.

Definition toy_error_codes : ProstEnum ProtoErrorCode.
Proof.
  refine {| as_i32 e := match e with PEUnspecified => 0 | PEInvalidArgument => 1
      | PEPermissionDenied => 2 | PENotFound => 3 | PEConflict => 4 | PEResourceExhausted => 5
      | PEFailedPrecondition => 6 | PEUnavailable => 7 | PECancelled => 8 | PEInternal => 9 end;
    try_from z := [PEUnspecified; PEInvalidArgument; PEPermissionDenied; PENotFound; PEConflict;
      PEResourceExhausted; PEFailedPrecondition; PEUnavailable; PECancelled; PEInternal]
      !! Z.to_nat z |}.
  by intros [].
Defined.
Definition toy_entry_kinds : ProstEnum ProtoEntryKind.
Proof.
  refine {| as_i32 e := match e with PKUnspecified => 0 | PKFile => 1 | PKFolder => 2 end;
    try_from z := [PKUnspecified; PKFile; PKFolder] !! Z.to_nat z |}.
  by intros [].
Defined.
Definition toy_sort_keys : ProstEnum ProtoSortKey.
Proof.
  refine {| as_i32 e := match e with PSUnspecified => 0 | PSName => 1 | PSModified => 2
      | PSType => 3 | PSSize => 4 end;
    try_from z := [PSUnspecified; PSName; PSModified; PSType; PSSize] !! Z.to_nat z |}.
  by intros [].
Defined.
Definition toy_sort_directions : ProstEnum ProtoSortDirection.
Proof.
  refine {| as_i32 e := match e with PDUnspecified => 0 | PDAscending => 1 | PDDescending => 2 end;
    try_from z := [PDUnspecified; PDAscending; PDDescending] !! Z.to_nat z |}.
  by intros [].
Defined.

#[local] Existing Instance toy_limits.
#[local] Existing Instance toy_frames.
#[local] Existing Instance toy_error_codes.
#[local] Existing Instance toy_entry_kinds.
#[local] Existing Instance toy_sort_keys.
#[local] Existing Instance toy_sort_directions.
#[local] Existing Instance toy_message.

Definition sample_requests : list RemoteFileRequest :=
  [ListShares; Stat "home" "a/b";
   ListDirectory "home" EmptyString None 0 (Some "x"%string) SModified Descending].
Definition sample_stream : bytes :=
  match write_messages [] sample_requests with Ok w => w | Err _ => [] end.

Lemma remote_request_roundtrip_witness :
  read_messages 3 (sample_stream ++ [Byte.xff]) = Ok (sample_requests, [Byte.xff]).
Proof.
  refine (proj1 (proj2 (remote_request_roundtrip sample_requests sample_stream [Byte.xff] _))).
  vm_compute. reflexivity.
Defined.

Lemma remote_response_roundtrip_witness :
  exists b, encode_wire (from_error {| re_code := RConflict; re_message := "busy" |}) = Ok b
    /\ decode_wire b = Ok (from_error {| re_code := RConflict; re_message := "busy" |}).
Proof.
  assert (Forall scalar [98; 117; 115; 121]%Z) as Hs
    by (repeat constructor; unfold scalar; lia).
  destruct (remote_response_roundtrip {| re_code := RConflict; re_message := "busy" |}
    [98; 117; 115; 121]%Z Hs eq_refl) as [(b & _ & _ & H1 & H2 & _) _].
  exists b. split; [exact H1|exact H2].
Defined.

Lemma accepted_paths_confined_witness :
  walk [] ["a"; "b"; "c.txt"]%string = Some ["c.txt"; "b"; "a"]%string.
Proof.
  pose proof (accepted_paths_confined (Upload "home" "a/b" "c.txt" 3 false None)
    ltac:(vm_compute; reflexivity)) as Hw.
  apply Forall_cons_1 in Hw as [_ Hw]. apply Forall_cons_1 in Hw as [[Hw _] _]. exact Hw.
Defined.

End RemoteFiles.
