(* ===== verification/Wire.v ===== *)
(** * Framed messages and protocol errors

    Models [src/server/wire.rs] and [src/error.rs]: messages on a control or input stream, each one
    a length-prefixed frame of [arcrelay_transport] that holds a protobuf encoding, and the
    categories errors are reported under.  A stream is the bytes on it. *)

From Stdlib Require Import ZArith Lia String.
From stdpp Require Import base tactics option list strings.
From S2P Require Import Prelude Proto RemoteFiles.

Module Wire.
Local Open Scope string_scope.
Local Open Scope list_scope.
Local Open Scope Z_scope.

(** [arcrelay_transport::FrameError]; what an operating system error says is left open. *)
Inductive FrameError :=
| FIo
| FTooLarge (actual maximum : Z)
| FLengthOverflow (actual : Z)
| FEmpty.

(** [ProtocolError]. *)
Inductive ProtocolError :=
| Io
| Serialization
| Discovery (message : string)
| ConnectionRejected
| ConnectionClosed
| HandshakeFailed (message : string)
| MessageTooLarge (size : Z)
| RemoteFile
| Other (message : string).
Definition code (e : ProtocolError) : string :=
  match e with
  | Io | ConnectionClosed => "protocol.unavailable"
  | Serialization => "protocol.serialization"
  | Discovery _ => "protocol.discovery"
  | ConnectionRejected => "protocol.permission_denied"
  | HandshakeFailed _ => "protocol.handshake_failed"
  | MessageTooLarge _ => "protocol.resource_exhausted"
  | RemoteFile => "protocol.remote_file_codec"
  | Other _ => "protocol.operation_failed"
  end.

(** [read_frame] and [write_frame] of the transport: a payload that is not empty and within the
    limit can be written, a larger one cannot, and a frame is read back whole. *)
Class Framing := {
  transport_write : Z -> bytes -> result bytes FrameError;
  transport_read : Z -> bytes -> result (bytes * bytes) FrameError;
  transport_write_fits : forall limit b, 0 < blen b <= limit -> limit <= u32_max ->
    exists w, transport_write limit b = Ok w;
  transport_write_large : forall limit b, limit < blen b <= u32_max ->
    transport_write limit b = Err (FTooLarge (blen b) limit);
  transport_read_write : forall limit b w rest,
    transport_write limit b = Ok w -> transport_read limit (w ++ rest) = Ok (b, rest);
}.

Section wire.
Context `{!WireLimits} `{!Framing}.

Definition map_frame_error (e : FrameError) : ProtocolError :=
  match e with
  | FIo => Io
  | FTooLarge actual _ | FLengthOverflow actual => MessageTooLarge actual
  | FEmpty => Other "empty protobuf frame"
  end.
(** A message off the stream, with the rest of it; what [prost] says of bytes it cannot decode is
    left out of the error. *)
Definition recv_message {M} `{!ProstMessage M} (max_size : Z) (stream : bytes) : result (M * bytes) ProtocolError :=
  let? (bytes, rest) := map_err map_frame_error (transport_read max_size stream) in
  match prost_decode bytes with
  | Some message => Ok (message, rest)
  | None => Err (Other "protobuf decode failed")
  end.
(** What a message adds to the stream. *)
Definition send_message {M} `{!ProstMessage M} (max_size : Z) (message : M) : result bytes ProtocolError :=
  map_err map_frame_error (transport_write max_size (encode_to_vec message)).

Definition recv_control {M} `{!ProstMessage M} : bytes -> result (M * bytes) ProtocolError :=
  recv_message MAX_CONTROL_FRAME_SIZE.
Definition send_control {M} `{!ProstMessage M} : M -> result bytes ProtocolError := send_message MAX_CONTROL_FRAME_SIZE.
Definition recv_reliable_input {M} `{!ProstMessage M} : bytes -> result (M * bytes) ProtocolError :=
  recv_message MAX_RELIABLE_INPUT_FRAME_SIZE.
End wire.

Section messages.
Context `{!WireLimits} `{!Framing}.
Context {M : Type} `{!ProstMessage M}.

(** Sending messages one after the other, and receiving as many. *)
Fixpoint send_all (max_size : Z) (messages : list M) : result bytes ProtocolError :=
  match messages with
  | [] => Ok []
  | m :: messages =>
    let? frame := send_message max_size m in
    let? frames := send_all max_size messages in
    Ok (frame ++ frames)
  end.
Fixpoint recv_all (n : nat) (max_size : Z) (stream : bytes) : result (list M * bytes) ProtocolError :=
  match n with
  | O => Ok ([], stream)
  | S n =>
    let? (m, stream) := recv_message max_size stream in
    let? (messages, stream) := recv_all n max_size stream in
    Ok (m :: messages, stream)
  end.

(** What was sent on a stream is received from it, message by message, and nothing else is read. *)
Lemma wire_messages_roundtrip max_size messages stream rest :
  send_all max_size messages = Ok stream ->
  recv_all (length messages) max_size (stream ++ rest) = Ok (messages, rest).
Proof.
  revert stream. induction messages as [|m messages IH]; intros stream; cbn [send_all recv_all length].
  { by intros [= <-]. }
  unfold send_message. destruct (transport_write max_size (encode_to_vec m)) as [frame|] eqn:Ew; [|done].
  cbn [map_err rbind]. destruct (send_all max_size messages) as [frames|]; [|done]. intros [= <-].
  rewrite <- app_assoc. unfold recv_message. rewrite (transport_read_write _ _ _ _ Ew). cbn.
  rewrite prost_decode_encode. cbn. by rewrite (IH frames).
Qed.
(** A message beyond the limit is not sent, and is reported as exhausting a resource. *)
Lemma send_message_large max_size (m : M) :
  max_size < blen (encode_to_vec m) <= u32_max ->
  exists e, send_message max_size m = Err e /\ code e = "protocol.resource_exhausted".
Proof.
  intros Hl. unfold send_message. rewrite transport_write_large by done. by eexists.
Qed.
Lemma send_message_fits max_size (m : M) :
  0 < blen (encode_to_vec m) <= max_size -> max_size <= u32_max -> exists w, send_message max_size m = Ok w.
Proof.
  intros Hb Hm. destruct (transport_write_fits max_size _ Hb Hm) as [w Hw]. exists w. unfold send_message. by rewrite Hw.
Qed.
End messages.
End Wire.
