(* ===== verification/RemoteFileHandler.v ===== *)
(** * The remote file stream handler

    Models [handle_remote_file_stream] of [src/server/proto_handler/input.rs] and the provider
    trait of [src/remote_files.rs].  The handler runs over a state with the bytes received and
    sent, the files of the host and the log of provider calls; the provider is a record of
    operations that may change the files, and the faults of the host (a refused open, a full
    disk, a broken stream) are inputs.  A path is the list of its components. *)

From Stdlib Require Import ZArith Lia String.
From stdpp Require Import base tactics option list strings gmap pretty.
From S2P Require Import Prelude Proto Text Requests RemoteFiles.

Module RemoteFileHandler.
Import RemoteFiles.

Definition PathBuf : Type := list string.
(** [Path::parent]. *)
Definition parent (p : PathBuf) : option PathBuf :=
  match reverse p with [] => None | _ :: r => Some (reverse r) end.
Definition join (p : PathBuf) (name : string) : PathBuf := p ++ [name].

Record FileData := { content : bytes; modified_ns : option Z }.
Abbreviation Fs := (gmap PathBuf FileData).

(** [std::io::Error]: the kinds the code distinguishes, and its text. *)
Inductive IoErrorKind := IoPermissionDenied | IoAlreadyExists | IoOther.
Record IoError := { io_kind : IoErrorKind; io_text : string }.

Record RemoteFileDirectoryPage := {
  page_entries : list RemoteFileEntry;
  page_next_cursor : option string;
}.
Record RemoteFileThumbnail := { th_bytes : bytes; th_media_type : string }.
Record RemoteFileDownload := { dl_path : PathBuf; dl_entry : RemoteFileEntry }.
Record RemoteFileUpload := {
  up_destination : PathBuf;
  up_entry : RemoteFileEntry;
  up_overwrite : bool;
  up_expected_modified_at_ms : option Z;
}.

(** ** The provider trait *)

Definition Provided (A : Type) : Type := Fs -> Fs * result A RemoteFileError.

Record RemoteFileProvider := {
  watch_changes : string -> string -> Z -> Provided (string * Z * list string * bool);
  stat : string -> string -> Provided (RemoteFileEntry * string);
  move_entry : string -> string -> string -> bool -> string -> Provided RemoteFileEntry;
  conditional_delete : string -> string -> string -> bool -> Provided unit;
  read_range : string -> string -> Z -> Z -> string -> Provided bytes;
  commit_system_upload :
    string -> string -> string -> PathBuf -> string -> Provided (RemoteFileEntry * string);
  list_shares : Provided (list RemoteFileShare);
  list_directory : string -> string -> option string -> Z -> option string ->
    RemoteFileSortKey -> RemoteFileSortDirection -> Provided RemoteFileDirectoryPage;
  create_directory : string -> string -> string -> Provided RemoteFileEntry;
  rename_entry : string -> string -> string -> Provided RemoteFileEntry;
  delete_entry : string -> string -> Provided unit;
  prepare_download : string -> string -> Provided RemoteFileDownload;
  prepare_thumbnail : string -> string -> Z -> Provided (option RemoteFileThumbnail);
  prepare_upload :
    string -> string -> string -> Z -> bool -> option Z -> Provided RemoteFileUpload;
}.

(** The trait's default method bodies. *)
Definition unsupported {A} (message : string) : Provided A :=
  fun fs => (fs, Err {| re_code := RFailedPrecondition; re_message := message |}).
Definition default_watch_changes (_ _ : string) (_ : Z) : Provided (string * Z * list string * bool) :=
  unsupported "this device does not support file change notifications".
Definition default_stat (_ _ : string) : Provided (RemoteFileEntry * string) :=
  unsupported "this device does not support system folders; update ArcRelay on both devices".
Definition default_move_entry (_ _ _ : string) (_ : bool) (_ : string) : Provided RemoteFileEntry :=
  unsupported "system folder moves are not supported".
Definition default_conditional_delete (_ _ _ : string) (_ : bool) : Provided unit :=
  unsupported "conditional deletes are not supported".
Definition default_read_range (_ _ : string) (_ _ : Z) (_ : string) : Provided bytes :=
  unsupported "file range reads are not supported".
Definition default_commit_system_upload (_ _ _ : string) (_ : PathBuf) (_ : string)
  : Provided (RemoteFileEntry * string) :=
  unsupported "conditional saves are not supported".
Definition default_prepare_thumbnail (_ _ : string) (_ : Z) : Provided (option RemoteFileThumbnail) :=
  fun fs => (fs, Ok None).

(** A provider call, as the log records it. *)
Inductive ProviderCall :=
| CWatchChanges (share epoch : string) (after : Z)
| CStat (share path : string)
| CMove (share path destination : string) (overwrite : bool) (expected : string)
| CConditionalDelete (share path expected : string) (recursive : bool)
| CReadRange (share path : string) (offset length : Z) (revision : string)
| CCommitSystemUpload (share path name : string) (temporary : PathBuf) (expected : string)
| CListShares
| CListDirectory (share path : string) (cursor : option string) (limit : Z)
    (search : option string) (key : RemoteFileSortKey) (direction : RemoteFileSortDirection)
| CCreateDirectory (share path name : string)
| CRename (share path new_name : string)
| CDelete (share path : string)
| CPrepareDownload (share path : string)
| CPrepareThumbnail (share path : string) (max_dimension : Z)
| CPrepareUpload (share path name : string) (size : Z) (overwrite : bool) (expected : option Z).

(** ** The handler's state and effects *)

(** What the stream does once the received bytes are consumed. *)
Inductive StreamEnd := Finished | Broken (e : IoError) | Silent.

(** The faults of the host during one stream. *)
Record Host := {
  uuid : string;
  now_ns : Z;
  recv_end : StreamEnd;
  open_fault : option IoError;
  create_fault : option IoError;
  disk_fault : option (nat * IoError);
  flush_fault : option IoError;
  sync_fault : option IoError;
  metadata_fault : bool;
  commit_fault : option IoError;
  remove_fault : bool;
}.

Record State := { recv : bytes; send : bytes; files : Fs; calls : list ProviderCall }.

(** [Failed]: the handler returned an error; [Pending]: it waits for the peer until the caller's
    timeout drops it. *)
Inductive Halt := Codec (e : RemoteFileCodecError) | Failed (message : string) | Pending.

Definition M (A : Type) : Type := State -> State * result A Halt.
Definition mret {A} (a : A) : M A := fun st => (st, Ok a).
Definition mbind {A B} (m : M A) (k : A -> M B) : M B :=
  fun st => match m st with
            | (st, Ok a) => k a st
            | (st, Err e) => (st, Err e)
            end.
Definition mfail {A} (e : Halt) : M A := fun st => (st, Err e).
Definition get_files : M Fs := fun st => (st, Ok (files st)).
Definition set_files (fs : Fs) : M unit :=
  fun st => ({| recv := recv st; send := send st; files := fs; calls := calls st |}, Ok tt).
Definition set_recv (r : bytes) : M unit :=
  fun st => ({| recv := r; send := send st; files := files st; calls := calls st |}, Ok tt).
Definition get_recv : M bytes := fun st => (st, Ok (recv st)).
Notation "'do*' x ':=' m 'in' k" := (mbind m (fun x => k))
  (at level 10, x pattern, m at level 100, k at level 200).

(** A call of the provider, logged. *)
Definition call {A} (c : ProviderCall) (f : Provided A) : M (result A RemoteFileError) :=
  fun st => let '(fs, r) := f (files st) in
    ({| recv := recv st; send := send st; files := fs; calls := calls st ++ [c] |}, Ok r).
(** [send.write_all]. *)
Definition write_all (b : bytes) : M unit :=
  fun st => ({| recv := recv st; send := send st ++ b; files := files st; calls := calls st |}, Ok tt).

Section handler.
Context `{!WireLimits} `{!ProstEnum ProtoErrorCode} `{!ProstEnum ProtoEntryKind}
  `{!ProstEnum ProtoSortKey} `{!ProstEnum ProtoSortDirection}
  `{!ProstMessage RemoteFileRequestFrame} `{!ProstMessage RemoteFileResponseFrame}
  `{!FrameTransport}.

(** [write_remote_message(send, &response).await?]. *)
Definition reply (r : RemoteFileResponse) : M unit :=
  fun st => match write_remote_message (send st) r with
            | Ok w => ({| recv := recv st; send := w; files := files st; calls := calls st |}, Ok tt)
            | Err e => (st, Err (Codec e))
            end.
(** [read_remote_message(recv).await?]. *)
Definition read_request : M RemoteFileRequest :=
  fun st => match read_remote_message (T := RemoteFileRequest) (recv st) with
            | Ok (r, rest) =>
              ({| recv := rest; send := send st; files := files st; calls := calls st |}, Ok r)
            | Err e => (st, Err (Codec e))
            end.

Definition denied (message : string) : RemoteFileResponse := failure RPermissionDenied message.
Definition read_denied := denied "read access to this share is not permitted".
Definition write_denied := denied "write access to this share is not permitted".

(** [RemoteFileResponse { .., ..RemoteFileResponse::success() }]. *)
Definition with_entry (e : RemoteFileEntry) : RemoteFileResponse :=
  {| ok := true; error := None; shares := []; entries := []; next_cursor := None; entry := Some e;
     thumbnail_size := 0; thumbnail_media_type := None; r_revision := EmptyString;
     range_data := []; change_epoch := EmptyString; change_sequence := 0;
     changed_directories := []; change_reset := false |}.
Definition with_entry_revision (e : RemoteFileEntry) (rev : string) : RemoteFileResponse :=
  {| ok := true; error := None; shares := []; entries := []; next_cursor := None; entry := Some e;
     thumbnail_size := 0; thumbnail_media_type := None; r_revision := rev;
     range_data := []; change_epoch := EmptyString; change_sequence := 0;
     changed_directories := []; change_reset := false |}.
Definition with_changes (epoch : string) (sequence : Z) (dirs : list string) (reset : bool)
  : RemoteFileResponse :=
  {| ok := true; error := None; shares := []; entries := []; next_cursor := None; entry := None;
     thumbnail_size := 0; thumbnail_media_type := None; r_revision := EmptyString;
     range_data := []; change_epoch := epoch; change_sequence := sequence;
     changed_directories := dirs; change_reset := reset |}.
Definition with_range (data : bytes) (rev : string) : RemoteFileResponse :=
  {| ok := true; error := None; shares := []; entries := []; next_cursor := None; entry := None;
     thumbnail_size := 0; thumbnail_media_type := None; r_revision := rev;
     range_data := data; change_epoch := EmptyString; change_sequence := 0;
     changed_directories := []; change_reset := false |}.
Definition with_shares (s : list RemoteFileShare) : RemoteFileResponse :=
  {| ok := true; error := None; shares := s; entries := []; next_cursor := None; entry := None;
     thumbnail_size := 0; thumbnail_media_type := None; r_revision := EmptyString;
     range_data := []; change_epoch := EmptyString; change_sequence := 0;
     changed_directories := []; change_reset := false |}.
Definition with_page (page : RemoteFileDirectoryPage) : RemoteFileResponse :=
  {| ok := true; error := None; shares := []; entries := page_entries page;
     next_cursor := page_next_cursor page; entry := None;
     thumbnail_size := 0; thumbnail_media_type := None; r_revision := EmptyString;
     range_data := []; change_epoch := EmptyString; change_sequence := 0;
     changed_directories := []; change_reset := false |}.
Definition with_thumbnail (t : RemoteFileThumbnail) : RemoteFileResponse :=
  {| ok := true; error := None; shares := []; entries := []; next_cursor := None; entry := None;
     thumbnail_size := blen (th_bytes t); thumbnail_media_type := Some (th_media_type t);
     r_revision := EmptyString; range_data := []; change_epoch := EmptyString;
     change_sequence := 0; changed_directories := []; change_reset := false |}.

(** [match provider.op(..).await { Ok(a) => respond(a), Err(error) => from_error(error) }]. *)
Definition respond {A} (f : A -> RemoteFileResponse) (r : result A RemoteFileError)
  : RemoteFileResponse :=
  match r with Ok a => f a | Err e => from_error e end.

(** The [filter_map] over the provider's shares. *)
Definition visible_shares (access : RemoteFileAccess) (l : list RemoteFileShare)
  : list RemoteFileShare :=
  omap (fun share =>
    if can_read access (sh_id share) || can_write access (sh_id share)
    then Some {| sh_id := sh_id share; sh_name := sh_name share;
                 sh_writable := sh_writable share && can_write access (sh_id share) |}
    else None) l.

Definition page_limit (limit : Z) : Z :=
  if limit =? 0 then DEFAULT_REMOTE_DIRECTORY_PAGE_SIZE
  else Z.max 1 (Z.min limit MAX_REMOTE_DIRECTORY_PAGE_SIZE).
End handler.
(** ** Uploads *)

(** The [async] block that receives and commits an upload: [?] inside it returns a
    [RemoteFileError] to the handler. *)
Definition UM (A : Type) : Type := M (result A RemoteFileError).
Definition ubind {A B} (m : UM A) (k : A -> UM B) : UM B :=
  do* r := m in match r with Ok a => k a | Err e => mret (Err e) end.
Notation "'try*' x ':=' m 'in' k" := (ubind m (fun x => k))
  (at level 10, x pattern, m at level 100, k at level 200).
Definition uret {A} (a : A) : UM A := mret (Ok a).
Definition uerr {A} (code : RemoteFileErrorCode) (message : string) : UM A :=
  mret (Err {| re_code := code; re_message := message |}).

(** [OpenOptions::new().write(true).create_new(true).open(&temporary)]. *)
Definition create_temporary (host : Host) (temporary : PathBuf) : UM unit :=
  do* fs := get_files in
  let fault := match create_fault host with
               | Some e => Some e
               | None => match fs !! temporary with
                         | Some _ => Some {| io_kind := IoAlreadyExists; io_text := "file exists" |}
                         | None => None
                         end
               end in
  match fault with
  | Some e =>
    match io_kind e with
    | IoPermissionDenied =>
      uerr RPermissionDenied "upload failed: target directory is read-only or the current user lacks write permission"
    | _ => uerr RUnavailable ("failed to create upload file: " ++ io_text e)
    end
  | None =>
    do* _ := set_files (<[temporary := {| content := []; modified_ns := Some (now_ns host) |}]> fs) in
    uret tt
  end.

(** [tokio::io::copy(&mut recv.take(size), &mut file)]. *)
Definition copy_upload (host : Host) (temporary : PathBuf) (size : Z) : UM Z :=
  do* r := get_recv in
  do* fs := get_files in
  let wanted := Z.to_nat (Z.min size (blen r)) in
  let data := take wanted r in
  let written b := <[temporary := {| content := b; modified_ns := Some (now_ns host) |}]> fs in
  let finish :=
    do* _ := set_files (written data) in
    do* _ := set_recv (drop wanted r) in
    if blen data <? size then
      match recv_end host with
      | Finished => uret (blen data)
      | Broken e => uerr RUnavailable ("upload stream failed: " ++ io_text e)
      | Silent => mfail Pending
      end
    else uret (blen data) in
  match disk_fault host with
  | Some (n, e) =>
    if Nat.ltb n (length data) then
      do* _ := set_files (written (take n data)) in
      uerr RUnavailable ("upload stream failed: " ++ io_text e)
    else finish
  | None => finish
  end.

(** The read of one byte past a conditional upload, bounded by 30 seconds. *)
Definition check_trailing (host : Host) : UM unit :=
  do* r := get_recv in
  match r with
  | _ :: r =>
    do* _ := set_recv r in
    uerr RInvalidArgument "upload exceeds its declared size"
  | [] =>
    match recv_end host with
    | Finished => uret tt
    | Broken e => uerr RUnavailable (io_text e)
    | Silent => uerr RUnavailable "upload did not finish"
    end
  end.

Definition flush_file (host : Host) : UM unit :=
  match flush_fault host with
  | Some e => uerr RUnavailable ("failed to flush upload: " ++ io_text e)
  | None => match sync_fault host with
            | Some e => uerr RUnavailable ("failed to synchronize upload: " ++ io_text e)
            | None => uret tt
            end
  end.

(** [metadata.modified()..as_millis().min(i64::MAX as u128) as i64]. *)
Definition modified_ms (f : FileData) : Z :=
  match modified_ns f with
  | Some t => if t <? 0 then 0 else Z.min (t / 1000000) i64_max
  | None => 0
  end.

Definition check_modified (host : Host) (upload : RemoteFileUpload) : UM unit :=
  match up_expected_modified_at_ms upload with
  | None => uret tt
  | Some expected =>
    do* fs := get_files in
    match (if metadata_fault host then None else fs !! up_destination upload) with
    | None => uerr RNotFound "the remote file was deleted; the local edited copy was retained"
    | Some f =>
      if negb (modified_ms f =? expected)
      then uerr RConflict "the remote file was modified elsewhere; the local edited copy was retained"
      else uret tt
    end
  end.

(** [let _ = tokio::fs::remove_file(&temporary).await]. *)
Definition remove_file (host : Host) (p : PathBuf) : M unit :=
  if remove_fault host then mret tt
  else do* fs := get_files in set_files (delete p fs).

(** [rename] replaces the destination; [hard_link] refuses an existing one. *)
Definition commit_file (host : Host) (temporary : PathBuf) (upload : RemoteFileUpload) : UM unit :=
  do* fs := get_files in
  let destination := up_destination upload in
  let outcome :=
    match commit_fault host, fs !! temporary with
    | Some e, _ => Err e
    | None, None => Err {| io_kind := IoOther; io_text := "no such file" |}
    | None, Some f =>
      if up_overwrite upload then Ok (<[destination := f]> (delete temporary fs))
      else match fs !! destination with
           | Some _ => Err {| io_kind := IoAlreadyExists; io_text := "file exists" |}
           | None => Ok (<[destination := f]> fs)
           end
    end in
  match outcome with
  | Ok fs => do* _ := set_files fs in uret tt
  | Err e =>
    uerr (match io_kind e with IoAlreadyExists => RConflict | _ => RUnavailable end)
      ("failed to commit uploaded file: " ++ io_text e)
  end.

Section upload.
Context (provider : RemoteFileProvider) (host : Host).

(** The whole block, with [committed] as its value. *)
Definition receive_upload (share_id relative_path name : string) (size : Z)
    (expected_revision : option string) (upload : RemoteFileUpload) (temporary : PathBuf)
  : UM (option (RemoteFileEntry * string)) :=
  try* _ := create_temporary host temporary in
  try* received := copy_upload host temporary size in
  try* _ := (if negb (is_none expected_revision) && (received =? size)
             then check_trailing host else uret tt) in
  try* _ := flush_file host in
  if negb (received =? size) then
    uerr RUnavailable ("upload ended early: expected " ++ pretty size ++ " bytes, received "
      ++ pretty received)
  else
  match expected_revision with
  | Some expected =>
    try* committed := call (CCommitSystemUpload share_id relative_path name temporary expected)
      (commit_system_upload provider share_id relative_path name temporary expected) in
    uret (Some committed)
  | None =>
    try* _ := check_modified host upload in
    try* _ := commit_file host temporary upload in
    do* _ := (if negb (up_overwrite upload) then remove_file host temporary else mret tt) in
    uret None
  end.
End upload.

Section handler_main.
Context `{!WireLimits} `{!ProstEnum ProtoErrorCode} `{!ProstEnum ProtoEntryKind}
  `{!ProstEnum ProtoSortKey} `{!ProstEnum ProtoSortDirection}
  `{!ProstMessage RemoteFileRequestFrame} `{!ProstMessage RemoteFileResponseFrame}
  `{!FrameTransport}.

(** The [Upload] arm; a conditional upload carries its expected revision. *)
Definition handle_upload (provider : RemoteFileProvider) (host : Host) (access : RemoteFileAccess)
    (share_id relative_path name : string) (size : Z) (overwrite : bool)
    (expected_modified_at_ms : option Z) (expected_revision : option string) : M unit :=
  if negb (can_write access share_id) then reply write_denied else
  if size >? MAX_REMOTE_FILE_CONTENT_SIZE then
    reply (failure RResourceExhausted "remote file size exceeds the limit") else
  do* upload := call (CPrepareUpload share_id relative_path name size overwrite expected_modified_at_ms)
    (prepare_upload provider share_id relative_path name size overwrite expected_modified_at_ms) in
  match upload with
  | Err e => reply (from_error e)
  | Ok upload =>
    do* _ := reply (with_entry (up_entry upload)) in
    match parent (up_destination upload) with
    | None => mfail (Failed "invalid upload target directory")
    | Some dir =>
      let temporary := join dir (".arcrelay-upload-" ++ uuid host) in
      do* result := receive_upload provider host share_id relative_path name size
        expected_revision upload temporary in
      do* _ := (if negb (is_ok result) then remove_file host temporary else mret tt) in
      reply match result with
            | Ok (Some (entry, revision)) => with_entry_revision entry revision
            | Ok None => with_entry (up_entry upload)
            | Err e => from_error e
            end
    end
  end.

(** The [Download] arm. *)
Definition handle_download (provider : RemoteFileProvider) (host : Host) (access : RemoteFileAccess)
    (share_id relative_path : string) : M unit :=
  if negb (can_read access share_id) then reply read_denied else
  do* download := call (CPrepareDownload share_id relative_path)
    (prepare_download provider share_id relative_path) in
  match download with
  | Err e => reply (from_error e)
  | Ok download =>
    if negb (bool_decide (e_kind (dl_entry download) = KFile)) then
      reply (failure RFailedPrecondition "only files can be downloaded") else
    do* fs := get_files in
    let opened := match open_fault host, fs !! dl_path download with
                  | Some e, _ => Err e
                  | None, None => Err {| io_kind := IoOther; io_text := "no such file" |}
                  | None, Some f => Ok f
                  end in
    match opened with
    | Err e => reply (failure RUnavailable ("failed to open remote file: " ++ io_text e))
    | Ok file =>
      do* _ := reply (with_entry (dl_entry download)) in
      do* _ := write_all (content file) in
      if negb (blen (content file) =? e_size (dl_entry download))
      then mfail (Failed "remote file changed during download") else mret tt
    end
  end.

(** The [Thumbnail] arm. *)
Definition handle_thumbnail (provider : RemoteFileProvider) (access : RemoteFileAccess)
    (share_id relative_path : string) (max_dimension : Z) : M unit :=
  if negb (can_read access share_id) then reply read_denied else
  do* thumbnail := call (CPrepareThumbnail share_id relative_path max_dimension)
    (prepare_thumbnail provider share_id relative_path max_dimension) in
  match thumbnail with
  | Ok (Some thumbnail) =>
    do* _ := reply (with_thumbnail thumbnail) in write_all (th_bytes thumbnail)
  | Ok None => reply (failure RNotFound "no thumbnail is available for this file")
  | Err e => reply (from_error e)
  end.

(** The [match request] of the handler, after [ConditionalUpload] has become an [Upload]. *)
(** The arms of the [match] on the request, the longer ones as definitions of their own. *)
Definition handle_list_directory (provider : RemoteFileProvider) (access : RemoteFileAccess) (share_id relative_path : string)
    (cursor : option string) (limit : Z) (search : option string) (sort_key : RemoteFileSortKey)
    (sort_direction : RemoteFileSortDirection)
  : M unit :=
  if negb (can_read access share_id) then reply read_denied else
  let limit := page_limit limit in
  do* r := call (CListDirectory share_id relative_path cursor limit search sort_key sort_direction)
    (list_directory provider share_id relative_path cursor limit search sort_key sort_direction) in
  reply (respond with_page r).
Definition handle_create_directory (provider : RemoteFileProvider) (access : RemoteFileAccess)
    (share_id relative_path name : string)
  : M unit :=
  if negb (can_write access share_id) then reply write_denied else
  do* r := call (CCreateDirectory share_id relative_path name)
    (create_directory provider share_id relative_path name) in
  reply (respond with_entry r).
Definition handle_rename (provider : RemoteFileProvider) (access : RemoteFileAccess)
    (share_id relative_path new_name : string)
  : M unit :=
  if negb (can_write access share_id) then reply write_denied else
  do* r := call (CRename share_id relative_path new_name)
    (rename_entry provider share_id relative_path new_name) in
  reply (respond with_entry r).
Definition handle_delete (provider : RemoteFileProvider) (access : RemoteFileAccess) (share_id relative_path : string)
  : M unit :=
  if negb (can_write access share_id) then reply write_denied else
  do* r := call (CDelete share_id relative_path) (delete_entry provider share_id relative_path) in
  reply (respond (fun _ => success) r).
Definition serve (provider : RemoteFileProvider) (host : Host) (access : RemoteFileAccess)
    (request : RemoteFileRequest) (expected_revision : option string) : M unit :=
  match request with
  | ConditionalUpload _ _ _ _ _ => mfail (Failed "normalized above")
  | WatchChanges share_id epoch after_sequence =>
    if negb (can_read access share_id) then reply read_denied else
    do* r := call (CWatchChanges share_id epoch after_sequence)
      (watch_changes provider share_id epoch after_sequence) in
    reply (respond (fun '(change_epoch, change_sequence, changed_directories, change_reset) =>
      with_changes change_epoch change_sequence changed_directories change_reset) r)
  | Stat share_id relative_path =>
    if negb (can_read access share_id) then reply read_denied else
    do* r := call (CStat share_id relative_path) (stat provider share_id relative_path) in
    reply (respond (fun '(entry, revision) => with_entry_revision entry revision) r)
  | ConditionalDelete share_id relative_path expected_revision recursive =>
    if negb (can_write access share_id) then reply write_denied else
    do* r := call (CConditionalDelete share_id relative_path expected_revision recursive)
      (conditional_delete provider share_id relative_path expected_revision recursive) in
    reply (respond (fun _ => success) r)
  | Move share_id relative_path destination_path overwrite expected_revision =>
    if negb (can_write access share_id) then reply write_denied else
    do* r := call (CMove share_id relative_path destination_path overwrite expected_revision)
      (move_entry provider share_id relative_path destination_path overwrite expected_revision) in
    reply (respond with_entry r)
  | ReadRange share_id relative_path offset length revision =>
    if negb (can_read access share_id) then reply read_denied else
    do* r := call (CReadRange share_id relative_path offset length revision)
      (read_range provider share_id relative_path offset length revision) in
    reply (respond (fun range_data => with_range range_data revision) r)
  | ListShares =>
    if negb (can_list_shares access) then reply (denied "remote file access is not permitted") else
    do* r := call CListShares (list_shares provider) in
    reply (respond (fun shares => with_shares (visible_shares access shares)) r)
  | ListDirectory share_id relative_path cursor limit search sort_key sort_direction =>
    handle_list_directory provider access share_id relative_path cursor limit search sort_key
      sort_direction
  | CreateDirectory share_id relative_path name =>
    handle_create_directory provider access share_id relative_path name
  | Rename share_id relative_path new_name =>
    handle_rename provider access share_id relative_path new_name
  | Delete share_id relative_path => handle_delete provider access share_id relative_path
  | Download share_id relative_path => handle_download provider host access share_id relative_path
  | Thumbnail share_id relative_path max_dimension =>
    handle_thumbnail provider access share_id relative_path max_dimension
  | Upload share_id relative_path name size overwrite expected_modified_at_ms =>
    handle_upload provider host access share_id relative_path name size overwrite
      expected_modified_at_ms expected_revision
  end.

Definition normalize_request (request : RemoteFileRequest) : RemoteFileRequest * option string :=
  match request with
  | ConditionalUpload share_id relative_path name size expected_revision =>
    (Upload share_id relative_path name size (negb (str_is_empty expected_revision)) None,
     Some expected_revision)
  | request => (request, None)
  end.

Definition handle_remote_file_stream (provider : option RemoteFileProvider) (host : Host)
    (access : RemoteFileAccess) : M unit :=
  do* request := read_request in
  match provider with
  | None => reply (failure RUnavailable "remote files are unavailable")
  | Some provider =>
    let '(request, expected_revision) := normalize_request request in
    serve provider host access request expected_revision
  end.
End handler_main.


(** ** Only authorised, confined calls reach the provider *)

Definition confined (p : string) : Prop := Forall safe_component (components p).
Definition plain_name (n : string) : Prop := components n = [n] /\ safe_component n.

Definition authorized `{!WireLimits} (a : RemoteFileAccess) (c : ProviderCall) : Prop :=
  match c with
  | CWatchChanges s _ _ => can_read a s = true
  | CStat s p | CPrepareDownload s p => can_read a s = true /\ confined p
  | CPrepareThumbnail s p d => can_read a s = true /\ confined p /\ 16 <= d <= 4096
  | CReadRange s p o l _ =>
    can_read a s = true /\ confined p /\ l <= MAX_REMOTE_RANGE_BYTES /\ o + l <= u64_max
  | CListDirectory s p _ limit _ _ _ =>
    can_read a s = true /\ confined p /\ 1 <= limit <= MAX_REMOTE_DIRECTORY_PAGE_SIZE
  | CListShares => can_list_shares a = true
  | CMove s p q _ _ => can_write a s = true /\ confined p /\ confined q /\ p <> EmptyString /\ q <> EmptyString
  | CConditionalDelete s p _ _ => can_write a s = true /\ confined p /\ p <> EmptyString
  | CDelete s p => can_write a s = true /\ confined p
  | CCreateDirectory s p n | CRename s p n | CCommitSystemUpload s p n _ _ =>
    can_write a s = true /\ confined p /\ plain_name n
  | CPrepareUpload s p n size _ _ =>
    can_write a s = true /\ confined p /\ plain_name n /\ size <= MAX_REMOTE_FILE_CONTENT_SIZE
  end.

Lemma str_nonempty s : str_is_empty s = false -> s <> EmptyString.
Proof. by intros H ->. Qed.
Lemma page_limit_range l : 1 <= page_limit l <= MAX_REMOTE_DIRECTORY_PAGE_SIZE.
Proof.
  unfold page_limit, DEFAULT_REMOTE_DIRECTORY_PAGE_SIZE, MAX_REMOTE_DIRECTORY_PAGE_SIZE.
  destruct (l =? 0); lia.
Qed.

(** [m] adds only calls in [Q] to the log. *)
Definition logs {A} (Q : ProviderCall -> Prop) (m : M A) : Prop :=
  forall st, Forall Q (calls st) -> Forall Q (calls (fst (m st))).

Create HintDb logs.

Section logs.
Context {Q : ProviderCall -> Prop}.

Lemma logs_ret {A} (a : A) : logs Q (mret a).
Proof. by intros st. Qed.
Lemma logs_fail {A} e : logs Q (mfail (A := A) e).
Proof. by intros st. Qed.
Lemma logs_bind {A B} (m : M A) (k : A -> M B) :
  logs Q m -> (forall a, logs Q (k a)) -> logs Q (mbind m k).
Proof.
  intros Hm Hk st Hst. unfold mbind. specialize (Hm st Hst).
  destruct (m st) as [st' [a|e]]; simpl in *; [by apply Hk|done].
Qed.
Lemma logs_ubind {A B} (m : UM A) (k : A -> UM B) :
  logs Q m -> (forall a, logs Q (k a)) -> logs Q (ubind m k).
Proof. intros Hm Hk. apply logs_bind; [done|]. intros [a|e]; [apply Hk|apply logs_ret]. Qed.
Lemma logs_get_files : logs Q get_files.
Proof. by intros st. Qed.
Lemma logs_set_files fs : logs Q (set_files fs).
Proof. by intros st. Qed.
Lemma logs_get_recv : logs Q get_recv.
Proof. by intros st. Qed.
Lemma logs_set_recv r : logs Q (set_recv r).
Proof. by intros st. Qed.
Lemma logs_write_all b : logs Q (write_all b).
Proof. by intros st. Qed.
Lemma logs_call {A} c (f : Provided A) : Q c -> logs Q (call c f).
Proof.
  intros Hc st Hst. unfold call. destruct (f (files st)). simpl. apply Forall_app. by split; [|repeat constructor].
Qed.
End logs.
#[local] Hint Resolve logs_ret logs_fail logs_get_files logs_set_files logs_get_recv logs_set_recv
  logs_write_all : logs.

Ltac logs_step :=
  match goal with
  | |- logs _ (mbind _ _) => apply logs_bind; [|intros ?]
  | |- logs _ (ubind _ _) => apply logs_ubind; [|intros ?]
  | |- logs _ (uerr _ _) => apply logs_ret
  | |- logs _ (uret _) => apply logs_ret
  | |- logs _ (if ?b then _ else _) => destruct b eqn:?
  | |- logs _ (match ?x with _ => _ end) => destruct x eqn:?
  | |- logs _ (let '_ := ?x in _) => destruct x eqn:?
  | |- logs _ _ => solve [auto with logs]
  end.

Section authorization.
Context `{!WireLimits} `{!ProstEnum ProtoErrorCode} `{!ProstEnum ProtoEntryKind}
  `{!ProstEnum ProtoSortKey} `{!ProstEnum ProtoSortDirection}
  `{!ProstMessage RemoteFileRequestFrame} `{!ProstMessage RemoteFileResponseFrame}
  `{!FrameTransport}.

Lemma logs_reply Q r : logs Q (reply r).
Proof. intros st Hst. unfold reply. by destruct (write_remote_message _ _). Qed.
#[local] Hint Resolve logs_reply : logs.

Lemma logs_receive Q provider host s p n size expected upload temporary :
  (forall e, expected = Some e -> Q (CCommitSystemUpload s p n temporary e)) ->
  logs Q (receive_upload provider host s p n size expected upload temporary).
Proof.
  intros HQ. unfold receive_upload, create_temporary, copy_upload, check_trailing, flush_file,
    check_modified, commit_file, remove_file.
  repeat logs_step. apply logs_call. auto.
Qed.

Lemma logs_upload provider host a s p n size o m e :
  confined p -> plain_name n ->
  logs (authorized a) (handle_upload provider host a s p n size o m e).
Proof.
  intros Hp Hn. unfold handle_upload, remove_file.
  destruct (can_write a s) eqn:Hw; simpl; [|apply logs_reply].
  destruct (size >? _) eqn:Hs; [apply logs_reply|]. bool_arith.
  repeat (logs_step || apply logs_call || (apply logs_receive; intros)); simpl; auto.
Qed.

(** The whole stream makes only authorised calls, beside those made before. *)
Lemma logs_stream provider host access :
  logs (authorized access) (handle_remote_file_stream provider host access).
Proof.
  intros st Hst. unfold handle_remote_file_stream, mbind, read_request.
  destruct (read_remote_message (recv st)) as [[r rest]|e] eqn:Hr; simpl; [|done].
  assert (validate_request r = Ok tt) as Hv.
  { unfold read_remote_message in Hr. apply rbind_Ok in Hr as ([b rest'] & _ & Hr).
    apply rbind_Ok in Hr as (r' & Hd & [= -> _]). by eapply request_decodes_valid. }
  match goal with |- Forall _ (calls (fst (_ ?s))) => set (st' := s) end.
  assert (Forall (authorized access) (calls st')) as Hlog by done.
  clearbody st'. destruct provider as [provider|]; [|by apply logs_reply].
  revert st' Hlog. change (logs (authorized access)
    (let '(request, e) := normalize_request r in serve provider host access request e)).
  destruct r; simpl in Hv |- *; split_checks; bool_arith; subst;
    first [apply logs_upload; by (split || assumption) | idtac];
    unfold handle_download, handle_thumbnail, handle_list_directory, handle_create_directory,
      handle_rename, handle_delete;
    repeat (logs_step || apply logs_call); bool_arith; simpl; unfold plain_name;
    auto 10 using str_nonempty, page_limit_range.
Qed.

(** C2: no peer can make the server act outside its grants.  Whatever bytes a peer sends on a
    remote file stream, every call the handler makes to the provider is one its rights allow
    (reading needs a read right on the share, changing needs a write right on it, listing needs
    some right), on paths that stay inside the share, with bounded ranges, pages, dimensions and
    sizes. *)
Theorem remote_calls_authorized provider host access st :
  calls st = [] ->
  Forall (authorized access) (calls (fst (handle_remote_file_stream provider host access st))).
Proof. intros Hst. apply logs_stream. rewrite Hst. constructor. Qed.
End authorization.


(** ** Uploads commit whole files or nothing *)

(** The destination holds exactly the declared bytes of the stream, and replaced only what the
    request allowed it to replace. *)
Definition stored (before after : Fs) (data : bytes) (size : Z) (upload : RemoteFileUpload) : Prop :=
  let destination := up_destination upload in
  (exists f, after !! destination = Some f /\ content f = take (Z.to_nat size) data
    /\ blen (content f) = size)
  /\ (up_overwrite upload = false -> before !! destination = None)
  /\ (forall expected, up_expected_modified_at_ms upload = Some expected ->
      exists f, before !! destination = Some f /\ modified_ms f = expected).

(** [st'] differs from [st] in the temporary file and the consumed bytes only. *)
Definition only_temporary (temporary : PathBuf) (st st' : State) : Prop :=
  send st' = send st /\ calls st' = calls st
  /\ forall q, q <> temporary -> files st' !! q = files st !! q.

Lemma only_temporary_refl t st : only_temporary t st st.
Proof. done. Qed.
Lemma only_temporary_trans t st1 st2 st3 :
  only_temporary t st1 st2 -> only_temporary t st2 st3 -> only_temporary t st1 st3.
Proof.
  intros (H1 & H2 & H3) (H4 & H5 & H6). split; [congruence|]. split; [congruence|].
  intros q Hq. by rewrite H6, H3.
Qed.
Lemma only_temporary_set t st fs r :
  (forall q, q <> t -> fs !! q = files st !! q) ->
  only_temporary t st {| recv := r; send := send st; files := fs; calls := calls st |}.
Proof. done. Qed.
#[local] Hint Resolve only_temporary_refl only_temporary_set : logs.

Lemma create_temporary_spec host t st st' res :
  create_temporary host t st = (st', res) ->
  only_temporary t st st' /\ recv st' = recv st
  /\ (files st' = files st \/ is_Some (files st' !! t))
  /\ exists r, res = Ok r /\ (is_ok r = true -> is_Some (files st' !! t)).
Proof.
  unfold create_temporary, mbind, get_files, set_files, uerr, uret, mret.
  destruct (match create_fault host with Some _ => _ | None => _ end) as [e|].
  - destruct (io_kind e); intros [= <- <-];
      (split; [done|]; split; [done|]; split; [by left|]; eexists; split; [done|]; by intros).
  - intros [= <- <-]. simpl. split.
    { apply only_temporary_set. intros q Hq. by rewrite lookup_insert_ne. }
    rewrite lookup_insert_eq. split; [done|]. split; [right; by eexists|].
    eexists. split; [done|]. by eexists.
Qed.

Lemma copy_upload_spec host t size st st' res :
  copy_upload host t size st = (st', res) ->
  only_temporary t st st'
  /\ (res = Err Pending \/ exists r, res = Ok r)
  /\ forall n, res = Ok (Ok n) ->
     exists f, files st' !! t = Some f /\ n = blen (content f)
       /\ content f = take (Z.to_nat (Z.min size (blen (recv st)))) (recv st)
       /\ recv st' = drop (Z.to_nat (Z.min size (blen (recv st)))) (recv st).
Proof.
  unfold copy_upload, mbind, get_files, set_files, get_recv, set_recv, uerr, uret, mret, mfail.
  simpl. set (data := take _ (recv st)).
  assert (forall b, forall q : PathBuf, q <> t ->
    <[t := {| content := b; modified_ns := Some (now_ns host) |}]> (files st) !! q = files st !! q) as Hne
    by (intros b q Hq; by rewrite lookup_insert_ne).
  intros H. repeat case_match; simplify_eq; simpl;
    (split; [apply only_temporary_set, Hne|]); (split; [eauto|]);
    intros m [=]; subst; eexists; rewrite lookup_insert_eq; done.
Qed.

Lemma flush_file_spec host st :
  exists r, flush_file host st = (st, Ok r).
Proof. unfold flush_file, uerr, uret, mret. repeat case_match; eauto. Qed.

Lemma check_modified_spec host u st :
  exists r, check_modified host u st = (st, Ok r)
  /\ (is_ok r = true -> forall expected, up_expected_modified_at_ms u = Some expected ->
      exists f, files st !! up_destination u = Some f /\ modified_ms f = expected).
Proof.
  unfold check_modified, mbind, get_files, uerr, uret, mret.
  destruct (up_expected_modified_at_ms u) as [x|]; [|eexists; split; [done|]; by intros].
  destruct (metadata_fault host); [eexists; split; [done|]; by intros|].
  destruct (files st !! up_destination u) as [f|] eqn:Hf; [|eexists; split; [done|]; by intros].
  destruct (modified_ms f =? x) eqn:E; simpl; (eexists; split; [done|]); [|by intros].
  intros _ y [= <-]. bool_arith. eauto.
Qed.

Lemma commit_file_spec host t u f st st' res :
  commit_file host t u st = (st', res) -> files st !! t = Some f -> t <> up_destination u ->
  send st' = send st /\ calls st' = calls st
  /\ (forall q, q <> t -> q <> up_destination u -> files st' !! q = files st !! q)
  /\ exists r, res = Ok r
     /\ if is_ok r
        then files st' !! up_destination u = Some f
             /\ (up_overwrite u = true -> files st' !! t = None)
             /\ (up_overwrite u = false -> files st !! up_destination u = None)
        else st' = st.
Proof.
  intros H Hf Ht. unfold commit_file, mbind, get_files, set_files, uerr, uret, mret in H.
  rewrite Hf in H. repeat case_match; simplify_eq; simpl;
    (split; [done|]); (split; [done|]); (split; [|by eexists]) ||
    (split; [intros q Hq Hd; by rewrite ?lookup_insert_ne, ?lookup_delete_ne by done|];
     eexists; split; [done|]; simpl; rewrite lookup_insert_eq; split; [done|];
     split; [|congruence]; intros; first [congruence | by rewrite lookup_insert_ne, lookup_delete_eq by done]).
  all: done.
Qed.


(** Sequencing of the upload block. *)
Lemma ubind_cases {A B} (m : UM A) (k : A -> UM B) st st' res :
  ubind m k st = (st', res) ->
  (exists st1 a, m st = (st1, Ok (Ok a)) /\ k a st1 = (st', res))
  \/ (exists e, m st = (st', Ok (Err e)) /\ res = Ok (Err e))
  \/ (exists e, m st = (st', Err e) /\ res = Err e).
Proof.
  unfold ubind, mbind, mret. destruct (m st) as [st1 [[a|e]|e]]; intros H; simplify_eq; eauto 10.
Qed.

Lemma remove_file_spec host t st :
  exists st', remove_file host t st = (st', Ok tt) /\ only_temporary t st st'
    /\ (remove_fault host = false -> files st' !! t = None).
Proof.
  unfold remove_file, mbind, get_files, set_files, mret. destruct (remove_fault host).
  - eexists. split; [done|]. split; [done|]. done.
  - eexists. split; [done|]. simpl. rewrite lookup_delete_eq. split; [|done].
    apply only_temporary_set. intros q Hq. by rewrite lookup_delete_ne.
Qed.

(** What the block leaves behind, by its result. *)
Definition block_post (host : Host) (upload : RemoteFileUpload) (t : PathBuf) (size : Z)
    (st st' : State)
    (res : result (result (option (RemoteFileEntry * string)) RemoteFileError) Halt) : Prop :=
  send st' = send st
  /\ (forall q, q <> t -> q <> up_destination upload -> files st' !! q = files st !! q)
  /\ match res with
     | Ok (Ok None) => stored (files st) (files st') (recv st) size upload
         /\ (remove_fault host = false -> files st' !! t = None)
     | Ok (Ok (Some _)) => False
     | Ok (Err _) => files st' !! up_destination upload = files st !! up_destination upload
     | Err e => e = Pending
         /\ files st' !! up_destination upload = files st !! up_destination upload
     end.

Lemma block_post_early host u t size st st' res :
  only_temporary t st st' -> t <> up_destination u ->
  (exists e, res = Ok (Err e)) \/ res = Err Pending -> block_post host u t size st st' res.
Proof.
  intros (H1 & _ & H3) Ht Hres. split; [done|]. split; [auto|].
  destruct Hres as [[e ->]| ->]; auto.
Qed.

(** The last part of the block, from the full temporary file on. *)
Lemma commit_block_post host u t size st0 st st' res f :
  only_temporary t st0 st -> t <> up_destination u ->
  files st !! t = Some f -> content f = take (Z.to_nat size) (recv st0) -> blen (content f) = size ->
  (try* _ := check_modified host u in
   try* _ := commit_file host t u in
   do* _ := (if negb (up_overwrite u) then remove_file host t else mret tt) in
   uret (None (A := RemoteFileEntry * string))) st = (st', res) ->
  block_post host u t size st0 st' res.
Proof.
  intros Ho Ht Hf Hc Hsize H. pose proof Ho as (Ho1 & Ho2 & Ho3).
  apply ubind_cases in H as [(st1 & [] & Hm & H)|[(e & Hm & ->)|(e & Hm & ->)]];
    destruct (check_modified_spec host u st) as (r & Hr & Hmod); rewrite Hr in Hm;
    simplify_eq; [|apply block_post_early; eauto].
  apply ubind_cases in H as [(st2 & [] & Hm & H)|[(e & Hm & ->)|(e & Hm & ->)]];
    destruct (commit_file_spec _ _ _ _ _ _ _ Hm Hf Ht) as (C1 & C2 & C3 & r' & Hr' & C4);
    simplify_eq; simpl in C4; [|subst; apply block_post_early; eauto].
  destruct C4 as (D1 & D2 & D3). rewrite Ho3 in D3 by done.
  assert (stored (files st0) (files st2) (recv st0) (blen (content f)) u) as Hst.
  { split; [exists f; auto|]. split; [done|]. intros x Hx. rewrite <- Ho3 by done. auto. }
  assert (forall st3, only_temporary t st2 st3 ->
    (remove_fault host = false -> files st3 !! t = None) ->
    block_post host u t (blen (content f)) st0 st3 (Ok (Ok None))) as Hend.
  { intros st3 (E1 & E2 & E3) E4. split; [congruence|]. split.
    - intros q Hq Hd. rewrite E3, C3 by done. by apply Ho3.
    - split; [|done]. destruct Hst as [(g & Hg & ?) ?]. split; [|done].
      exists g. by rewrite E3. }
  unfold mbind, uret, mret in H. destruct (up_overwrite u) eqn:Ho'; simpl in H.
  - simplify_eq. by apply Hend; [|intros; apply D2].
  - destruct (remove_file_spec host t st2) as (st3 & Hrm & Hrm1 & Hrm2).
    rewrite Hrm in H. simplify_eq. by apply Hend.
Qed.

Lemma receive_plain_post provider host s p n size u t st st' res :
  receive_upload provider host s p n size None u t st = (st', res) -> t <> up_destination u ->
  block_post host u t size st st' res.
Proof.
  intros H Ht. unfold receive_upload in H.
  apply ubind_cases in H as [(st1 & [] & Hm & H)|[(e & Hm & ->)|(e & Hm & ->)]];
    destruct (create_temporary_spec _ _ _ _ _ Hm) as (A1 & A2 & _ & r & Hr & _);
    simplify_eq; [|apply block_post_early; eauto].
  apply ubind_cases in H as [(st2 & received & Hm' & H)|[(e & Hm' & ->)|(e & Hm' & ->)]];
    destruct (copy_upload_spec _ _ _ _ _ _ Hm') as (B1 & B2 & B3);
    pose proof (only_temporary_trans _ _ _ _ A1 B1) as AB;
    [|apply block_post_early; eauto
     |apply block_post_early; [done..|]; destruct B2 as [?|[? ?]]; naive_solver].
  destruct (B3 received eq_refl) as (f & Hf & -> & Hc & _). simpl in H. rewrite A2 in Hc.
  apply ubind_cases in H as [(st3 & [] & Hm3 & H)|[(e & Hm3 & ->)|(e & Hm3 & ->)]];
    unfold uret, mret in Hm3; simplify_eq.
  destruct (flush_file_spec host st3) as (rf & Hfl).
  apply ubind_cases in H as [(st4 & [] & Hm4 & H)|[(e & Hm4 & ->)|(e & Hm4 & ->)]];
    rewrite Hfl in Hm4; simplify_eq; [|apply block_post_early; eauto].
  destruct (blen (content f) =? size) eqn:Es; simpl in H; bool_arith.
  - eapply commit_block_post; try done. rewrite Hc. rewrite Hc in Es. unfold blen in *.
    rewrite length_take in Es. f_equal. lia.
  - unfold uerr, mret in H. simplify_eq. apply block_post_early; eauto.
Qed.

(** A conditional upload is handed to the provider whole: the stream held just the declared bytes. *)
Definition handed_over (provider : RemoteFileProvider) (s p n : string) (size : Z) (expected : string)
    (t : PathBuf) (before after : Fs) (data : bytes) (answer : result (RemoteFileEntry * string) RemoteFileError)
  : Prop :=
  exists fs f, (forall q, q <> t -> fs !! q = before !! q)
    /\ fs !! t = Some f /\ content f = data /\ blen data = size
    /\ commit_system_upload provider s p n t expected fs = (after, answer).

Lemma check_trailing_spec t host st st' res :
  check_trailing host st = (st', res) ->
  only_temporary t st st' /\ files st' = files st
  /\ exists r, res = Ok r /\ (is_ok r = true -> recv st = [] /\ st' = st).
Proof.
  unfold check_trailing, mbind, get_recv, set_recv, uerr, uret, mret.
  destruct (recv st) as [|b rest] eqn:Er; [destruct (recv_end host)|]; intros [= <- <-];
    (split; [done|]); (split; [done|]); by eexists.
Qed.
Lemma receive_conditional provider host s p n size expected u t st st' res :
  receive_upload provider host s p n size (Some expected) u t st = (st', res) ->
  only_temporary t st st' /\ ((exists e, res = Ok (Err e)) \/ res = Err Pending)
  \/ exists answer, send st' = send st
      /\ calls st' = calls st ++ [CCommitSystemUpload s p n t expected]
      /\ handed_over provider s p n size expected t (files st) (files st') (recv st) answer
      /\ res = Ok match answer with Ok c => Ok (Some c) | Err e => Err e end.
Proof.
  intros H. unfold receive_upload in H.
  apply ubind_cases in H as [(st1 & [] & Hm & H)|[(e & Hm & ->)|(e & Hm & ->)]];
    destruct (create_temporary_spec _ _ _ _ _ Hm) as (A1 & A2 & _ & r & Hr & _); simplify_eq; [|by eauto].
  apply ubind_cases in H as [(st2 & received & Hm' & H)|[(e & Hm' & ->)|(e & Hm' & ->)]];
    destruct (copy_upload_spec _ _ _ _ _ _ Hm') as (B1 & B2 & B3);
    pose proof (only_temporary_trans _ _ _ _ A1 B1) as AB;
    [|by eauto|left; split; [done|]; destruct B2 as [?|[? ?]]; naive_solver].
  destruct (B3 received eq_refl) as (f & Hf & -> & Hc & Hrest). rewrite A2 in Hc, Hrest.
  apply ubind_cases in H as [(st3 & [] & Hm3 & H)|[(e & Hm3 & ->)|(e & Hm3 & ->)]].
  2-3: left; cbn [is_none negb andb] in Hm3; destruct (_ =? size); [|by inversion Hm3];
    destruct (check_trailing_spec t _ _ _ _ Hm3) as (C1 & _ & r & Hr & _); simplify_eq;
    eauto using only_temporary_trans.
  destruct (flush_file_spec host st3) as (rf & Hfl).
  assert (only_temporary t st st3 /\ files st3 = files st2
    /\ (blen (content f) = size -> recv st2 = [])) as (C1 & C2 & C3).
  { cbn [is_none negb andb] in Hm3. destruct (_ =? size) eqn:Es; bool_arith.
    - destruct (check_trailing_spec t _ _ _ _ Hm3) as (C1 & C2 & r & Hr & C3). simplify_eq.
      split; [by eapply only_temporary_trans|]. split; [done|]. intros _. by apply C3.
    - unfold uret, mret in Hm3. by simplify_eq. }
  apply ubind_cases in H as [(st4 & [] & Hm4 & H)|[(e & Hm4 & ->)|(e & Hm4 & ->)]];
    rewrite Hfl in Hm4; simplify_eq; [|by eauto].
  destruct (blen (content f) =? size) eqn:Es; simpl in H; bool_arith; last first.
  { unfold uerr, mret in H. simplify_eq. eauto. }
  right. pose proof C1 as (D1 & D2 & D3). unfold ubind, mbind, call, uret, mret in H.
  destruct (commit_system_upload provider s p n t expected (files st4)) as [fs answer] eqn:Ec.
  exists answer. assert (content f = recv st) as Hdata.
  { rewrite Hc, <- (app_nil_r (take _ _)), <- (C3 Es), Hrest. apply take_drop. }
  assert (handed_over provider s p n size expected t (files st) fs (recv st) answer) as Hh.
  { exists (files st4), f. rewrite <- Hdata. split_and!; try done. by rewrite C2. }
  destruct answer; simplify_eq; simpl; by rewrite D1, D2.
Qed.

Section upload_claim.
Context `{!WireLimits} `{!ProstEnum ProtoErrorCode} `{!ProstEnum ProtoEntryKind}
  `{!ProstEnum ProtoSortKey} `{!ProstEnum ProtoSortDirection}
  `{!ProstMessage RemoteFileRequestFrame} `{!ProstMessage RemoteFileResponseFrame}
  `{!FrameTransport}.

Lemma reply_cases r st st' res :
  reply r st = (st', res) ->
  files st' = files st /\ recv st' = recv st
  /\ ((exists w, write_remote_message (send st) r = Ok w /\ send st' = w /\ res = Ok tt)
      \/ (exists e, st' = st /\ res = Err (Codec e))).
Proof.
  unfold reply. destruct (write_remote_message (send st) r) as [w|e]; intros [= <- <-]; simpl; eauto 10.
Qed.

(** What the peer is told matches what was stored. *)
Definition reported (r : RemoteFileResponse) (fs fs' : Fs) (data : bytes) (size : Z)
    (u : RemoteFileUpload) : Prop :=
  if ok r then stored fs fs' data size u
  else fs' !! up_destination u = fs !! up_destination u.

Lemma upload_tail provider host s p n size u t st st' res :
  t <> up_destination u ->
  (do* result := receive_upload provider host s p n size None u t in
   do* _ := (if negb (is_ok result) then remove_file host t else mret tt) in
   reply match result with
         | Ok (Some (entry, revision)) => with_entry_revision entry revision
         | Ok None => with_entry (up_entry u)
         | Err e => from_error e
         end) st = (st', res) ->
  (forall q, q <> t -> q <> up_destination u -> files st' !! q = files st !! q)
  /\ (files st' !! up_destination u = files st !! up_destination u
      \/ stored (files st) (files st') (recv st) size u)
  /\ (res <> Err Pending -> remove_fault host = false -> files st' !! t = None)
  /\ (res = Ok tt -> exists r, write_remote_message (send st) r = Ok (send st')
      /\ reported r (files st) (files st') (recv st) size u).
Proof.
  intros Ht. unfold mbind. destruct (receive_upload _ _ _ _ _ _ _ _ _ st) as [st1 r] eqn:Hr.
  pose proof (receive_plain_post _ _ _ _ _ _ _ _ _ _ _ Hr Ht) as (P1 & P2 & P3).
  destruct r as [[[c|]|e]|h]; simpl in *; [done| | |].
  - intros (R1 & R2 & R3)%reply_cases. destruct P3 as [P3 P4]. rewrite R1.
    split; [done|]. split; [by right|]. split; [done|]. intros ->.
    destruct R3 as [(w & Hw & <- & _)|(? & _ & ?)]; [|done]. rewrite <- P1. eauto.
  - destruct (remove_file_spec host t st1) as (st2 & -> & (E1 & E2 & E3) & E4).
    intros (R1 & R2 & R3)%reply_cases. rewrite R1.
    assert (files st2 !! up_destination u = files st !! up_destination u) as Hd
      by (rewrite E3; [done|congruence]).
    split; [intros q Hq Hq'; rewrite E3; auto|]. split; [by left|]. split; [auto|]. intros ->.
    destruct R3 as [(w & Hw & <- & _)|(? & _ & ?)]; [|done]. rewrite <- P1, <- E1. eauto.
  - intros [= <- <-]. destruct P3 as [-> P3]. split; [done|]. split; [by left|]. done.
Qed.

Lemma upload_tail_conditional provider host s p n size expected u t st st' res :
  (do* result := receive_upload provider host s p n size (Some expected) u t in
   do* _ := (if negb (is_ok result) then remove_file host t else mret tt) in
   reply match result with
         | Ok (Some (entry, revision)) => with_entry_revision entry revision
         | Ok None => with_entry (up_entry u)
         | Err e => from_error e
         end) st = (st', res) ->
  (forall q, q <> t -> files st' !! q = files st !! q)
    /\ (res <> Err Pending -> remove_fault host = false -> files st' !! t = None)
    /\ (res = Ok tt -> exists e, write_remote_message (send st) (from_error e) = Ok (send st'))
  \/ exists after answer, handed_over provider s p n size expected t (files st) after (recv st) answer
     /\ (forall q, q <> t -> files st' !! q = after !! q)
     /\ (is_ok answer = true -> files st' = after)
     /\ (is_ok answer = false -> remove_fault host = false -> files st' !! t = None)
     /\ (res = Ok tt -> write_remote_message (send st)
           match answer with
           | Ok (entry, revision) => with_entry_revision entry revision
           | Err e => from_error e
           end = Ok (send st')).
Proof.
  unfold mbind. destruct (receive_upload _ _ _ _ _ _ _ _ _ st) as [st1 r] eqn:Hr.
  apply receive_conditional in Hr as [[(P1 & P2 & P3) Hres]|(answer & P1 & P2 & Hh & ->)].
  - intros Hrun. left. destruct Hres as [[e ->]| ->]; simpl in Hrun; [|by simplify_eq].
    destruct (remove_file_spec host t st1) as (st2 & Er & (E1 & E2 & E3) & E4). rewrite Er in Hrun.
    apply reply_cases in Hrun as (R1 & R2 & R3). rewrite R1. split; [intros q Hq; by rewrite E3, P3|]. split; [auto|].
    intros ->. destruct R3 as [(w & Hw & <- & _)|(? & _ & ?)]; [|done]. rewrite <- P1, <- E1. eauto.
  - intros Hrun. right. exists (files st1), answer. split; [done|].
    destruct answer as [[entry revision]|e]; simpl in Hrun |- *.
    + apply reply_cases in Hrun as (R1 & R2 & R3). rewrite R1. split_and!; try done. intros ->.
      destruct R3 as [(w & Hw & <- & _)|(? & _ & ?)]; [|done]. by rewrite <- P1.
    + destruct (remove_file_spec host t st1) as (st2 & Er & (E1 & E2 & E3) & E4). rewrite Er in Hrun.
      apply reply_cases in Hrun as (R1 & R2 & R3). rewrite R1. split_and!; try done. intros ->.
      destruct R3 as [(w & Hw & <- & _)|(? & _ & ?)]; [|done]. by rewrite <- P1, <- E1.
Qed.

(** C18: an upload is all or nothing, whatever the peer sends and whichever file operation fails, once
    the provider accepted it.  Without an expected revision, the destination ends either untouched or
    holding exactly the declared number of bytes the peer sent; an existing file is replaced only if
    the upload overwrites, and only if its modification time is the expected one when one is given;
    no other file changes; the peer is told success only when the file was stored, and failure only
    when the destination was left untouched.  With an expected revision, the handler itself changes
    nothing but the temporary file; it either tells the peer an error, or hands the temporary over to
    the provider, when the stream held exactly the declared bytes and nothing more, with the
    expected revision, and reports the provider's answer.  In both cases the temporary file is gone
    afterwards, unless its removal fails, the peer stalls until the handler is dropped, or the
    provider, which owns it then, committed it. *)
Theorem upload_atomic provider host access s p n size o m expected_revision upload dir fs1 st st' res :
  can_write access s = true -> size <= MAX_REMOTE_FILE_CONTENT_SIZE ->
  prepare_upload provider s p n size o m (files st) = (fs1, Ok upload) ->
  parent (up_destination upload) = Some dir ->
  let t := join dir (".arcrelay-upload-" ++ uuid host) in
  t <> up_destination upload -> fs1 !! t = None ->
  handle_upload provider host access s p n size o m expected_revision st = (st', res) ->
  let told r := exists w, write_remote_message (send st) (with_entry (up_entry upload)) = Ok w
                  /\ write_remote_message w r = Ok (send st') in
  match expected_revision with
  | None =>
    (forall q, q <> t -> q <> up_destination upload -> files st' !! q = fs1 !! q)
    /\ (files st' !! up_destination upload = fs1 !! up_destination upload
        \/ stored fs1 (files st') (recv st) size upload)
    /\ (res <> Err Pending -> remove_fault host = false -> files st' !! t = None)
    /\ (res = Ok tt -> exists r, told r /\ reported r fs1 (files st') (recv st) size upload)
  | Some expected =>
    (forall q, q <> t -> files st' !! q = fs1 !! q)
      /\ (res <> Err Pending -> remove_fault host = false -> files st' !! t = None)
      /\ (res = Ok tt -> exists e, told (from_error e))
    \/ exists after answer, handed_over provider s p n size expected t fs1 after (recv st) answer
       /\ (forall q, q <> t -> files st' !! q = after !! q)
       /\ (is_ok answer = true -> files st' = after)
       /\ (is_ok answer = false -> remove_fault host = false -> files st' !! t = None)
       /\ (res = Ok tt -> told match answer with
                               | Ok (entry, revision) => with_entry_revision entry revision
                               | Err e => from_error e
                               end)
  end.
Proof.
  intros Hw Hsize Hprep Hdir t Ht Hfresh. unfold handle_upload. rewrite Hw. simpl.
  destruct (size >? MAX_REMOTE_FILE_CONTENT_SIZE) eqn:Es; bool_arith; [lia|].
  unfold mbind at 1, call. rewrite Hprep.
  set (st1 := {| recv := recv st; send := send st; files := fs1; calls := _ |}).
  unfold mbind at 1. destruct (reply (with_entry (up_entry upload)) st1) as [st2 r] eqn:Hr.
  apply reply_cases in Hr as (R1 & R2 & R3). simpl in R1, R2, R3.
  destruct R3 as [(w & Hw1 & Hw2 & ->)|(e & -> & ->)].
  - rewrite Hdir. fold t. intros Hrun. destruct expected_revision as [expected|].
    + apply upload_tail_conditional in Hrun. rewrite R1, R2, Hw2 in Hrun.
      destruct Hrun as [(T1 & T2 & T3)|(after & answer & T1 & T2 & T3 & T4 & T5)]; [left|right].
      * split_and!; try done. intros [e He]%T3. eauto.
      * exists after, answer. split_and!; try done. intros He%T5. eauto.
    + apply upload_tail in Hrun; [|done]. rewrite R1, R2, Hw2 in Hrun. destruct Hrun as (T1 & T2 & T3 & T4).
      split_and!; try done. intros (r & ? & ?)%T4. eauto 6.
  - intros [= <- <-]. simpl. destruct expected_revision; [left|]; split_and!; try done. by left.
Qed.
End upload_claim.


(** ** Witnesses: a provider over one shared folder *)

#[local] Existing Instance toy_limits.
#[local] Existing Instance toy_frames.
#[local] Existing Instance toy_error_codes.
#[local] Existing Instance toy_entry_kinds.
#[local] Existing Instance toy_sort_keys.
#[local] Existing Instance toy_sort_directions.
#[local] Existing Instance toy_message.
#[local] Existing Instance share_info_countable.
#[local] Existing Instance entry_info_countable.
#[local] Existing Instance response_frame_countable.
#[local] Existing Instance request_frame_countable.

Definition toy_entry (name : string) (size : Z) : RemoteFileEntry :=
  {| e_id := "1"; e_name := name; e_relative_path := name; e_kind := KFile; e_size := size;
     e_modified_at_ms := 0; e_revision := "r1" |}.
Definition toy_provider : RemoteFileProvider := {|
  watch_changes := default_watch_changes;
  stat := default_stat;
  move_entry := default_move_entry;
  conditional_delete := default_conditional_delete;
  read_range := default_read_range;
  commit_system_upload := default_commit_system_upload;
  list_shares fs := (fs, Ok [{| sh_id := "home"; sh_name := "Home"; sh_writable := true |}]);
  list_directory _ _ _ _ _ _ _ fs := (fs, Ok {| page_entries := []; page_next_cursor := None |});
  create_directory _ _ name fs := (fs, Ok (toy_entry name 0));
  rename_entry _ _ name fs := (fs, Ok (toy_entry name 0));
  delete_entry _ _ fs := (fs, Ok tt);
  prepare_download _ p fs := (fs, Ok {| dl_path := ["srv"; p]%string; dl_entry := toy_entry p 0 |});
  prepare_thumbnail := default_prepare_thumbnail;
  prepare_upload _ _ name size overwrite expected fs :=
    (fs, Ok {| up_destination := ["srv"; name]%string; up_entry := toy_entry name size;
               up_overwrite := overwrite; up_expected_modified_at_ms := expected |});
|}.
Definition toy_host : Host := {|
  uuid := "u"; now_ns := 0; recv_end := Finished; open_fault := None; create_fault := None;
  disk_fault := None; flush_fault := None; sync_fault := None; metadata_fault := false;
  commit_fault := None; remove_fault := false |}.
Definition toy_grants : list Grant :=
  [{| g_peer_id := "phone"; g_granted_at_ms := 1; g_direction := Inbound; g_capability := Requests.RemoteFilesWrite;
      g_constraints := GRemoteFileShares ["home"%string] true |}].
Definition toy_access : RemoteFileAccess := from_grants toy_grants Inbound.

(** A peer with a write grant uploads two bytes. *)
Definition toy_state : State := {|
  recv := match write_remote_message [] (Upload "home" EmptyString "n" 2 false None) with
          | Ok w => w ++ [Byte.x61; Byte.x62]
          | Err _ => []
          end;
  send := []; files := ∅; calls := [] |}.

Example toy_upload_stored :
  content <$> files (fst (handle_remote_file_stream (Some toy_provider) toy_host toy_access toy_state))
    !! ["srv"; "n"]%string = Some [Byte.x61; Byte.x62].
Proof. vm_compute. reflexivity. Qed.

Lemma remote_calls_authorized_witness :
  Forall (authorized toy_access)
    (calls (fst (handle_remote_file_stream (Some toy_provider) toy_host toy_access toy_state)))
  /\ calls (fst (handle_remote_file_stream (Some toy_provider) toy_host toy_access toy_state)) <> [].
Proof.
  split; [apply remote_calls_authorized; reflexivity|]. vm_compute. discriminate.
Defined.

Definition toy_body : State :=
  {| recv := [Byte.x61; Byte.x62]; send := []; files := ∅; calls := [] |}.

Lemma upload_atomic_witness :
  exists r, (exists w, write_remote_message [] (with_entry (toy_entry "n" 2)) = Ok w
      /\ write_remote_message w r = Ok (send (fst (handle_upload toy_provider toy_host toy_access
           "home" EmptyString "n" 2 false None None toy_body))))
    /\ reported r ∅ (files (fst (handle_upload toy_provider toy_host toy_access
         "home" EmptyString "n" 2 false None None toy_body))) [Byte.x61; Byte.x62] 2
         {| up_destination := ["srv"; "n"]%string; up_entry := toy_entry "n" 2;
            up_overwrite := false; up_expected_modified_at_ms := None |}.
Proof.
  refine (proj2 (proj2 (proj2 (upload_atomic toy_provider toy_host toy_access "home" EmptyString "n"
    2 false None None _ ["srv"%string] ∅ toy_body _ (Ok tt) _ _ eq_refl _ _ _ _))) eq_refl).
  - vm_compute. reflexivity.
  - vm_compute. discriminate.
  - vm_compute. reflexivity.
  - vm_compute. discriminate.
  - reflexivity.
  - vm_compute. reflexivity.
Defined.

(** A peer that stops sending without closing the stream: the handler waits, and when its caller's
    timeout drops it the temporary file stays behind, since only an error removes it. *)
Theorem stalled_upload_leaves_temporary :
  let '(st, r) := handle_upload toy_provider
    {| uuid := "u"; now_ns := 0; recv_end := Silent; open_fault := None; create_fault := None;
       disk_fault := None; flush_fault := None; sync_fault := None; metadata_fault := false;
       commit_fault := None; remove_fault := false |} toy_access
    "home" EmptyString "n" 3 false None None toy_body in
  r = Err Pending
  /\ content <$> files st !! ["srv"; ".arcrelay-upload-u"]%string = Some [Byte.x61; Byte.x62].
Proof. vm_compute. split; reflexivity. Qed.

End RemoteFileHandler.
