(* ===== verification/BlobTransfer.v ===== *)
(** * Blob transfer streams

    Models [handle_blob_stream] and [handle_clipboard_blob_upload] of
    [src/server/proto_handler/input.rs]: the chunked download of a redeemed blob and the
    reassembly of an uploaded one.  The messages a handler sends are a list; the chunks it
    receives are the list the stream delivers before it ends. *)

From Stdlib Require Import ZArith Lia.
From stdpp Require Import base tactics option list strings gmap.
From S2P Require Import Prelude Proto Negotiation BlobStore ClipboardUpload.

Module BlobTransfer.

(** [proto::BlobStreamOpen], [BlobStreamHeader] and [BlobStreamChunk]. *)
Record BlobStreamOpen := { o_transfer_id : Z; o_ticket : bytes; o_offset : Z }.
Record BlobStreamHeader := {
  h_status : Status;
  h_blob : option BlobRef;
  h_accepted_offset : Z;
  h_chunk_size : Z;
}.
Record BlobStreamChunk := {
  c_transfer_id : Z;
  c_offset : Z;
  c_data : bytes;
  c_end_of_blob : bool;
}.

(** [proto::ClipboardBlobUploadOpen], [Header], [Chunk] and [Result]. *)
Record ClipboardBlobUploadOpen := {
  uo_upload_id : bytes;
  uo_size : Z;
  uo_sha256 : bytes;
  uo_media_type : string;
}.
Record ClipboardBlobUploadHeader := {
  uh_status : Status;
  uh_upload_id : bytes;
  uh_chunk_size : Z;
}.
Record ClipboardBlobUploadChunk := {
  uc_upload_id : bytes;
  uc_offset : Z;
  uc_data : bytes;
  uc_end_of_upload : bool;
}.
Record ClipboardBlobUploadResult := {
  ur_status : Status;
  ur_upload_id : bytes;
  ur_received_size : Z;
  ur_sha256 : bytes;
}.

Definition MAX_UPLOAD_BYTES : Z := 20 * 1024 * 1024.

(** [bytes.slice(from..to)]. *)
Definition slice (b : bytes) (from to : Z) : bytes :=
  take (Z.to_nat (to - from)) (drop (Z.to_nat from) b).

Section transfer.
Context `{!Sha256} `{!WireLimits}.

(** The [while] loop that sends the chunks from [chunk_offset]; [fuel] bounds its rounds. *)
Fixpoint send_chunks (fuel : nat) (transfer_id : Z) (payload : bytes) (chunk_offset : Z)
  : list BlobStreamChunk :=
  match fuel with
  | O => []
  | S fuel =>
    if chunk_offset <? blen payload then
      let chunk_end := Z.min (chunk_offset + MAX_BLOB_CHUNK_SIZE) (blen payload) in
      {| c_transfer_id := transfer_id; c_offset := chunk_offset;
         c_data := slice payload chunk_offset chunk_end;
         c_end_of_blob := chunk_end =? blen payload |}
      :: send_chunks fuel transfer_id payload chunk_end
    else []
  end.

(** The messages after an accepted header: one empty final chunk at the end of the payload, the
    loop otherwise.  Each round sends at least one byte, so the payload's length is fuel enough. *)
Definition blob_chunks (transfer_id : Z) (payload : bytes) (offset : Z) : list BlobStreamChunk :=
  if offset =? blen payload then
    [{| c_transfer_id := transfer_id; c_offset := offset; c_data := []; c_end_of_blob := true |}]
  else send_chunks (length payload) transfer_id payload offset.

(** [fresh_id] feeds [status]; the three times are [redeem]'s readings of the clock. *)
Definition handle_blob_stream (fresh_id : string) (t0 t1 t2 : Z) (blob_owner : bytes)
    (request : BlobStreamOpen) (store : BlobStore.BlobStoreInner)
  : BlobStore.BlobStoreInner * (BlobStreamHeader * list BlobStreamChunk) :=
  let '(store, redeemed) :=
    BlobStore.redeem t0 t1 t2 blob_owner (o_transfer_id request) (o_ticket request) store in
  match redeemed with
  | Err message =>
    (store, ({| h_status := Negotiation.status fresh_id ECUnauthenticated message; h_blob := None;
                h_accepted_offset := 0; h_chunk_size := MAX_BLOB_CHUNK_SIZE |}, []))
  | Ok redeemed =>
    let offset := o_offset request in
    if negb (offset <=? blen (BlobStore.redeemed_bytes redeemed)) then
      (store, ({| h_status := Negotiation.status fresh_id ECInvalidArgument
                    "blob offset is outside the payload";
                  h_blob := Some (BlobStore.redeemed_reference redeemed);
                  h_accepted_offset := 0; h_chunk_size := MAX_BLOB_CHUNK_SIZE |}, []))
    else
      (store, ({| h_status := Negotiation.ok_status;
                  h_blob := Some (BlobStore.redeemed_reference redeemed);
                  h_accepted_offset := offset; h_chunk_size := MAX_BLOB_CHUNK_SIZE |},
               blob_chunks (o_transfer_id request) (BlobStore.redeemed_bytes redeemed) offset))
  end.

(** The receiving loop: [bytes] is what has arrived so far. *)
Fixpoint receive_chunks (upload_id : bytes) (expected_size : Z) (data : bytes)
    (chunks : list ClipboardBlobUploadChunk) : result bytes string :=
  match chunks with
  | [] => Err "stream ended"%string
  | chunk :: chunks =>
    if negb (bytes_eqb (uc_upload_id chunk) upload_id) || negb (uc_offset chunk =? blen data)
    then Err "invalid clipboard blob upload chunk"%string else
    if sat_add usize_max (blen data) (blen (uc_data chunk)) >? expected_size
    then Err "clipboard blob upload exceeds declared size"%string else
    let data := data ++ uc_data chunk in
    if uc_end_of_upload chunk then Ok data
    else receive_chunks upload_id expected_size data chunks
  end.

Inductive UploadMessage :=
| UploadHeader (h : ClipboardBlobUploadHeader)
| UploadResult (r : ClipboardBlobUploadResult).

Definition upload_open_rejected (open : ClipboardBlobUploadOpen) : bool :=
  negb (blen (uo_upload_id open) =? 32) || negb (blen (uo_sha256 open) =? 32)
  || negb (bytes_eqb (uo_upload_id open) (uo_sha256 open))
  || (uo_size open =? 0) || (uo_size open >? MAX_UPLOAD_BYTES)
  || negb (str_eqb (uo_media_type open) "image/png"
           || str_eqb (uo_media_type open) "text/html; charset=utf-8"
           || str_eqb (uo_media_type open) "text/rtf").

Definition handle_clipboard_blob_upload (fresh_id : string) (t0 t1 : Z)
    (open : ClipboardBlobUploadOpen) (chunks : list ClipboardBlobUploadChunk)
    (uploads : ClipboardUpload.ClipboardUploadStoreInner)
  : ClipboardUpload.ClipboardUploadStoreInner * list UploadMessage * result unit string :=
  let header s := UploadHeader {| uh_status := s; uh_upload_id := uo_upload_id open;
                                  uh_chunk_size := MAX_BLOB_CHUNK_SIZE |} in
  if upload_open_rejected open then
    (uploads, [header (Negotiation.status fresh_id ECInvalidArgument "invalid clipboard blob upload")],
     Ok tt)
  else
  let accepted := header Negotiation.ok_status in
  match receive_chunks (uo_upload_id open) (uo_size open) [] chunks with
  | Err e => (uploads, [accepted], Err e)
  | Ok data =>
    let '(uploads, result) :=
      if blen data =? uo_size open
      then ClipboardUpload.insert t0 t1 (uo_upload_id open) data (uo_sha256 open)
             (uo_media_type open) uploads
      else (uploads, Err "clipboard blob upload ended early"%string) in
    (uploads,
     [accepted;
      UploadResult {| ur_status := match result with
                                   | Ok _ => Negotiation.ok_status
                                   | Err message => Negotiation.status fresh_id ECInvalidArgument message
                                   end;
                      ur_upload_id := uo_upload_id open; ur_received_size := blen data;
                      ur_sha256 := uo_sha256 open |}],
     Ok tt)
  end.

(** ** Downloads are exact *)

(** Chunks that follow each other from [offset]. *)
Fixpoint contiguous (offset : Z) (cs : list BlobStreamChunk) : Prop :=
  match cs with
  | [] => True
  | c :: cs => c_offset c = offset /\ contiguous (offset + blen (c_data c)) cs
  end.

(** Only the last chunk is marked final. *)
Fixpoint ends_once (cs : list BlobStreamChunk) : Prop :=
  match cs with
  | [] => False
  | [c] => c_end_of_blob c = true
  | c :: cs => c_end_of_blob c = false /\ ends_once cs
  end.

Lemma blen_slice b from to : 0 <= from <= to -> to <= blen b -> blen (slice b from to) = to - from.
Proof. unfold slice, blen. intros. rewrite length_take, length_drop. lia. Qed.

Lemma slice_drop b from to :
  0 <= from <= to -> slice b from to ++ drop (Z.to_nat to) b = drop (Z.to_nat from) b.
Proof.
  intros. unfold slice.
  rewrite <- (take_drop (Z.to_nat (to - from)) (drop (Z.to_nat from) b)) at 2.
  rewrite drop_drop. repeat f_equal. lia.
Qed.

Lemma send_chunks_spec fuel id b off :
  0 <= off < blen b -> blen b - off <= Z.of_nat fuel ->
  let cs := send_chunks fuel id b off in
  concat (c_data <$> cs) = drop (Z.to_nat off) b /\ contiguous off cs /\ ends_once cs
  /\ Forall (fun c => c_transfer_id c = id /\ 0 < blen (c_data c) <= MAX_BLOB_CHUNK_SIZE) cs.
Proof.
  pose proof MAX_BLOB_CHUNK_SIZE_range as Hmax.
  revert off. induction fuel as [|fuel IH]; intros off Hoff Hfuel; [lia|].
  cbn [send_chunks]. assert (off <? blen b = true) as -> by (apply Z.ltb_lt; lia).
  set (e := Z.min (off + MAX_BLOB_CHUNK_SIZE) (blen b)).
  assert (off < e <= blen b /\ e - off <= MAX_BLOB_CHUNK_SIZE) as He by lia.
  pose proof (blen_slice b off e ltac:(lia) ltac:(lia)) as Hl.
  destruct (decide (e = blen b)) as [Heq|Hne].
  - assert (send_chunks fuel id b e = []) as ->.
    { rewrite Heq. destruct fuel; simpl; [done|]. by rewrite Z.ltb_irrefl. }
    simpl. rewrite Heq, Z.eqb_refl. rewrite Heq in Hl.
    split; [|split; [done|split; [done|repeat constructor; simpl; lia]]].
    rewrite <- (slice_drop b off (blen b)) by lia. unfold blen.
    by rewrite Nat2Z.id, drop_all.
  - destruct (IH e) as (H1 & H2 & H3 & H4); [lia|lia|]. clearbody e.
    rewrite fmap_cons. cbn [concat contiguous ends_once c_data c_offset].
    rewrite H1, Hl. replace (off + (e - off)) with e by lia.
    split; [by apply slice_drop; lia|]. split; [done|]. split.
    + apply Z.eqb_neq in Hne. rewrite Hne. by destruct (send_chunks fuel id b e).
    + constructor; [simpl; lia|done].
Qed.

Lemma blob_chunks_spec id b off :
  0 <= off <= blen b ->
  let cs := blob_chunks id b off in
  concat (c_data <$> cs) = drop (Z.to_nat off) b /\ contiguous off cs /\ ends_once cs
  /\ Forall (fun c => c_transfer_id c = id /\ blen (c_data c) <= MAX_BLOB_CHUNK_SIZE) cs.
Proof.
  intros Hoff. pose proof MAX_BLOB_CHUNK_SIZE_range. unfold blob_chunks.
  destruct (off =? blen b) eqn:E; bool_arith.
  - simpl. subst off. unfold blen. rewrite Nat2Z.id, drop_all. repeat split. repeat constructor. simpl. lia.
  - destruct (send_chunks_spec (length b) id b off) as (D1 & D2 & D3 & D4); [lia|unfold blen; lia|].
    split; [done|]. split; [done|]. split; [done|].
    eapply Forall_impl; [exact D4|]. simpl. intros c Hc. lia.
Qed.
End transfer.

Section claims.
Context `{!Sha256} `{!WireLimits}.

(** C23: a download delivers exactly the blob its ticket was issued for.  An unexpired ticket
    presented by its owner yields the content whose digest is the ticket's blob id; from any
    offset within it the chunks follow each other without gap, each at most the announced chunk
    size, only the last is marked final, and appended to the part already held they give the whole
    content; an offset beyond it yields an error header and no chunk. *)
Theorem blob_download_exact fresh t t0 t1 t2 k tk off s :
  BlobStore.wf t s -> t <= t0 <= t1 -> t1 <= t2 -> 0 <= off ->
  BlobStore.tickets s !! k = Some tk -> t1 < BlobStore.expires_at tk ->
  exists s' h cs b,
    handle_blob_stream fresh t0 t1 t2 (BlobStore.owner tk)
      {| o_transfer_id := BlobStore.transfer_id tk; o_ticket := k; o_offset := off |} s = (s', (h, cs))
    /\ BlobStore.wf t2 s' /\ sha256 b = BlobStore.ticket_blob_id tk
    /\ if off <=? blen b
       then h_status h = Negotiation.ok_status /\ h_accepted_offset h = off
            /\ take (Z.to_nat off) b ++ concat (c_data <$> cs) = b
            /\ contiguous off cs /\ ends_once cs
            /\ Forall (fun c => c_transfer_id c = BlobStore.transfer_id tk
                 /\ blen (c_data c) <= h_chunk_size h) cs
       else st_code (h_status h) = ECInvalidArgument /\ cs = [].
Proof.
  intros Hwf Ht Ht2 Hoff Hk Hx.
  destruct (BlobStore.redeem_ok t t0 t1 t2 k tk s Hwf Ht Ht2 Hk Hx) as (s' & e & He & Hwf' & Hr & _).
  unfold handle_blob_stream. cbn [o_transfer_id o_ticket o_offset]. rewrite Hr.
  cbn [BlobStore.redeemed_bytes BlobStore.redeemed_reference].
  set (b := BlobStore.payload e).
  assert (sha256 b = BlobStore.ticket_blob_id tk) as Hsha.
  { by destruct (BlobStore.core_entry _ (BlobStore.wf_core _ _ Hwf) _ _ He) as [? _ _ _ _]. }
  destruct (off <=? blen b) eqn:E; simpl; eexists s', _, _, b; (split; [reflexivity|]);
    (split; [done|]); (split; [done|]); rewrite E; simpl; [|done].
  bool_arith. destruct (blob_chunks_spec (BlobStore.transfer_id tk) b off) as (D1 & D2 & D3 & D4); [lia|].
  rewrite D1, take_drop. done.
Qed.

(** ** Uploads are exact *)

(** The chunks the loop consumed: up to the first one marked final. *)
Fixpoint consumed (chunks : list ClipboardBlobUploadChunk) : list ClipboardBlobUploadChunk :=
  match chunks with
  | [] => []
  | c :: chunks => c :: if uc_end_of_upload c then [] else consumed chunks
  end.

Lemma receive_chunks_Ok id size pre chunks data :
  receive_chunks id size pre chunks = Ok data -> size < usize_max ->
  data = pre ++ concat (uc_data <$> consumed chunks) /\ blen data <= size.
Proof.
  revert pre. induction chunks as [|c chunks IH]; intros pre Hrun Hsize; [done|].
  cbn [receive_chunks consumed] in *. destruct (_ || _)%bool; [done|].
  destruct (_ >? size) eqn:E; [done|]. bool_arith. unfold sat_add in E.
  assert (blen (pre ++ uc_data c) <= size) by (unfold blen in *; rewrite length_app; lia).
  rewrite fmap_cons. cbn [concat]. destruct (uc_end_of_upload c).
  - simplify_eq. simpl. by rewrite app_nil_r.
  - destruct (IH _ Hrun) as [-> ?]; [done|]. by rewrite app_assoc.
Qed.

(** A peer that splits its data like the server does. *)
Definition to_upload (id : bytes) (c : BlobStreamChunk) : ClipboardBlobUploadChunk :=
  {| uc_upload_id := id; uc_offset := c_offset c; uc_data := c_data c;
     uc_end_of_upload := c_end_of_blob c |}.

Lemma receive_contiguous id size pre cs :
  contiguous (blen pre) cs -> ends_once cs -> size <= usize_max ->
  blen (pre ++ concat (c_data <$> cs)) <= size ->
  receive_chunks id size pre (to_upload id <$> cs) = Ok (pre ++ concat (c_data <$> cs)).
Proof.
  revert pre. induction cs as [|c cs IH]; intros pre Hc He Hs Hl; [done|].
  destruct Hc as [Hc1 Hc2]. rewrite !fmap_cons in *. cbn [receive_chunks concat] in *.
  unfold bytes_eqb. cbn [uc_upload_id uc_offset uc_data uc_end_of_upload to_upload].
  rewrite bool_decide_true, Hc1, Z.eqb_refl by done. simpl.
  assert (blen pre + blen (c_data c) = blen (pre ++ c_data c)) as Hlen
    by (unfold blen; rewrite length_app; lia).
  rewrite app_assoc in Hl |- *. unfold blen in Hl. rewrite length_app in Hl. fold (blen (pre ++ c_data c)) in Hl.
  destruct (sat_add _ _ _ >? size) eqn:E.
  { unfold sat_add in E. bool_arith. unfold blen in *. rewrite length_app in *. lia. }
  destruct cs as [|c' cs].
  - simpl in He. rewrite He. simpl. by rewrite app_nil_r.
  - destruct He as [-> He]. apply IH; [by rewrite <- Hlen|done|done|].
    unfold blen in *. rewrite length_app. lia.
Qed.

Lemma upload_insert_cases t0 t1 id data sha mt s :
  (ClipboardUpload.insert t0 t1 id data sha mt s).2 = Ok tt
  \/ (exists m, (ClipboardUpload.insert t0 t1 id data sha mt s).2 = Err m
      /\ forall k u, ClipboardUpload.uploads (ClipboardUpload.insert t0 t1 id data sha mt s).1 !! k = Some u ->
         ClipboardUpload.uploads s !! k = Some u).
Proof.
  unfold ClipboardUpload.insert. cbn zeta.
  destruct (_ || negb (ClipboardUpload.media_type_allowed mt)); [right; by eexists|].
  destruct (_ || negb (bytes_eqb _ _)); [right; by eexists|].
  destruct (_ >? ClipboardUpload.MAX_TOTAL_BYTES); [right|by left].
  eexists. split; [done|]. intros k u Hk%ClipboardUpload.upload_prune_lookup. tauto.
Qed.
End claims.


(** The peer was told that its upload is stored. *)
Definition upload_ok (msgs : list UploadMessage) : Prop :=
  exists h r, msgs = [h; UploadResult r] /\ ur_status r = Negotiation.ok_status.

Lemma error_status_not_ok fresh message :
  Negotiation.status fresh ECInvalidArgument message <> Negotiation.ok_status.
Proof. intros H. by apply (f_equal st_code) in H. Qed.

Section upload_claim.
Context `{!Sha256} `{!WireLimits}.

(** C37: a clipboard blob is stored only if it arrived whole.  Whatever chunks a peer sends, the
    store stays well formed; the peer is told success only if the chunks up to the final one make
    exactly the announced size and digest, and then that content is stored under the announced id
    and type; in every other case (rejected opening, gap, overrun, early end, wrong digest, full
    store) nothing new is stored. *)
Theorem clipboard_upload_exact fresh t0 t1 open chunks s s' msgs res :
  ClipboardUpload.wf s ->
  handle_clipboard_blob_upload fresh t0 t1 open chunks s = (s', msgs, res) ->
  let data := concat (uc_data <$> consumed chunks) in
  ClipboardUpload.wf s'
  /\ (upload_ok msgs -> res = Ok tt /\ blen data = uo_size open /\ sha256 data = uo_sha256 open
      /\ ClipboardUpload.uploads s' !! (uo_upload_id open, uo_media_type open)
         = Some {| ClipboardUpload.upload_bytes := data;
                   ClipboardUpload.upload_sha256 := sha256 data;
                   ClipboardUpload.upload_created_at := t1 |})
  /\ (~ upload_ok msgs -> forall k u, ClipboardUpload.uploads s' !! k = Some u ->
        ClipboardUpload.uploads s !! k = Some u).
Proof.
  intros Hwf. unfold handle_clipboard_blob_upload.
  destruct (upload_open_rejected open) eqn:Hopen.
  { intros [= <- <- <-]. split; [done|]. split; [|done]. by intros (h & r & [=] & _). }
  destruct (receive_chunks _ _ _ chunks) as [data|e] eqn:Hrun.
  2:{ intros [= <- <- <-]. split; [done|]. split; [|done]. by intros (h & r & [=] & _). }
  unfold upload_open_rejected in Hopen. bool_arith.
  apply receive_chunks_Ok in Hrun as [-> Hlen];
    [|unfold MAX_UPLOAD_BYTES, usize_max in *; lia].
  simpl app. set (data := concat (uc_data <$> consumed chunks)).
  destruct (blen data =? uo_size open) eqn:Hsize.
  2:{ intros [= <- <- <-]. split; [done|]. split; [|done]. intros (h & r & [= _ <-] & Hr).
      by apply error_status_not_ok in Hr. }
  destruct (ClipboardUpload.insert _ _ _ _ _ _ s) as [s1 r] eqn:Hi. intros [= <- <- <-].
  pose proof (ClipboardUpload.upload_insert_wf t0 t1 (uo_upload_id open) data (uo_sha256 open)
    (uo_media_type open) s Hwf) as Hwf1.
  pose proof (upload_insert_cases t0 t1 (uo_upload_id open) data (uo_sha256 open)
    (uo_media_type open) s) as Hc. rewrite Hi in Hwf1, Hc. simpl in Hwf1, Hc.
  split; [done|]. destruct Hc as [->|(m & -> & Hsub)].
  - apply ClipboardUpload.upload_insert_Ok in Hi as [Hsha Hk]. bool_arith. split; [done|].
    intros Hn. destruct Hn. by eexists _, _.
  - split; [|done]. intros (h & r & [= _ <-] & Hr). by apply error_status_not_ok in Hr.
Qed.

(** Conversely, data split as the server splits it is reassembled. *)
Lemma split_then_receive id x data size :
  size <= usize_max -> blen data <= size ->
  receive_chunks id size [] (to_upload id <$> blob_chunks x data 0) = Ok data.
Proof.
  intros Hs Hd. pose proof (blen_nonneg data).
  destruct (blob_chunks_spec x data 0) as (D1 & D2 & D3 & _); [lia|].
  rewrite receive_contiguous by (rewrite ?D1; done). by rewrite D1.
Qed.
End upload_claim.

(** ** Witnesses *)

Definition wopen : ClipboardBlobUploadOpen :=
  {| uo_upload_id := toy_sha256 [Byte.x61; Byte.x62]; uo_size := 2;
     uo_sha256 := toy_sha256 [Byte.x61; Byte.x62]; uo_media_type := "text/rtf" |}.
Definition wchunk (offset : Z) (data : bytes) (last : bool) : ClipboardBlobUploadChunk :=
  {| uc_upload_id := uo_upload_id wopen; uc_offset := offset; uc_data := data;
     uc_end_of_upload := last |}.
Definition wrun :=
  @handle_clipboard_blob_upload toy_digest toy_limits "id" 1 2 wopen
    [wchunk 0 [Byte.x61] false; wchunk 1 [Byte.x62] true] ClipboardUpload.default_store.

Lemma clipboard_upload_exact_witness :
  ClipboardUpload.uploads wrun.1.1 !! (uo_upload_id wopen, "text/rtf"%string)
  = Some {| ClipboardUpload.upload_bytes := [Byte.x61; Byte.x62];
            ClipboardUpload.upload_sha256 := toy_sha256 [Byte.x61; Byte.x62];
            ClipboardUpload.upload_created_at := 2 |}.
Proof.
  destruct (@clipboard_upload_exact toy_digest toy_limits "id" 1 2 wopen
    [wchunk 0 [Byte.x61] false; wchunk 1 [Byte.x62] true] ClipboardUpload.default_store
    wrun.1.1 wrun.1.2 wrun.2 (@ClipboardUpload.default_store_wf toy_digest) eq_refl)
    as (_ & Hok & _).
  apply Hok. eexists _, _. split; vm_compute; reflexivity.
Defined.

Lemma blob_download_exact_witness :
  exists s' h cs b, @handle_blob_stream toy_limits "id" 20 21 22 BlobStore.wowner
      {| o_transfer_id := 7; o_ticket := [Byte.x09]; o_offset := 0 |} BlobStore.wstore2
      = (s', (h, cs)) /\ concat (c_data <$> cs) = b /\ h_status h = Negotiation.ok_status.
Proof.
  destruct (@blob_download_exact toy_digest toy_limits "id" 14 20 21 22 [Byte.x09]
    BlobStore.wticket 0 BlobStore.wstore2 BlobStore.wstore2_wf)
    as (s' & h & cs & b & Hrun & _ & _ & Hcs); [lia|lia|lia|vm_compute; reflexivity..|].
  exists s', h, cs, b. split; [exact Hrun|]. pose proof (blen_nonneg b) as Hb.
  apply Z.leb_le in Hb. rewrite Hb in Hcs. destruct Hcs as (Hs & _ & Hd & _).
  split; [exact Hd|exact Hs].
Defined.

End BlobTransfer.
