(* ===== verification/ReplicaWire.v ===== *)
(** * Clipboard replica records on the wire

    Models [src/clipboard_replication/wire.rs] in full: labels, record metadata, the payload parts
    of a record and their transfer in chunks.  The clock ([chrono_now_ms], read at most twice) is
    an argument, a stream is the list of its bytes, and the text of a transport error is the
    parameter [io_error].  [arcrelay_core]'s syntax detection is the class [TextSyntaxCore]. *)

From Stdlib Require Import ZArith Lia Ascii String.
From stdpp Require Import base tactics option list strings gmap.
From S2P Require Import Prelude Proto Text RemoteFiles.

Module ReplicaWire.
Local Open Scope string_scope.
Local Open Scope list_scope.
Local Open Scope Z_scope.

Definition TEXT_LIMIT : Z := 1024 * 1024.
Definition RICH_LIMIT : Z := 16 * 1024 * 1024.
Definition IMAGE_LIMIT : Z := 20 * 1024 * 1024.

(** ** Domain and wire types *)

(** [ClipboardTextSyntax] and [detect_text_syntax] of [arcrelay_core]. *)
Class TextSyntaxCore := {
  ClipboardTextSyntax : Type;
  default_syntax : ClipboardTextSyntax;
  detect_text_syntax : string -> ClipboardTextSyntax;
}.

Inductive Kind := KText | KHtml | KImage | KFiles.
#[global] Instance Kind_eq_dec : EqDecision Kind.
Proof. solve_decision. Defined.
Inductive Change := ChCopy | ChEdit | ChFavorite | ChDelete | ChSnapshot | ChLabel.
#[global] Instance Change_eq_dec : EqDecision Change.
Proof. solve_decision. Defined.

Record ClipboardLabel := {
  l_id : string; l_name : string; l_color : string; l_revision : Z;
  l_updated_by_device_id : string; l_deleted : bool;
}.
Record ClipboardLabelMembership := {
  m_label_id : string; m_attached : bool; m_revision : Z; m_updated_by_device_id : string;
}.

Record ClipboardSyncRecord `{!TextSyntaxCore} := {
  sync_id : string;
  kind : Kind;
  text : option string;
  html : option string;
  rtf : option string;
  image_png : option bytes;
  width : option Z;
  height : option Z;
  preview : string;
  source_app : option string;
  source_device_id : string;
  source_device_name : string;
  captured_at_ms : Z;
  revision : Z;
  updated_by_device_id : string;
  favorite : bool;
  favorite_revision : Z;
  favorite_updated_by_device_id : string;
  labels : list ClipboardLabel;
  label_memberships : list ClipboardLabelMembership;
  deleted : bool;
  change_kind : Change;
  live : bool;
  text_syntax : ClipboardTextSyntax;
}.
Record ClipboardReplicaRecord `{!TextSyntaxCore} := {
  record : ClipboardSyncRecord;
  first_captured_at_ms : Z;
  copy_count : Z;
  last_used_at_ms : option Z;
}.

(** The generated messages. *)
Record ProtoSyncRecord := {
  p_sync_id : string;
  p_kind : Z;
  p_width : option Z;
  p_height : option Z;
  p_preview : string;
  p_source_app : option string;
  p_source_device_id : string;
  p_source_device_name : string;
  p_captured_at_ms : Z;
  p_revision : Z;
  p_updated_by_device_id : string;
  p_favorite : bool;
  p_favorite_revision : Z;
  p_favorite_updated_by_device_id : string;
  p_labels : list ProtoLabel;
  p_label_memberships : list ProtoMembership;
  p_deleted : bool;
  p_change_kind : Z;
  p_live : bool;
  p_text_syntax_json : string;
  (** Whether [payload] is set: this code only ever tests it. *)
  p_payload : bool;
}.
Record ProtoReplicaRecord := {
  pr_metadata : option ProtoSyncRecord;
  pr_first_captured_at_ms : Z;
  pr_copy_count : Z;
  pr_last_used_at_ms : option Z;
  pr_parts : list BlobRef;
  pr_metadata_only : bool;
}.

(** ** Labels *)

Definition identifier (value : string) : bool :=
  negb (str_is_empty (trim value)) && (slen value <=? 128) && negb (has_control value).
Definition version (revision : Z) (device : string) : bool :=
  (revision >? 0) && (revision <=? i64_max) && identifier device.
Definition valid_color (color : string) : bool :=
  ((slen color =? 4) || (slen color =? 7) || (slen color =? 9))
  && match color with
     | String "#" rest => forallb is_ascii_hexdigit (units rest)
     | _ => false
     end.

Definition label_to_wire (label : ClipboardLabel) : ProtoLabel :=
  {| pl_id := l_id label; pl_name := l_name label; pl_color := l_color label;
     pl_revision := l_revision label; pl_updated_by_device_id := l_updated_by_device_id label;
     pl_deleted := l_deleted label |}.

Definition label_from_wire (label : ProtoLabel) : result ClipboardLabel string :=
  if negb (identifier (pl_id label)) || str_is_empty (trim (pl_name label))
     || (slen (pl_name label) >? 128) || negb (valid_color (pl_color label))
     || negb (version (pl_revision label) (pl_updated_by_device_id label))
  then Err "invalid clipboard label metadata"
  else Ok {| l_id := pl_id label; l_name := pl_name label; l_color := pl_color label;
             l_revision := pl_revision label;
             l_updated_by_device_id := pl_updated_by_device_id label;
             l_deleted := pl_deleted label |}.

(** ** Record metadata *)

Section records.
Context `{!TextSyntaxCore}.

Definition kind_code (k : Kind) : Z :=
  match k with KText => 1 | KHtml => 2 | KImage => 3 | KFiles => 4 end.
Definition change_code (c : Change) : Z :=
  match c with
  | ChCopy => 1 | ChEdit => 2 | ChFavorite => 3 | ChDelete => 4 | ChSnapshot => 5 | ChLabel => 6
  end.

Definition membership_to_wire (m : ClipboardLabelMembership) : ProtoMembership :=
  {| pm_label_id := m_label_id m; pm_attached := m_attached m; pm_revision := m_revision m;
     pm_updated_by_device_id := m_updated_by_device_id m |}.

Definition metadata_to_wire (replica : ClipboardReplicaRecord) : ProtoReplicaRecord :=
  let r := record replica in
  {| pr_first_captured_at_ms := first_captured_at_ms replica;
     pr_copy_count := copy_count replica;
     pr_last_used_at_ms := last_used_at_ms replica;
     pr_parts := []; pr_metadata_only := true;
     pr_metadata := Some
       {| p_sync_id := sync_id r; p_kind := kind_code (kind r); p_width := width r;
          p_height := height r; p_preview := preview r; p_source_app := source_app r;
          p_source_device_id := source_device_id r; p_source_device_name := source_device_name r;
          p_captured_at_ms := captured_at_ms r; p_revision := revision r;
          p_updated_by_device_id := updated_by_device_id r; p_favorite := favorite r;
          p_favorite_revision := favorite_revision r;
          p_favorite_updated_by_device_id := favorite_updated_by_device_id r;
          p_labels := []; p_label_memberships := membership_to_wire <$> label_memberships r;
          p_deleted := deleted r; p_change_kind := change_code (change_kind r);
          p_live := live r; p_text_syntax_json := EmptyString; p_payload := false |} |}.

(** [i64::saturating_add] of a constant to the clock. *)
Definition deadline (now : Z) : Z := sat_add i64_max now 300000.

(** The disjunction at the top of [metadata_from_wire]; [now1] and [now2] are its clock
    readings. *)
Definition metadata_rejected (now1 now2 : Z) (wire : ProtoReplicaRecord) (r : ProtoSyncRecord)
  : bool :=
  negb (slen (p_sync_id r) =? 64)
  || negb (forallb is_ascii_hexdigit (units (p_sync_id r)))
  || negb (version (p_revision r) (p_updated_by_device_id r))
  || negb (version (p_favorite_revision r) (p_favorite_updated_by_device_id r))
  || negb (identifier (p_source_device_id r))
  || (slen (p_source_device_name r) >? 128)
  || (slen (p_preview r) >? 2048)
  || match p_source_app r with Some v => slen v >? 256 | None => false end
  || (pr_first_captured_at_ms wire <=? 0)
  || (pr_first_captured_at_ms wire >? p_captured_at_ms r)
  || (p_captured_at_ms r >? deadline now1)
  || match pr_last_used_at_ms wire with
     | Some used => (used <=? 0) || (used >? deadline now2)
     | None => false
     end
  || (pr_copy_count wire =? 0)
  || (pr_copy_count wire >? i32_max)
  || negb (is_empty (p_labels r))
  || p_payload r
  || (Z.of_nat (length (p_label_memberships r)) >? 4096).

(** The [map] over the memberships with its set of seen labels. *)
Fixpoint memberships_from_wire (ids : gset string) (ms : list ProtoMembership)
  : result (list ClipboardLabelMembership) string :=
  match ms with
  | [] => Ok []
  | m :: ms =>
    if negb (identifier (pm_label_id m))
       || negb (version (pm_revision m) (pm_updated_by_device_id m))
       || bool_decide (pm_label_id m ∈ ids)
    then Err "invalid clipboard label membership"
    else
      let? rest := memberships_from_wire ({[pm_label_id m]} ∪ ids) ms in
      Ok ({| m_label_id := pm_label_id m; m_attached := pm_attached m;
             m_revision := pm_revision m;
             m_updated_by_device_id := pm_updated_by_device_id m |} :: rest)
  end.

Definition kind_from_code (z : Z) : result Kind string :=
  if z =? 1 then Ok KText else if z =? 2 then Ok KHtml else if z =? 3 then Ok KImage
  else Err "unsupported clipboard replica kind".
Definition change_from_code (z : Z) : result Change string :=
  if z =? 1 then Ok ChCopy else if z =? 2 then Ok ChEdit else if z =? 3 then Ok ChFavorite
  else if z =? 4 then Ok ChDelete else if z =? 5 then Ok ChSnapshot else if z =? 6 then Ok ChLabel
  else Err "invalid clipboard replica change".

Definition metadata_from_wire (now1 now2 : Z) (wire : ProtoReplicaRecord)
  : result ClipboardReplicaRecord string :=
  let? r := ok_or (pr_metadata wire) "missing clipboard replica metadata" in
  if metadata_rejected now1 now2 wire r then Err "invalid clipboard replica metadata" else
  let? memberships := memberships_from_wire ∅ (p_label_memberships r) in
  let? k := kind_from_code (p_kind r) in
  let? c := change_from_code (p_change_kind r) in
  if p_live r && (negb (bool_decide (c = ChCopy)) || p_deleted r)
  then Err "invalid live clipboard replica" else
  Ok {| first_captured_at_ms := pr_first_captured_at_ms wire;
        copy_count := pr_copy_count wire;
        last_used_at_ms := pr_last_used_at_ms wire;
        record :=
          {| sync_id := p_sync_id r; kind := k; text := None; html := None; rtf := None;
             image_png := None; width := p_width r; height := p_height r;
             preview := p_preview r; source_app := p_source_app r;
             source_device_id := p_source_device_id r;
             source_device_name := p_source_device_name r;
             captured_at_ms := p_captured_at_ms r; revision := p_revision r;
             updated_by_device_id := p_updated_by_device_id r; favorite := p_favorite r;
             favorite_revision := p_favorite_revision r;
             favorite_updated_by_device_id := p_favorite_updated_by_device_id r;
             labels := []; label_memberships := memberships; deleted := p_deleted r;
             change_kind := c; live := p_live r; text_syntax := default_syntax |} |}.
End records.

(** ** Payload parts *)

(** [String::into_bytes], and [String::from_utf8]: the bytes that encode some scalar values. *)
Definition into_bytes (s : string) : bytes := list_byte_of_string s.
Definition is_scalar (c : Z) : bool := ((0 <=? c) && (c <? 0xD800)) || ((0xE000 <=? c) && (c <=? 0x10FFFF)).
Definition from_utf8 (b : bytes) : option string :=
  let s := string_of_list_byte b in
  if forallb is_scalar (chars s) && str_eqb (of_chars (chars s)) s then Some s else None.

Section payload.
Context `{!TextSyntaxCore} `{!Sha256} `{!WireLimits} `{!FrameTransport} (io_error : string).

(** The closure [add] of [encode_record]. *)
Definition add_part (value : option bytes) (media : string) (limit : Z)
    (parts : list (bytes * string)) : result (list (bytes * string)) string :=
  let? b := ok_or value "clipboard payload is unavailable" in
  if blen b >? limit then Err "clipboard payload exceeds transfer limit"
  else Ok (parts ++ [(b, media)]).

(** The parts a record is sent with, in order. *)
Definition record_parts (r : ClipboardSyncRecord) : result (list (bytes * string)) string :=
  if deleted r then Ok [] else
  match kind r with
  | KText => add_part (into_bytes <$> text r) "text/plain" TEXT_LIMIT []
  | KHtml =>
    let? parts := add_part (Some (into_bytes (default EmptyString (text r)))) "text/plain"
                    TEXT_LIMIT [] in
    let? parts := add_part (into_bytes <$> html r) "text/html" RICH_LIMIT parts in
    match rtf r with
    | Some s => add_part (Some (into_bytes s)) "text/rtf" RICH_LIMIT parts
    | None => Ok parts
    end
  | KImage => add_part (image_png r) "image/png" IMAGE_LIMIT []
  | KFiles => Err "file paths cannot be replicated"
  end.

Definition part_ref (p : bytes * string) : BlobRef :=
  let digest := sha256 p.1 in
  {| blob_id := digest; ref_size := blen p.1; media_type := p.2; ref_sha256 := digest |}.

Definition encode_record (replica : ClipboardReplicaRecord)
  : result (ProtoReplicaRecord * list bytes) string :=
  let? parts := record_parts (record replica) in
  let wire := metadata_to_wire replica in
  Ok ({| pr_metadata := pr_metadata wire;
         pr_first_captured_at_ms := pr_first_captured_at_ms wire;
         pr_copy_count := pr_copy_count wire; pr_last_used_at_ms := pr_last_used_at_ms wire;
         pr_parts := part_ref <$> parts; pr_metadata_only := false |}, parts.*1).

(** [slice.chunks(n)]; each chunk takes at least an element, so the length is fuel enough. *)
Fixpoint chunks {A} (fuel : nat) (n : nat) (b : list A) : list (list A) :=
  match fuel, b with
  | S fuel, _ :: _ => take n b :: chunks fuel n (drop n b)
  | _, _ => []
  end.

(** [write_frame] of each chunk, onto the bytes already [sent]. *)
Fixpoint send_chunks (cs : list bytes) (sent : bytes) : result bytes string :=
  match cs with
  | [] => Ok sent
  | c :: cs =>
    let? w := ok_or (write_frame MAX_BLOB_CHUNK_SIZE c) io_error in
    send_chunks cs (sent ++ w)
  end.
Fixpoint send_parts (parts : list bytes) (sent : bytes) : result bytes string :=
  match parts with
  | [] => Ok sent
  | part :: parts =>
    let? sent := send_chunks (chunks (length part) (Z.to_nat MAX_BLOB_CHUNK_SIZE) part) sent in
    send_parts parts sent
  end.

(** The [while] loop of [receive_record]: [b] is what has arrived.  Every round adds a byte, so
    the size is fuel enough: without fuel [b] has [size] bytes. *)
Fixpoint receive_part (fuel : nat) (size : Z) (b : bytes) (recv : bytes)
  : result (bytes * bytes) string :=
  match fuel with
  | O => Ok (b, recv)
  | S fuel =>
    if blen b <? size then
      let? (chunk, recv) := ok_or (read_frame MAX_BLOB_CHUNK_SIZE recv) io_error in
      if is_empty chunk || (blen chunk >? size - blen b)
      then Err "invalid clipboard payload chunk"
      else receive_part fuel size (b ++ chunk) recv
    else Ok (b, recv)
  end.

(** The branch of file records is [unreachable!]: [metadata_from_wire] never returns one. *)
Definition expected_parts (r : ClipboardSyncRecord) (references : list BlobRef)
  : list (string * Z) :=
  if deleted r then [] else
  match kind r with
  | KText => [("text/plain", TEXT_LIMIT)]
  | KHtml => [("text/plain", TEXT_LIMIT); ("text/html", RICH_LIMIT)]
             ++ (if Nat.eqb (length references) 3 then [("text/rtf", RICH_LIMIT)] else [])
  | KImage => [("image/png", IMAGE_LIMIT)]
  | KFiles => []
  end.

Definition set_texts (t h f : option string) (i : option bytes) (r : ClipboardSyncRecord)
  : ClipboardSyncRecord :=
  {| sync_id := sync_id r; kind := kind r; text := t; html := h; rtf := f; image_png := i;
     width := width r; height := height r; preview := preview r; source_app := source_app r;
     source_device_id := source_device_id r; source_device_name := source_device_name r;
     captured_at_ms := captured_at_ms r; revision := revision r;
     updated_by_device_id := updated_by_device_id r; favorite := favorite r;
     favorite_revision := favorite_revision r;
     favorite_updated_by_device_id := favorite_updated_by_device_id r; labels := labels r;
     label_memberships := label_memberships r; deleted := deleted r;
     change_kind := change_kind r; live := live r; text_syntax := text_syntax r |}.
Definition set_syntax (x : ClipboardTextSyntax) (r : ClipboardSyncRecord) : ClipboardSyncRecord :=
  {| sync_id := sync_id r; kind := kind r; text := text r; html := html r; rtf := rtf r;
     image_png := image_png r; width := width r; height := height r; preview := preview r;
     source_app := source_app r; source_device_id := source_device_id r;
     source_device_name := source_device_name r; captured_at_ms := captured_at_ms r;
     revision := revision r; updated_by_device_id := updated_by_device_id r;
     favorite := favorite r; favorite_revision := favorite_revision r;
     favorite_updated_by_device_id := favorite_updated_by_device_id r; labels := labels r;
     label_memberships := label_memberships r; deleted := deleted r;
     change_kind := change_kind r; live := live r; text_syntax := x |}.
Definition set_record (r : ClipboardSyncRecord) (replica : ClipboardReplicaRecord)
  : ClipboardReplicaRecord :=
  {| record := r; first_captured_at_ms := first_captured_at_ms replica;
     copy_count := copy_count replica; last_used_at_ms := last_used_at_ms replica |}.

(** Storing a received part; the media type is one of the expected ones. *)
Definition store_part (media : string) (b : bytes) (r : ClipboardSyncRecord)
  : result ClipboardSyncRecord string :=
  if str_eqb media "image/png" then Ok (set_texts (text r) (html r) (rtf r) (Some b) r) else
  let? s := ok_or (from_utf8 b) "clipboard payload is not UTF-8" in
  if str_eqb media "text/plain" then Ok (set_texts (Some s) (html r) (rtf r) (image_png r) r) else
  if str_eqb media "text/html" then Ok (set_texts (text r) (Some s) (rtf r) (image_png r) r)
  else Ok (set_texts (text r) (html r) (Some s) (image_png r) r).

Fixpoint receive_parts (ps : list (BlobRef * (string * Z))) (r : ClipboardSyncRecord)
    (recv : bytes) : result (ClipboardSyncRecord * bytes) string :=
  match ps with
  | [] => Ok (r, recv)
  | (reference, (media, limit)) :: ps =>
    if negb (str_eqb (media_type reference) media) || (ref_size reference >? limit)
       || negb (blen (ref_sha256 reference) =? 32)
       || negb (bytes_eqb (blob_id reference) (ref_sha256 reference))
    then Err "invalid clipboard payload descriptor" else
    let? (b, recv) := receive_part (Z.to_nat (ref_size reference)) (ref_size reference) [] recv in
    if negb (bytes_eqb (sha256 b) (ref_sha256 reference))
    then Err "clipboard payload integrity check failed" else
    let? r := store_part media b r in
    receive_parts ps r recv
  end.

Definition receive_record (now1 now2 : Z) (recv : bytes) (wire : ProtoReplicaRecord)
  : result (ClipboardReplicaRecord * bytes) string :=
  let metadata_only := pr_metadata_only wire in
  let references := pr_parts wire in
  let? replica := metadata_from_wire now1 now2 wire in
  let r := record replica in
  if metadata_only then
    if negb (is_empty references) || live r
    then Err "invalid metadata-only clipboard replica"
    else Ok (replica, recv)
  else
  let expected := expected_parts r references in
  if negb (Nat.eqb (length references) (length expected))
  then Err "invalid clipboard payload parts" else
  let? (r, recv) := receive_parts (zip references expected) r recv in
  if bool_decide (kind r = KText)
     && match text r with Some s => str_is_empty s | None => true end
     && negb (deleted r)
  then Err "clipboard text is empty" else
  Ok (set_record (set_syntax (detect_text_syntax (default EmptyString (text r))) r) replica, recv).
End payload.


(** ** What validation accepts *)

Record label_valid (l : ClipboardLabel) : Prop := {
  lv_id : identifier (l_id l) = true;
  lv_name : trim (l_name l) <> EmptyString;
  lv_name_len : slen (l_name l) <= 128;
  lv_color : valid_color (l_color l) = true;
  lv_version : version (l_revision l) (l_updated_by_device_id l) = true;
}.

Record membership_valid (m : ClipboardLabelMembership) : Prop := {
  mv_id : identifier (m_label_id m) = true;
  mv_version : version (m_revision m) (m_updated_by_device_id m) = true;
}.

Lemma str_is_empty_false s : str_is_empty s = false <-> s <> EmptyString.
Proof. by destruct s. Qed.
Lemma gtb_false a b : (a >? b) = false <-> a <= b.
Proof. rewrite Z.gtb_ltb. apply Z.ltb_ge. Qed.

Lemma label_from_wire_Ok p l :
  label_from_wire p = Ok l <-> p = label_to_wire l /\ label_valid l.
Proof.
  unfold label_from_wire. split.
  - destruct (_ || _) eqn:E; [done|]. intros [= <-]. split; [by destruct p|].
    bool_arith. by split; simpl; [|apply str_is_empty_false| | |].
  - intros [-> [V1 V2%str_is_empty_false V3%gtb_false V4 V5]]. unfold label_to_wire.
    cbn [pl_id pl_name pl_color pl_revision pl_updated_by_device_id pl_deleted].
    rewrite V1, V2, V3, V4, V5. by destruct l.
Qed.

Section validation.
Context `{!TextSyntaxCore}.

(** What a peer may send: bounded and well-formed text, revisions in range, times in order and
    not in the future, at most 4096 labels without repetition, and no file record. *)
Record metadata_valid (now1 now2 : Z) (replica : ClipboardReplicaRecord) : Prop := {
  v_sync_id : slen (sync_id (record replica)) = 64
    /\ Forall (fun b => is_ascii_hexdigit b = true) (units (sync_id (record replica)));
  v_version : version (revision (record replica)) (updated_by_device_id (record replica)) = true;
  v_favorite : version (favorite_revision (record replica))
    (favorite_updated_by_device_id (record replica)) = true;
  v_source : identifier (source_device_id (record replica)) = true;
  v_source_name : slen (source_device_name (record replica)) <= 128;
  v_preview : slen (preview (record replica)) <= 2048;
  v_source_app : forall v, source_app (record replica) = Some v -> slen v <= 256;
  v_captured : 0 < first_captured_at_ms replica <= captured_at_ms (record replica)
    /\ captured_at_ms (record replica) <= deadline now1;
  v_used : forall used, last_used_at_ms replica = Some used -> 0 < used <= deadline now2;
  v_count : copy_count replica <> 0 /\ copy_count replica <= i32_max;
  v_memberships : Z.of_nat (length (label_memberships (record replica))) <= 4096
    /\ Forall membership_valid (label_memberships (record replica))
    /\ NoDup (m_label_id <$> label_memberships (record replica));
  v_kind : kind (record replica) <> KFiles;
  v_live : live (record replica) = true ->
    change_kind (record replica) = ChCopy /\ deleted (record replica) = false;
}.

(** What the metadata of a record keeps of it. *)
Definition stripped (replica : ClipboardReplicaRecord) : ClipboardReplicaRecord :=
  let r := record replica in
  set_record
    {| sync_id := sync_id r; kind := kind r; text := None; html := None; rtf := None;
       image_png := None; width := width r; height := height r; preview := preview r;
       source_app := source_app r; source_device_id := source_device_id r;
       source_device_name := source_device_name r; captured_at_ms := captured_at_ms r;
       revision := revision r; updated_by_device_id := updated_by_device_id r;
       favorite := favorite r; favorite_revision := favorite_revision r;
       favorite_updated_by_device_id := favorite_updated_by_device_id r; labels := [];
       label_memberships := label_memberships r; deleted := deleted r;
       change_kind := change_kind r; live := live r; text_syntax := default_syntax |} replica.

Lemma stripped_idemp r : stripped (stripped r) = stripped r.
Proof. done. Qed.
Lemma metadata_to_wire_stripped r : metadata_to_wire (stripped r) = metadata_to_wire r.
Proof. done. Qed.
Lemma metadata_valid_stripped now1 now2 r :
  metadata_valid now1 now2 (stripped r) <-> metadata_valid now1 now2 r.
Proof. split; intros []; by split. Qed.

Lemma membership_from_to m :
  {| m_label_id := pm_label_id (membership_to_wire m); m_attached := pm_attached (membership_to_wire m);
     m_revision := pm_revision (membership_to_wire m);
     m_updated_by_device_id := pm_updated_by_device_id (membership_to_wire m) |} = m.
Proof. by destruct m. Qed.

Lemma memberships_from_wire_Ok ids ps ms :
  memberships_from_wire ids ps = Ok ms <->
  ps = membership_to_wire <$> ms /\ Forall membership_valid ms /\ NoDup (m_label_id <$> ms)
  /\ Forall (fun m => m_label_id m ∉ ids) ms.
Proof.
  revert ids ms. induction ps as [|p ps IH]; intros ids ms; cbn [memberships_from_wire].
  { split; [intros [= <-]; by repeat constructor|]. intros [Hps _]. by destruct ms. }
  split.
  - destruct (_ || _) eqn:E; [done|]. intros (rest & (-> & HV & HN & HF)%IH & [= <-])%rbind_Ok.
    bool_arith. rewrite !fmap_cons. simpl. split; [f_equal; by destruct p|].
    split; [constructor; [by split|done]|]. split.
    + constructor; [|done]. intros (m & Hm & Hin)%list_elem_of_fmap.
      eapply Forall_forall in HF; [|done]. simpl in HF. set_solver.
    + constructor; [done|]. eapply Forall_impl; [exact HF|]. simpl. set_solver.
  - intros (Hps & HV & HN & HF). destruct ms as [|m ms]; [done|].
    rewrite fmap_cons in Hps. injection Hps as -> ->. rewrite fmap_cons in HN.
    apply NoDup_cons in HN as [Hnot HN]. apply Forall_cons in HV as [[V1 V2] HV].
    apply Forall_cons in HF as [Hid HF].
    cbn [membership_to_wire pm_label_id pm_revision pm_updated_by_device_id].
    rewrite V1, V2. cbn [negb orb].
    rewrite bool_decide_false by done.
    rewrite (proj2 (IH _ ms)); [simpl; by destruct m|].
    split; [done|]. split; [done|]. split; [done|]. apply Forall_forall. intros m' Hm' Hin.
    apply elem_of_union in Hin as [Heq%elem_of_singleton|Hin].
    + apply Hnot. simpl in Heq. rewrite <- Heq. by apply list_elem_of_fmap_2.
    + eapply Forall_forall in HF; [|exact Hm']. done.
Qed.

Lemma kind_from_code_Ok z k : kind_from_code z = Ok k <-> z = kind_code k /\ k <> KFiles.
Proof.
  unfold kind_from_code. split.
  - repeat case_match; intros [= <-]; bool_arith; subst; done.
  - intros [-> ?]. by destruct k.
Qed.
Lemma change_from_code_Ok z c : change_from_code z = Ok c <-> z = change_code c.
Proof.
  unfold change_from_code. split.
  - repeat case_match; intros [= <-]; bool_arith; by subst.
  - intros ->. by destruct c.
Qed.
End validation.


Section metadata.
Context `{!TextSyntaxCore}.

Lemma metadata_rejected_false now1 now2 w r :
  metadata_rejected now1 now2 w r = false <->
  (slen (p_sync_id r) = 64 /\ Forall (fun b => is_ascii_hexdigit b = true) (units (p_sync_id r)))
  /\ version (p_revision r) (p_updated_by_device_id r) = true
  /\ version (p_favorite_revision r) (p_favorite_updated_by_device_id r) = true
  /\ identifier (p_source_device_id r) = true
  /\ slen (p_source_device_name r) <= 128 /\ slen (p_preview r) <= 2048
  /\ (forall v, p_source_app r = Some v -> slen v <= 256)
  /\ (0 < pr_first_captured_at_ms w <= p_captured_at_ms r /\ p_captured_at_ms r <= deadline now1)
  /\ (forall used, pr_last_used_at_ms w = Some used -> 0 < used <= deadline now2)
  /\ (pr_copy_count w <> 0 /\ pr_copy_count w <= i32_max)
  /\ p_labels r = [] /\ p_payload r = false
  /\ Z.of_nat (length (p_label_memberships r)) <= 4096.
Proof.
  unfold metadata_rejected. rewrite !orb_false_iff, !negb_false_iff, !gtb_false.
  rewrite Z.eqb_eq, !Z.leb_gt, Z.eqb_neq, forallb_forall, Forall_forall.
  setoid_rewrite list_elem_of_In.
  assert ((match p_source_app r with Some v => slen v >? 256 | None => false end) = false
    <-> forall v, p_source_app r = Some v -> slen v <= 256) as ->.
  { destruct (p_source_app r) as [v|]; [rewrite gtb_false|by split].
    split; [by intros ? ? [= <-]|auto]. }
  assert ((match pr_last_used_at_ms w with
           | Some used => (used <=? 0) || (used >? deadline now2) | None => false end) = false
    <-> forall used, pr_last_used_at_ms w = Some used -> 0 < used <= deadline now2) as ->.
  { destruct (pr_last_used_at_ms w) as [v|]; [|by split].
    rewrite orb_false_iff, gtb_false, Z.leb_gt.
    split; [by intros [] ? [= <-]|]. intros Hu. specialize (Hu v eq_refl). lia. }
  assert (is_empty (p_labels r) = true <-> p_labels r = []) as -> by by destruct (p_labels r).
  tauto.
Qed.

(** The metadata a peer reads back is exactly the valid one. *)
Lemma metadata_from_wire_Ok now1 now2 w r :
  metadata_from_wire now1 now2 w = Ok r ->
  metadata_valid now1 now2 r /\ stripped r = r
  /\ pr_metadata (metadata_to_wire r) = (fun m =>
       {| p_sync_id := p_sync_id m; p_kind := p_kind m; p_width := p_width m; p_height := p_height m;
          p_preview := p_preview m; p_source_app := p_source_app m;
          p_source_device_id := p_source_device_id m; p_source_device_name := p_source_device_name m;
          p_captured_at_ms := p_captured_at_ms m; p_revision := p_revision m;
          p_updated_by_device_id := p_updated_by_device_id m; p_favorite := p_favorite m;
          p_favorite_revision := p_favorite_revision m;
          p_favorite_updated_by_device_id := p_favorite_updated_by_device_id m;
          p_labels := []; p_label_memberships := p_label_memberships m; p_deleted := p_deleted m;
          p_change_kind := p_change_kind m; p_live := p_live m; p_text_syntax_json := EmptyString;
          p_payload := false |}) <$> pr_metadata w.
Proof.
  unfold metadata_from_wire. intros (m & ->%ok_or_Ok & Hres)%rbind_Ok.
  destruct (metadata_rejected now1 now2 w m) eqn:E; [done|].
  apply metadata_rejected_false in E as (R1 & R2 & R3 & R4 & R5 & R6 & R7 & R8 & R9 & R10 & R11 & R12 & R13).
  apply rbind_Ok in Hres as (ms & (Hms & HV & HN & _)%memberships_from_wire_Ok & Hres).
  apply rbind_Ok in Hres as (k & [Hk Hkf]%kind_from_code_Ok & Hres).
  apply rbind_Ok in Hres as (c & Hc%change_from_code_Ok & Hres).
  destruct (_ && _) eqn:El; [done|]. injection Hres as <-. split; [|split].
  - split; simpl; auto.
    + split; [|done]. by rewrite Hms, length_fmap in R13.
    + intros Hl. rewrite Hl in El. simpl in El. apply orb_false_iff in El. rewrite negb_false_iff in El.
      by destruct El as [?%bool_decide_eq_true ?].
  - done.
  - unfold metadata_to_wire. simpl. by rewrite Hms, Hk, Hc.
Qed.

Lemma metadata_to_wire_valid now1 now2 r :
  metadata_valid now1 now2 r -> metadata_from_wire now1 now2 (metadata_to_wire r) = Ok (stripped r).
Proof.
  intros [V1 V2 V3 V4 V5 V6 V7 V8 V9 V10 (V11 & V12 & V13) V14 V15]. unfold metadata_from_wire.
  simpl ok_or. unfold rbind at 1. cbn [metadata_to_wire pr_metadata].
  rewrite (proj2 (metadata_rejected_false _ _ _ _)).
  2:{ simpl. rewrite length_fmap. tauto. }
  simpl p_label_memberships. rewrite (proj2 (memberships_from_wire_Ok _ _ (label_memberships (record r)))).
  2:{ split; [done|]. split; [done|]. split; [done|]. apply Forall_forall. set_solver. }
  simpl. rewrite (proj2 (kind_from_code_Ok _ (kind (record r)))) by done. simpl.
  rewrite (proj2 (change_from_code_Ok _ (change_kind (record r)))) by done. simpl.
  unfold stripped, set_record. destruct (live (record r)) eqn:Hl; [|done].
  destruct (V15 eq_refl) as [Hc Hd]. rewrite Hc, Hd. rewrite bool_decide_true by done. done.
Qed.
#[local] Instance membership_to_wire_inj : Inj eq eq membership_to_wire.
Proof. intros [] []. by intros [= -> -> -> ->]. Qed.
Lemma kind_code_inj k k' : kind_code k' = kind_code k -> k = k'.
Proof. by destruct k, k'. Qed.
Lemma change_code_inj c c' : change_code c' = change_code c -> c = c'.
Proof. by destruct c, c'. Qed.

Lemma metadata_from_to now1 now2 r r' :
  metadata_from_wire now1 now2 (metadata_to_wire r) = Ok r' -> r' = stripped r.
Proof.
  unfold metadata_from_wire. simpl ok_or. unfold rbind at 1. cbn [metadata_to_wire pr_metadata].
  destruct (metadata_rejected _ _ _ _); [done|]. simpl.
  intros (ms & [<-%(inj _) _]%memberships_from_wire_Ok & Hres)%rbind_Ok.
  apply rbind_Ok in Hres as (k & [Hk _]%kind_from_code_Ok & Hres).
  assert (k = kind (record r)) as -> by by apply kind_code_inj.
  apply rbind_Ok in Hres as (c & Hc%change_from_code_Ok & Hres).
  assert (c = change_kind (record r)) as -> by by apply change_code_inj.
  destruct (_ && _); [done|]. by injection Hres as <-.
Qed.
Lemma metadata_crosses now1 now2 r r' :
  metadata_from_wire now1 now2 (metadata_to_wire r) = Ok r' <-> metadata_valid now1 now2 r /\ r' = stripped r.
Proof.
  split.
  - intros Hr. assert (r' = stripped r) as -> by by eapply metadata_from_to.
    apply metadata_from_wire_Ok in Hr as [HV _].
    split; [exact (proj1 (metadata_valid_stripped _ _ _) HV)|done].
  - intros [HV ->]. by apply metadata_to_wire_valid.
Qed.
End metadata.


(** ** Text survives its encoding *)

Lemma decode_encode_char c rest :
  scalar c -> decode_utf8 (encode_char c ++ rest) = c :: decode_utf8 rest.
Proof.
  intros Hc. assert (0 <= c <= 0x10FFFF) as Hr by (unfold scalar in Hc; lia).
  assert (forall x, (128 + x mod 64) mod 64 = x mod 64) as Hcont.
  { intros x. replace (128 + x mod 64) with (x mod 64 + 2 * 64) by lia.
    by rewrite Z.mod_add, Z.mod_mod by lia. }
  assert (forall a b, (a <? b) = false -> b <= a) as Hge by (intros; bool_arith; lia).
  unfold encode_char. destruct (c <? 0x80) eqn:E1; [|destruct (c <? 0x800) eqn:E2;
    [|destruct (c <? 0x10000) eqn:E3]]; cbn [app decode_utf8].
  - by rewrite E1.
  - bool_arith. assert (0 <= c / 64 < 32) by (split; [apply Z.div_pos; lia|apply Z.div_lt_upper_bound; lia]).
    rewrite (proj2 (Z.ltb_ge _ _)) by lia. rewrite (proj2 (Z.ltb_lt _ _)) by lia. rewrite Hcont.
    f_equal. rewrite (Z.div_mod c 64) at 3 by lia. replace ((192 + c / 64) mod 32) with (c / 64); [lia|].
    rewrite <- (Z.mod_small (c / 64) 32) at 1 by lia. rewrite <- (Z.mod_add (c / 64) 6 32) by lia.
    f_equal. lia.
  - bool_arith. assert (0 <= c / 4096 < 16) by (split; [apply Z.div_pos; lia|apply Z.div_lt_upper_bound; lia]).
    rewrite (proj2 (Z.ltb_ge (224 + _) 128)) by lia. rewrite (proj2 (Z.ltb_ge _ 224)) by lia.
    rewrite (proj2 (Z.ltb_lt _ 240)) by lia. rewrite !Hcont. f_equal.
    replace ((224 + c / 4096) mod 16) with (c / 4096).
    + replace 4096 with (64 * 64) by lia. rewrite <- Z.div_div by lia.
      pose proof (Z.div_mod c 64 ltac:(lia)). pose proof (Z.div_mod (c / 64) 64 ltac:(lia)). lia.
    + rewrite <- (Z.mod_small (c / 4096) 16) at 1 by lia. rewrite <- (Z.mod_add (c / 4096) 14 16) by lia.
      f_equal. lia.
  - bool_arith. assert (0 <= c / 262144 < 8) by (split; [apply Z.div_pos; lia|apply Z.div_lt_upper_bound; lia]).
    rewrite (proj2 (Z.ltb_ge (240 + _) 128)) by lia. rewrite (proj2 (Z.ltb_ge _ 224)) by lia.
    rewrite (proj2 (Z.ltb_ge _ 240)) by lia. rewrite !Hcont. f_equal.
    replace ((240 + c / 262144) mod 8) with (c / 262144).
    + replace 262144 with (64 * 64 * 64) by lia. replace 4096 with (64 * 64) by lia.
      rewrite <- !Z.div_div by lia.
      pose proof (Z.div_mod c 64 ltac:(lia)). pose proof (Z.div_mod (c / 64) 64 ltac:(lia)).
      pose proof (Z.div_mod (c / 64 / 64) 64 ltac:(lia)). lia.
    + rewrite <- (Z.mod_small (c / 262144) 8) at 1 by lia. rewrite <- (Z.mod_add (c / 262144) 30 8) by lia.
      f_equal. lia.
Qed.

Lemma chars_of_chars cs : Forall scalar cs -> chars (of_chars cs) = cs.
Proof.
  intros Hcs. unfold chars. rewrite Text.units_of_chars by done.
  induction Hcs as [|c cs Hc _ IH]; [done|]. unfold encode_utf8. rewrite fmap_cons. cbn [concat].
  rewrite decode_encode_char by done. f_equal. exact IH.
Qed.

Lemma from_utf8_into_bytes s : utf8_valid s -> from_utf8 (into_bytes s) = Some s.
Proof.
  intros (cs & Hcs & ->). unfold from_utf8, into_bytes.
  rewrite string_of_list_byte_of_string, chars_of_chars by done.
  unfold str_eqb. rewrite bool_decide_true by done. rewrite andb_true_r.
  rewrite (proj2 (forallb_forall _ _)); [done|]. intros c Hc%list_elem_of_In.
  eapply Forall_forall in Hcs; [|done]. unfold is_scalar. unfold scalar in Hcs.
  apply orb_true_iff. rewrite !andb_true_iff, !Z.leb_le, Z.ltb_lt. lia.
Qed.

(** What [from_utf8] accepts is valid text, with exactly those bytes. *)
Lemma from_utf8_Some b s : from_utf8 b = Some s -> utf8_valid s /\ into_bytes s = b.
Proof.
  unfold from_utf8. set (t := string_of_list_byte b). destruct (_ && _) eqn:E; [|done].
  intros [= <-]. apply andb_true_iff in E as [E1 E2]. unfold str_eqb in E2. bool_arith.
  split; [|apply list_byte_of_string_of_list_byte].
  exists (chars t). split; [|done]. apply Forall_forall. intros c Hc.
  rewrite forallb_forall in E1. apply list_elem_of_In, E1 in Hc. unfold is_scalar in Hc.
  apply orb_true_iff in Hc. rewrite !andb_true_iff, !Z.leb_le, Z.ltb_lt in Hc. unfold scalar. lia.
Qed.

Lemma length_into_bytes s : blen (into_bytes s) = slen s.
Proof.
  unfold blen, slen, into_bytes, list_byte_of_string. rewrite length_map.
  f_equal. by induction s as [|a s IH]; simpl; [|rewrite IH].
Qed.

(** ** Chunks *)

Lemma chunks_spec {A} fuel n (b : list A) :
  (0 < n)%nat -> (length b <= fuel)%nat ->
  concat (chunks fuel n b) = b /\ Forall (fun c => c <> [] /\ (length c <= n)%nat) (chunks fuel n b).
Proof.
  intros Hn. revert b. induction fuel as [|fuel IH]; intros b Hb.
  - destruct b; [|simpl in Hb; lia]. done.
  - destruct b as [|x b]; [done|]. cbn [chunks]. destruct (IH (drop n (x :: b))) as [IH1 IH2].
    { rewrite length_drop. simpl in *. lia. }
    split; [cbn [concat]; by rewrite IH1, take_drop|]. constructor; [|done].
    split; [by destruct n; [lia|]|]. rewrite length_take. lia.
Qed.


Section transfer.
Context `{!TextSyntaxCore} `{!Sha256} `{!WireLimits} `{!FrameTransport} (io_error : string).

Lemma receive_part_sent cs sent out :
  send_chunks io_error cs sent = Ok out -> Forall (fun c => c <> []) cs ->
  exists f, out = sent ++ f /\
  forall fuel size b rest, blen b + blen (concat cs) = size -> size - blen b <= Z.of_nat fuel ->
    receive_part io_error fuel size b (f ++ rest) = Ok (b ++ concat cs, rest).
Proof.
  revert sent. induction cs as [|c cs IH]; intros sent; cbn [send_chunks].
  - intros [= <-] _. exists []. split; [by rewrite app_nil_r|]. intros fuel size b rest Hs _.
    simpl in Hs |- *. rewrite app_nil_r. unfold blen in Hs. simpl in Hs.
    destruct fuel; simpl; [done|]. unfold blen. rewrite (proj2 (Z.ltb_ge _ _)) by lia. done.
  - intros (w & Hw%ok_or_Ok & Hsend)%rbind_Ok [Hc Hcs]%Forall_cons.
    destruct (IH _ Hsend Hcs) as (f & -> & Hrecv). exists (w ++ f). split; [by rewrite app_assoc|].
    intros fuel size b rest Hs Hf. cbn [concat] in Hs. unfold blen in Hs. rewrite length_app in Hs.
    assert (0 < length c)%nat by (destruct c; [done|simpl; lia]).
    destruct fuel as [|fuel]; [unfold blen in Hf; lia|]. cbn [receive_part].
    rewrite (proj2 (Z.ltb_lt _ _)) by (unfold blen; lia).
    rewrite <- app_assoc, (read_write_frame _ _ _ _ Hw). simpl.
    destruct (is_empty c) eqn:Ec; [by destruct c|]. simpl.
    rewrite (proj2 (gtb_false _ _)) by (unfold blen; lia). rewrite Hrecv.
    + by rewrite <- app_assoc.
    + unfold blen. rewrite length_app. lia.
    + unfold blen in Hf |- *. rewrite length_app. lia.
Qed.

Lemma receive_part_length fuel size b recv b' rest :
  receive_part io_error fuel size b recv = Ok (b', rest) -> blen b <= size ->
  size - blen b <= Z.of_nat fuel -> blen b' = size.
Proof.
  revert b recv. induction fuel as [|fuel IH]; intros b recv; cbn [receive_part].
  - intros [= <- _]. lia.
  - destruct (blen b <? size) eqn:E; bool_arith; [|intros [= <- _]; lia].
    intros ([chunk recv'] & _ & Hres)%rbind_Ok Hb Hf. destruct (_ || _) eqn:Ec; [done|].
    apply orb_false_iff in Ec as [Ec1 Ec2%gtb_false].
    eapply IH in Hres; [done|..]; unfold blen in *; rewrite length_app.
    + lia.
    + destruct chunk; [done|]. simpl. lia.
Qed.

(** One announced part, sent and received. *)
Lemma send_part_received part sent out :
  send_chunks io_error (chunks (length part) (Z.to_nat MAX_BLOB_CHUNK_SIZE) part) sent = Ok out ->
  exists f, out = sent ++ f /\ forall rest,
    receive_part io_error (Z.to_nat (blen part)) (blen part) [] (f ++ rest) = Ok (part, rest).
Proof.
  pose proof MAX_BLOB_CHUNK_SIZE_range.
  destruct (chunks_spec (length part) (Z.to_nat MAX_BLOB_CHUNK_SIZE) part) as [Hc Hf]; [lia|lia|].
  intros Hsend. destruct (receive_part_sent _ _ _ Hsend) as (f & -> & Hrecv).
  { eapply Forall_impl; [exact Hf|]. by intros ? []. }
  rewrite Hc in Hrecv. exists f. split; [done|]. intros rest.
  rewrite Hrecv; [done|..]; unfold blen; simpl; lia.
Qed.

(** What the receiving side stores for a list of parts. *)
Fixpoint store_parts (ps : list (bytes * string)) (r : ClipboardSyncRecord)
  : result ClipboardSyncRecord string :=
  match ps with
  | [] => Ok r
  | (b, media) :: ps => let? r := store_part media b r in store_parts ps r
  end.

Definition parts_fit (ps : list (bytes * string)) (expected : list (string * Z)) : Prop :=
  Forall2 (fun p e => p.2 = e.1 /\ blen p.1 <= e.2) ps expected.

Lemma receive_parts_sent ps expected sent out r r' :
  send_parts io_error ps.*1 sent = Ok out -> parts_fit ps expected -> store_parts ps r = Ok r' ->
  exists f, out = sent ++ f /\ forall rest,
    receive_parts io_error (zip (part_ref <$> ps) expected) r (f ++ rest) = Ok (r', rest).
Proof.
  intros Hsend Hfit. revert sent r Hsend.
  induction Hfit as [|[b media] [media' limit] ps expected [Hm Hl] _ IH]; intros sent r; simpl.
  - intros [= <-] [= <-]. exists []. by rewrite app_nil_r.
  - intros (sent1 & Hpart & Hsend)%rbind_Ok (r1 & Hstore & Hstores)%rbind_Ok.
    destruct (send_part_received _ _ _ Hpart) as (f1 & -> & Hr1).
    destruct (IH _ _ Hsend Hstores) as (f2 & -> & Hr2). exists (f1 ++ f2).
    split; [by rewrite app_assoc|]. intros rest. simpl in Hm, Hl. subst media'.
    assert (blen (sha256 b) = 32) as -> by (unfold blen; by rewrite sha256_length).
    unfold str_eqb, bytes_eqb. rewrite (bool_decide_true (media = media)) by done.
    rewrite (proj2 (gtb_false _ _) Hl).
    rewrite !(bool_decide_true (sha256 b = sha256 b)) by done. simpl.
    rewrite <- app_assoc, Hr1. simpl. rewrite Hstore. simpl.
    rewrite bool_decide_true by done. apply Hr2.
Qed.
End transfer.


Section claims.
Context `{!TextSyntaxCore} `{!Sha256} `{!WireLimits} `{!FrameTransport} (io_error : string).

(** The payload a transfer carries: what the kind of the record calls for. *)
Definition payload_of (r : ClipboardSyncRecord)
  : option string * option string * option string * option bytes :=
  if deleted r then (None, None, None, None) else
  match kind r with
  | KText => (text r, None, None, None)
  | KHtml => (Some (default EmptyString (text r)), html r, rtf r, None)
  | KImage => (None, None, None, image_png r)
  | KFiles => (None, None, None, None)
  end.

Definition with_payload (r : ClipboardSyncRecord) (replica : ClipboardReplicaRecord) : ClipboardSyncRecord :=
  let '(t, h, f, i) := payload_of r in set_texts t h f i (record replica).

Definition delivered (replica : ClipboardReplicaRecord) : ClipboardReplicaRecord :=
  let r := with_payload (record replica) (stripped replica) in
  set_record (set_syntax (detect_text_syntax (default EmptyString (text r))) r) replica.

Record texts_valid (r : ClipboardSyncRecord) : Prop := {
  tv_text : forall s, text r = Some s -> utf8_valid s;
  tv_html : forall s, html r = Some s -> utf8_valid s;
  tv_rtf : forall s, rtf r = Some s -> utf8_valid s;
}.

Lemma utf8_valid_empty : utf8_valid EmptyString.
Proof. by exists []. Qed.

Lemma add_part_Ok v media limit ps ps' :
  add_part v media limit ps = Ok ps' ->
  exists b, v = Some b /\ blen b <= limit /\ ps' = ps ++ [(b, media)].
Proof.
  intros (b & ->%ok_or_Ok & Hb)%rbind_Ok. destruct (_ >? _) eqn:E; [done|].
  apply gtb_false in E. injection Hb as <-. eauto.
Qed.

Lemma fmap_into_bytes (o : option string) b :
  into_bytes <$> o = Some b -> exists s, o = Some s /\ b = into_bytes s.
Proof. destruct o as [s|]; [|done]. intros [= <-]. eauto. Qed.

(** A record's parts fit what the receiver expects and rebuild its payload. *)
Lemma record_parts_rebuild replica ps :
  record_parts (record replica) = Ok ps -> texts_valid (record replica) ->
  parts_fit ps (expected_parts (record (stripped replica)) (part_ref <$> ps))
  /\ store_parts ps (record (stripped replica)) = Ok (with_payload (record replica) (stripped replica)).
Proof.
  unfold record_parts, expected_parts, with_payload, payload_of. cbn [stripped set_record record deleted kind].
  intros Hps [T1 T2 T3]. destruct (deleted (record replica)).
  { injection Hps as <-. split; [constructor|done]. }
  destruct (kind (record replica)); [..|done].
  - apply add_part_Ok in Hps as (b & (s & Hs & ->)%fmap_into_bytes & Hb & ->).
    rewrite Hs. split; [by repeat constructor|]. simpl.
    unfold store_part. simpl. rewrite from_utf8_into_bytes by auto. done.
  - apply rbind_Ok in Hps as (ps1 & (b1 & [= <-] & Hb1 & ->)%add_part_Ok & Hps).
    apply rbind_Ok in Hps as (ps2 & (b2 & (h & Hh & ->)%fmap_into_bytes & Hb2 & ->)%add_part_Ok & Hps).
    assert (utf8_valid (default EmptyString (text (record replica)))) as Hv.
    { destruct (text (record replica)) eqn:Et; [by apply T1|apply utf8_valid_empty]. }
    rewrite Hh. destruct (rtf (record replica)) as [f|] eqn:Ef.
    + apply add_part_Ok in Hps as (b3 & [= <-] & Hb3 & ->).
      split; [by repeat constructor|]. simpl. unfold store_part. simpl.
      rewrite !from_utf8_into_bytes by auto. done.
    + injection Hps as <-. split; [by repeat constructor|]. simpl. unfold store_part. simpl.
      rewrite !from_utf8_into_bytes by auto. done.
  - apply add_part_Ok in Hps as (b & -> & Hb & ->). split; [by repeat constructor|]. done.
Qed.

Lemma with_payload_fields r replica :
  kind (with_payload r replica) = kind (record replica)
  /\ deleted (with_payload r replica) = deleted (record replica)
  /\ text (with_payload r replica) = (payload_of r).1.1.1.
Proof. unfold with_payload. by destruct (payload_of r) as [[[t h] f] i]. Qed.

(** What a receiver accepts: valid metadata, and text in a text record that is not deleted. *)
Definition acceptable (now1 now2 : Z) (replica : ClipboardReplicaRecord) : Prop :=
  metadata_valid now1 now2 replica
  /\ (kind (record replica) = KText -> deleted (record replica) = false ->
      text (record replica) <> Some EmptyString).
Lemma empty_text_check replica ps :
  record_parts (record replica) = Ok ps ->
  bool_decide (kind (record replica) = KText)
    && match (payload_of (record replica)).1.1.1 with Some s => str_is_empty s | None => true end
    && negb (deleted (record replica)) = false <->
  (kind (record replica) = KText -> deleted (record replica) = false ->
   text (record replica) <> Some EmptyString).
Proof.
  intros Hps. unfold payload_of. destruct (deleted (record replica)) eqn:Ed.
  { rewrite andb_false_r. split; [|done]. intros _ _ ?. done. }
  rewrite andb_true_r. destruct (kind (record replica)) eqn:Ek; simpl; try (by split).
  destruct (text (record replica)) as [[|c s]|] eqn:Et; simpl; [..|].
  - split; [done|]. intros Hn. by destruct (Hn eq_refl eq_refl).
  - by split.
  - unfold record_parts in Hps. by rewrite Ed, Ek, Et in Hps.
Qed.

(** C32: a replicated record arrives exactly as it was sent, or not at all.  A record that can be
    encoded and sent in chunks over a stream is received if and only if its metadata is valid at the
    receiver's clock and, in a text record that is not deleted, the text is not empty (the encoder
    checks neither); what is then received is the same metadata with the payload its kind calls for,
    less the label definitions, which travel apart, and with its syntax detected again; and the
    stream is left exactly after it. *)
Theorem replica_roundtrip now1 now2 replica w parts sent out :
  texts_valid (record replica) ->
  encode_record replica = Ok (w, parts) -> send_parts io_error parts sent = Ok out ->
  exists f, out = sent ++ f /\ forall rest x,
    receive_record io_error now1 now2 (f ++ rest) w = Ok x
    <-> acceptable now1 now2 replica /\ x = (delivered replica, rest).
Proof.
  intros HT (ps & Hps & [= <- <-])%rbind_Ok Hsend.
  destruct (record_parts_rebuild replica ps Hps HT) as [Hfit Hstore].
  destruct (receive_parts_sent io_error ps _ sent out _ _ Hsend Hfit Hstore) as (f & -> & Hrecv).
  exists f. split; [done|]. intros rest x. unfold receive_record.
  match goal with |- context [metadata_from_wire ?a ?b ?w] =>
    change (metadata_from_wire a b w) with (metadata_from_wire a b (metadata_to_wire replica)) end.
  pose proof (metadata_crosses now1 now2 replica) as Hm.
  destruct (metadata_from_wire now1 now2 (metadata_to_wire replica)) as [r|e]; last first.
  { split; [done|]. intros [[HV _] _]. discriminate (proj2 (Hm (stripped replica)) (conj HV eq_refl)). }
  destruct (proj1 (Hm r) eq_refl) as [HV ->]. cbn [rbind pr_metadata_only pr_parts].
  rewrite length_fmap, (Forall2_length _ _ _ Hfit), Nat.eqb_refl. cbn [negb].
  rewrite Hrecv. cbn [rbind].
  destruct (with_payload_fields (record replica) (stripped replica)) as (E1 & E2 & E3).
  rewrite E1, E2, E3. cbn [stripped set_record record kind deleted].
  pose proof (empty_text_check replica ps Hps) as Hempty.
  destruct (_ && negb (deleted (record replica))) eqn:Ec.
  - split; [done|]. intros [[_ Hne] _]. by apply Hempty in Hne.
  - unfold delivered. rewrite E3. split; [|by intros [_ ->]]. intros [= <-]. split; [|done].
    split; [done|by apply Hempty].
Qed.
End claims.


Section soundness.
Context `{!TextSyntaxCore} `{!Sha256} `{!WireLimits} `{!FrameTransport} (io_error : string).

Lemma receive_parts_sound refs expected r recv r' rest :
  length refs = length expected -> Forall (fun p => 0 <= ref_size p) refs ->
  receive_parts io_error (zip refs expected) r recv = Ok (r', rest) ->
  exists ps, refs = part_ref <$> ps /\ parts_fit ps expected /\ store_parts ps r = Ok r'.
Proof.
  revert expected r recv. induction refs as [|p refs IH]; intros [|[media limit] expected] r recv;
    try done; simpl.
  - intros _ _ [= <- _]. exists []. split; [done|]. split; [constructor|done].
  - intros [= Hlen] [Hp Hrefs]%Forall_cons. destruct (_ || _) eqn:E; [done|].
    apply orb_false_iff in E as [E E4]. apply orb_false_iff in E as [E E3].
    apply orb_false_iff in E as [E1 E2%gtb_false]. unfold str_eqb, bytes_eqb in E1, E4. bool_arith.
    intros ([b recv1] & Hb & Hres)%rbind_Ok. destruct (negb _) eqn:Ed; [done|].
    unfold bytes_eqb in Ed. bool_arith. apply rbind_Ok in Hres as (r1 & Hs & Hres).
    apply receive_part_length in Hb; [|unfold blen; simpl; lia|unfold blen; simpl; lia].
    destruct (IH expected r1 recv1 Hlen Hrefs Hres) as (ps & -> & Hfit & Hstore).
    exists ((b, media) :: ps). split; [|split].
    + rewrite fmap_cons. f_equal. destruct p. unfold part_ref. simpl in *. congruence.
    + constructor; [simpl; split; [done|lia]|done].
    + simpl. by rewrite Hs.
Qed.

Lemma store_part_Ok media b r r' :
  store_part media b r = Ok r' ->
  (media = "image/png" /\ r' = set_texts (text r) (html r) (rtf r) (Some b) r)
  \/ media <> "image/png" /\ exists s, into_bytes s = b
     /\ (media = "text/plain" -> r' = set_texts (Some s) (html r) (rtf r) (image_png r) r)
     /\ (media = "text/html" -> r' = set_texts (text r) (Some s) (rtf r) (image_png r) r)
     /\ (media = "text/rtf" -> r' = set_texts (text r) (html r) (Some s) (image_png r) r).
Proof.
  unfold store_part, str_eqb. case_bool_decide as E1; [intros [= <-]; by left|].
  intros (s & [_ Hs]%ok_or_Ok%from_utf8_Some & Hr)%rbind_Ok. right. split; [done|]. exists s. split; [done|].
  case_bool_decide as E2; [subst; by injection Hr as <-|].
  case_bool_decide as E3; [subst; by injection Hr as <-|].
  injection Hr as <-. split; [done|]. by split.
Qed.

Lemma add_part_fits b media limit ps :
  blen b <= limit -> add_part (Some b) media limit ps = Ok (ps ++ [(b, media)]).
Proof. intros Hb%gtb_false. unfold add_part. simpl. by rewrite Hb. Qed.

(** Storing the expected parts yields a record that encodes to the same parts. *)
Lemma store_parts_encode ps refs r r' :
  deleted r = true \/ kind r <> KFiles ->
  text r = None -> html r = None -> rtf r = None -> image_png r = None ->
  parts_fit ps (expected_parts r refs) -> store_parts ps r = Ok r' ->
  record_parts r' = Ok ps
  /\ exists t h f i, r' = set_texts t h f i r.
Proof.
  intros Hk R1 R2 R3 R4. unfold expected_parts, parts_fit.
  destruct (deleted r) eqn:Hd.
  { intros ->%Forall2_nil_inv_r [= <-]. unfold record_parts. rewrite Hd. split; [done|].
    exists (text r), (html r), (rtf r), (image_png r). by destruct r. }
  destruct Hk as [|Hk]; [done|]. destruct (kind r) eqn:Ek; [..|done].
  - intros ([b m] & l & [Hm Hl] & ->%Forall2_nil_inv_r & ->)%Forall2_cons_inv_r. simpl in *. subst m.
    intros (r1 & Hs & [= <-])%rbind_Ok. apply store_part_Ok in Hs as [[[=] _]|(_ & s & <- & Hp & _)].
    rewrite (Hp eq_refl). split; [|by eexists _, _, _, _; unfold set_texts; simpl]. unfold record_parts. simpl.
    rewrite Hd, Ek. simpl. by apply add_part_fits.
  - intros ([b1 m1] & l & [Hm1 Hl1] & Hrest & ->)%Forall2_cons_inv_r.
    apply Forall2_cons_inv_r in Hrest as ([b2 m2] & l2 & [Hm2 Hl2] & Hrest & ->).
    simpl in Hm1, Hm2, Hl1, Hl2. subst m1 m2. cbn [store_parts].
    intros (r1 & Q1 & (r2 & Q2 & Q3)%rbind_Ok)%rbind_Ok.
    apply store_part_Ok in Q1 as [[[=] _]|(_ & s1 & <- & P1 & _)]. specialize (P1 eq_refl). subst r1.
    apply store_part_Ok in Q2 as [[[=] _]|(_ & s2 & <- & _ & P2 & _)]. specialize (P2 eq_refl). subst r2.
    simpl in Q3. destruct (Nat.eqb _ 3); simpl in Hrest.
    + apply Forall2_cons_inv_r in Hrest as ([b3 m3] & l3 & [Hm3 Hl3] & ->%Forall2_nil_inv_r & ->).
      simpl in Hm3, Hl3. subst m3. cbn [store_parts] in Q3. apply rbind_Ok in Q3 as (r3 & Q3 & [= <-]).
      apply store_part_Ok in Q3 as [[[=] _]|(_ & s3 & <- & _ & _ & P3)]. rewrite (P3 eq_refl).
      split; [|by eexists _, _, _, _; unfold set_texts; simpl]. unfold record_parts. simpl. rewrite Hd, Ek.
      simpl fmap. by repeat (rewrite add_part_fits by done; simpl).
    + apply Forall2_nil_inv_r in Hrest as ->. injection Q3 as <-.
      split; [|by eexists _, _, _, _; unfold set_texts; simpl]. unfold record_parts. simpl. rewrite Hd, Ek, R3.
      simpl fmap.
      by repeat (rewrite add_part_fits by done; simpl).
  - intros ([b m] & l & [Hm Hl] & ->%Forall2_nil_inv_r & ->)%Forall2_cons_inv_r. simpl in *. subst m.
    intros (r1 & Hs & [= <-])%rbind_Ok. apply store_part_Ok in Hs as [[_ ->]|[? _]]; [|done].
    split; [|by eexists _, _, _, _; unfold set_texts; simpl]. unfold record_parts. simpl. rewrite Hd, Ek. by apply add_part_fits.
Qed.
End soundness.


Section received.
Context `{!TextSyntaxCore} `{!Sha256} `{!WireLimits} `{!FrameTransport} (io_error : string).

Lemma metadata_valid_texts now1 now2 t h f i x r :
  metadata_valid now1 now2 r ->
  metadata_valid now1 now2 (set_record (set_syntax x (set_texts t h f i (record r))) r).
Proof. intros []. by split. Qed.
Lemma record_parts_syntax x r : record_parts (set_syntax x r) = record_parts r.
Proof. done. Qed.

(** C33: nothing is stored that was not announced and validated.  Whatever bytes a peer sends after
    a record header, a record that is accepted has valid metadata, and it is either the bare
    metadata of a record that is not live, or carries exactly the parts whose sizes, digests and
    media types the header announced, within the limits of the record's kind: encoding it again
    gives those parts. *)
Theorem replica_receive_sound now1 now2 recv w r rest :
  Forall (fun p => 0 <= ref_size p) (pr_parts w) ->
  receive_record io_error now1 now2 recv w = Ok (r, rest) ->
  metadata_valid now1 now2 r
  /\ if pr_metadata_only w
     then r = stripped r /\ rest = recv /\ pr_parts w = [] /\ live (record r) = false
     else exists ps, record_parts (record r) = Ok ps /\ pr_parts w = part_ref <$> ps.
Proof.
  intros Hsize (m & Hm & Hres)%rbind_Ok. apply metadata_from_wire_Ok in Hm as (HV & Hs & _).
  cbv zeta in Hres. destruct (pr_metadata_only w).
  - destruct (_ || _) eqn:E; [done|]. injection Hres as <- <-. apply orb_false_iff in E as [E1 E2].
    split; [done|]. split; [done|]. split; [done|]. split; [by destruct (pr_parts w)|done].
  - destruct (negb _) eqn:El; [done|]. apply negb_false_iff, Nat.eqb_eq in El.
    apply rbind_Ok in Hres as ([r1 recv1] & Hparts & Hres).
    destruct (receive_parts_sound io_error _ _ _ _ _ _ El Hsize Hparts) as (ps & Hps & Hfit & Hstore).
    destruct (_ && _); [done|]. injection Hres as <- <-.
    assert (forall A (g : ClipboardSyncRecord -> A), g (record m) = g (record (stripped m))) as Hg
      by (intros; by rewrite Hs).
    destruct (store_parts_encode ps (pr_parts w) (record m) r1) as [Henc (t & h & f & i & ->)]; auto.
    { right. apply (v_kind _ _ _ HV). }
    split; [by apply metadata_valid_texts|]. exists ps. split; [|done]. simpl.
    by rewrite record_parts_syntax.
Qed.


(** Exactly the valid metadata crosses the wire.  Encoding the metadata of a record and
    decoding it succeeds if and only if the record is valid, and then gives the record without its
    payload; likewise for a label definition, which comes back unchanged. *)
Theorem replica_metadata_exact now1 now2 r r' l l' :
  (metadata_from_wire now1 now2 (metadata_to_wire r) = Ok r'
     <-> metadata_valid now1 now2 r /\ r' = stripped r)
  /\ (label_from_wire (label_to_wire l) = Ok l' <-> label_valid l /\ l' = l).
Proof.
  split; [apply metadata_crosses|split].
  - rewrite label_from_wire_Ok. intros [Hl HV].
    assert (l' = l) as -> by (destruct l, l'; by injection Hl as -> -> -> -> -> ->). done.
  - intros [HV ->]. by apply label_from_wire_Ok.
Qed.
End received.

(** ** Witnesses *)

#[local] Existing Instance toy_digest.
#[local] Existing Instance toy_limits.
#[local] Existing Instance RemoteFiles.toy_frames.
#[local] Instance toy_syntax : TextSyntaxCore :=
  {| ClipboardTextSyntax := nat; default_syntax := 0%nat; detect_text_syntax := String.length |}.

Definition wid : string := "00000000000000000000000000000000000000000000000000000000000000aF".
Definition wrecord : ClipboardReplicaRecord :=
  {| record :=
       {| sync_id := wid; kind := KHtml; text := None; html := Some "<b>hi</b>"; rtf := None;
          image_png := None; width := None; height := None; preview := "hi"; source_app := None;
          source_device_id := "left"; source_device_name := "Left"; captured_at_ms := 20;
          revision := 3; updated_by_device_id := "left"; favorite := false;
          favorite_revision := 1; favorite_updated_by_device_id := "left"; labels := [];
          label_memberships := [{| m_label_id := "work"; m_attached := true; m_revision := 2;
                                   m_updated_by_device_id := "left" |}];
          deleted := false; change_kind := ChCopy; live := true; text_syntax := 0%nat |};
     first_captured_at_ms := 10; copy_count := 1; last_used_at_ms := Some 15 |}.

Lemma wrecord_valid : metadata_valid 100 100 wrecord.
Proof.
  apply (proj1 (metadata_valid_stripped 100 100 wrecord)).
  apply (metadata_from_wire_Ok 100 100 (metadata_to_wire wrecord)). vm_compute. reflexivity.
Qed.
Lemma ascii_valid cs : Forall (fun c => 0 <= c < 128) cs -> utf8_valid (of_chars cs).
Proof.
  intros Hcs. exists cs. split; [|done]. eapply Forall_impl; [exact Hcs|]. unfold scalar. simpl. lia.
Qed.
Lemma wrecord_texts : texts_valid (record wrecord).
Proof.
  split; simpl; try done. intros s [= <-].
  apply (ascii_valid [60; 98; 62; 104; 105; 60; 47; 98; 62]). repeat (constructor; [lia|]). constructor.
Qed.
Definition wencoded : ProtoReplicaRecord * list bytes :=
  match encode_record wrecord with Ok x => x | Err _ => (metadata_to_wire wrecord, []) end.
Definition wstream : bytes :=
  match send_parts "io" wencoded.2 [] with Ok x => x | Err _ => [] end.

Lemma replica_roundtrip_witness :
  exists f, wstream = f /\ receive_record "io" 100 100 (f ++ [Byte.x07]) wencoded.1
    = Ok (delivered wrecord, [Byte.x07]).
Proof.
  destruct (replica_roundtrip "io" 100 100 wrecord wencoded.1 wencoded.2 [] wstream) as (f & Hf & Hr).
  - exact wrecord_texts.
  - vm_compute. reflexivity.
  - vm_compute. reflexivity.
  - exists f. split; [exact Hf|]. apply Hr. split; [|reflexivity]. split; [exact wrecord_valid|].
    intros Hk. discriminate Hk.
Defined.

Lemma replica_receive_sound_witness :
  exists ps, record_parts (record (delivered wrecord)) = Ok ps
    /\ pr_parts wencoded.1 = part_ref <$> ps.
Proof.
  assert (receive_record "io" 100 100 wstream wencoded.1 = Ok (delivered wrecord, [])) as Hr
    by (vm_compute; reflexivity).
  refine (proj2 (replica_receive_sound "io" 100 100 wstream wencoded.1 (delivered wrecord) [] _ Hr)).
  repeat constructor; vm_compute; discriminate.
Defined.

End ReplicaWire.
