(* ===== verification/Replication.v ===== *)
(** * Clipboard replication between desktops

    Models [src/clipboard_replication/mod.rs] and [collections.rs]: the server side of a
    replication stream ([serve_stream], [serve_request]), the client ([PeerClient]) and the
    anti-entropy reconciliation ([reconcile]).  The clipboard application service belongs to
    [arcrelay_core]: it is the record [ClipboardService] of the calls made here, each of which may
    fail and may change the state it runs on.  A QUIC exchange (open a stream, send, finish, read
    the reply) is one operation of the connection, whatever the peer answers. *)

From Stdlib Require Import ZArith Lia Ascii String.
From stdpp Require Import base tactics option list strings gmap fin_maps sorting.
From S2P Require Import Prelude Proto Text Requests RemoteFiles ReplicaWire.

Module Replication.
Import ReplicaWire.
Local Open Scope string_scope.
Local Open Scope list_scope.
Local Open Scope Z_scope.

Definition MAX_MANIFEST_RECORDS : Z := 100000.

(** ** Versions *)

(** The order of [(revision, &device)] tuples. *)
Definition ver_lt (a b : Z * string) : bool :=
  (a.1 <? b.1) || ((a.1 =? b.1) && str_ltb a.2 b.2).
Definition ver_ge (a b : Z * string) : bool := negb (ver_lt a b).

(** [Option<i64>]: [None] is below every value. *)
Definition opt_ge (a b : option Z) : bool :=
  match a, b with
  | _, None => true
  | None, Some _ => false
  | Some x, Some y => y <=? x
  end.

(** [arcrelay_core]'s collections: the fields this code reads, the update of the favorite fields,
    and their JSON. *)
Class CollectionCore `{!Requests.RequestCodes} := {
  col_id : Requests.ClipboardCollection -> string;
  col_revision : Requests.ClipboardCollection -> Z;
  col_updated_by : Requests.ClipboardCollection -> string;
  col_favorite : Requests.ClipboardCollection -> bool;
  col_favorite_revision : Requests.ClipboardCollection -> Z;
  col_favorite_updated_by : Requests.ClipboardCollection -> string;
  col_deleted : Requests.ClipboardCollection -> bool;
  col_with_favorite : bool -> Z -> string -> Requests.ClipboardCollection -> Requests.ClipboardCollection;
  col_to_json : Requests.ClipboardCollection -> option string;
  col_json_bytes : Requests.ClipboardCollection -> bytes;
}.

Section versions.
Context `{!TextSyntaxCore}.

Definition record_version (r : ClipboardSyncRecord) : Z * string :=
  (revision r, updated_by_device_id r).
Definition favorite_version (r : ClipboardSyncRecord) : Z * string :=
  (favorite_revision r, favorite_updated_by_device_id r).
Definition membership_version (m : ClipboardLabelMembership) : Z * string :=
  (m_revision m, m_updated_by_device_id m).
Definition label_version (l : ClipboardLabel) : Z * string :=
  (l_revision l, l_updated_by_device_id l).

Definition covers (current incoming : ClipboardReplicaRecord) : bool :=
  let a := record current in
  let b := record incoming in
  ver_ge (record_version a) (record_version b)
  && ver_ge (favorite_version a) (favorite_version b)
  && (captured_at_ms b <=? captured_at_ms a)
  && (first_captured_at_ms current <=? first_captured_at_ms incoming)
  && (copy_count incoming <=? copy_count current)
  && opt_ge (last_used_at_ms current) (last_used_at_ms incoming)
  && forallb (fun incoming => existsb (fun current =>
       str_eqb (m_label_id current) (m_label_id incoming)
       && ver_ge (membership_version current) (membership_version incoming))
       (label_memberships a)) (label_memberships b).

Definition needs_payload (current : option ClipboardReplicaRecord)
    (incoming : ClipboardReplicaRecord) : bool :=
  negb (deleted (record incoming))
  && match current with
     | Some c => ver_lt (record_version (record c)) (record_version (record incoming))
     | None => true
     end.
End versions.

(** ** Messages *)

Record Cursor := { cu_captured_at_ms : Z; cu_sync_id : string }.
Record ProtoCollection := { pc_format_version : Z; pc_document_json : string }.
Record CollectionPage := {
  cp_records : list ProtoCollection;
  cp_next_cursor : string;
  cp_sync_edits_and_deletes : bool;
  cp_sync_favorites : bool;
}.
Record ReplicaPage := { pg_records : list ProtoReplicaRecord; pg_next_cursor : option Cursor }.
Record ReplicaLabels := { pls_labels : list ProtoLabel; pls_next_cursor : option string }.

Inductive Request :=
| ScanCollections (after_id : string)
| StoreCollection (c : ProtoCollection)
| Revision (flag : bool)
| Scan (cursor : option Cursor) (limit : Z)
| Fetch (id : string)
| CheckRecord (header : ProtoReplicaRecord)
| StoreRecord (header : ProtoReplicaRecord)
| ScanLabels (cursor : string)
| StoreLabels (l : ReplicaLabels).
Inductive Response :=
| RCollections (page : CollectionPage)
| RChanged (n : N)
| RRevision (n : Z)
| RPage (page : ReplicaPage)
| RRecord (header : ProtoReplicaRecord)
| RLabels (l : ReplicaLabels).

Record ReplicaRequest := { rq_body : option Request }.
(** The status fields the code sets or reads. *)
Record ReplicaStatus := { rs_code : ErrorCode; rs_message : string }.
Record ReplicaResponse := { rp_status : option ReplicaStatus; rp_body : option Response }.

Definition ok (b : Response) : ReplicaResponse :=
  {| rp_status := Some {| rs_code := ECOk; rs_message := EmptyString |}; rp_body := Some b |}.
Definition failure (message : string) : ReplicaResponse :=
  {| rp_status := Some {| rs_code := ECFailedPrecondition; rs_message := message |};
     rp_body := None |}.

(** ** The application service *)

(** A fallible call on a state [W]. *)
Definition Call (W A : Type) : Type := W -> W * result A string.

Definition cret {W A} (a : A) : Call W A := fun w => (w, Ok a).
Definition cerr {W A} (e : string) : Call W A := fun w => (w, Err e).
Definition cbind {W A B} (m : Call W A) (k : A -> Call W B) : Call W B :=
  fun w => match m w with
           | (w, Ok a) => k a w
           | (w, Err e) => (w, Err e)
           end.
Definition clift {W A} (r : result A string) : Call W A := fun w => (w, r).

Notation "'do!' x ':=' m 'in' k" := (cbind m (fun x => k))
  (at level 200, x pattern, m at level 100, k at level 200, right associativity).

(** [ClipboardReplicaPage]s of the service: records, and where the next page starts. *)
Record ServicePage `{!TextSyntaxCore} := {
  sp_records : list ClipboardReplicaRecord;
  sp_next_cursor : option Cursor;
}.
Record Preferences := {
  pf_enabled : bool;
  pf_sync_edits_and_deletes : bool;
  pf_sync_favorites : bool;
}.

Record ClipboardService `{!TextSyntaxCore} `{!Requests.RequestCodes} (W : Type) := {
  sync_preferences : W -> Preferences;
  svc_revision : Call W Z;
  replica_page : option Cursor -> Z -> Call W ServicePage;
  replica_record : string -> Call W (option ClipboardReplicaRecord);
  should_send_sync_record : ClipboardSyncRecord -> W -> bool;
  check_replica_storage : ClipboardReplicaRecord -> Call W unit;
  apply_replica_record : ClipboardReplicaRecord -> Call W bool;
  replica_labels : Call W (list ClipboardLabel);
  (** The number of labels that changed, a [usize]. *)
  apply_replica_labels : list ClipboardLabel -> Call W N;
  svc_collections : string -> Call W (list Requests.ClipboardCollection);
  apply_collection : Requests.ClipboardCollection -> Call W bool;
  receive_collection : Requests.ClipboardCollection -> bool -> bool -> Call W bool;
  (** [chrono_now_ms]. *)
  wall_clock : W -> W * Z;
}.
Arguments sync_preferences {_ _ _}.
Arguments svc_revision {_ _ _}.
Arguments replica_page {_ _ _}.
Arguments replica_record {_ _ _}.
Arguments should_send_sync_record {_ _ _}.
Arguments check_replica_storage {_ _ _}.
Arguments apply_replica_record {_ _ _}.
Arguments replica_labels {_ _ _}.
Arguments apply_replica_labels {_ _ _}.
Arguments svc_collections {_ _ _}.
Arguments apply_collection {_ _ _}.
Arguments receive_collection {_ _ _}.
Arguments wall_clock {_ _ _}.

(** [metadata_from_wire] and [receive_record] read the clock. *)
Definition read_clock {W} `{!TextSyntaxCore} `{!Requests.RequestCodes} (svc : ClipboardService W)
  : Call W (Z * Z) :=
  fun w => let '(w, now1) := wall_clock svc w in
           let '(w, now2) := wall_clock svc w in (w, Ok (now1, now2)).

(** ** The server side of a stream *)

(** The service's state with the bytes still to read and the bytes sent. *)
Record Srv (W : Type) := { srv_world : W; srv_in : bytes; srv_out : bytes }.
Arguments srv_world {_}.
Arguments srv_in {_}.
Arguments srv_out {_}.
Arguments Build_Srv {_}.

Definition on_world {W A} (m : Call W A) : Call (Srv W) A :=
  fun s => let '(w, r) := m (srv_world s) in (Build_Srv w (srv_in s) (srv_out s), r).

Section collections.
Context `{!TextSyntaxCore} `{!Sha256} `{!Requests.RequestCodes} `{!CollectionCore}.

Definition fingerprint (value : Requests.ClipboardCollection) : string :=
  hex (sha256 (col_json_bytes value)).

Definition collection_decode (c : ProtoCollection) : result Requests.ClipboardCollection string :=
  Requests.collection_decode (pc_format_version c) (pc_document_json c).
Definition collection_encode (value : Requests.ClipboardCollection) : result ProtoCollection string :=
  let? _ := Requests.collection_validate value in
  let? j := ok_or (col_to_json value) "cannot encode collection" in
  Ok {| pc_format_version := 1; pc_document_json := j |}.

(** [collections::page], with the preferences it reads first and the values it then lists. *)
Definition page_refused (p : Preferences) (after : string) : option string :=
  if negb (pf_enabled p) then Some "clipboard synchronization is disabled" else
  if slen after >? 64 then Some "invalid collection cursor" else None.
Definition page_of (p : Preferences) (values : list Requests.ClipboardCollection)
  : result CollectionPage string :=
  let? records := collect_results collection_encode values in
  Ok {| cp_next_cursor := match last values with Some v => col_id v | None => EmptyString end;
        cp_records := records;
        cp_sync_edits_and_deletes := pf_sync_edits_and_deletes p;
        cp_sync_favorites := pf_sync_favorites p |}.
Definition collection_page {W} (svc : ClipboardService W) (after : string) : Call W CollectionPage :=
  fun w =>
  let p := sync_preferences svc w in
  match page_refused p after with
  | Some e => cerr e w
  | None => (do! values := svc_collections svc after in clift (page_of p values)) w
  end.
End collections.

Section server.
Context `{!TextSyntaxCore} `{!Sha256} `{!WireLimits} `{!FrameTransport}.
Context `{!Requests.RequestCodes} `{!CollectionCore}.
Context `{!ProstMessage ReplicaRequest} `{!ProstMessage ReplicaResponse}.
Context `{!ProstMessage ProtoReplicaRecord}.
Context (io_error : string) {W : Type} (svc : ClipboardService W).

(** [write] and [read]: a protobuf message in a frame. *)
Definition write_response (r : ReplicaResponse) : Call (Srv W) unit := fun s =>
  match write_frame MAX_CONTROL_FRAME_SIZE (encode_to_vec r) with
  | Some f => (Build_Srv (srv_world s) (srv_in s) (srv_out s ++ f), Ok tt)
  | None => (s, Err io_error)
  end.
Definition read_request : Call (Srv W) ReplicaRequest := fun s =>
  match read_frame MAX_CONTROL_FRAME_SIZE (srv_in s) with
  | None => (s, Err io_error)
  | Some (b, rest) =>
    (Build_Srv (srv_world s) rest (srv_out s),
     ok_or (prost_decode b) "invalid clipboard replication frame")
  end.

(** The loop that fills a manifest page up to half a control frame. *)
Fixpoint fill_page (size : Z) (acc : list ProtoReplicaRecord) (next : option Cursor)
    (rs : list ClipboardReplicaRecord) : ReplicaPage :=
  match rs with
  | [] => {| pg_records := acc; pg_next_cursor := next |}
  | r :: rs =>
    let wire := metadata_to_wire r in
    if negb (is_empty acc)
       && (size + blen (encode_to_vec wire) >? MAX_CONTROL_FRAME_SIZE / 2)
    then {| pg_records := acc;
            pg_next_cursor :=
              last acc ≫= fun x => pr_metadata x ≫= fun m =>
                Some {| cu_captured_at_ms := p_captured_at_ms m; cu_sync_id := p_sync_id m |} |}
    else fill_page (size + blen (encode_to_vec wire)) (acc ++ [wire]) next rs
  end.

(** [limit.clamp(1, 100)]. *)
Definition clamp (lo hi x : Z) : Z := Z.max lo (Z.min hi x).

(** A page of the label dictionary after [cursor]. *)
Definition label_page (cursor : string) (ls : list ClipboardLabel) : ReplicaLabels :=
  let ls := sort_by (fun a b => str_leb (l_id a) (l_id b)) ls in
  let ls := filter (fun l => str_ltb cursor (l_id l) = true) ls in
  let more := Nat.ltb 100 (length ls) in
  let ls := take 100 ls in
  {| pls_labels := label_to_wire <$> ls;
     pls_next_cursor := if more then l_id <$> last ls else None |}.

(** The labels of a [StoreLabels] page, without repetition. *)
Fixpoint labels_from_wire (ids : gset string) (ls : list ProtoLabel)
  : result (list ClipboardLabel) string :=
  match ls with
  | [] => Ok []
  | l :: ls =>
    if bool_decide (pl_id l ∈ ids) then Err "duplicate clipboard label" else
    let? x := label_from_wire l in
    let? xs := labels_from_wire ({[pl_id l]} ∪ ids) ls in
    Ok (x :: xs)
  end.

(** [receive_record] on the stream. *)
Definition receive (header : ProtoReplicaRecord) : Call (Srv W) ClipboardReplicaRecord :=
  do! (now1, now2) := on_world (read_clock svc) in
  fun s =>
  match receive_record io_error now1 now2 (srv_in s) header with
  | Ok (r, rest) => (Build_Srv (srv_world s) rest (srv_out s), Ok r)
  | Err e => (s, Err e)
  end.
Definition send_payload (parts : list bytes) : Call (Srv W) unit := fun s =>
  match send_parts io_error parts (srv_out s) with
  | Ok out => (Build_Srv (srv_world s) (srv_in s) out, Ok tt)
  | Err e => (s, Err e)
  end.

Definition serve_request (request : ReplicaRequest) : Call (Srv W) unit :=
  do! body := clift (ok_or (rq_body request) "missing clipboard request") in
  match body with
  | ScanCollections after_id =>
    do! page := on_world (collection_page svc after_id) in
    write_response (ok (RCollections page))
  | StoreCollection c =>
    do! value := clift (collection_decode c) in
    do! changed := on_world (apply_collection svc value) in
    write_response (ok (RChanged (if changed : bool then 1 else 0)%N))
  | Revision _ =>
    do! n := on_world (svc_revision svc) in
    write_response (ok (RRevision n))
  | Scan cursor limit =>
    do! page := on_world (replica_page svc cursor (clamp 1 100 limit)) in
    write_response (ok (RPage (fill_page 0 [] (sp_next_cursor page) (sp_records page))))
  | Fetch id =>
    do! found := on_world (replica_record svc id) in
    do! replica := clift (ok_or found "clipboard record no longer exists") in
    fun s =>
    (if negb (should_send_sync_record svc (record replica) (srv_world s))
     then cerr "clipboard synchronization is disabled for this record" else
     do! (header, parts) := clift (encode_record replica) in
     do! _ := write_response (ok (RRecord header)) in
     send_payload parts) s
  | CheckRecord header =>
    do! (now1, now2) := on_world (read_clock svc) in
    do! replica := clift (metadata_from_wire now1 now2 header) in
    do! _ := on_world (check_replica_storage svc replica) in
    write_response (ok (RChanged 1%N))
  | StoreRecord header =>
    do! replica := receive header in
    do! changed := on_world (apply_replica_record svc replica) in
    write_response (ok (RChanged (if changed : bool then 1 else 0)%N))
  | ScanLabels cursor =>
    do! ls := on_world (replica_labels svc) in
    write_response (ok (RLabels (label_page cursor ls)))
  | StoreLabels l =>
    if Nat.ltb 100 (length (pls_labels l)) then cerr "clipboard label page exceeds limit" else
    do! ls := clift (labels_from_wire ∅ (pls_labels l)) in
    do! changed := on_world (apply_replica_labels svc ls) in
    write_response (ok (RChanged (changed mod 2 ^ 32)%N))
  end.

(** [serve_stream]; its 60 s timeout is left out. *)
Definition serve_stream : Call (Srv W) unit := fun s =>
  (if negb (pf_enabled (sync_preferences svc (srv_world s)))
   then write_response (failure "clipboard synchronization is disabled") else
   do! request := read_request in
   fun s => match serve_request request s with
            | (s, Ok _) => (s, Ok tt)
            | (s, Err e) => write_response (failure e) s
            end) s.
End server.


(** ** The client *)

Section client.
Context `{!TextSyntaxCore} `{!Sha256} `{!WireLimits} `{!FrameTransport}.
Context `{!Requests.RequestCodes} `{!CollectionCore}.
Context `{!ProstMessage ReplicaRequest} `{!ProstMessage ReplicaResponse}.
Context (io_error : string) (STREAM_KIND_CLIPBOARD_REPLICA : Byte.byte).
Context {W : Type} (svc : ClipboardService W).
(** A bidirectional stream: open it, send these bytes, finish, and read the reply's bytes. *)
Context (exchange : bytes -> Call W bytes).

(** [PeerClient::request]: the response's body and what follows it on the stream. *)
Definition request (body : Request) (parts : list bytes) : Call W (Response * bytes) :=
  do! frame := clift (ok_or (write_frame MAX_CONTROL_FRAME_SIZE
                 (encode_to_vec {| rq_body := Some body |})) io_error) in
  do! sent := clift (send_parts io_error parts (STREAM_KIND_CLIPBOARD_REPLICA :: frame)) in
  do! reply := exchange sent in
  do! (b, rest) := clift (ok_or (read_frame MAX_CONTROL_FRAME_SIZE reply) io_error) in
  do! response := clift (ok_or (prost_decode (M := ReplicaResponse) b)
                    "invalid clipboard replication frame") in
  do! status := clift (ok_or (rp_status response) "clipboard response has no status") in
  if negb (bool_decide (rs_code status = ECOk)) then cerr (rs_message status) else
  do! body := clift (ok_or (rp_body response) "clipboard response has no body") in
  cret (body, rest).

Definition peer_revision : Call W Z :=
  do! (body, _) := request (Revision true) [] in
  match body with
  | RRevision n => cret n
  | _ => cerr "invalid clipboard revision response"
  end.

Definition fetch (id : string) : Call W ClipboardReplicaRecord :=
  do! (body, recv) := request (Fetch id) [] in
  match body with
  | RRecord header =>
    if match pr_metadata header with Some m => negb (str_eqb (p_sync_id m) id) | None => true end
    then cerr "clipboard response record mismatch" else
    do! (now1, now2) := read_clock svc in
    do! (r, _) := clift (receive_record io_error now1 now2 recv header) in
    cret r
  | _ => cerr "invalid clipboard record response"
  end.

(** The [for] over pages of label definitions in [send_record]. *)
Fixpoint send_definitions (pages : list (list ClipboardLabel)) : Call W unit :=
  match pages with
  | [] => cret tt
  | ls :: pages =>
    do! _ := request (StoreLabels {| pls_labels := label_to_wire <$> ls; pls_next_cursor := None |}) [] in
    send_definitions pages
  end.

Definition send_record (replica : ClipboardReplicaRecord) (include_payload : bool) : Call W bool :=
  do! _ := (if include_payload && negb (live (record replica))
            then do! _ := request (CheckRecord (metadata_to_wire replica)) [] in cret tt
            else cret tt) in
  let definitions := filter (fun l => existsb (fun m => str_eqb (m_label_id m) (l_id l))
                       (label_memberships (record replica)) = true) (labels (record replica)) in
  do! _ := send_definitions (chunks (length definitions) 100 definitions) in
  do! (header, parts) := (if include_payload then clift (encode_record replica)
                          else cret (metadata_to_wire replica, [])) in
  do! (body, _) := request (StoreRecord header) parts in
  match body with
  | RChanged changed => cret (0 <? changed)%N
  | _ => cerr "invalid clipboard receipt"
  end.
End client.

(** ** Reconciliation *)

Record ReconciliationResult := {
  collection_receipts : gmap string string;
  received : Z;
  sent : Z;
  labels_received : Z;
  labels_sent : Z;
  failed : Z;
  total_records : Z;
  converged : bool;
  local_revision : Z;
  remote_revision : Z;
  errors : list string;
  differences : Z;
}.
Definition default_result : ReconciliationResult :=
  {| collection_receipts := ∅; received := 0; sent := 0; labels_received := 0; labels_sent := 0;
     failed := 0; total_records := 0; converged := false; local_revision := 0;
     remote_revision := 0; errors := []; differences := 0 |}.

(** [result.failure]. *)
Definition record_failure `{!Sha256} (id error : string) (r : ReconciliationResult)
  : ReconciliationResult :=
  let record_id := hex (take 6 (sha256 (into_bytes id))) in
  {| collection_receipts := collection_receipts r; received := received r; sent := sent r;
     labels_received := labels_received r; labels_sent := labels_sent r; failed := failed r + 1;
     total_records := total_records r; converged := converged r;
     local_revision := local_revision r; remote_revision := remote_revision r;
     errors := if Nat.ltb (length (errors r)) 8
               then errors r ++ [(record_id +:+ ": " +:+ error)%string] else errors r;
     differences := differences r |}.

(** Additions to the counters. *)
Definition count (rc st lr ls df : Z) (r : ReconciliationResult) : ReconciliationResult :=
  {| collection_receipts := collection_receipts r; received := received r + rc;
     sent := sent r + st; labels_received := labels_received r + lr;
     labels_sent := labels_sent r + ls; failed := failed r; total_records := total_records r;
     converged := converged r; local_revision := local_revision r;
     remote_revision := remote_revision r; errors := errors r; differences := differences r + df |}.
Definition count_received (n : Z) := count n 0 0 0 0.
Definition count_sent (n : Z) := count 0 n 0 0 0.
Definition count_labels_received (n : Z) := count 0 0 n 0 0.
Definition count_labels_sent (n : Z) := count 0 0 0 n 0.
Definition count_differences (n : Z) := count 0 0 0 0 n.

Definition set_receipts (m : gmap string string) (r : ReconciliationResult) : ReconciliationResult :=
  {| collection_receipts := m; received := received r; sent := sent r;
     labels_received := labels_received r; labels_sent := labels_sent r; failed := failed r;
     total_records := total_records r; converged := converged r;
     local_revision := local_revision r; remote_revision := remote_revision r;
     errors := errors r; differences := differences r |}.
Definition set_total (n : Z) (r : ReconciliationResult) : ReconciliationResult :=
  {| collection_receipts := collection_receipts r; received := received r; sent := sent r;
     labels_received := labels_received r; labels_sent := labels_sent r; failed := failed r;
     total_records := n; converged := converged r;
     local_revision := local_revision r; remote_revision := remote_revision r;
     errors := errors r; differences := differences r |}.
Definition set_converged (local remote : Z) (r : ReconciliationResult) : ReconciliationResult :=
  {| collection_receipts := collection_receipts r; received := received r; sent := sent r;
     labels_received := labels_received r; labels_sent := labels_sent r; failed := failed r;
     total_records := total_records r; converged := true; local_revision := local;
     remote_revision := remote; errors := errors r; differences := differences r |}.

(** A reconciliation step: it changes the world and the result, and its loops may still be
    running when the fuel ends ([Pending]). *)
Inductive outcome (A : Type) := Value (a : A) | Error (message : string) | Pending.
Arguments Value {A} a.
Arguments Error {A} message.
Arguments Pending {A}.

Definition R (W A : Type) : Type :=
  W * ReconciliationResult -> (W * ReconciliationResult) * outcome A.
Definition Rret {W A} (a : A) : R W A := fun s => (s, Value a).
Definition Rerr {W A} (e : string) : R W A := fun s => (s, Error e).
Definition Rpending {W A} : R W A := fun s => (s, Pending).
Definition Rbind {W A B} (m : R W A) (k : A -> R W B) : R W B :=
  fun s => match m s with
           | (s, Value a) => k a s
           | (s, Error e) => (s, Error e)
           | (s, Pending) => (s, Pending)
           end.
Definition modify {W} (f : ReconciliationResult -> ReconciliationResult) : R W unit :=
  fun s => ((s.1, f s.2), Value tt).
(** A call whose error ends the pass ([?]), and one whose error is handled on the spot. *)
Definition run {W A} (m : Call W A) : R W A :=
  fun s => match m s.1 with
           | (w, Ok a) => ((w, s.2), Value a)
           | (w, Err e) => ((w, s.2), Error e)
           end.
Definition attempt {W A} (m : Call W A) : R W (result A string) :=
  fun s => let '(w, r) := m s.1 in ((w, s.2), Value r).

Notation "'let!' x ':=' m 'in' k" := (Rbind m (fun x => k))
  (at level 200, x pattern, m at level 100, k at level 200, right associativity).


(** A manifest: the records of one side by their id. *)
Abbreviation Manifest := (gmap string ClipboardReplicaRecord).

Section reconcile.
Context `{!TextSyntaxCore} `{!Sha256} `{!WireLimits} `{!FrameTransport}.
Context `{!Requests.RequestCodes} `{!CollectionCore}.
Context `{!ProstMessage ReplicaRequest} `{!ProstMessage ReplicaResponse}.
Context (io_error : string) (STREAM_KIND_CLIPBOARD_REPLICA : Byte.byte).
Context {W : Type} (svc : ClipboardService W) (exchange : bytes -> Call W bytes).

Definition ask (body : Request) : Call W Response :=
  do! (response, _) := request io_error STREAM_KIND_CLIPBOARD_REPLICA exchange body [] in
  cret response.

(** *** Collections *)

(** The records of one page of the peer's collections, in the order of their ids. *)
Fixpoint receive_collections (cursor : string) (edits favorites : bool)
    (remote : gmap string Requests.ClipboardCollection) (records : list ProtoCollection)
  : R W (gmap string Requests.ClipboardCollection) :=
  match records with
  | [] => Rret remote
  | wire :: records =>
    let! value := run (clift (collection_decode wire)) in
    if str_leb (col_id value) cursor then Rerr "invalid collection order" else
    let! changed := run (receive_collection svc value edits favorites) in
    let n := if changed : bool then 1 else 0 in
    let! _ := modify (count_received n) in
    let! _ := modify (count_differences n) in
    receive_collections cursor edits favorites (<[col_id value := value]> remote) records
  end.

Fixpoint scan_collections (fuel : nat) (cursor : string)
    (remote : gmap string Requests.ClipboardCollection)
  : R W (gmap string Requests.ClipboardCollection * bool * bool) :=
  match fuel with
  | O => Rpending
  | S fuel =>
    let! response := run (ask (ScanCollections cursor)) in
    match response with
    | RCollections page =>
      let edits := cp_sync_edits_and_deletes page in
      let favorites := cp_sync_favorites page in
      let! remote := receive_collections cursor edits favorites remote (cp_records page) in
      if Z.of_nat (size remote) >? 10000 then Rerr "too many collections" else
      if str_is_empty (cp_next_cursor page) then Rret (remote, edits, favorites) else
      if str_leb (cp_next_cursor page) cursor then Rerr "invalid collection cursor" else
      scan_collections fuel (cp_next_cursor page) remote
    | _ => Rerr "invalid collection page"
    end
  end.

Definition col_version (c : Requests.ClipboardCollection) : Z * string :=
  (col_revision c, col_updated_by c).
Definition col_favorite_version (c : Requests.ClipboardCollection) : Z * string :=
  (col_favorite_revision c, col_favorite_updated_by c).

(** What is sent of a local collection, if anything: [old] is the peer's version. *)
Definition outgoing_collection (p : Preferences) (edits favorites : bool)
    (old : option Requests.ClipboardCollection) (value : Requests.ClipboardCollection)
  : option (result Requests.ClipboardCollection string) :=
  let send_content :=
    match old with
    | None => true
    | Some r => pf_sync_edits_and_deletes p && edits && ver_lt (col_version r) (col_version value)
    end in
  let send_favorite :=
    pf_sync_favorites p && favorites
    && match old with
       | Some r => ver_lt (col_favorite_version r) (col_favorite_version value)
       | None => false
       end in
  if negb send_content && negb send_favorite then None else
  if col_deleted value && (negb (pf_sync_edits_and_deletes p) || negb edits) then None else
  Some (
    let? outgoing := (if send_content then Ok value
                      else ok_or old "collection version missing") in
    Ok (if pf_sync_favorites p && favorites then
          col_with_favorite (col_favorite value) (col_favorite_revision value)
            (col_favorite_updated_by value) outgoing
        else match old with
             | Some old => col_with_favorite (col_favorite old) (col_favorite_revision old)
                             (col_favorite_updated_by old) outgoing
             | None => col_with_favorite false 0 EmptyString outgoing
             end)).

Fixpoint send_collections (p : Preferences) (edits favorites : bool)
    (remote : gmap string Requests.ClipboardCollection) (cursor : string)
    (page : list Requests.ClipboardCollection) : R W string :=
  match page with
  | [] => Rret cursor
  | value :: page =>
    let cursor := col_id value in
    let! _ :=
      match outgoing_collection p edits favorites (remote !! col_id value) value with
      | None => Rret tt
      | Some outgoing =>
        let! outgoing := run (clift outgoing) in
        let! wire := run (clift (collection_encode outgoing)) in
        let! response := run (ask (StoreCollection wire)) in
        match response with
        | RChanged changed =>
          let! _ := modify (count_sent (Z.of_N changed)) in
          modify (count_differences (Z.of_N changed))
        | _ => Rerr "invalid collection receipt"
        end
      end in
    send_collections p edits favorites remote cursor page
  end.

Fixpoint push_collections (fuel : nat) (p : Preferences) (edits favorites : bool)
    (remote : gmap string Requests.ClipboardCollection) (cursor : string) : R W unit :=
  match fuel with
  | O => Rpending
  | S fuel =>
    let! page := run (svc_collections svc cursor) in
    if is_empty page then Rret tt else
    let! cursor := send_collections p edits favorites remote cursor page in
    push_collections fuel p edits favorites remote cursor
  end.

Definition reconcile_collections (fuel : nat) : R W unit :=
  let! (remote, edits, favorites) := scan_collections fuel EmptyString ∅ in
  let! _ := modify (set_receipts (fingerprint <$> remote)) in
  fun s => push_collections fuel (sync_preferences svc s.1) edits favorites remote EmptyString s.

(** *** Labels *)

Fixpoint scan_labels (fuel : nat) (label_cursor : string) (remote_labels : gmap string ClipboardLabel)
  : R W (gmap string ClipboardLabel) :=
  match fuel with
  | O => Rpending
  | S fuel =>
    let! response := run (ask (ScanLabels label_cursor)) in
    match response with
    | RLabels page =>
      let! ls := run (clift (collect_results label_from_wire (pls_labels page))) in
      let remote_labels := foldl (fun m l => <[l_id l := l]> m) remote_labels ls in
      let! changed := run (apply_replica_labels svc ls) in
      let! _ := modify (count_labels_received (Z.of_N changed)) in
      let! _ := modify (count_differences (Z.of_N changed)) in
      match pls_next_cursor page with
      | None => Rret remote_labels
      | Some next =>
        if str_leb next label_cursor || (Z.of_nat (size remote_labels) >? 10000)
        then Rerr "invalid clipboard labels cursor"
        else scan_labels fuel next remote_labels
      end
    | _ => Rerr "invalid clipboard labels response"
    end
  end.

(** Whether the peer lacks this version of a label. *)
Definition label_missing (remote_labels : gmap string ClipboardLabel) (l : ClipboardLabel) : bool :=
  match remote_labels !! l_id l with
  | Some r => ver_lt (label_version r) (label_version l)
  | None => true
  end.

Fixpoint push_labels (pages : list (list ClipboardLabel)) : R W unit :=
  match pages with
  | [] => Rret tt
  | ls :: pages =>
    let! response := run (ask (StoreLabels {| pls_labels := label_to_wire <$> ls;
                                              pls_next_cursor := None |})) in
    match response with
    | RChanged changed =>
      let! _ := modify (count_labels_sent (Z.of_N changed)) in
      let! _ := modify (count_differences (Z.of_nat (length ls))) in
      push_labels pages
    | _ => Rerr "invalid clipboard label receipt"
    end
  end.

Definition reconcile_labels (fuel : nat) : R W unit :=
  let! remote_labels := scan_labels fuel EmptyString ∅ in
  let! ls := run (replica_labels svc) in
  let ls := filter (fun l => label_missing remote_labels l = true) ls in
  push_labels (chunks (length ls) 100 ls).

(** *** Records *)



Definition add_records (rs : list ClipboardReplicaRecord) (m : Manifest) : Manifest :=
  foldl (fun m r => <[sync_id (record r) := r]> m) m rs.

Fixpoint local_manifest_from (fuel : nat) (cursor : option Cursor) (records : Manifest) : R W Manifest :=
  match fuel with
  | O => Rpending
  | S fuel =>
    let! page := run (replica_page svc cursor 100) in
    let records := add_records (sp_records page) records in
    if Z.of_nat (size records) >? MAX_MANIFEST_RECORDS
    then Rerr "clipboard manifest exceeds safety limit" else
    match sp_next_cursor page with
    | None => Rret records
    | Some c => local_manifest_from fuel (Some c) records
    end
  end.
Definition local_manifest (fuel : nat) : R W Manifest := local_manifest_from fuel None ∅.

(** The block [apply] for one record the peer lists. *)
Definition pull_record (local : Manifest) (r : ClipboardReplicaRecord) : Call W bool :=
  do! _ := check_replica_storage svc r in
  do! r := (if needs_payload (local !! sync_id (record r)) r
            then fetch io_error STREAM_KIND_CLIPBOARD_REPLICA svc exchange (sync_id (record r))
            else cret r) in
  apply_replica_record svc r.

(** The records of one page of the peer's manifest. *)
Fixpoint pull_records (local remote : Manifest) (headers : list ProtoReplicaRecord) : R W Manifest :=
  match headers with
  | [] => Rret remote
  | header :: headers =>
    let id := match pr_metadata header with Some m => p_sync_id m | None => EmptyString end in
    let! (now1, now2) := run (read_clock svc) in
    match metadata_from_wire now1 now2 header with
    | Err error =>
      let! _ := modify (record_failure id error) in pull_records local remote headers
    | Ok r =>
      let id := sync_id (record r) in
      let! _ :=
        if negb match local !! id with Some l => covers l r | None => false end then
          let! _ := modify (count_differences 1) in
          let! applied := attempt (pull_record local r) in
          match applied with
          | Ok true => modify (count_received 1)
          | Ok false => Rret tt
          | Err error => modify (record_failure id error)
          end
        else Rret tt in
      let remote := <[id := r]> remote in
      if Z.of_nat (size remote) >? MAX_MANIFEST_RECORDS
      then Rerr "clipboard manifest exceeds safety limit"
      else pull_records local remote headers
    end
  end.

(** The position of a cursor, in the order of pages: later pages are lower. *)
Definition cursor_key (c : Cursor) : Z * string := (cu_captured_at_ms c, cu_sync_id c).

Fixpoint scan_records (fuel : nat) (local : Manifest) (cursor : option Cursor) (remote : Manifest)
  : R W Manifest :=
  match fuel with
  | O => Rpending
  | S fuel =>
    let! response := run (ask (Scan cursor 100)) in
    match response with
    | RPage page =>
      let! remote := pull_records local remote (pg_records page) in
      match pg_next_cursor page with
      | None => Rret remote
      | Some next =>
        if match cursor with Some old => ver_ge (cursor_key next) (cursor_key old) | None => false end
        then Rerr "invalid clipboard manifest cursor"
        else scan_records fuel local (Some next) remote
      end
    | _ => Rerr "invalid clipboard manifest response"
    end
  end.

(** The block [send] for one local record. *)
Definition push_record (remote : Manifest) (metadata : ClipboardReplicaRecord) : Call W bool :=
  let id := sync_id (record metadata) in
  let include_payload := needs_payload (remote !! id) metadata in
  do! replica :=
    (if include_payload then
       do! found := replica_record svc id in
       clift (ok_or found "clipboard record was removed during synchronization")
     else cret metadata) in
  send_record io_error STREAM_KIND_CLIPBOARD_REPLICA exchange replica include_payload.

Fixpoint push_records (remote : Manifest) (local : list ClipboardReplicaRecord) : R W unit :=
  match local with
  | [] => Rret tt
  | metadata :: local =>
    let id := sync_id (record metadata) in
    if match remote !! id with Some r => covers r metadata | None => false end
    then push_records remote local
    else
      let! _ := modify (count_differences 1) in
      let! pushed := attempt (push_record remote metadata) in
      let! _ := match pushed with
                | Ok true => modify (count_sent 1)
                | Ok false => Rret tt
                | Err error => modify (record_failure id error)
                end in
      push_records remote local
  end.

(** Newest first, as the local records are sent. *)
Definition newest_first (a b : ClipboardReplicaRecord) : bool :=
  ver_ge (captured_at_ms (record a), sync_id (record a)) (captured_at_ms (record b), sync_id (record b)).

Definition reconcile_records (fuel : nat) : R W unit :=
  let! local := local_manifest fuel in
  let! remote := scan_records fuel local None ∅ in
  let! local := local_manifest fuel in
  let local := sort_by newest_first (map_to_list local).*2 in
  let! _ := modify (set_total (Z.of_nat (length (filter (fun r => deleted (record r) = false) local)))) in
  push_records remote local.

(** *** Passes *)

Definition reconcile_once (fuel : nat) : R W unit :=
  let! _ := reconcile_collections fuel in
  let! _ := reconcile_labels fuel in
  reconcile_records fuel.

(** The block [pass]. *)
Definition reconcile_pass (fuel : nat) : R W bool :=
  let! local_before := run (svc_revision svc) in
  let! remote_before := run (peer_revision io_error STREAM_KIND_CLIPBOARD_REPLICA exchange) in
  fun s =>
  let before := differences s.2 in
  (let! _ := reconcile_once fuel in
   fun s =>
   if failed s.2 >? 0 then (s, Value false) else
   (let! local_after := run (svc_revision svc) in
    let! remote_after := run (peer_revision io_error STREAM_KIND_CLIPBOARD_REPLICA exchange) in
    fun s =>
    if (before =? differences s.2) && (local_before =? local_after)
       && (remote_before =? remote_after)
    then ((s.1, set_converged local_after remote_after s.2), Value true)
    else (s, Value (converged s.2))) s) s.

Fixpoint reconcile_passes (passes fuel : nat) : R W unit :=
  match passes with
  | O => Rret tt
  | S passes => fun s =>
    match reconcile_pass fuel s with
    | (s, Value true) => (s, Value tt)
    | (s, Value false) => if failed s.2 >? 0 then (s, Value tt) else reconcile_passes passes fuel s
    | (s, Error error) => ((s.1, record_failure "connection" error s.2), Value tt)
    | (s, Pending) => (s, Pending)
    end
  end.

(** [reconcile]: the result, or [None] while a loop is still running. *)
Definition reconcile (fuel : nat) (w : W) : W * option ReconciliationResult :=
  match reconcile_passes 3 fuel (w, default_result) with
  | ((w, r), Pending) => (w, None)
  | ((w, r), _) => (w, Some r)
  end.
End reconcile.


(** ** Versions are totally ordered *)

Lemma ascii_compare_refl a : Ascii.compare a a = Eq.
Proof. unfold Ascii.compare. apply N.compare_refl. Qed.
Lemma ascii_compare_trans a b c :
  Ascii.compare a b = Lt -> Ascii.compare b c = Lt -> Ascii.compare a c = Lt.
Proof. unfold Ascii.compare. rewrite !N.compare_lt_iff. lia. Qed.

Lemma str_cmp_refl s : str_cmp s s = Eq.
Proof. unfold str_cmp. induction s as [|a s IH]; [done|]. simpl. by rewrite ascii_compare_refl. Qed.

Lemma str_cmp_Eq s t : str_cmp s t = Eq <-> s = t.
Proof. split; [apply String.compare_eq_iff|]. intros ->. apply str_cmp_refl. Qed.

Lemma str_cmp_trans s t u : str_cmp s t = Lt -> str_cmp t u = Lt -> str_cmp s u = Lt.
Proof.
  unfold str_cmp. revert t u. induction s as [|a s IH]; intros [|b t] [|c u]; simpl; try done.
  destruct (Ascii.compare a b) eqn:E1, (Ascii.compare b c) eqn:E2; try done.
  - apply Ascii.compare_eq_iff in E1 as ->, E2 as ->. rewrite ascii_compare_refl. apply IH.
  - apply Ascii.compare_eq_iff in E1 as ->. by rewrite E2.
  - apply Ascii.compare_eq_iff in E2 as <-. by rewrite E1.
  - by rewrite (ascii_compare_trans _ _ _ E1 E2).
Qed.

Lemma str_ltb_irrefl s : str_ltb s s = false.
Proof. unfold str_ltb. by rewrite str_cmp_refl. Qed.
Lemma str_ltb_trans s t u : str_ltb s t = true -> str_ltb t u = true -> str_ltb s u = true.
Proof.
  unfold str_ltb. destruct (str_cmp s t) eqn:E1; try done. destruct (str_cmp t u) eqn:E2; try done.
  by rewrite (str_cmp_trans _ _ _ E1 E2).
Qed.
Lemma str_ltb_total s t : str_ltb s t = true \/ s = t \/ str_ltb t s = true.
Proof.
  unfold str_ltb, str_cmp. rewrite (String.compare_antisym t s).
  destruct (String.compare s t) eqn:E; simpl; auto. apply String.compare_eq_iff in E. auto.
Qed.
Lemma str_leb_ltb s t : str_leb s t = negb (str_ltb t s).
Proof.
  unfold str_leb, str_ltb, str_cmp. rewrite (String.compare_antisym t s).
  by destruct (String.compare s t).
Qed.

Lemma ver_lt_spec a b : ver_lt a b = true <-> a.1 < b.1 \/ (a.1 = b.1 /\ str_ltb a.2 b.2 = true).
Proof. unfold ver_lt. by rewrite orb_true_iff, andb_true_iff, Z.ltb_lt, Z.eqb_eq. Qed.
Lemma ver_lt_irrefl a : ver_lt a a = false.
Proof.
  destruct (ver_lt a a) eqn:E; [|done]. apply ver_lt_spec in E as [?|[_ E]]; [lia|].
  by rewrite str_ltb_irrefl in E.
Qed.
Lemma ver_lt_trans a b c : ver_lt a b = true -> ver_lt b c = true -> ver_lt a c = true.
Proof.
  rewrite !ver_lt_spec. intros [?|[E1 L1]] [?|[E2 L2]]; [left; lia..|].
  right. split; [lia|]. by eapply str_ltb_trans.
Qed.
Lemma ver_lt_total a b : ver_lt a b = true \/ a = b \/ ver_lt b a = true.
Proof.
  rewrite !ver_lt_spec. destruct a as [x s], b as [y t]. simpl.
  destruct (Z.lt_trichotomy x y) as [?|[->|?]]; auto.
  destruct (str_ltb_total s t) as [?|[->|?]]; auto.
Qed.

Lemma ver_ge_refl a : ver_ge a a = true.
Proof. unfold ver_ge. by rewrite ver_lt_irrefl. Qed.
Lemma ver_ge_cases a b : ver_ge a b = true <-> a = b \/ ver_lt b a = true.
Proof.
  unfold ver_ge. rewrite negb_true_iff. split.
  - intros E. destruct (ver_lt_total a b) as [?|[?|?]]; [congruence|auto|auto].
  - intros [->|H]; [apply ver_lt_irrefl|]. destruct (ver_lt a b) eqn:E; [|done].
    pose proof (ver_lt_trans _ _ _ E H) as Hc. by rewrite ver_lt_irrefl in Hc.
Qed.
Lemma ver_ge_trans a b c : ver_ge a b = true -> ver_ge b c = true -> ver_ge a c = true.
Proof.
  rewrite !ver_ge_cases. intros [->|H1] [->|H2]; auto. right. by eapply ver_lt_trans.
Qed.
Lemma ver_ge_antisym a b : ver_ge a b = true -> ver_ge b a = true -> a = b.
Proof.
  rewrite !ver_ge_cases. intros [?|H1] [?|H2]; auto.
  pose proof (ver_lt_trans _ _ _ H1 H2) as Hc. by rewrite ver_lt_irrefl in Hc.
Qed.
#[local] Hint Resolve ver_ge_refl ver_ge_trans : core.

(** ** What covering means *)

Section covering.
Context `{!TextSyntaxCore}.

(** The membership half of [covers]. *)
Definition members_covered (a b : list ClipboardLabelMembership) : Prop :=
  forall m, m ∈ b -> exists m', m' ∈ a /\ m_label_id m' = m_label_id m
    /\ ver_ge (membership_version m') (membership_version m) = true.

Record covering (c i : ClipboardReplicaRecord) : Prop := {
  cov_version : ver_ge (record_version (record c)) (record_version (record i)) = true;
  cov_favorite : ver_ge (favorite_version (record c)) (favorite_version (record i)) = true;
  cov_captured : captured_at_ms (record i) <= captured_at_ms (record c);
  cov_first : first_captured_at_ms c <= first_captured_at_ms i;
  cov_count : copy_count i <= copy_count c;
  cov_used : opt_ge (last_used_at_ms c) (last_used_at_ms i) = true;
  cov_members : members_covered (label_memberships (record c)) (label_memberships (record i));
}.

Lemma covers_covering c i : covers c i = true <-> covering c i.
Proof.
  unfold covers. rewrite !andb_true_iff, !Z.leb_le, forallb_forall.
  assert ((forall x, In x (label_memberships (record i)) ->
    existsb (fun m => str_eqb (m_label_id m) (m_label_id x)
      && ver_ge (membership_version m) (membership_version x)) (label_memberships (record c)) = true)
    <-> members_covered (label_memberships (record c)) (label_memberships (record i))) as ->.
  { unfold members_covered, str_eqb. split; intros Hall x Hx.
    - apply list_elem_of_In, Hall, existsb_exists in Hx as (m & Hm%list_elem_of_In & Hv).
      apply andb_true_iff in Hv as [Hid%bool_decide_eq_true Hv]. eauto.
    - apply list_elem_of_In, Hall in Hx as (m & Hm%list_elem_of_In & Hid & Hv).
      apply existsb_exists. exists m. split; [done|]. by rewrite Hv, bool_decide_true. }
  split; [by intros [[[[[[]]]]]]|]. by intros [].
Qed.

Lemma opt_ge_refl a : opt_ge a a = true.
Proof. destruct a; simpl; [apply Z.leb_refl|done]. Qed.
Lemma opt_ge_trans a b c : opt_ge a b = true -> opt_ge b c = true -> opt_ge a c = true.
Proof. destruct a, b, c; simpl; rewrite ?Z.leb_le; try done. lia. Qed.
Lemma opt_ge_antisym a b : opt_ge a b = true -> opt_ge b a = true -> a = b.
Proof. destruct a, b; simpl; rewrite ?Z.leb_le; try done. intros. f_equal. lia. Qed.

#[global] Instance covering_preorder : PreOrder covering.
Proof.
  split.
  - intros c. split; auto using opt_ge_refl; try lia. intros m Hm. by exists m.
  - intros a b c [A1 A2 A3 A4 A5 A6 A7] [B1 B2 B3 B4 B5 B6 B7].
    split; eauto using opt_ge_trans; try lia. intros m Hm.
    destruct (B7 m Hm) as (m1 & H1 & E1 & V1). destruct (A7 m1 H1) as (m2 & H2 & E2 & V2).
    exists m2. split; [done|]. split; [congruence|]. eauto.
Qed.

(** Two records that agree on every version and counter replication compares. *)
Record same_versions (a b : ClipboardReplicaRecord) : Prop := {
  sv_version : record_version (record a) = record_version (record b);
  sv_favorite : favorite_version (record a) = favorite_version (record b);
  sv_captured : captured_at_ms (record a) = captured_at_ms (record b);
  sv_first : first_captured_at_ms a = first_captured_at_ms b;
  sv_count : copy_count a = copy_count b;
  sv_used : last_used_at_ms a = last_used_at_ms b;
  sv_members : NoDup (m_label_id <$> label_memberships (record a)) ->
    NoDup (m_label_id <$> label_memberships (record b)) ->
    forall id v, (exists m, m ∈ label_memberships (record a) /\ m_label_id m = id /\ membership_version m = v)
      <-> (exists m, m ∈ label_memberships (record b) /\ m_label_id m = id /\ membership_version m = v);
}.

Lemma NoDup_fmap_inj {A B} (f : A -> B) l x y :
  NoDup (f <$> l) -> x ∈ l -> y ∈ l -> f x = f y -> x = y.
Proof.
  induction l as [|z l IH]; [by intros _ ?%elem_of_nil|]. rewrite fmap_cons, NoDup_cons.
  intros [Hz Hl] Hx Hy E. apply elem_of_cons in Hx as [->|Hx], Hy as [->|Hy]; [done|..|by apply IH].
  - destruct Hz. rewrite E. by apply list_elem_of_fmap_2.
  - destruct Hz. rewrite <- E. by apply list_elem_of_fmap_2.
Qed.

Lemma members_covered_same a b :
  NoDup (m_label_id <$> a) -> members_covered a b -> members_covered b a ->
  forall m, m ∈ a -> exists m', m' ∈ b /\ m_label_id m' = m_label_id m
    /\ membership_version m' = membership_version m.
Proof.
  intros Hnd Hab Hba m Hm. destruct (Hba m Hm) as (m1 & H1 & E1 & V1).
  destruct (Hab m1 H1) as (m2 & H2 & E2 & V2). assert (m2 = m) as ->.
  { eapply NoDup_fmap_inj; eauto. congruence. }
  exists m1. split; [done|]. split; [done|]. by apply ver_ge_antisym.
Qed.

Lemma covering_antisym a b : covering a b -> covering b a -> same_versions a b.
Proof.
  intros [A1 A2 A3 A4 A5 A6 A7] [B1 B2 B3 B4 B5 B6 B7]. split; auto using ver_ge_antisym, opt_ge_antisym.
  1-3: lia.
  intros Na Nb id v. split; intros (m & Hm & <- & <-).
  - destruct (members_covered_same _ _ Na A7 B7 m Hm) as (m' & ? & ? & ?). eauto.
  - destruct (members_covered_same _ _ Nb B7 A7 m Hm) as (m' & ? & ? & ?). eauto.
Qed.

(** Covering is the order of replication.  It is reflexive and transitive, two records that
    cover each other agree on every version, time and counter (and on the version of each label
    membership), and a record whose payload would be transferred is never already covered. *)
Theorem covers_is_replica_order a b c :
  covers a a = true
  /\ (covers a b = true -> covers b c = true -> covers a c = true)
  /\ (covers a b = true -> covers b a = true -> same_versions a b)
  /\ (needs_payload (Some a) b = true -> covers a b = false).
Proof.
  split; [by apply covers_covering|]. split; [|split].
  - rewrite !covers_covering. by intros; transitivity b.
  - rewrite !covers_covering. apply covering_antisym.
  - unfold needs_payload. rewrite andb_true_iff. intros [_ Hlt].
    destruct (covers a b) eqn:E; [|done]. apply covers_covering in E as [Hv _ _ _ _ _ _].
    unfold ver_ge in Hv. by rewrite Hlt in Hv.
Qed.
End covering.


(** ** What a pass may do to its result *)

(** Counters only grow, and only the end of a pass reports convergence. *)
Record grows (r r' : ReconciliationResult) : Prop := {
  gr_differences : differences r <= differences r';
  gr_failed : failed r <= failed r';
  gr_converged : converged r' = converged r;
}.
#[global] Instance grows_preorder : PreOrder grows.
Proof.
  split; [intros r; by split|]. intros a b c [] []. split; [lia|lia|congruence].
Qed.

Definition growing {W A} (m : R W A) : Prop := forall s, grows s.2 (m s).1.2.

Create HintDb growing.

Section growing.
Context {W : Type}.

Lemma growing_ret {A} (a : A) : growing (Rret (W := W) a).
Proof. intros s. reflexivity. Qed.
Lemma growing_err {A} e : growing (Rerr (W := W) (A := A) e).
Proof. intros s. reflexivity. Qed.
Lemma growing_pending {A} : growing (Rpending (W := W) (A := A)).
Proof. intros s. reflexivity. Qed.
Lemma growing_bind {A B} (m : R W A) (k : A -> R W B) :
  growing m -> (forall a, growing (k a)) -> growing (Rbind m k).
Proof.
  intros Hm Hk s. unfold Rbind. specialize (Hm s). destruct (m s) as [s1 [a|e|]]; simpl in *; auto.
  transitivity s1.2; [done|]. apply Hk.
Qed.
Lemma growing_run {A} (m : Call W A) : growing (run m).
Proof. intros s. unfold run. by destruct (m s.1) as [w [a|e]]. Qed.
Lemma growing_attempt {A} (m : Call W A) : growing (attempt m).
Proof. intros s. unfold attempt. by destruct (m s.1) as [w r]. Qed.
Lemma growing_modify f : (forall r, grows r (f r)) -> growing (modify (W := W) f).
Proof. intros Hf s. apply Hf. Qed.
Lemma growing_count rc st lr ls df : 0 <= df -> growing (modify (W := W) (count rc st lr ls df)).
Proof. intros. apply growing_modify. intros r. split; simpl; [lia|lia|done]. Qed.
Lemma growing_count_bool (b : bool) rc st lr ls :
  growing (modify (W := W) (count rc st lr ls (if b then 1 else 0))).
Proof. apply growing_count. destruct b; lia. Qed.
Lemma growing_failure `{!Sha256} id e : growing (modify (W := W) (record_failure id e)).
Proof. apply growing_modify. intros r. split; simpl; [lia|lia|done]. Qed.
Lemma growing_receipts m : growing (modify (W := W) (set_receipts m)).
Proof. apply growing_modify. intros r. by split. Qed.
Lemma growing_total n : growing (modify (W := W) (set_total n)).
Proof. apply growing_modify. intros r. by split. Qed.
End growing.

#[export] Hint Resolve growing_ret growing_err growing_pending growing_run growing_attempt
  growing_count_bool growing_failure growing_receipts growing_total : growing.
#[export] Hint Extern 1 (growing (Rbind _ _)) => apply growing_bind; [|intros ?] : growing.
#[export] Hint Extern 1 (growing (modify (count_received _))) => apply growing_count; lia : growing.
#[export] Hint Extern 1 (growing (modify (count_sent _))) => apply growing_count; lia : growing.
#[export] Hint Extern 1 (growing (modify (count_labels_received _))) => apply growing_count; lia : growing.
#[export] Hint Extern 1 (growing (modify (count_labels_sent _))) => apply growing_count; lia : growing.
#[export] Hint Extern 1 (growing (modify (count_differences _))) =>
  first [apply growing_count_bool | apply growing_count; lia] : growing.
#[export] Hint Extern 2 (growing (match ?x with _ => _ end)) => destruct x : growing.

Section passes.
Context `{!TextSyntaxCore} `{!Sha256} `{!WireLimits} `{!FrameTransport}.
Context `{!Requests.RequestCodes} `{!CollectionCore}.
Context `{!ProstMessage ReplicaRequest} `{!ProstMessage ReplicaResponse}.
Context (io_error : string) (KIND : Byte.byte).
Context {W : Type} (svc : ClipboardService W) (exchange : bytes -> Call W bytes).

Lemma receive_collections_growing c e f remote rs : growing (receive_collections svc c e f remote rs).
Proof. revert remote. induction rs; intros remote; cbn [receive_collections]; auto 10 with growing. Qed.
Hint Resolve receive_collections_growing : growing.
Lemma scan_collections_growing fuel c remote :
  growing (scan_collections io_error KIND svc exchange fuel c remote).
Proof. revert c remote. induction fuel; intros c remote; cbn [scan_collections]; auto 20 with growing. Qed.
Lemma send_collections_growing p e f remote c page :
  growing (send_collections io_error KIND exchange p e f remote c page).
Proof. revert c. induction page; intros c; cbn [send_collections]; auto 20 with growing. Qed.
Hint Resolve send_collections_growing : growing.
Lemma push_collections_growing fuel p e f remote c :
  growing (push_collections io_error KIND svc exchange fuel p e f remote c).
Proof. revert c. induction fuel; intros c; cbn [push_collections]; auto 20 with growing. Qed.
Hint Resolve scan_collections_growing : growing.
Lemma reconcile_collections_growing fuel :
  growing (reconcile_collections io_error KIND svc exchange fuel).
Proof.
  unfold reconcile_collections. apply growing_bind; [auto with growing|]. intros [[remote e] f].
  apply growing_bind; [auto with growing|]. intros _ s. apply push_collections_growing.
Qed.
Lemma scan_labels_growing fuel c m : growing (scan_labels io_error KIND svc exchange fuel c m).
Proof. revert c m. induction fuel; intros c m; cbn [scan_labels]; auto 20 with growing. Qed.
Lemma push_labels_growing pages : growing (push_labels io_error KIND exchange pages).
Proof. induction pages; cbn [push_labels]; auto 20 with growing. Qed.
Hint Resolve scan_labels_growing push_labels_growing : growing.
Lemma reconcile_labels_growing fuel : growing (reconcile_labels io_error KIND svc exchange fuel).
Proof. unfold reconcile_labels. auto 10 with growing. Qed.
Lemma local_manifest_growing fuel : growing (local_manifest svc fuel).
Proof.
  unfold local_manifest. generalize (∅ : gmap string ClipboardReplicaRecord), (None : option Cursor).
  induction fuel; intros m c; cbn [local_manifest_from]; auto 20 with growing.
Qed.
Lemma pull_records_growing local remote hs : growing (pull_records io_error KIND svc exchange local remote hs).
Proof. revert remote. induction hs; intros remote; cbn [pull_records]; auto 30 with growing. Qed.
Hint Resolve pull_records_growing local_manifest_growing : growing.
Lemma scan_records_growing fuel local c remote :
  growing (scan_records io_error KIND svc exchange fuel local c remote).
Proof. revert c remote. induction fuel; intros c remote; cbn [scan_records]; auto 20 with growing. Qed.
Lemma push_records_growing remote local : growing (push_records io_error KIND svc exchange remote local).
Proof. induction local; cbn [push_records]; auto 20 with growing. Qed.
Hint Resolve scan_records_growing push_records_growing : growing.
Lemma reconcile_records_growing fuel : growing (reconcile_records io_error KIND svc exchange fuel).
Proof. unfold reconcile_records. auto 20 with growing. Qed.
End passes.


Lemma Rbind_Value {W A B} (m : R W A) (k : A -> R W B) s s' b :
  Rbind m k s = (s', Value b) <-> exists a s1, m s = (s1, Value a) /\ k a s1 = (s', Value b).
Proof.
  unfold Rbind. split.
  - destruct (m s) as [s1 [a|e|]]; intros E; try done. by exists a, s1.
  - by intros (a & s1 & -> & E).
Qed.
Lemma growing_Value {W A} (m : R W A) s s' a :
  growing m -> m s = (s', Value a) -> grows s.2 s'.2.
Proof. intros Hm E. specialize (Hm s). by rewrite E in Hm. Qed.

Section agreement.
Context `{!TextSyntaxCore} `{!Sha256} `{!WireLimits} `{!FrameTransport}.
Context `{!Requests.RequestCodes} `{!CollectionCore}.
Context `{!ProstMessage ReplicaRequest} `{!ProstMessage ReplicaResponse}.
Context (io_error : string) (KIND : Byte.byte).
Context {W : Type} (svc : ClipboardService W) (exchange : bytes -> Call W bytes).

(** A manifest names each record by its own id. *)
Definition keyed (m : Manifest) : Prop := forall id r, m !! id = Some r -> sync_id (record r) = id.

Lemma keyed_empty : keyed ∅.
Proof. intros id r. by rewrite lookup_empty. Qed.
Lemma keyed_insert m r : keyed m -> keyed (<[sync_id (record r) := r]> m).
Proof. intros Hm id r'. rewrite lookup_insert_Some. intros [[<- <-]|[_ ?]]; [done|by apply Hm]. Qed.
Lemma keyed_add rs m : keyed m -> keyed (add_records rs m).
Proof. revert m. induction rs as [|r rs IH]; intros m Hm; [done|]. apply IH. by apply keyed_insert. Qed.

Lemma local_manifest_keyed fuel s s' m : local_manifest svc fuel s = (s', Value m) -> keyed m.
Proof.
  unfold local_manifest. generalize (keyed_empty).
  generalize (∅ : gmap string ClipboardReplicaRecord), (None : option Cursor).
  revert s. induction fuel as [|fuel IH]; intros s m0 c Hm0; cbn [local_manifest_from]; [done|].
  intros (page & s1 & _ & Hk)%Rbind_Value. cbv zeta in Hk. destruct (_ >? _); [done|].
  pose proof (keyed_add (sp_records page) m0 Hm0). destruct (sp_next_cursor page).
  - by eapply IH in Hk.
  - by injection Hk as _ <-.
Qed.

(** What a pass that counted nothing has seen of each record of the peer. *)
Definition seen (local : Manifest) (id : string) (r : ClipboardReplicaRecord) : Prop :=
  sync_id (record r) = id /\ exists l, local !! id = Some l /\ covers l r = true.

Lemma pull_records_quiet local remote hs s s' remote' :
  pull_records io_error KIND svc exchange local remote hs s = (s', Value remote') ->
  differences s'.2 = differences s.2 -> failed s'.2 = failed s.2 ->
  map_Forall (seen local) remote -> map_Forall (seen local) remote'.
Proof.
  revert remote s. induction hs as [|h hs IH]; intros remote s; cbn [pull_records];
    [by intros [= _ <-]|].
  intros ([now1 now2] & s1 & Hrun & Hk)%Rbind_Value Hd Hf Hseen.
  pose proof (growing_Value _ _ _ _ (growing_run _) Hrun) as [G1 G2 _].
  destruct (metadata_from_wire now1 now2 h) as [r|e].
  - cbv zeta in Hk. apply Rbind_Value in Hk as ([] & s2 & Hif & Hk).
    assert (grows s2.2 s'.2) as [G3 G4 _].
    { destruct (_ >? _) in Hk; [done|]. eapply growing_Value; [|exact Hk]. apply pull_records_growing. }
    destruct (local !! sync_id (record r)) as [l|] eqn:El; [destruct (covers l r) eqn:Ec|]; simpl in Hif.
    + injection Hif as <-. destruct (_ >? _) in Hk; [done|]. eapply IH in Hk; [done|lia|lia|].
      apply map_Forall_insert_2; [|done]. split; [done|]. eauto.
    + exfalso. apply Rbind_Value in Hif as ([] & s3 & [= <-] & Hif).
      apply growing_Value in Hif as [G5 _ _]; [simpl in G5; lia|auto with growing].
    + exfalso. apply Rbind_Value in Hif as ([] & s3 & [= <-] & Hif).
      apply growing_Value in Hif as [G5 _ _]; [simpl in G5; lia|auto with growing].
  - exfalso. apply Rbind_Value in Hk as ([] & s2 & [= <-] & Hk).
    apply growing_Value in Hk as [_ G5 _]; [simpl in G5; lia|apply pull_records_growing].
Qed.

Lemma scan_records_quiet fuel local c remote s s' remote' :
  scan_records io_error KIND svc exchange fuel local c remote s = (s', Value remote') ->
  differences s'.2 = differences s.2 -> failed s'.2 = failed s.2 ->
  map_Forall (seen local) remote -> map_Forall (seen local) remote'.
Proof.
  revert c remote s. induction fuel as [|fuel IH]; intros c remote s; cbn [scan_records]; [done|].
  intros (response & s1 & Hrun & Hk)%Rbind_Value Hd Hf Hseen.
  pose proof (growing_Value _ _ _ _ (growing_run _) Hrun) as [G1 G2 _].
  destruct response as [| | |page| |]; try done.
  apply Rbind_Value in Hk as (remote1 & s2 & Hpull & Hk).
  pose proof (growing_Value _ _ _ _ (pull_records_growing _ _ _ _ _ _ _) Hpull) as [G3 G4 _].
  assert (grows s2.2 s'.2) as [G5 G6 _].
  { eapply growing_Value; [|exact Hk]. destruct (pg_next_cursor page); [|auto with growing].
    destruct (match c with Some _ => _ | None => _ end); [auto with growing|apply scan_records_growing]. }
  eapply pull_records_quiet in Hpull; [|lia|lia|done].
  destruct (pg_next_cursor page) as [next|]; [|by injection Hk as _ <-].
  destruct (match c with Some _ => _ | None => _ end); [done|]. eapply IH in Hk; [done|lia|lia|done].
Qed.

Lemma push_records_quiet remote local s s' :
  push_records io_error KIND svc exchange remote local s = (s', Value tt) ->
  differences s'.2 = differences s.2 ->
  Forall (fun l => exists r, remote !! sync_id (record l) = Some r /\ covers r l = true) local.
Proof.
  induction local as [|l local IH]; cbn [push_records]; [by constructor|]. intros Hk Hd.
  destruct (remote !! sync_id (record l)) as [r|] eqn:Er; [destruct (covers r l) eqn:Ec|].
  - constructor; eauto.
  - exfalso. apply Rbind_Value in Hk as ([] & s1 & [= <-] & Hk).
    apply growing_Value in Hk as [G _ _]; [simpl in G; lia|].
    auto 10 using push_records_growing with growing.
  - exfalso. apply Rbind_Value in Hk as ([] & s1 & [= <-] & Hk).
    apply growing_Value in Hk as [G _ _]; [simpl in G; lia|].
    auto 10 using push_records_growing with growing.
Qed.

(** A quiet pass over the records: what was listed on each side, and how they compare. *)
Record records_agree (fuel : nat) (s s' : W * ReconciliationResult) (local remote local' : Manifest)
  : Prop := {
  ra_listed : exists s1 s2, local_manifest svc fuel s = (s1, Value local)
    /\ scan_records io_error KIND svc exchange fuel local None ∅ s1 = (s2, Value remote)
    /\ exists s3, local_manifest svc fuel s2 = (s3, Value local');
  ra_pull : forall id r, remote !! id = Some r -> exists l, local !! id = Some l /\ covers l r = true;
  ra_push : forall id l, local' !! id = Some l -> exists r, remote !! id = Some r /\ covers r l = true;
}.

Lemma reconcile_records_quiet fuel s s' :
  reconcile_records io_error KIND svc exchange fuel s = (s', Value tt) ->
  differences s'.2 = differences s.2 -> failed s'.2 = failed s.2 ->
  exists local remote local', records_agree fuel s s' local remote local'.
Proof.
  unfold reconcile_records. intros (local & s1 & Hl & Hk)%Rbind_Value Hd Hf.
  apply Rbind_Value in Hk as (remote & s2 & Hr & Hk).
  apply Rbind_Value in Hk as (local' & s3 & Hl' & Hk). cbv zeta in Hk.
  apply Rbind_Value in Hk as ([] & s4 & [= <-] & Hk).
  pose proof (growing_Value _ _ _ _ (local_manifest_growing _ _) Hl) as [A1 A2 _].
  pose proof (growing_Value _ _ _ _ (scan_records_growing _ _ _ _ _ _ _ _) Hr) as [B1 B2 _].
  pose proof (growing_Value _ _ _ _ (local_manifest_growing _ _) Hl') as [C1 C2 _].
  pose proof (growing_Value _ _ _ _ (push_records_growing _ _ _ _ _ _) Hk) as [D1 D2 _].
  simpl in D1, D2. exists local, remote, local'. split; [by eauto 10| |].
  - eapply scan_records_quiet in Hr; [|lia|lia|apply map_Forall_empty].
    intros id r Hir. by destruct (Hr id r Hir) as [_ ?].
  - apply push_records_quiet in Hk; [|simpl; lia]. intros id l Hil.
    pose proof (local_manifest_keyed _ _ _ _ Hl' id l Hil) as <-.
    eapply Forall_forall in Hk; [exact Hk|]. rewrite sort_by_perm.
    apply list_elem_of_fmap. exists (sync_id (record l), l). split; [done|].
    by apply elem_of_map_to_list.
Qed.
End agreement.


Section convergence.
Context `{!TextSyntaxCore} `{!Sha256} `{!WireLimits} `{!FrameTransport}.
Context `{!Requests.RequestCodes} `{!CollectionCore}.
Context `{!ProstMessage ReplicaRequest} `{!ProstMessage ReplicaResponse}.
Context (io_error : string) (KIND : Byte.byte).
Context {W : Type} (svc : ClipboardService W) (exchange : bytes -> Call W bytes).

Lemma push_labels_quiet pages s s' :
  push_labels io_error KIND exchange pages s = (s', Value tt) -> differences s'.2 = differences s.2 ->
  Forall (fun p => p = []) pages.
Proof.
  revert s. induction pages as [|p pages IH]; intros s; cbn [push_labels]; [by constructor|].
  intros (response & s1 & Hrun & Hk)%Rbind_Value Hd. destruct response as [|changed| | | |]; try done.
  pose proof (growing_Value _ _ _ _ (growing_run _) Hrun) as [G1 _ _].
  apply Rbind_Value in Hk as ([] & s2 & [= <-] & Hk).
  apply Rbind_Value in Hk as ([] & s3 & [= <-] & Hk).
  pose proof (growing_Value _ _ _ _ (push_labels_growing _ _ _ _) Hk) as [G2 _ _]. simpl in G2.
  constructor; [destruct p; [done|simpl in G2; lia]|]. eapply IH; [exact Hk|]. simpl in *. lia.
Qed.

(** A quiet pass over the labels: the peer's dictionary covers the local one. *)
Definition labels_agree (fuel : nat) (s : W * ReconciliationResult)
    (remote : gmap string ClipboardLabel) (ls : list ClipboardLabel) : Prop :=
  (exists s1 s2, scan_labels io_error KIND svc exchange fuel EmptyString ∅ s = (s1, Value remote)
    /\ run (replica_labels svc) s1 = (s2, Value ls))
  /\ forall l, l ∈ ls -> exists r, remote !! l_id l = Some r
       /\ ver_ge (label_version r) (label_version l) = true.

Lemma reconcile_labels_quiet fuel s s' :
  reconcile_labels io_error KIND svc exchange fuel s = (s', Value tt) ->
  differences s'.2 = differences s.2 -> exists remote ls, labels_agree fuel s remote ls.
Proof.
  unfold reconcile_labels. intros (remote & s1 & Hr & Hk)%Rbind_Value Hd.
  apply Rbind_Value in Hk as (ls & s2 & Hls & Hk). cbv zeta in Hk.
  pose proof (growing_Value _ _ _ _ (scan_labels_growing _ _ _ _ _ _ _) Hr) as [A _ _].
  pose proof (growing_Value _ _ _ _ (growing_run _) Hls) as [B _ _].
  pose proof (growing_Value _ _ _ _ (push_labels_growing _ _ _ _) Hk) as [C _ _].
  apply push_labels_quiet in Hk; [|lia]. exists remote, ls. split; [by eauto|]. intros l Hl.
  destruct (label_missing remote l) eqn:E.
  - exfalso. set (fs := filter (fun l => label_missing remote l = true) ls) in *.
    assert (l ∈ fs) as Hin by (apply list_elem_of_filter; done).
    destruct (chunks_spec (length fs) 100 fs) as [Hc Hne]; [lia|lia|].
    destruct fs as [|x fs]; [by apply elem_of_nil in Hin|]. cbn [chunks length] in Hk, Hne.
    apply Forall_cons in Hk as [Hk _]. by apply Forall_cons in Hne as [[? _] _].
  - unfold label_missing in E. destruct (remote !! l_id l) as [r|]; [|done]. exists r.
    split; [done|]. unfold ver_ge. by rewrite E.
Qed.

(** The last pass of a reconciliation that reports convergence. *)
Record quiet_pass (fuel : nat) (r : ReconciliationResult) (local remote local' : Manifest)
    (remote_labels : gmap string ClipboardLabel) (ls : list ClipboardLabel) : Prop := {
  qp_records : exists s s', records_agree io_error KIND svc exchange fuel s s' local remote local';
  qp_labels : exists s, labels_agree fuel s remote_labels ls;
  qp_fences : exists s0 s1 s2 s3 s4 s5,
    run (svc_revision svc) s0 = (s1, Value (local_revision r))
    /\ run (peer_revision io_error KIND exchange) s1 = (s2, Value (remote_revision r))
    /\ reconcile_once io_error KIND svc exchange fuel s2 = (s3, Value tt)
    /\ run (svc_revision svc) s3 = (s4, Value (local_revision r))
    /\ run (peer_revision io_error KIND exchange) s4 = (s5, Value (remote_revision r));
}.

Lemma reconcile_once_quiet fuel s s' :
  reconcile_once io_error KIND svc exchange fuel s = (s', Value tt) ->
  differences s'.2 = differences s.2 -> failed s'.2 = failed s.2 ->
  (exists s1 s2 local remote local', records_agree io_error KIND svc exchange fuel s1 s2 local remote local')
  /\ (exists s1 remote ls, labels_agree fuel s1 remote ls).
Proof.
  unfold reconcile_once. intros ([] & s1 & Q1 & Hk)%Rbind_Value Hd Hf.
  apply Rbind_Value in Hk as ([] & s2 & Q2 & Q3).
  pose proof (growing_Value _ _ _ _ (reconcile_collections_growing _ _ _ _ _) Q1) as [A1 A2 _].
  pose proof (growing_Value _ _ _ _ (reconcile_labels_growing _ _ _ _ _) Q2) as [B1 B2 _].
  pose proof (growing_Value _ _ _ _ (reconcile_records_growing _ _ _ _ _) Q3) as [C1 C2 _].
  split.
  - apply reconcile_records_quiet in Q3 as (l & r & l' & Q3); [|lia|lia]. by exists s2, s', l, r, l'.
  - apply reconcile_labels_quiet in Q2; [|lia]. by exists s1.
Qed.

Lemma reconcile_once_growing fuel : growing (reconcile_once io_error KIND svc exchange fuel).
Proof.
  unfold reconcile_once.
  auto using reconcile_collections_growing, reconcile_labels_growing, reconcile_records_growing with growing.
Qed.

Lemma reconcile_pass_outcome fuel s s' b :
  reconcile_pass io_error KIND svc exchange fuel s = (s', Value b) ->
  converged s.2 = false -> 0 <= failed s.2 ->
  0 <= failed s'.2 /\ converged s'.2 = b
  /\ (b = true -> failed s'.2 = 0
      /\ exists local remote local' rl ls, quiet_pass fuel s'.2 local remote local' rl ls).
Proof.
  unfold reconcile_pass. intros (lb & s1 & R1 & Hk)%Rbind_Value Hc Hf.
  apply Rbind_Value in Hk as (rb & s2 & R2 & Hk). cbv zeta in Hk.
  apply Rbind_Value in Hk as ([] & s3 & R3 & Hk).
  pose proof (growing_Value _ _ _ _ (growing_run _) R1) as [A1 A2 A3].
  pose proof (growing_Value _ _ _ _ (growing_run _) R2) as [B1 B2 B3].
  pose proof (growing_Value _ _ _ _ (reconcile_once_growing _) R3) as [C1 C2 C3].
  destruct (failed s3.2 >? 0) eqn:Ef.
  { injection Hk as <- <-. split; [lia|]. split; [congruence|done]. }
  apply gtb_false in Ef.
  apply Rbind_Value in Hk as (la & s4 & R4 & Hk). apply Rbind_Value in Hk as (ra & s5 & R5 & Hk).
  pose proof (growing_Value _ _ _ _ (growing_run _) R4) as [D1 D2 D3].
  pose proof (growing_Value _ _ _ _ (growing_run _) R5) as [E1 E2 E3].
  assert (failed s5.2 = failed s3.2) as Efail.
  { unfold run in R4, R5. destruct (svc_revision svc s3.1) as [? []]; [|done].
    injection R4 as <- _. destruct (peer_revision _ _ _ _) as [? []]; [|done]. by injection R5 as <- _. }
  destruct (_ && _) eqn:Eb; injection Hk as <- <-; simpl.
  - apply andb_true_iff in Eb as [Eb Er]. apply andb_true_iff in Eb as [Ed El]. bool_arith. subst lb rb.
    split; [lia|]. split; [done|]. intros _. split; [lia|].
    destruct (reconcile_once_quiet fuel s2 s3 R3) as [(t1 & t2 & l & r & l' & HR) (t3 & rl & ls & HL)];
      [lia|lia|].
    exists l, r, l', rl, ls. split; [by eauto|by eauto|]. simpl. by exists s, s1, s2, s3, s4, s5.
  - split; [lia|]. split; [done|]. intros Hconv. congruence.
Qed.

(** A pass that does not end in agreement leaves the report of convergence alone. *)
Definition settles (m : R W bool) : Prop :=
  forall s, match m s with
            | (_, Value true) => True
            | (s', _) => converged s'.2 = converged s.2
            end.
Lemma settles_bind {A} (m : R W A) k : growing m -> (forall a, settles (k a)) -> settles (Rbind m k).
Proof.
  intros Hm Hk s. unfold Rbind. specialize (Hm s). destruct (m s) as [s1 [a|e|]]; simpl in Hm;
    [|by destruct Hm..].
  specialize (Hk a s1). destruct (k a s1) as [s2 [[]|e|]]; destruct Hm; congruence.
Qed.
Lemma reconcile_pass_settles fuel : settles (reconcile_pass io_error KIND svc exchange fuel).
Proof.
  unfold reconcile_pass. apply settles_bind; [apply growing_run|]. intros lb.
  apply settles_bind; [apply growing_run|]. intros rb s0. cbv zeta. generalize (differences s0.2). intros before.
  match goal with |- match ?m s0 with _ => _ end => cut (settles m); [intros Hm; apply Hm|] end.
  apply settles_bind; [apply reconcile_once_growing|]. intros _ s.
  destruct (failed s.2 >? 0); [done|]. revert s.
  match goal with |- forall s, match ?m s with _ => _ end => change (settles m) end.
  apply settles_bind; [apply growing_run|]. intros la. apply settles_bind; [apply growing_run|].
  intros ra s. destruct (_ && _); [done|]. by destruct (converged s.2).
Qed.

Lemma reconcile_passes_converged passes fuel s s' o :
  reconcile_passes io_error KIND svc exchange passes fuel s = (s', o) ->
  converged s.2 = false -> 0 <= failed s.2 -> converged s'.2 = true ->
  failed s'.2 = 0 /\ exists local remote local' rl ls, quiet_pass fuel s'.2 local remote local' rl ls.
Proof.
  revert s. induction passes as [|n IH]; intros s; cbn [reconcile_passes].
  { intros [= <- _]. congruence. }
  destruct (reconcile_pass io_error KIND svc exchange fuel s) as [s1 [b|e|]] eqn:E; intros Hk Hc Hf Hcv.
  - destruct (reconcile_pass_outcome fuel s s1 b E Hc Hf) as (F & C & Hb). destruct b.
    + injection Hk as <- _. by apply Hb.
    + destruct (failed s1.2 >? 0); [injection Hk as <- _; congruence|]. by eapply IH.
  - pose proof (reconcile_pass_settles fuel s) as Hs. rewrite E in Hs. injection Hk as <- _.
    simpl in Hs, Hcv. congruence.
  - pose proof (reconcile_pass_settles fuel s) as Hs. rewrite E in Hs. injection Hk as <- _.
    simpl in Hs, Hcv. congruence.
Qed.

(** C3: convergence is reported only when it was observed.  If a reconciliation reports that it
    converged, then nothing failed and its last pass found nothing to do between two readings of
    both revisions that gave the same values: every record the peer listed was covered by the local
    one, every local record was covered by one the peer listed, and every local label was in the
    peer's dictionary at least at its version.  If the local records were the same at both ends of
    the pass, the two sides list the same records with the same versions. *)
Theorem reconcile_converged_sound fuel w w' r :
  reconcile io_error KIND svc exchange fuel w = (w', Some r) -> converged r = true ->
  failed r = 0
  /\ exists local remote local' rl ls, quiet_pass fuel r local remote local' rl ls
     /\ (forall id p, remote !! id = Some p -> exists l, local !! id = Some l /\ covers l p = true)
     /\ (forall id l, local' !! id = Some l -> exists p, remote !! id = Some p /\ covers p l = true)
     /\ (forall l, l ∈ ls -> exists p, rl !! l_id l = Some p
           /\ ver_ge (label_version p) (label_version l) = true)
     /\ (local' = local -> dom local = dom remote
          /\ forall id l p, local !! id = Some l -> remote !! id = Some p -> same_versions l p).
Proof.
  unfold reconcile. intros Hrec Hcv.
  destruct (reconcile_passes io_error KIND svc exchange 3 fuel (w, default_result)) as [[w1 r1] o] eqn:E.
  assert (r1 = r) as -> by (destruct o; congruence).
  destruct (reconcile_passes_converged _ _ _ _ _ E) as (Hf & l & p & l' & rl & ls & HQ); [done|done|done|].
  split; [done|]. exists l, p, l', rl, ls. split; [done|].
  destruct HQ as [(s1 & s2 & [_ Hpull Hpush]) (s3 & [_ Hlab]) _].
  split; [done|]. split; [done|]. split; [done|]. intros ->. split.
  - apply set_eq. intros id. rewrite !elem_of_dom. split.
    + intros [x Hx]. destruct (Hpush id x Hx) as (y & -> & _). eauto.
    + intros [x Hx]. destruct (Hpull id x Hx) as (y & -> & _). eauto.
  - intros id x y Hx Hy. destruct (Hpush id x Hx) as (y' & Hy' & C1).
    destruct (Hpull id y Hy) as (x' & Hx' & C2). simplify_eq.
    apply covering_antisym; by apply covers_covering.
Qed.
End convergence.


(** ** Reconciliation ends *)

(** The number a string of at most [n] bytes spells in base 257, padded: it grows with the string. *)
Fixpoint rank (n : nat) (s : string) : Z :=
  match n, s with
  | S n, String a s => (code a + 1) * 257 ^ Z.of_nat n + rank n s
  | _, _ => 0
  end.

Lemma code_range a : 0 <= code a < 256.
Proof. unfold code. pose proof (N_ascii_bounded a). lia. Qed.

Lemma pow257_pos n : 0 < 257 ^ Z.of_nat n.
Proof. apply Z.pow_pos_nonneg; lia. Qed.

Lemma rank_bounds n s : 0 <= rank n s < 257 ^ Z.of_nat n.
Proof.
  revert s. induction n as [|n IH]; intros [|a s]; cbn [rank]; [by split..| |].
  - split; [lia|apply pow257_pos].
  - specialize (IH s). pose proof (code_range a). rewrite Nat2Z.inj_succ, Z.pow_succ_r by lia.
    pose proof (pow257_pos n). nia.
Qed.

Lemma rank_lt n s t :
  (String.length t <= n)%nat -> str_ltb s t = true -> rank n s < rank n t.
Proof.
  unfold str_ltb, str_cmp. revert s t. induction n as [|n IH]; intros s [|b t] Ht; simpl in Ht; try lia.
  { destruct s; [done|]. done. }
  { destruct s; done. }
  destruct s as [|a s]; cbn [rank].
  - intros _. pose proof (pow257_pos n). pose proof (code_range b). pose proof (rank_bounds n t). nia.
  - simpl. pose proof (pow257_pos n). pose proof (rank_bounds n t). pose proof (rank_bounds n s).
    destruct (Ascii.compare a b) eqn:E.
    + apply Ascii.compare_eq_iff in E as ->. intros Hlt. apply IH in Hlt; [|lia].
      by apply Z.add_lt_mono_l.
    + intros _. unfold Ascii.compare in E. apply N.compare_lt_iff in E.
      apply N2Z.inj_lt in E. fold (code a) in E. fold (code b) in E.
      assert ((code a + 2) * 257 ^ Z.of_nat n <= (code b + 1) * 257 ^ Z.of_nat n)
        by (apply Z.mul_le_mono_nonneg_r; lia). lia.
    + done.
Qed.

(** Cursors of a manifest: older ones rank lower. *)
Definition cursor_rank (n : nat) (c : Cursor) : Z :=
  (cu_captured_at_ms c - i64_min) * 257 ^ Z.of_nat n + rank n (cu_sync_id c).
Definition cursor_ok (n : nat) (c : Cursor) : Prop :=
  i64_wf (cu_captured_at_ms c) /\ (String.length (cu_sync_id c) <= n)%nat.

Lemma cursor_rank_lt n c c' :
  cursor_ok n c' -> ver_lt (cursor_key c) (cursor_key c') = true -> cursor_rank n c < cursor_rank n c'.
Proof.
  intros [_ Hl] [Hlt|[Heq Hlt]]%ver_lt_spec; unfold cursor_rank, cursor_key in *; simpl in *;
    pose proof (rank_bounds n (cu_sync_id c)); pose proof (rank_bounds n (cu_sync_id c'));
    pose proof (pow257_pos n).
  - nia.
  - rewrite Heq. pose proof (rank_lt n _ _ Hl Hlt). lia.
Qed.
Definition cursor_bound (n : nat) : Z := 2 ^ 64 * 257 ^ Z.of_nat n.
Lemma cursor_rank_bounds n c : cursor_ok n c -> 0 <= cursor_rank n c < cursor_bound n.
Proof.
  intros [Hc _]. unfold cursor_rank, cursor_bound, i64_wf, i64_min, i64_max in *.
  pose proof (rank_bounds n (cu_sync_id c)). pose proof (pow257_pos n). nia.
Qed.

Definition ends {W A} (m : R W A) : Prop := forall s, (m s).2 <> Pending.

Create HintDb ends.
Section ends.
Context {W : Type}.
Lemma ends_ret {A} (a : A) : ends (Rret (W := W) a).
Proof. done. Qed.
Lemma ends_err {A} e : ends (Rerr (W := W) (A := A) e).
Proof. done. Qed.
Lemma ends_run {A} (m : Call W A) : ends (run m).
Proof. intros s. unfold run. by destruct (m s.1) as [w []]. Qed.
Lemma ends_attempt {A} (m : Call W A) : ends (attempt m).
Proof. intros s. unfold attempt. by destruct (m s.1). Qed.
Lemma ends_modify f : ends (modify (W := W) f).
Proof. done. Qed.
Lemma ends_bind {A B} (m : R W A) (k : A -> R W B) : ends m -> (forall a, ends (k a)) -> ends (Rbind m k).
Proof.
  intros Hm Hk s. unfold Rbind. specialize (Hm s). destruct (m s) as [s1 [a|e|]]; [apply Hk|done|done].
Qed.
(** After a call, its result is one the call can give. *)
Lemma ends_bind_run {A B} (m : Call W A) (k : A -> R W B) :
  (forall a, (exists w w', m w = (w', Ok a)) -> ends (k a)) -> ends (Rbind (run m) k).
Proof.
  intros Hk s. unfold Rbind, run. destruct (m s.1) as [w [a|e]] eqn:E; [|done]. apply Hk. eauto.
Qed.
End ends.
#[export] Hint Resolve ends_ret ends_err ends_run ends_attempt ends_modify : ends.
#[export] Hint Extern 1 (ends (Rbind _ _)) => apply ends_bind; [|intros ?] : ends.
#[export] Hint Extern 2 (ends (match ?x with _ => _ end)) => destruct x : ends.


Section termination.
Context `{!TextSyntaxCore} `{!Sha256} `{!WireLimits} `{!FrameTransport}.
Context `{!Requests.RequestCodes} `{!CollectionCore}.
Context `{!ProstMessage ReplicaRequest} `{!ProstMessage ReplicaResponse}.
Context (io_error : string) (KIND : Byte.byte).
Context {W : Type} (svc : ClipboardService W) (exchange : bytes -> Call W bytes).

Lemma ends_bind_value {A B} (m : R W A) (k : A -> R W B) :
  ends m -> (forall a, (exists s s', m s = (s', Value a)) -> ends (k a)) -> ends (Rbind m k).
Proof.
  intros Hm Hk s. unfold Rbind. specialize (Hm s). destruct (m s) as [s1 [a|e|]] eqn:E; [|done|done].
  apply Hk. eauto.
Qed.

(** The cursors of a response, as short as a control frame makes them. *)
Definition response_small (n : nat) (r : Response) : Prop :=
  match r with
  | RCollections p => (String.length (cp_next_cursor p) <= n)%nat
  | RLabels l => forall c, pls_next_cursor l = Some c -> (String.length c <= n)%nat
  | RPage p => forall c, pg_next_cursor p = Some c -> cursor_ok n c
  | _ => True
  end.

(** The local service pages backwards through its records and forwards through its collections. *)
Record pages_progress (n : nat) : Prop := {
  pp_records : forall c w w' page next, replica_page svc c 100 w = (w', Ok page) ->
    sp_next_cursor page = Some next -> cursor_ok n next
    /\ forall old, c = Some old -> ver_lt (cursor_key next) (cursor_key old) = true;
  pp_collections : forall c w w' page, svc_collections svc c w = (w', Ok page) ->
    Forall (fun v => str_ltb c (col_id v) = true /\ (String.length (col_id v) <= n)%nat) page;
}.

Context (n : nat).
Context (peer_small : forall req w w' resp,
  ask io_error KIND exchange req w = (w', Ok resp) -> response_small n resp).
Context (progress : pages_progress n).

Lemma receive_collections_ends c e f remote rs : ends (receive_collections svc c e f remote rs).
Proof. revert remote. induction rs; intros remote; cbn [receive_collections]; auto 10 with ends. Qed.
Lemma send_collections_ends p e f remote c page :
  ends (send_collections io_error KIND exchange p e f remote c page).
Proof. revert c. induction page; intros c; cbn [send_collections]; auto 20 with ends. Qed.
Lemma push_labels_ends pages : ends (push_labels io_error KIND exchange pages).
Proof. induction pages; cbn [push_labels]; auto 20 with ends. Qed.
Lemma pull_records_ends local remote hs : ends (pull_records io_error KIND svc exchange local remote hs).
Proof. revert remote. induction hs; intros remote; cbn [pull_records]; auto 30 with ends. Qed.
Lemma push_records_ends remote local : ends (push_records io_error KIND svc exchange remote local).
Proof. induction local; cbn [push_records]; auto 20 with ends. Qed.

Lemma scan_collections_ends fuel c remote :
  257 ^ Z.of_nat n - rank n c <= Z.of_nat fuel ->
  ends (scan_collections io_error KIND svc exchange fuel c remote).
Proof.
  revert c remote. induction fuel as [|fuel IH]; intros c remote Hf; cbn [scan_collections].
  { pose proof (rank_bounds n c). lia. }
  apply ends_bind_run. intros resp (w & w' & Hr%peer_small). destruct resp as [page| | | | |]; auto with ends.
  cbv zeta. apply ends_bind; [apply receive_collections_ends|]. intros remote'.
  destruct (_ >? _); [auto with ends|]. destruct (str_is_empty _); [auto with ends|].
  destruct (str_leb _ _) eqn:E; [auto with ends|]. rewrite str_leb_ltb in E. apply negb_false_iff in E.
  apply IH. pose proof (rank_lt n _ _ Hr E). lia.
Qed.

Lemma send_collections_cursor p e f remote c page s s' c' :
  send_collections io_error KIND exchange p e f remote c page s = (s', Value c') ->
  c' = match last page with Some v => col_id v | None => c end.
Proof.
  revert c s. induction page as [|v page IH]; intros c s; cbn [send_collections]; [by intros [= _ <-]|].
  intros ([] & s1 & _ & Hk)%Rbind_Value. apply IH in Hk as ->.
  rewrite last_cons. by destruct (last page).
Qed.

Lemma push_collections_ends fuel p e f remote c :
  257 ^ Z.of_nat n - rank n c <= Z.of_nat fuel ->
  ends (push_collections io_error KIND svc exchange fuel p e f remote c).
Proof.
  revert c. induction fuel as [|fuel IH]; intros c Hf; cbn [push_collections].
  { pose proof (rank_bounds n c). lia. }
  apply ends_bind_run. intros page (w & w' & Hp%(pp_collections n progress)).
  destruct (is_empty page) eqn:E; [auto with ends|].
  apply ends_bind_value; [apply send_collections_ends|].
  intros c' (s & s' & ->%send_collections_cursor). apply IH.
  destruct (last page) as [v|] eqn:Hlast.
  - apply last_Some_elem_of in Hlast. eapply Forall_forall in Hp as [Hlt Hlen]; [|exact Hlast].
    pose proof (rank_lt n _ _ Hlen Hlt). lia.
  - apply last_None in Hlast as ->. done.
Qed.

Lemma scan_labels_ends fuel c m :
  257 ^ Z.of_nat n - rank n c <= Z.of_nat fuel ->
  ends (scan_labels io_error KIND svc exchange fuel c m).
Proof.
  revert c m. induction fuel as [|fuel IH]; intros c m Hf; cbn [scan_labels].
  { pose proof (rank_bounds n c). lia. }
  apply ends_bind_run. intros resp (w & w' & Hr%peer_small). destruct resp as [| | | | |page]; auto with ends.
  apply ends_bind; [auto with ends|]. intros ls. cbv zeta. apply ends_bind; [auto with ends|]. intros changed.
  apply ends_bind; [auto with ends|]. intros _. apply ends_bind; [auto with ends|]. intros _.
  destruct (pls_next_cursor page) as [next|] eqn:En; [|auto with ends].
  destruct (_ || _) eqn:E; [auto with ends|]. apply orb_false_iff in E as [E _].
  rewrite str_leb_ltb in E. apply negb_false_iff in E.
  apply IH. pose proof (rank_lt n _ _ (Hr next En) E). lia.
Qed.

(** The rank left below a cursor: everything, at the start. *)
Definition cursor_left (c : option Cursor) : Z :=
  match c with Some c => cursor_rank n c | None => cursor_bound n end.

Lemma local_manifest_from_ends fuel c m :
  (forall x, c = Some x -> cursor_ok n x) -> cursor_left c < Z.of_nat fuel ->
  ends (local_manifest_from svc fuel c m).
Proof.
  revert c m. induction fuel as [|fuel IH]; intros c m Hc Hf; cbn [local_manifest_from].
  { destruct c as [x|]; simpl in Hf; [pose proof (cursor_rank_bounds n x (Hc x eq_refl))|
      unfold cursor_bound in Hf; pose proof (pow257_pos n)]; lia. }
  apply ends_bind_run. intros page (w & w' & Hp). cbv zeta. destruct (_ >? _); [auto with ends|].
  destruct (sp_next_cursor page) as [next|] eqn:En; [|auto with ends].
  destruct (pp_records n progress _ _ _ _ _ Hp En) as [Hok Hlt]. apply IH; [by intros ? [= <-]|]. simpl.
  destruct c as [x|]; simpl in Hf; [pose proof (cursor_rank_lt n _ _ (Hc x eq_refl) (Hlt x eq_refl))|
    pose proof (cursor_rank_bounds n _ Hok)]; lia.
Qed.

Lemma scan_records_ends fuel local c remote :
  (forall x, c = Some x -> cursor_ok n x) -> cursor_left c < Z.of_nat fuel ->
  ends (scan_records io_error KIND svc exchange fuel local c remote).
Proof.
  revert c remote. induction fuel as [|fuel IH]; intros c remote Hc Hf; cbn [scan_records].
  { destruct c as [x|]; simpl in Hf; [pose proof (cursor_rank_bounds n x (Hc x eq_refl))|
      unfold cursor_bound in Hf; pose proof (pow257_pos n)]; lia. }
  apply ends_bind_run. intros resp (w & w' & Hr%peer_small). destruct resp as [| | |page| |]; auto with ends.
  apply ends_bind; [apply pull_records_ends|]. intros remote'.
  destruct (pg_next_cursor page) as [next|] eqn:En; [|auto with ends]. simpl in Hr.
  specialize (Hr next En). destruct c as [old|]; simpl in Hf |- *.
  - destruct (ver_ge (cursor_key next) (cursor_key old)) eqn:E; [auto with ends|].
    unfold ver_ge in E. apply negb_false_iff in E. apply IH; [by intros ? [= <-]|]. simpl.
    pose proof (cursor_rank_lt n _ _ (Hc old eq_refl) E). lia.
  - apply IH; [by intros ? [= <-]|]. simpl. pose proof (cursor_rank_bounds n _ Hr). lia.
Qed.

Definition enough_fuel : nat := Z.to_nat (cursor_bound n + 1).

Lemma enough_fuel_bounds : 257 ^ Z.of_nat n <= Z.of_nat enough_fuel /\ cursor_bound n < Z.of_nat enough_fuel.
Proof. unfold enough_fuel, cursor_bound. pose proof (pow257_pos n). lia. Qed.

Lemma reconcile_once_ends : ends (reconcile_once io_error KIND svc exchange enough_fuel).
Proof.
  destruct enough_fuel_bounds as [B1 B2]. pose proof (rank_bounds n EmptyString).
  unfold reconcile_once. apply ends_bind; [|intros _; apply ends_bind; [|intros _]].
  - unfold reconcile_collections. apply ends_bind; [apply scan_collections_ends; lia|].
    intros [[remote e] f]. apply ends_bind; [auto with ends|]. intros _ s. apply push_collections_ends. lia.
  - unfold reconcile_labels. apply ends_bind; [apply scan_labels_ends; lia|]. intros m.
    apply ends_bind; [auto with ends|]. intros ls. apply push_labels_ends.
  - unfold reconcile_records, local_manifest.
    apply ends_bind; [by apply local_manifest_from_ends|]. intros local.
    apply ends_bind; [by apply scan_records_ends|]. intros remote.
    apply ends_bind; [by apply local_manifest_from_ends|]. intros local'. cbv zeta.
    apply ends_bind; [auto with ends|]. intros _. apply push_records_ends.
Qed.

Lemma reconcile_pass_ends : ends (reconcile_pass io_error KIND svc exchange enough_fuel).
Proof.
  unfold reconcile_pass. apply ends_bind; [auto with ends|]. intros lb.
  apply ends_bind; [auto with ends|]. intros rb s. cbv zeta. generalize (differences s.2). intros before.
  revert s. match goal with |- forall s, (?m s).2 <> _ => change (ends m) end.
  apply ends_bind; [apply reconcile_once_ends|]. intros _ s. destruct (_ >? _); [done|]. revert s.
  match goal with |- forall s, (?m s).2 <> _ => change (ends m) end.
  apply ends_bind; [auto with ends|]. intros la. apply ends_bind; [auto with ends|]. intros ra s.
  by destruct (_ && _).
Qed.

Lemma reconcile_passes_ends passes : ends (reconcile_passes io_error KIND svc exchange passes enough_fuel).
Proof.
  induction passes as [|passes IH]; intros s; cbn [reconcile_passes]; [done|].
  pose proof (reconcile_pass_ends s) as Hp.
  destruct (reconcile_pass _ _ _ _ _ _) as [s1 [[]|e|]]; [done| |done|done].
  destruct (_ >? _); [done|apply IH].
Qed.

(** C22: reconciliation ends, whatever the peer answers.  Its scans follow cursors the peer chooses,
    but every loop insists that the next cursor is beyond the last: with cursors of bounded length
    (they come in frames of bounded size) and a local service whose own pages advance, one number
    of rounds suffices from every state and against every peer, and a result is returned. *)
Theorem reconcile_terminates w :
  exists w' r, reconcile io_error KIND svc exchange enough_fuel w = (w', Some r).
Proof.
  unfold reconcile. pose proof (reconcile_passes_ends 3 (w, default_result)) as Hp.
  destruct (reconcile_passes _ _ _ _ _ _ _) as [[w' r] [[]|e|]]; [by eauto|by eauto|done].
Qed.
End termination.


(** ** The label dictionary crosses whole *)

Section sorting.
Context {A : Type} (key : A -> string).

Definition key_leb (a b : A) : bool := str_leb (key a) (key b).
Definition key_lt (a b : A) : Prop := str_ltb (key a) (key b) = true.

Lemma insert_by_sorted x l :
  StronglySorted (fun a b => key_leb a b = true) l ->
  StronglySorted (fun a b => key_leb a b = true) (insert_by key_leb x l).
Proof.
  induction 1 as [|y l Hs IH Hf]; [repeat constructor|]. simpl. destruct (key_leb x y) eqn:E.
  - constructor; [by constructor|]. constructor; [done|]. eapply Forall_impl; [exact Hf|].
    unfold key_leb in *. intros z Hz. rewrite str_leb_ltb, negb_true_iff in *.
    destruct (str_ltb (key z) (key x)) eqn:Ez; [|done].
    destruct (str_ltb_total (key y) (key z)) as [Hyz|[Hyz|Hyz]]; [|congruence|congruence].
    assert (str_ltb (key y) (key x) = true) by (by eapply str_ltb_trans). congruence.
  - constructor; [done|]. rewrite insert_by_perm. constructor; [|done].
    unfold key_leb in *. rewrite str_leb_ltb, negb_false_iff in E. rewrite str_leb_ltb, negb_true_iff.
    destruct (str_ltb (key x) (key y)) eqn:Ex; [|done].
    pose proof (str_ltb_trans _ _ _ E Ex) as Hc. by rewrite str_ltb_irrefl in Hc.
Qed.

Lemma sort_by_strict l : NoDup (key <$> l) -> StronglySorted key_lt (sort_by key_leb l).
Proof.
  intros Hnd. assert (NoDup (key <$> sort_by key_leb l)) as Hnd' by (by rewrite sort_by_perm).
  assert (StronglySorted (fun a b => key_leb a b = true) (sort_by key_leb l)) as Hs.
  { clear Hnd Hnd'. induction l as [|x l IH]; [constructor|]. simpl. by apply insert_by_sorted. }
  induction Hs as [|x l' Hs IH Hf]; [constructor|]. rewrite fmap_cons in Hnd'.
  apply NoDup_cons in Hnd' as [Hx Hnd']. constructor; [by apply IH|]. apply Forall_forall. intros y Hy.
  eapply Forall_forall in Hf; [|exact Hy]. unfold key_leb, key_lt in *.
  rewrite str_leb_ltb, negb_true_iff in Hf.
  destruct (str_ltb_total (key x) (key y)) as [?|[E|E]]; [done| |congruence].
  destruct Hx. rewrite E. by apply list_elem_of_fmap_2.
Qed.

(** The part of a sorted list beyond a key: after the last of the first [k], it is the rest. *)
Definition beyond (c : string) (l : list A) : list A := filter (fun x => str_ltb c (key x) = true) l.

Lemma beyond_sorted c l : StronglySorted key_lt l -> StronglySorted key_lt (beyond c l).
Proof.
  induction 1 as [|x l Hs IH Hf]; [constructor|]. unfold beyond in *. rewrite filter_cons.
  destruct (decide _); [|done]. constructor; [done|]. apply Forall_forall.
  intros y [_ Hy]%list_elem_of_filter. by eapply Forall_forall in Hf.
Qed.
Lemma beyond_all c l : Forall (fun x => str_ltb c (key x) = true) l -> beyond c l = l.
Proof. intros. by apply list_filter_all. Qed.
Lemma beyond_none c l : Forall (fun x => str_ltb c (key x) = false) l -> beyond c l = [].
Proof.
  induction 1 as [|x l Hx _ IH]; [done|]. unfold beyond in *. rewrite filter_cons, decide_False; [done|].
  congruence.
Qed.
Lemma beyond_last l1 l2 x :
  StronglySorted key_lt (l1 ++ l2) -> last l1 = Some x -> beyond (key x) (l1 ++ l2) = l2.
Proof.
  intros Hs Hx. apply last_Some in Hx as [l0 ->]. unfold beyond. rewrite filter_app.
  assert (Forall (fun y => str_ltb (key x) (key y) = false) (l0 ++ [x])) as H1.
  { apply Forall_forall. intros y Hy. apply elem_of_app in Hy as [Hy| ->%list_elem_of_singleton];
      [|apply str_ltb_irrefl]. destruct (str_ltb (key x) (key y)) eqn:E; [|done].
    assert (key_lt y x) as Hyx.
    { rewrite <- app_assoc in Hs. eapply (StronglySorted_app_1_elem_of _ l0); [exact Hs|done|].
      simpl. left. }
    pose proof (str_ltb_trans _ _ _ Hyx E) as Hc. by rewrite str_ltb_irrefl in Hc. }
  fold (beyond (key x) (l0 ++ [x])). rewrite (beyond_none _ _ H1). simpl.
  apply beyond_all. apply Forall_forall. intros y Hy. change (key_lt x y).
  eapply (StronglySorted_app_1_elem_of _ (l0 ++ [x])); [exact Hs| |done]. set_solver.
Qed.
Lemma beyond_beyond c c' l : str_ltb c c' = true -> beyond c' (beyond c l) = beyond c' l.
Proof.
  intros Hc. apply list_filter_filter_l. intros x Hx. by eapply str_ltb_trans.
Qed.
End sorting.


Section dictionary.
Context `{!TextSyntaxCore} `{!Sha256} `{!WireLimits} `{!FrameTransport}.
Context `{!Requests.RequestCodes} `{!CollectionCore}.
Context `{!ProstMessage ReplicaRequest} `{!ProstMessage ReplicaResponse}.
Context `{!ProstMessage ProtoReplicaRecord}.
Context (io_error : string) (KIND : Byte.byte).
Context {W P : Type} (svc : ClipboardService W) (peer : ClipboardService P).
(** The peer's state inside the world of the client. *)
Context (get : W -> P) (put : P -> W -> W).

(** An exchange with a peer that runs [serve_stream] on the bytes after the stream's kind. *)
Definition served (sent : bytes) : Call W bytes := fun w =>
  let '(s, _) := serve_stream io_error peer (Build_Srv (get w) (tail sent) []) in
  (put (srv_world s) w, Ok (srv_out s)).

(** The labels of one page, as both sides see them. *)
Definition sorted_labels (ls : list ClipboardLabel) : list ClipboardLabel :=
  sort_by (key_leb l_id) ls.

Lemma label_page_eq c ls :
  label_page c ls =
  {| pls_labels := label_to_wire <$> take 100 (beyond l_id c (sorted_labels ls));
     pls_next_cursor := if Nat.ltb 100 (length (beyond l_id c (sorted_labels ls)))
                        then l_id <$> last (take 100 (beyond l_id c (sorted_labels ls))) else None |}.
Proof. done. Qed.

Definition fits_request (r : Request) : Prop :=
  blen (encode_to_vec {| rq_body := Some r |}) <= MAX_CONTROL_FRAME_SIZE.
Definition fits_response (r : Response) : Prop :=
  blen (encode_to_vec (ok r)) <= MAX_CONTROL_FRAME_SIZE.

Lemma ask_labels c ls w :
  (forall p w, get (put p w) = p) -> (forall w, put (get w) w = w) ->
  pf_enabled (sync_preferences peer (get w)) = true ->
  replica_labels peer (get w) = (get w, Ok ls) ->
  fits_request (ScanLabels c) -> fits_response (RLabels (label_page c ls)) ->
  ask io_error KIND served (ScanLabels c) w = (w, Ok (RLabels (label_page c ls))).
Proof.
  intros Hgp Hpg Hen Hls F1 F2. pose proof MAX_CONTROL_FRAME_SIZE_range as Hmax.
  destruct (write_frame_fits _ _ F1) as [f1 W1]; [lia|].
  destruct (write_frame_fits _ _ F2) as [f2 W2]; [lia|].
  unfold ask, request, cbind at 1 2 3, clift. rewrite W1. simpl.
  unfold cbind at 1, served, serve_stream. simpl. rewrite Hen. simpl.
  unfold cbind at 1, read_request. cbn [srv_in].
  rewrite <- (app_nil_r f1), (read_write_frame _ _ _ _ W1). simpl. rewrite prost_decode_encode. simpl.
  unfold serve_request, cbind, clift. simpl. unfold on_world. simpl. rewrite Hls. simpl.
  unfold write_response. simpl. rewrite W2. simpl. rewrite Hpg.
  rewrite <- (app_nil_r f2), (read_write_frame _ _ _ _ W2). simpl. rewrite prost_decode_encode. simpl.
  done.
Qed.
End dictionary.


Section dictionary_claim.
Context `{!TextSyntaxCore} `{!Sha256} `{!WireLimits} `{!FrameTransport}.
Context `{!Requests.RequestCodes} `{!CollectionCore}.
Context `{!ProstMessage ReplicaRequest} `{!ProstMessage ReplicaResponse}.
Context `{!ProstMessage ProtoReplicaRecord}.
Context (io_error : string) (KIND : Byte.byte).
Context {W P : Type} (svc : ClipboardService W) (peer : ClipboardService P).
Context (get : W -> P) (put : P -> W -> W).

Definition add_labels (ls : list ClipboardLabel) (m : gmap string ClipboardLabel)
  : gmap string ClipboardLabel := foldl (fun m l => <[l_id l := l]> m) m ls.

Lemma add_labels_app l1 l2 m : add_labels (l1 ++ l2) m = add_labels l2 (add_labels l1 m).
Proof. apply foldl_app. Qed.
Lemma add_labels_size ls m : (size (add_labels ls m) <= size m + length ls)%nat.
Proof.
  revert m. induction ls as [|l ls IH]; intros m; [simpl; lia|]. specialize (IH (<[l_id l:=l]> m)).
  rewrite map_size_insert in IH.
  change (size (add_labels ls (<[l_id l:=l]> m)) <= size m + S (length ls))%nat.
  destruct (m !! l_id l); simpl in IH; lia.
Qed.
Lemma add_labels_lookup ls m id :
  NoDup (l_id <$> ls) -> forall l, add_labels ls m !! id = Some l <->
    (l ∈ ls /\ l_id l = id) \/ (id ∉ l_id <$> ls /\ m !! id = Some l).
Proof.
  revert m. induction ls as [|x ls IH]; intros m Hnd l.
  - simpl. set_solver.
  - change (add_labels (x :: ls) m) with (add_labels ls (<[l_id x := x]> m)). rewrite fmap_cons in Hnd. apply NoDup_cons in Hnd as [Hx Hnd].
    rewrite (IH _ Hnd l), lookup_insert_Some, fmap_cons, elem_of_cons.
    split.
    + intros [[? ?]|[Hn [[E <-]|[Hne Hm]]]]; [by auto| |].
      * left. split; [by left|done].
      * right. split; [|done]. rewrite elem_of_cons. intros [->|?]; done.
    + intros [[[->|Hl] E]|[Hn Hm]].
      * right. subst id. split; [done|]. by left.
      * by left.
      * rewrite elem_of_cons in Hn. right. split; [tauto|]. right. split; [|done].
        intros E. apply Hn. by left.
Qed.

Lemma collect_labels ls :
  Forall label_valid ls -> collect_results label_from_wire (label_to_wire <$> ls) = Ok ls.
Proof.
  intros Hv. apply collect_results_Ok. induction Hv as [|l ls Hl _ IH]; constructor; [|done].
  by apply label_from_wire_Ok.
Qed.

Context (ls : list ClipboardLabel) (p : P).
Context (get_put : forall p w, get (put p w) = p) (put_get : forall w, put (get w) w = w).
Context (enabled : pf_enabled (sync_preferences peer p) = true).
Context (labels_of : replica_labels peer p = (p, Ok ls)).
Context (valid : Forall label_valid ls) (distinct : NoDup (l_id <$> ls)).
Context (few : Z.of_nat (length ls) <= 10000).
Context (fits : forall c, (c = EmptyString \/ c ∈ l_id <$> ls) ->
  fits_request (ScanLabels c) /\ fits_response (RLabels (label_page c ls))).
Context (applies : forall l w, exists w' n, apply_replica_labels svc l w = (w', Ok n) /\ get w' = get w).

Lemma scan_labels_collects fuel c m s :
  get s.1 = p -> (c = EmptyString \/ c ∈ l_id <$> ls) ->
  Z.of_nat (size m + length (beyond l_id c (sorted_labels ls))) <= 10000 ->
  (length (beyond l_id c (sorted_labels ls)) < fuel)%nat ->
  exists s', scan_labels io_error KIND svc (served io_error peer get put) fuel c m s
    = (s', Value (add_labels (beyond l_id c (sorted_labels ls)) m)).
Proof.
  revert c m s. induction fuel as [|fuel IH]; intros c m s Hs Hc Hsize Hfuel; [lia|].
  set (rest := beyond l_id c (sorted_labels ls)) in *. cbn [scan_labels].
  destruct (fits c Hc) as [F1 F2]. unfold Rbind at 1, run at 1.
  rewrite (ask_labels io_error KIND peer get put c ls s.1);
    [|done|done|by rewrite Hs|by rewrite Hs|done|done].
  rewrite label_page_eq. fold rest. cbn [pls_labels pls_next_cursor].
  assert (StronglySorted (key_lt l_id) rest) as Hsort by (by apply beyond_sorted, sort_by_strict).
  assert (forall l, l ∈ rest -> l ∈ ls /\ str_ltb c (l_id l) = true) as Hrest.
  { intros l [Hlt Hl]%list_elem_of_filter. unfold sorted_labels in Hl. by rewrite sort_by_perm in Hl. }
  assert (Forall label_valid (take 100 rest)) as Hvalid.
  { apply Forall_forall. intros l Hl%elem_of_take. destruct Hl as (i & Hl & _).
    apply list_elem_of_lookup_2 in Hl. eapply Forall_forall; [exact valid|]. by apply Hrest. }
  unfold Rbind at 1, run at 1, clift. rewrite (collect_labels _ Hvalid). simpl fst.
  destruct (applies (take 100 rest) s.1) as (w' & k & Hap & Hget).
  unfold Rbind at 1, run at 1. simpl fst. rewrite Hap. unfold Rbind at 1 2, modify. simpl fst. simpl snd.
  change (foldl _ m (take 100 rest)) with (add_labels (take 100 rest) m).
  destruct (Nat.ltb 100 (length rest)) eqn:E.
  - apply Nat.ltb_lt in E. destruct (last (take 100 rest)) as [x|] eqn:Hlast.
    2:{ apply last_None in Hlast. apply (f_equal length) in Hlast. rewrite length_take in Hlast.
        change (length []) with 0%nat in Hlast. lia. }
    assert (x ∈ rest) as Hx.
    { apply last_Some_elem_of, elem_of_take in Hlast as (i & Hl & _). by eapply list_elem_of_lookup_2. }
    destruct (Hrest x Hx) as [Hxl Hxc]. cbn [fmap option_fmap option_map].
    assert (beyond l_id (l_id x) (sorted_labels ls) = drop 100 rest) as Hb.
    { rewrite <- (beyond_beyond l_id c) by done. fold rest.
      rewrite <- (take_drop 100 rest) at 1. apply beyond_last; [by rewrite take_drop|done]. }
    rewrite str_leb_ltb, Hxc. cbn [negb orb].
    pose proof (add_labels_size (take 100 rest) m) as Hsz. rewrite length_take in Hsz.
    assert (Z.of_nat (size (add_labels (take 100 rest) m)) <= 10000) as Hle.
    { etransitivity; [apply inj_le, Hsz|]. lia. }
    rewrite (proj2 (gtb_false _ _) Hle).
    destruct (IH (l_id x) (add_labels (take 100 rest) m)
      ((w', count_differences (Z.of_N k) (count_labels_received (Z.of_N k) s.2)))) as [s' Hrun].
    + simpl. by rewrite Hget.
    + right. by apply list_elem_of_fmap_2.
    + rewrite Hb, length_drop. lia.
    + rewrite Hb, length_drop. lia.
    + exists s'. rewrite Hrun, Hb, <- add_labels_app, take_drop. done.
  - apply Nat.ltb_ge in E. rewrite take_ge by lia. by eexists.
Qed.

(** The label dictionary of a peer arrives whole.  A client that scans the labels of a peer
    running [serve_stream], over the wire format, page by page, ends with exactly the peer's
    labels, each under its id and unchanged, however many pages they take. *)
Theorem label_scan_complete fuel s :
  get s.1 = p -> (length ls < fuel)%nat ->
  exists s' m, scan_labels io_error KIND svc (served io_error peer get put) fuel EmptyString ∅ s
    = (s', Value m) /\ forall id l, m !! id = Some l <-> l ∈ ls /\ l_id l = id.
Proof.
  intros Hs Hfuel.
  assert (beyond l_id EmptyString (sorted_labels ls) = sorted_labels ls) as Hall.
  { apply beyond_all. unfold sorted_labels. rewrite sort_by_perm. apply Forall_forall. intros l Hl.
    eapply Forall_forall in valid; [|exact Hl]. pose proof (lv_id _ valid) as Hid.
    destruct (l_id l); [done|]. done. }
  assert (length (sorted_labels ls) = length ls) as Hlen by (unfold sorted_labels; by rewrite sort_by_perm).
  destruct (scan_labels_collects fuel EmptyString ∅ s Hs) as [s' Hrun]; [by left|..].
  - rewrite Hall, Hlen, map_size_empty. lia.
  - rewrite Hall, Hlen. done.
  - rewrite Hall in Hrun. eexists s', _. split; [exact Hrun|]. intros id l.
    rewrite add_labels_lookup by (unfold sorted_labels; by rewrite sort_by_perm).
    rewrite lookup_empty. unfold sorted_labels. rewrite sort_by_perm. split; [|auto].
    intros [?|[_ ?]]; done.
Qed.
End dictionary_claim.


(** ** Manifest pages *)

Section pages.
Context `{!TextSyntaxCore} `{!WireLimits} `{!ProstMessage ProtoReplicaRecord}.

Definition record_key (r : ClipboardReplicaRecord) : Z * string :=
  (captured_at_ms (record r), sync_id (record r)).
Definition record_cursor (r : ClipboardReplicaRecord) : Cursor :=
  {| cu_captured_at_ms := captured_at_ms (record r); cu_sync_id := sync_id (record r) |}.

(** The records older than a cursor. *)
Definition older (c : option Cursor) (all : list ClipboardReplicaRecord) : list ClipboardReplicaRecord :=
  match c with
  | Some c => filter (fun r => ver_lt (record_key r) (cursor_key c) = true) all
  | None => all
  end.

(** Newest first, without repetition. *)
Definition newest_sorted (all : list ClipboardReplicaRecord) : Prop :=
  StronglySorted (fun a b => ver_lt (record_key b) (record_key a) = true) all.

(** The service's page: the next [limit] records, and a cursor if there are more. *)
Definition service_page (limit : nat) (c : option Cursor) (all : list ClipboardReplicaRecord) : ServicePage :=
  let rest := older c all in
  {| sp_records := take limit rest;
     sp_next_cursor := if Nat.ltb limit (length rest) then record_cursor <$> last (take limit rest)
                       else None |}.

(** What the server answers to [Scan], and a client that follows its cursors to the end. *)
Definition manifest_page (limit : nat) (all : list ClipboardReplicaRecord) (c : option Cursor) : ReplicaPage :=
  let page := service_page limit c all in fill_page 0 [] (sp_next_cursor page) (sp_records page).
Fixpoint manifest_pages (fuel limit : nat) (all : list ClipboardReplicaRecord) (c : option Cursor)
  : option (list (list ProtoReplicaRecord)) :=
  match fuel with
  | O => None
  | S fuel =>
    let page := manifest_page limit all c in
    match pg_next_cursor page with
    | None => Some [pg_records page]
    | Some next => cons (pg_records page) <$> manifest_pages fuel limit all (Some next)
    end
  end.

Definition wire_size (l : list ProtoReplicaRecord) : Z :=
  foldr (fun w n => blen (encode_to_vec w) + n) 0 l.

Lemma wire_size_app a b : wire_size (a ++ b) = wire_size a + wire_size b.
Proof. induction a as [|x a IH]; [done|]. simpl. unfold wire_size in *. lia. Qed.

Lemma fill_page_spec size acc next rs :
  size = wire_size (metadata_to_wire <$> acc) ->
  (length acc <= 1)%nat \/ size <= MAX_CONTROL_FRAME_SIZE / 2 ->
  exists k, (k <= length rs)%nat /\ (acc = [] -> rs <> [] -> (0 < k)%nat)
    /\ let page := fill_page size (metadata_to_wire <$> acc) next rs in
       pg_records page = metadata_to_wire <$> acc ++ take k rs
       /\ ((length (pg_records page) <= 1)%nat
           \/ wire_size (pg_records page) <= MAX_CONTROL_FRAME_SIZE / 2)
       /\ pg_next_cursor page = if Nat.ltb k (length rs) then record_cursor <$> last (acc ++ take k rs)
                                else next.
Proof.
  revert size acc. induction rs as [|r rs IH]; intros size acc Hsize Hb; cbn [fill_page].
  { exists 0%nat. simpl. rewrite app_nil_r, length_fmap. split; [lia|]. split; [done|].
    split; [done|]. split; [|done]. rewrite <- Hsize. exact Hb. }
  destruct (_ && _) eqn:E.
  - apply andb_true_iff in E as [E _]. exists 0%nat. split; [lia|]. split; [by intros ->|].
    cbn zeta. rewrite take_0, app_nil_r. split; [done|]. simpl. rewrite length_fmap, <- Hsize. split; [exact Hb|].
    rewrite fmap_last. destruct (last acc) as [x|] eqn:Hl; [done|].
    by apply last_None in Hl as ->.
  - set (w := metadata_to_wire r) in *.
    destruct (IH (size + blen (encode_to_vec w)) (acc ++ [r])) as (k & Hk & _ & H1 & H2 & H3).
    + rewrite fmap_app, wire_size_app. simpl. fold w. lia.
    + apply andb_false_iff in E as [E|E%gtb_false]; [|by right]. left.
      destruct acc; [simpl; lia|]. done.
    + rewrite fmap_app in H1, H2, H3. exists (S k). split; [simpl; lia|]. split; [lia|]. cbn zeta.
      simpl fmap in H1, H2, H3. fold w in H1, H2, H3. rewrite <- !app_assoc in H1, H3.
      rewrite H1, H3. split; [done|]. split; [by rewrite H1 in H2|]. done.
Qed.

Lemma older_sorted c all : newest_sorted all -> newest_sorted (older c all).
Proof.
  intros Hs. destruct c as [c|]; [|done]. simpl. induction Hs as [|x l Hs IH Hf]; [constructor|].
  rewrite filter_cons. destruct (decide _); [|done]. constructor; [done|]. apply Forall_forall.
  intros y [_ Hy]%list_elem_of_filter. by eapply Forall_forall in Hf.
Qed.

Lemma filter_none {A} (P : A -> Prop) `{forall x, Decision (P x)} l : Forall (fun x => ~ P x) l -> filter P l = [].
Proof. induction 1 as [|x l Hx _ IH]; [done|]. by rewrite filter_cons_False. Qed.

(** Continuing after the last of the first [k] records gives the others. *)
Lemma older_last c all k x :
  newest_sorted all -> last (take k (older c all)) = Some x ->
  older (Some (record_cursor x)) all = drop k (older c all).
Proof.
  intros Hall Hx. pose proof (older_sorted c all Hall) as Hs. set (rest := older c all) in *.
  assert (x ∈ rest) as Hin.
  { apply last_Some_elem_of, elem_of_take in Hx as (i & Hl & _). by eapply list_elem_of_lookup_2. }
  assert (older (Some (record_cursor x)) all
    = filter (fun r => ver_lt (record_key r) (record_key x) = true) rest) as ->.
  { simpl. unfold rest, older. destruct c as [c|]; [|done]. symmetry. apply list_filter_filter_l.
    intros r Hr. unfold rest in Hin. apply list_elem_of_filter in Hin as [Hxc _].
    by eapply ver_lt_trans. }
  rewrite <- (take_drop k rest) at 1. rewrite filter_app.
  apply last_Some in Hx as [l0 Hl0]. rewrite <- (take_drop k rest), Hl0 in Hs.
  unfold newest_sorted in Hs. rewrite <- app_assoc in Hs.
  rewrite filter_none.
  - simpl. apply list_filter_all, Forall_forall. intros y Hy.
    apply StronglySorted_app_1_r in Hs. apply StronglySorted_cons in Hs as [Hf _].
    by eapply Forall_forall in Hf.
  - rewrite Hl0. apply Forall_forall. intros y Hy Hlt. apply elem_of_app in Hy as [Hy|Hy].
    + assert (ver_lt (record_key x) (record_key y) = true) as Hxy.
      { refine (StronglySorted_app_1_elem_of _ l0 _ y x Hs Hy _). simpl. left. }
      pose proof (ver_lt_trans _ _ _ Hlt Hxy) as Hc. by rewrite ver_lt_irrefl in Hc.
    + apply list_elem_of_singleton in Hy as ->. by rewrite ver_lt_irrefl in Hlt.
Qed.

Lemma manifest_page_spec limit all c :
  (0 < limit)%nat -> newest_sorted all ->
  exists k, (older c all <> [] -> (0 < k)%nat)
    /\ let page := manifest_page limit all c in
       pg_records page = metadata_to_wire <$> take k (older c all)
       /\ ((length (pg_records page) <= 1)%nat
           \/ wire_size (pg_records page) <= MAX_CONTROL_FRAME_SIZE / 2)
       /\ match pg_next_cursor page with
          | Some next => older (Some next) all = drop k (older c all)
                         /\ (k < length (older c all))%nat
          | None => (length (older c all) <= k)%nat
          end.
Proof.
  intros Hlim Hall. unfold manifest_page, service_page. cbn [sp_records sp_next_cursor].
  set (rest := older c all). set (next := if Nat.ltb limit (length rest) then _ else None).
  destruct (fill_page_spec 0 [] next (take limit rest)) as (k & Hk & Hpos & H1 & H2 & H3); [done|by left; simpl; lia|].
  rewrite length_take in Hk, H3. simpl fmap in H1, H2, H3. simpl app in H1, H3.
  rewrite take_take in H1, H3. replace (k `min` limit)%nat with k in H1, H3 by lia.
  exists k. split.
  { intros Hne. apply Hpos; [done|]. destruct rest; [done|]. by destruct limit; [lia|]. }
  cbn zeta. split; [exact H1|]. split; [exact H2|]. rewrite H3. clear H1 H2 H3.
  assert (forall j, (0 < j)%nat -> (j <= length rest)%nat -> exists x, last (take j rest) = Some x) as Hlast.
  { intros j Hj Hle. destruct (last (take j rest)) as [x|] eqn:E; [by eauto|].
    apply last_None, (f_equal length) in E. rewrite length_take in E. change (length []) with 0%nat in E. lia. }
  destruct (Nat.ltb k (limit `min` length rest)) eqn:E.
  - apply Nat.ltb_lt in E. destruct (decide (rest = [])) as [->|Hne]; [simpl in E; lia|].
    assert (0 < k)%nat as Hk0 by (apply Hpos; [done|]; destruct rest; [done|]; by destruct limit; [lia|]).
    destruct (Hlast k) as [x Hx]; [lia|lia|]. rewrite Hx. simpl. split; [by eapply older_last|lia].
  - apply Nat.ltb_ge in E. unfold next. destruct (Nat.ltb limit (length rest)) eqn:El.
    + apply Nat.ltb_lt in El. replace (limit `min` length rest)%nat with limit in * by lia.
      destruct (Hlast limit) as [x Hx]; [lia|lia|]. rewrite Hx. simpl.
      assert (k = limit) as -> by lia. split; [by eapply older_last|lia].
    + apply Nat.ltb_ge in El. lia.
Qed.

(** Following the server's cursors lists every record once.  Whatever the sizes of the records,
    a scan of the manifest ends after at most one page per record, the pages hold all records,
    newest first, each exactly once, and no page takes more than half a control frame unless it is
    a single record. *)
Theorem manifest_scan_complete limit all :
  (0 < limit)%nat -> newest_sorted all ->
  exists pages, manifest_pages (S (length all)) limit all None = Some pages
    /\ concat pages = metadata_to_wire <$> all
    /\ Forall (fun p => (length p <= 1)%nat \/ wire_size p <= MAX_CONTROL_FRAME_SIZE / 2) pages.
Proof.
  intros Hlim Hall. enough (forall fuel c, (length (older c all) < fuel)%nat ->
    exists pages, manifest_pages fuel limit all c = Some pages
      /\ concat pages = metadata_to_wire <$> older c all
      /\ Forall (fun p => (length p <= 1)%nat \/ wire_size p <= MAX_CONTROL_FRAME_SIZE / 2) pages)
    as Hscan by (apply (Hscan (S (length all)) None); simpl; lia).
  induction fuel as [|fuel IH]; intros c Hf; [lia|]. cbn [manifest_pages].
  destruct (manifest_page_spec limit all c Hlim Hall) as (k & Hpos & Hrec & Hsize & Hnext).
  destruct (pg_next_cursor (manifest_page limit all c)) as [next|].
  - destruct Hnext as [Hold Hk].
    assert (older c all <> []) as Hne by (intros E; rewrite E in Hk; simpl in Hk; lia).
    specialize (Hpos Hne). destruct (IH (Some next)) as (pages & -> & Hc & Hf').
    { rewrite Hold, length_drop. lia. }
    eexists. split; [reflexivity|]. split; [|by constructor].
    cbn [concat]. rewrite Hc, Hrec, Hold, <- fmap_app, take_drop. done.
  - eexists. split; [reflexivity|]. split; [|constructor; [exact Hsize|constructor]].
    cbn [concat]. rewrite app_nil_r, Hrec, take_ge by lia. done.
Qed.
End pages.


(** ** Witnesses *)

#[local] Existing Instance toy_digest.
#[local] Existing Instance toy_limits.
#[local] Existing Instance RemoteFiles.toy_frames.
#[local] Existing Instance toy_syntax.
#[local] Existing Instance Requests.toy_codes.

(** A concrete codec: messages as trees of strings and numbers. *)
Notation tree := (gen_tree (string + Z)).
Class Tree (A : Type) := {
  to_tree : A -> tree;
  of_tree : tree -> option A;
  of_to_tree : forall a, of_tree (to_tree a) = Some a;
}.
#[local] Instance string_tree : Tree string.
Proof.
  refine {| to_tree s := GenLeaf (inl s);
            of_tree t := match t with GenLeaf (inl s) => Some s | _ => None end |}. done.
Defined.
#[local] Instance Z_tree : Tree Z.
Proof.
  refine {| to_tree z := GenLeaf (inr z);
            of_tree t := match t with GenLeaf (inr z) => Some z | _ => None end |}. done.
Defined.
#[local] Instance unit_tree : Tree unit.
Proof. refine {| to_tree _ := GenNode 0 []; of_tree _ := Some tt |}. by intros []. Defined.
#[local] Instance pair_tree {A B} `{!Tree A} `{!Tree B} : Tree (A * B).
Proof.
  refine {| to_tree p := GenNode 0 [to_tree p.1; to_tree p.2];
            of_tree t := match t with
                         | GenNode _ [a; b] => a ← of_tree a; b ← of_tree b; Some (a, b)
                         | _ => None
                         end |}.
  intros [a b]. simpl. by rewrite !of_to_tree.
Defined.
#[local] Instance sum_tree {A B} `{!Tree A} `{!Tree B} : Tree (A + B).
Proof.
  refine {| to_tree s := match s with inl a => GenNode 0 [to_tree a] | inr b => GenNode 1 [to_tree b] end;
            of_tree t := match t with
                         | GenNode 0 [a] => inl <$> of_tree a
                         | GenNode _ [b] => inr <$> of_tree b
                         | _ => None
                         end |}.
  intros [a|b]; simpl; by rewrite of_to_tree.
Defined.
#[local] Instance list_tree {A} `{!Tree A} : Tree (list A).
Proof.
  refine {| to_tree l := GenNode 0 (to_tree <$> l);
            of_tree t := match t with GenNode _ l => mapM of_tree l | _ => None end |}.
  intros l. apply mapM_fmap_Some, of_to_tree.
Defined.
Definition iso_tree {A B} `{!Tree B} (f : A -> B) (g : B -> A) (gf : forall a, g (f a) = a) : Tree A.
Proof.
  refine {| to_tree a := to_tree (f a); of_tree t := g <$> of_tree t |}.
  intros a. rewrite of_to_tree. simpl. by rewrite gf.
Defined.
#[local] Instance bool_tree : Tree bool.
Proof.
  refine (iso_tree (fun b : bool => if b then inl tt else inr tt)
            (fun s : unit + unit => match s with inl _ => true | inr _ => false end) _).
  by intros [].
Defined.
#[local] Instance N_tree : Tree N.
Proof. refine (iso_tree Z.of_N Z.to_N _). apply N2Z.id. Defined.
#[local] Instance option_tree {A} `{!Tree A} : Tree (option A).
Proof.
  refine (iso_tree (fun o => match o with Some a => inl a | None => inr tt end)
            (fun s : A + unit => match s with inl a => Some a | inr _ => None end) _).
  by intros [].
Defined.
#[local] Instance byte_tree : Tree Byte.byte.
Proof.
  refine (iso_tree (fun b => Z.of_N (Byte.to_N b))
            (fun z => default Byte.x00 (Byte.of_N (Z.to_N z))) _).
  intros b. by rewrite N2Z.id, Byte.of_to_N.
Defined.
Definition message_of_tree {A} `{!Tree A} : ProstMessage A.
Proof.
  refine {| encode_to_vec a := RemoteFiles.pos_bytes (encode (to_tree a));
            prost_decode b := decode (RemoteFiles.bytes_pos b) ≫= of_tree |}.
  intros a. rewrite RemoteFiles.bytes_pos_bytes, countable.decode_encode. simpl. apply of_to_tree.
Defined.

#[local] Instance label_tree : Tree ProtoLabel.
Proof.
  refine (iso_tree (fun l => (pl_id l, pl_name l, pl_color l, pl_revision l,
      pl_updated_by_device_id l, pl_deleted l))
    (fun '(a, b, c, d, e, f) => Build_ProtoLabel a b c d e f) _).
  by intros [].
Defined.
#[local] Instance membership_tree : Tree ProtoMembership.
Proof.
  refine (iso_tree (fun m => (pm_label_id m, pm_attached m, pm_revision m, pm_updated_by_device_id m))
    (fun '(a, b, c, d) => Build_ProtoMembership a b c d) _).
  by intros [].
Defined.
#[local] Instance sync_record_tree : Tree ProtoSyncRecord.
Proof.
  refine (iso_tree (fun r => ((p_sync_id r, p_kind r, p_width r, p_height r, p_preview r, p_source_app r,
      p_source_device_id r, p_source_device_name r, p_captured_at_ms r, p_revision r),
      (p_updated_by_device_id r, p_favorite r, p_favorite_revision r, p_favorite_updated_by_device_id r,
      p_labels r, p_label_memberships r, p_deleted r, p_change_kind r, p_live r, p_text_syntax_json r,
      p_payload r)))
    (fun '((a, b, c, d, e, f, g, h, i, j), (k, l, m, n, o, p, q, r, s, t, u)) =>
       Build_ProtoSyncRecord a b c d e f g h i j k l m n o p q r s t u) _).
  by intros [].
Defined.
#[local] Instance blob_ref_tree : Tree BlobRef.
Proof.
  refine (iso_tree (fun b => (blob_id b, ref_size b, media_type b, ref_sha256 b))
    (fun '(a, b, c, d) => {| blob_id := a; ref_size := b; media_type := c; ref_sha256 := d |}) _).
  by intros [].
Defined.
#[local] Instance replica_record_tree : Tree ProtoReplicaRecord.
Proof.
  refine (iso_tree (fun r => (pr_metadata r, pr_first_captured_at_ms r, pr_copy_count r,
      pr_last_used_at_ms r, pr_parts r, pr_metadata_only r))
    (fun '(a, b, c, d, e, f) => Build_ProtoReplicaRecord a b c d e f) _).
  by intros [].
Defined.
#[local] Instance collection_tree : Tree ProtoCollection.
Proof.
  refine (iso_tree (fun c => (pc_format_version c, pc_document_json c))
    (fun '(a, b) => Build_ProtoCollection a b) _).
  by intros [].
Defined.
#[local] Instance cursor_tree : Tree Cursor.
Proof.
  refine (iso_tree (fun c => (cu_captured_at_ms c, cu_sync_id c)) (fun '(a, b) => Build_Cursor a b) _).
  by intros [].
Defined.
#[local] Instance labels_tree : Tree ReplicaLabels.
Proof.
  refine (iso_tree (fun l => (pls_labels l, pls_next_cursor l)) (fun '(a, b) => Build_ReplicaLabels a b) _).
  by intros [].
Defined.
#[local] Instance page_tree : Tree ReplicaPage.
Proof.
  refine (iso_tree (fun p => (pg_records p, pg_next_cursor p)) (fun '(a, b) => Build_ReplicaPage a b) _).
  by intros [].
Defined.
#[local] Instance collections_tree : Tree CollectionPage.
Proof.
  refine (iso_tree (fun p => (cp_records p, cp_next_cursor p, cp_sync_edits_and_deletes p, cp_sync_favorites p))
    (fun '(a, b, c, d) => Build_CollectionPage a b c d) _).
  by intros [].
Defined.
#[local] Instance request_tree : Tree Request.
Proof.
  refine (iso_tree (fun r => match r with
      | ScanCollections a => inl (inl (inl a))
      | StoreCollection c => inl (inl (inr c))
      | Revision f => inl (inr (inl f))
      | Scan c l => inl (inr (inr (c, l)))
      | Fetch i => inr (inl (inl i))
      | CheckRecord h => inr (inl (inr h))
      | StoreRecord h => inr (inr (inl h))
      | ScanLabels c => inr (inr (inr (inl c)))
      | StoreLabels l => inr (inr (inr (inr l)))
      end)
    (fun s : (string + ProtoCollection + (bool + option Cursor * Z))
             + (string + ProtoReplicaRecord + (ProtoReplicaRecord + (string + ReplicaLabels))) =>
      match s with
      | inl (inl (inl a)) => ScanCollections a
      | inl (inl (inr c)) => StoreCollection c
      | inl (inr (inl f)) => Revision f
      | inl (inr (inr (c, l))) => Scan c l
      | inr (inl (inl i)) => Fetch i
      | inr (inl (inr h)) => CheckRecord h
      | inr (inr (inl h)) => StoreRecord h
      | inr (inr (inr (inl c))) => ScanLabels c
      | inr (inr (inr (inr l))) => StoreLabels l
      end) _).
  by intros [].
Defined.
#[local] Instance response_tree : Tree Response.
Proof.
  refine (iso_tree (fun r => match r with
      | RCollections p => inl (inl p)
      | RChanged n => inl (inr (inl n))
      | RRevision n => inl (inr (inr n))
      | RPage p => inr (inl p)
      | RRecord h => inr (inr (inl h))
      | RLabels l => inr (inr (inr l))
      end)
    (fun s : (CollectionPage + (N + Z)) + (ReplicaPage + (ProtoReplicaRecord + ReplicaLabels)) =>
      match s with
      | inl (inl p) => RCollections p
      | inl (inr (inl n)) => RChanged n
      | inl (inr (inr n)) => RRevision n
      | inr (inl p) => RPage p
      | inr (inr (inl h)) => RRecord h
      | inr (inr (inr l)) => RLabels l
      end) _).
  by intros [].
Defined.
#[local] Instance code_tree : Tree ErrorCode.
Proof.
  refine (iso_tree (fun c => match c with ECOk => 0 | ECInvalidArgument => 1 | ECUnauthenticated => 2
      | ECPermissionDenied => 3 | ECNotFound => 4 | ECConflict => 5 | ECResourceExhausted => 6
      | ECFailedPrecondition => 7 | ECUnsupported => 8 | ECUnavailable => 9 | ECDeadlineExceeded => 10
      | ECInternal => 11 | ECBusy => 12 | ECCancelled => 13 end)
    (fun z : Z => match z with 0 => ECOk | 1 => ECInvalidArgument | 2 => ECUnauthenticated
      | 3 => ECPermissionDenied | 4 => ECNotFound | 5 => ECConflict | 6 => ECResourceExhausted
      | 7 => ECFailedPrecondition | 8 => ECUnsupported | 9 => ECUnavailable | 10 => ECDeadlineExceeded
      | 11 => ECInternal | 12 => ECBusy | _ => ECCancelled end) _).
  by intros [].
Defined.
#[local] Instance replica_request_message : ProstMessage ReplicaRequest.
Proof.
  refine (@message_of_tree _ (iso_tree rq_body Build_ReplicaRequest _)). by intros [].
Defined.
#[local] Instance replica_response_message : ProstMessage ReplicaResponse.
Proof.
  refine (@message_of_tree _ (iso_tree (fun r => ((fun s => (rs_code s, rs_message s)) <$> rp_status r, rp_body r))
    (fun '(s, b) => {| rp_status := (fun '(c, m) => Build_ReplicaStatus c m) <$> s; rp_body := b |}) _)).
  by intros [[[]|] ?].
Defined.
#[local] Instance replica_record_message : ProstMessage ProtoReplicaRecord := message_of_tree.

#[local] Instance toy_collections : CollectionCore :=
  {| col_id := fun s => s; col_revision := fun _ => 1; col_updated_by := fun _ => "left";
     col_favorite := fun _ => false; col_favorite_revision := fun _ => 1;
     col_favorite_updated_by := fun _ => "left"; col_deleted := fun _ => false;
     col_with_favorite := fun _ _ _ c => c; col_to_json := Some; col_json_bytes := into_bytes |}.

(** A service that holds labels and records and is never changed. *)
Record Store := { sto_labels : list ClipboardLabel; sto_records : list ClipboardReplicaRecord }.
Definition toy_service {W} (look : W -> Store) : ClipboardService W := {|
  sync_preferences := fun _ => {| pf_enabled := true; pf_sync_edits_and_deletes := true;
                                  pf_sync_favorites := true |};
  svc_revision := fun w => (w, Ok 1);
  replica_page := fun c limit w => (w, Ok (service_page (Z.to_nat limit) c (sto_records (look w))));
  replica_record := fun id w =>
    (w, Ok (list_find (fun r => sync_id (record r) = id) (sto_records (look w)) ≫= fun p => Some p.2));
  should_send_sync_record := fun _ _ => true;
  check_replica_storage := fun _ w => (w, Ok tt);
  apply_replica_record := fun _ w => (w, Ok false);
  replica_labels := fun w => (w, Ok (sto_labels (look w)));
  apply_replica_labels := fun _ w => (w, Ok 0%N);
  svc_collections := fun _ w => (w, Ok []);
  apply_collection := fun _ w => (w, Ok false);
  receive_collection := fun _ _ _ w => (w, Ok false);
  wall_clock := fun w => (w, 100);
|}.

Definition wlabels : list ClipboardLabel :=
  [{| l_id := "work"; l_name := "Work"; l_color := "#00ff00"; l_revision := 2;
      l_updated_by_device_id := "left"; l_deleted := false |};
   {| l_id := "home"; l_name := "Home"; l_color := "#ff0000"; l_revision := 1;
      l_updated_by_device_id := "left"; l_deleted := false |}].
Definition wstore : Store := {| sto_labels := wlabels; sto_records := [wrecord] |}.
Definition wsides : Store * Store := (wstore, wstore).
Definition wput (p : Store) (w : Store * Store) : Store * Store := (w.1, p).
Definition wexchange : bytes -> Call (Store * Store) bytes :=
  served "io" (toy_service (fun p : Store => p)) snd wput.
Definition wresult : (Store * Store) * option ReconciliationResult :=
  reconcile "io" Byte.x07 (toy_service fst) wexchange 5 wsides.

Lemma reconcile_converged_sound_witness :
  exists r, wresult.2 = Some r /\ converged r = true
    /\ exists local remote local' rl ls,
         quiet_pass "io" Byte.x07 (toy_service fst) wexchange 5 r local remote local' rl ls.
Proof.
  destruct wresult as [w' [r|]] eqn:E; [|vm_compute in E; discriminate E].
  assert (converged r = true) as Hc by (vm_compute in E; by injection E as <- <-).
  destruct (reconcile_converged_sound "io" Byte.x07 (toy_service fst) wexchange 5 wsides w' r E Hc)
    as (_ & local & remote & local' & rl & ls & HQ & _).
  exists r. split; [reflexivity|]. split; [exact Hc|]. by exists local, remote, local', rl, ls.
Defined.

(** A peer that answers everything with one more page of labels. *)
Definition wendless : Response := RLabels {| pls_labels := []; pls_next_cursor := Some "a" |}.
Definition wendless_exchange : bytes -> Call (Store * Store) bytes := fun _ w =>
  (w, ok_or (write_frame MAX_CONTROL_FRAME_SIZE (encode_to_vec (ok wendless))) "io").

Lemma wendless_ask req w w' resp :
  ask "io" Byte.x07 wendless_exchange req w = (w', Ok resp) -> resp = wendless.
Proof.
  unfold ask, request, cbind, clift. destruct (ok_or _ _) as [f|e]; [|done]. destruct (send_parts _ _ _); [|done].
  vm_compute. congruence.
Qed.
Lemma wprogress : pages_progress (toy_service (W := Store * Store) (fun _ => wstore)) 64.
Proof.
  split; [|intros c w w' page [= _ <-]; constructor].
  intros c w w' page next [= _ <-]. unfold service_page. cbn [sp_next_cursor].
  assert (Nat.ltb 100 (length (older c (sto_records wstore))) = false) as E.
  { apply Nat.ltb_ge. destruct c as [c|]; [|simpl; lia]. unfold older.
    etransitivity; [apply length_filter|]. simpl. lia. }
  destruct (Nat.ltb _ _) eqn:E'; [|done]. discriminate E.
Qed.

Lemma reconcile_terminates_witness :
  exists w' r, reconcile "io" Byte.x07 (toy_service (fun _ => wstore)) wendless_exchange
    (enough_fuel 64) wsides = (w', Some r).
Proof.
  apply (reconcile_terminates "io" Byte.x07 (toy_service (fun _ => wstore)) wendless_exchange 64).
  - intros req w w' resp ->%wendless_ask c [= <-]. simpl. lia.
  - exact wprogress.
Defined.

Lemma wlabels_valid : Forall label_valid wlabels.
Proof.
  repeat (constructor; [match goal with |- label_valid ?l =>
    apply (proj1 (label_from_wire_Ok (label_to_wire l) l)); vm_compute; reflexivity end|]).
  constructor.
Qed.

Lemma label_scan_complete_witness :
  exists s' m, scan_labels "io" Byte.x07 (toy_service fst) wexchange 3 EmptyString ∅ (wsides, default_result)
    = (s', Value m) /\ forall id l, m !! id = Some l <-> l ∈ wlabels /\ l_id l = id.
Proof.
  apply (label_scan_complete "io" Byte.x07 (toy_service fst) (toy_service (fun p : Store => p)) snd wput
           wlabels wstore).
  - reflexivity.
  - by intros [].
  - reflexivity.
  - reflexivity.
  - exact wlabels_valid.
  - apply (bool_decide_unpack _). vm_compute. exact I.
  - simpl. lia.
  - intros c [->|Hc]; [split; vm_compute; discriminate|].
    repeat (apply elem_of_cons in Hc as [->|Hc]; [split; vm_compute; discriminate|]).
    by apply elem_of_nil in Hc.
  - intros l w. by exists w, 0%N.
  - reflexivity.
  - simpl. lia.
Defined.

Lemma manifest_scan_complete_witness :
  exists pages, manifest_pages 2 1 [wrecord] None = Some pages
    /\ concat pages = metadata_to_wire <$> [wrecord].
Proof.
  destruct (manifest_scan_complete 1 [wrecord]) as (pages & Hp & Hc & _).
  - lia.
  - repeat constructor.
  - by exists pages.
Defined.

End Replication.
