(* ===== verification/Snapshots.v ===== *)
(** * Wire snapshots of host state

    Models the adapters of [src/proto_msg.rs] from the host's domain values to wire messages, and
    the snapshot builders of [src/server/proto_handler/requests/snapshots.rs] that bound and
    sanitise what a client is sent: system, media, process, window, space, action and notification
    snapshots, and the conversion of clipboard sync records both ways.  A [f32] or [f64] is a
    [spec_float]; enumerations that travel as [i32] keep their constructors or go through the
    numbering of the [SyncCodes] class.  A blob store or upload store is the state of its own file,
    and [times] are the clock readings of the successive calls to it. *)

From Stdlib Require Import ZArith Lia Ascii String SpecFloat.
From stdpp Require Import base tactics option list strings gmap.
From S2P Require Import Prelude Proto BlobStore ClipboardUpload Text Requests ReplicaWire.

Module Snapshots.
Import ReplicaWire.
Local Open Scope string_scope.
Local Open Scope list_scope.
Local Open Scope Z_scope.

Definition MAX_PROCESS_ITEMS : nat := 4096.
Definition MAX_APP_VOLUME_ITEMS : nat := 2048.
Definition MAX_GPU_ITEMS : nat := 64.
Definition MAX_DISK_ITEMS : nat := 256.
Definition MAX_WINDOW_ITEMS : nat := 1024.
Definition MAX_SPACE_ITEMS : nat := 256.
Definition MAX_ACTION_ITEMS : nat := 512.
Definition MAX_AUTOMATION_ITEMS : nat := 256.
Definition MAX_CLIPBOARD_ITEMS : nat := 200.
Definition MAX_CLIPBOARD_PREVIEW_BYTES : Z := 2 * 1024.

(** ** Floats *)

Definition f_zero : spec_float := S754_zero false.
(** [100.0_f32], normalised to 24 bits of mantissa. *)
Definition f_hundred : spec_float := S754_finite false 13107200 (-17).
Definition is_finite (x : spec_float) : bool :=
  match x with S754_zero _ | S754_finite _ _ _ => true | _ => false end.
(** [f32::clamp], and [max] with [0.0] for a number that is not NaN. *)
Definition f_clamp (lo hi x : spec_float) : spec_float :=
  let x := if SFltb x lo then lo else x in
  if SFltb hi x then hi else x.
Definition f_max_zero (x : spec_float) : spec_float := if SFltb x f_zero then f_zero else x.

Definition bounded_percent (value : spec_float) : spec_float :=
  if is_finite value then f_clamp f_zero f_hundred value else f_zero.
Definition bounded_nonnegative (value : spec_float) : spec_float :=
  if is_finite value then f_max_zero value else f_zero.

(** ** Domain values *)

Record CpuInfo := { cpu_usage_percent : spec_float; cpu_core_count : Z;
                    cpu_temperature_celsius : option spec_float; cpu_model_name : string }.
Record MemoryInfo := { mem_used_bytes : Z; mem_total_bytes : Z; mem_usage_percent : spec_float }.
Record GpuInfo := { gpu_name : string; gpu_usage_percent : option spec_float;
                    gpu_temperature_celsius : option spec_float }.
Record DiskInfo := { disk_name : string; disk_used_bytes : Z; disk_total_bytes : Z;
                     disk_usage_percent : spec_float }.
Record NetworkStats := { net_download_bytes_per_sec : Z; net_upload_bytes_per_sec : Z }.
Record SystemSnapshot := { sys_cpu : CpuInfo; sys_memory : MemoryInfo; sys_gpus : list GpuInfo;
                           sys_disks : list DiskInfo; sys_network : NetworkStats }.
Record ProcessInfo := { proc_pid : Z; proc_name : string; proc_cpu_percent : spec_float;
                        proc_memory_bytes : Z }.
Inductive ProcessSort := DSortCpu | DSortMemory | DSortName.
Record PlaybackInfo := { play_title : string; play_artist : string; play_source_app : string;
                         play_position_secs : spec_float; play_duration_secs : spec_float;
                         play_is_playing : bool }.
Record VolumeInfo := { vol_system_volume : Z; vol_is_muted : bool }.
Record AppVolume := { app_app_name : string; app_volume : Z }.
Inductive Playback := DPlay | DPause | DNext | DPrevious | DSeekForward | DSeekBackward.
Record MediaState := { media_playback : option PlaybackInfo; media_volume : VolumeInfo;
                       media_app_volumes : list AppVolume; media_microphone_active : bool;
                       media_dnd_active : bool }.
(** [captured_at] as its [timestamp_millis]. *)
Record ClipboardSummary := {
  cs_id : Z; cs_kind : Kind; cs_preview : string; cs_source_app : option string;
  cs_captured_at : Z; cs_size_bytes : Z; cs_item_count : Z; cs_width : option Z;
  cs_height : option Z; cs_sensitive : bool; cs_favorite : bool; cs_copy_count : Z;
  cs_available : bool; cs_labels : list ClipboardLabel;
}.
Record ClipboardPolicy := { pol_history_enabled : bool; pol_retention_days : Z;
                            pol_save_sensitive : bool }.
Record ClipboardCursor := { cc_sort_at_ms : Z; cc_id : Z }.
Inductive DeviceType :=
| DtMacBook | DtWindowsPC | DtLinuxServer | DtIPad | DtIPhone | DtAndroid | DtUnknown.
Record LocalDeviceInfo := { dev_name : string; dev_ip : string; dev_app_version : string;
                            dev_port : Z }.
Record ConnectionConfig := { conf_port : Z; conf_encrypted : bool; conf_auto_reconnect : bool }.
Record WindowInfo := { win_window_id : Z; win_title : string; win_app_name : string;
                       win_is_focused : bool; win_thumbnail_png : bytes; win_space_id : Z }.
Record SpaceInfo := { space_space_id : Z; space_label : string; space_is_active : bool }.
Record QuickActionInfo := {
  act_id : string; act_name : string; act_icon_id : string; act_icon_svg : string;
  act_color : string; act_group : string; act_action_type_label : string; act_sort_order : Z;
  act_is_toggle : bool; act_is_running : bool; act_requires_confirmation : bool;
}.
Record AutomationInfo := {
  aut_id : string; aut_name : string; aut_summary : string; aut_enabled : bool;
  aut_latest_activity_id : option string; aut_latest_status : option string;
  aut_reason : option string; aut_next_run_at_ms : option Z; aut_completed_steps : Z;
  aut_total_steps : Z;
}.
Record HostNotificationInfo := {
  not_id : string; not_title : string; not_body : string; not_source : string; not_kind : Z;
  not_reference : option string; not_created_at_ms : Z; not_read_at_ms : option Z;
  not_read_by_device_name : option string;
}.

(** ** Wire messages *)

Record PCpuInfo := { pcpu_usage_percent : spec_float; pcpu_core_count : Z;
                     pcpu_temperature_celsius : option spec_float; pcpu_model_name : string }.
Record PMemoryInfo := { pmem_used_bytes : Z; pmem_total_bytes : Z; pmem_usage_percent : spec_float }.
Record PGpuInfo := { pgpu_name : string; pgpu_usage_percent : option spec_float;
                     pgpu_temperature_celsius : option spec_float }.
Record PDiskInfo := { pdisk_name : string; pdisk_used_bytes : Z; pdisk_total_bytes : Z;
                      pdisk_usage_percent : spec_float }.
Record PNetworkStats := { pnet_download_bytes_per_sec : Z; pnet_upload_bytes_per_sec : Z }.
Record PSystemSnapshot := { psys_cpu : option PCpuInfo; psys_memory : option PMemoryInfo;
                            psys_gpus : list PGpuInfo; psys_disks : list PDiskInfo;
                            psys_network : option PNetworkStats }.
Record PProcessInfo := { pproc_pid : Z; pproc_name : string; pproc_cpu_percent : spec_float;
                         pproc_memory_bytes : Z }.
Record ProcessListSnapshot := { pl_processes : list PProcessInfo; pl_focused_app_name : option string }.
Inductive MediaConfidence := Authoritative.
Record PPlaybackInfo := { pplay_title : string; pplay_artist : string; pplay_source_app : string;
                          pplay_position_secs : spec_float; pplay_duration_secs : spec_float;
                          pplay_is_playing : bool; pplay_confidence : MediaConfidence }.
Record PVolumeInfo := { pvol_system_volume : Z; pvol_is_muted : bool }.
Record PAppVolume := { papp_app_name : string; papp_volume : Z }.
Record MediaStateSnapshot := { ms_playback : option PPlaybackInfo; ms_volume : option PVolumeInfo;
                               ms_app_volumes : list PAppVolume; ms_microphone_active : bool;
                               ms_dnd_active : bool }.
Record ClipboardEntry := {
  ce_id : Z; ce_kind : Z; ce_preview : string; ce_source_app : option string;
  ce_timestamp_ms : Z; ce_size_bytes : Z; ce_item_count : Z; ce_width : option Z;
  ce_height : option Z; ce_sensitive : bool; ce_favorite : bool; ce_copy_count : Z;
  ce_available : bool; ce_labels : list ProtoLabel;
}.
Record ClipboardSnapshot := {
  snap_history : list ClipboardEntry; snap_next_cursor_timestamp_ms : option Z;
  snap_next_cursor_id : option Z; snap_policy : option PClipboardPolicy;
  snap_labels : list ProtoLabel;
}.
Inductive PDeviceType :=
| PdtUnspecified | PdtMacbook | PdtWindowsPc | PdtLinuxServer | PdtIpad | PdtIphone | PdtAndroid.
Record PLocalDeviceInfo := { pdev_name : string; pdev_ip : string; pdev_app_version : string;
                             pdev_port : Z }.
Record PConnectionConfig := { pconf_port : Z; pconf_encrypted : bool; pconf_auto_reconnect : bool }.
Record PWindowInfo := { pwin_window_id : Z; pwin_title : string; pwin_app_name : string;
                        pwin_is_focused : bool; pwin_thumbnail : option BlobRef; pwin_space_id : Z }.
Record PSpaceInfo := { pspace_space_id : Z; pspace_label : string; pspace_is_active : bool }.
Record WindowListSnapshot := { wl_windows : list PWindowInfo; wl_spaces : list PSpaceInfo }.
Record PQuickActionInfo := {
  pact_id : string; pact_name : string; pact_icon_id : string; pact_icon_svg : string;
  pact_color : string; pact_group : string; pact_action_type_label : string; pact_sort_order : Z;
  pact_is_toggle : bool; pact_is_running : bool; pact_requires_confirmation : bool;
}.
Record PAutomationInfo := {
  paut_id : string; paut_name : string; paut_summary : string; paut_enabled : bool;
  paut_latest_activity_id : option string; paut_latest_status : option string;
  paut_reason : option string; paut_next_run_at_ms : option Z; paut_completed_steps : Z;
  paut_total_steps : Z;
}.
Record ActionListSnapshot := { al_actions : list PQuickActionInfo; al_automations : list PAutomationInfo }.
Record NotificationInfo := {
  pnot_id : string; pnot_title : string; pnot_body : string; pnot_source : string; pnot_kind : Z;
  pnot_reference : option string; pnot_created_at_ms : Z; pnot_read_at_ms : option Z;
  pnot_read_by_device_name : option string;
}.
Record NotificationListSnapshot := { nl_notifications : list NotificationInfo }.

(** The numbers of the two clipboard enumerations, [serde_json::to_string] of a text syntax, and
    [Xxh3::digest128]. *)
Inductive PChange :=
| PChUnspecified | PChCopy | PChEdit | PChFavorite | PChDelete | PChSnapshot | PChLabel.
#[global] Instance PChange_eq_dec : EqDecision PChange.
Proof. solve_decision. Defined.
Class SyncCodes `{!TextSyntaxCore} `{!Requests.RequestCodes} := {
  content_kind_code : Requests.ContentKind -> Z;
  change_kind_code : PChange -> Z;
  change_kind_try_from : Z -> option PChange;
  syntax_to_json : ClipboardTextSyntax -> option string;
  xxh3_128 : bytes -> Z;
  content_kind_code_known : forall k, Requests.content_kind_try_from (content_kind_code k) = Some k;
  change_kind_code_known : forall c, change_kind_try_from (change_kind_code c) = Some c;
  change_kind_specified_spec : forall z, Requests.change_kind_specified z
    = match change_kind_try_from z with None | Some PChUnspecified => false | Some _ => true end;
}.

(** ** Adapters *)

Definition cpu_info_to_proto (cpu : CpuInfo) : PCpuInfo :=
  {| pcpu_usage_percent := cpu_usage_percent cpu; pcpu_core_count := cpu_core_count cpu;
     pcpu_temperature_celsius := cpu_temperature_celsius cpu; pcpu_model_name := cpu_model_name cpu |}.
Definition memory_info_to_proto (memory : MemoryInfo) : PMemoryInfo :=
  {| pmem_used_bytes := mem_used_bytes memory; pmem_total_bytes := mem_total_bytes memory;
     pmem_usage_percent := mem_usage_percent memory |}.
Definition gpu_info_to_proto (gpu : GpuInfo) : PGpuInfo :=
  {| pgpu_name := gpu_name gpu; pgpu_usage_percent := gpu_usage_percent gpu;
     pgpu_temperature_celsius := gpu_temperature_celsius gpu |}.
Definition disk_info_to_proto (disk : DiskInfo) : PDiskInfo :=
  {| pdisk_name := disk_name disk; pdisk_used_bytes := disk_used_bytes disk;
     pdisk_total_bytes := disk_total_bytes disk; pdisk_usage_percent := disk_usage_percent disk |}.
Definition network_stats_to_proto (network : NetworkStats) : PNetworkStats :=
  {| pnet_download_bytes_per_sec := net_download_bytes_per_sec network;
     pnet_upload_bytes_per_sec := net_upload_bytes_per_sec network |}.
Definition system_snapshot_to_proto (snapshot : SystemSnapshot) : PSystemSnapshot :=
  {| psys_cpu := Some (cpu_info_to_proto (sys_cpu snapshot));
     psys_memory := Some (memory_info_to_proto (sys_memory snapshot));
     psys_gpus := gpu_info_to_proto <$> sys_gpus snapshot;
     psys_disks := disk_info_to_proto <$> sys_disks snapshot;
     psys_network := Some (network_stats_to_proto (sys_network snapshot)) |}.
Definition process_info_to_proto (process : ProcessInfo) : PProcessInfo :=
  {| pproc_pid := proc_pid process; pproc_name := proc_name process;
     pproc_cpu_percent := proc_cpu_percent process; pproc_memory_bytes := proc_memory_bytes process |}.
Definition process_sort_to_proto (sort : ProcessSort) : Requests.ProcessSortBy :=
  match sort with
  | DSortCpu => Requests.SortCpu | DSortMemory => Requests.SortMemory | DSortName => Requests.SortName
  end.
Definition process_sort_from_proto (sort : Requests.ProcessSortBy) : ProcessSort :=
  match sort with
  | Requests.SortUnspecified | Requests.SortCpu => DSortCpu
  | Requests.SortMemory => DSortMemory
  | Requests.SortName => DSortName
  end.
Definition playback_info_to_proto (playback : PlaybackInfo) : PPlaybackInfo :=
  {| pplay_title := play_title playback; pplay_artist := play_artist playback;
     pplay_source_app := play_source_app playback; pplay_position_secs := play_position_secs playback;
     pplay_duration_secs := play_duration_secs playback; pplay_is_playing := play_is_playing playback;
     pplay_confidence := Authoritative |}.
Definition volume_info_to_proto (volume : VolumeInfo) : PVolumeInfo :=
  {| pvol_system_volume := vol_system_volume volume; pvol_is_muted := vol_is_muted volume |}.
Definition app_volume_to_proto (volume : AppVolume) : PAppVolume :=
  {| papp_app_name := app_app_name volume; papp_volume := app_volume volume |}.
Definition playback_action_to_proto (action : Playback) : Requests.ProtoPlaybackAction :=
  match action with
  | DPlay => Requests.PaPlay | DPause => Requests.PaPause | DNext => Requests.PaNext
  | DPrevious => Requests.PaPrevious | DSeekForward => Requests.PaSeekForward
  | DSeekBackward => Requests.PaSeekBackward
  end.
Definition playback_action_from_proto (action : Requests.ProtoPlaybackAction) : Playback :=
  match action with
  | Requests.PaUnspecified | Requests.PaPlay => DPlay
  | Requests.PaPause => DPause | Requests.PaNext => DNext | Requests.PaPrevious => DPrevious
  | Requests.PaSeekForward => DSeekForward | Requests.PaSeekBackward => DSeekBackward
  end.
Definition clipboard_kind_to_proto (kind : Kind) : Requests.ContentKind :=
  match kind with
  | KText => Requests.CkText | KHtml => Requests.CkHtml
  | KImage => Requests.CkImage | KFiles => Requests.CkFiles
  end.
Definition clipboard_label_to_proto (label : ClipboardLabel) : ProtoLabel :=
  {| pl_id := l_id label; pl_name := l_name label; pl_color := l_color label;
     pl_revision := l_revision label; pl_updated_by_device_id := l_updated_by_device_id label;
     pl_deleted := l_deleted label |}.
Definition clipboard_summary_to_proto `{SyncCodes} (summary : ClipboardSummary) : ClipboardEntry :=
  {| ce_id := cs_id summary; ce_kind := content_kind_code (clipboard_kind_to_proto (cs_kind summary));
     ce_preview := cs_preview summary; ce_source_app := cs_source_app summary;
     ce_timestamp_ms := cs_captured_at summary; ce_size_bytes := cs_size_bytes summary;
     ce_item_count := cs_item_count summary; ce_width := cs_width summary;
     ce_height := cs_height summary; ce_sensitive := cs_sensitive summary;
     ce_favorite := cs_favorite summary; ce_copy_count := cs_copy_count summary;
     ce_available := cs_available summary; ce_labels := clipboard_label_to_proto <$> cs_labels summary |}.
Definition clipboard_policy_to_proto (policy : ClipboardPolicy) : PClipboardPolicy :=
  {| ppol_history_enabled := pol_history_enabled policy; ppol_max_items := 0; ppol_max_bytes := 0;
     ppol_retention_days := pol_retention_days policy; ppol_save_sensitive := pol_save_sensitive policy |}.
Definition device_type_to_proto (device_type : DeviceType) : PDeviceType :=
  match device_type with
  | DtMacBook => PdtMacbook | DtWindowsPC => PdtWindowsPc | DtLinuxServer => PdtLinuxServer
  | DtIPad => PdtIpad | DtIPhone => PdtIphone | DtAndroid => PdtAndroid | DtUnknown => PdtUnspecified
  end.
Definition local_device_info_to_proto (device : LocalDeviceInfo) : PLocalDeviceInfo :=
  {| pdev_name := dev_name device; pdev_ip := dev_ip device; pdev_app_version := dev_app_version device;
     pdev_port := dev_port device |}.
Definition connection_config_to_proto (config : ConnectionConfig) : PConnectionConfig :=
  {| pconf_port := conf_port config; pconf_encrypted := conf_encrypted config;
     pconf_auto_reconnect := conf_auto_reconnect config |}.
Definition window_info_to_proto (window : WindowInfo) : PWindowInfo :=
  {| pwin_window_id := win_window_id window; pwin_title := win_title window;
     pwin_app_name := win_app_name window; pwin_is_focused := win_is_focused window;
     pwin_thumbnail := None; pwin_space_id := win_space_id window |}.
Definition space_info_to_proto (space : SpaceInfo) : PSpaceInfo :=
  {| pspace_space_id := space_space_id space; pspace_label := space_label space;
     pspace_is_active := space_is_active space |}.

(** ** Snapshot builders *)

Definition update_cpu (cpu : PCpuInfo) : PCpuInfo :=
  {| pcpu_usage_percent := bounded_percent (pcpu_usage_percent cpu);
     pcpu_core_count := Z.min (pcpu_core_count cpu) 4096;
     pcpu_temperature_celsius := pcpu_temperature_celsius cpu ≫= fun v => if is_finite v then Some v else None;
     pcpu_model_name := Text.sanitize_text (pcpu_model_name cpu) 256 |}.
Definition update_memory (memory : PMemoryInfo) : PMemoryInfo :=
  let total := Text.protocol_u64 (pmem_total_bytes memory) in
  {| pmem_total_bytes := total;
     pmem_used_bytes := Z.min (Text.protocol_u64 (pmem_used_bytes memory)) total;
     pmem_usage_percent := bounded_percent (pmem_usage_percent memory) |}.
Definition update_network (network : PNetworkStats) : PNetworkStats :=
  {| pnet_download_bytes_per_sec := Text.protocol_u64 (pnet_download_bytes_per_sec network);
     pnet_upload_bytes_per_sec := Text.protocol_u64 (pnet_upload_bytes_per_sec network) |}.
Definition update_gpu (gpu : PGpuInfo) : PGpuInfo :=
  {| pgpu_name := Text.sanitize_text (pgpu_name gpu) 256;
     pgpu_usage_percent := bounded_percent <$> pgpu_usage_percent gpu;
     pgpu_temperature_celsius := pgpu_temperature_celsius gpu ≫= fun v => if is_finite v then Some v else None |}.
Definition update_disk (disk : PDiskInfo) : PDiskInfo :=
  let total := Text.protocol_u64 (pdisk_total_bytes disk) in
  {| pdisk_name := Text.sanitize_text (pdisk_name disk) 256;
     pdisk_total_bytes := total;
     pdisk_used_bytes := Z.min (Text.protocol_u64 (pdisk_used_bytes disk)) total;
     pdisk_usage_percent := bounded_percent (pdisk_usage_percent disk) |}.
Definition build_system_snapshot (snapshot : SystemSnapshot) : PSystemSnapshot :=
  let s := system_snapshot_to_proto snapshot in
  {| psys_cpu := update_cpu <$> psys_cpu s;
     psys_memory := update_memory <$> psys_memory s;
     psys_network := update_network <$> psys_network s;
     psys_gpus := update_gpu <$> take MAX_GPU_ITEMS (psys_gpus s);
     psys_disks := update_disk <$> take MAX_DISK_ITEMS (psys_disks s) |}.

(** The loop the list builders share: skip an item without a key or with a key seen before, emit
    the others, and stop once [limit] have been emitted.  Emitting may use a state. *)
Fixpoint bounded_loop {A K B S : Type} `{Countable K} (key : A -> option K) (emit : A -> S -> S * B)
    (limit : nat) (seen : gset K) (out : list B) (items : list A) (s : S) : S * list B :=
  match items with
  | [] => (s, out)
  | a :: items =>
    match key a with
    | None => bounded_loop key emit limit seen out items s
    | Some k =>
      if bool_decide (k ∈ seen) then bounded_loop key emit limit seen out items s else
      let '(s, b) := emit a s in
      let out := out ++ [b] in
      if Nat.leb limit (length out) then (s, out)
      else bounded_loop key emit limit ({[k]} ∪ seen) out items s
    end
  end.
Definition pure_loop {A K B : Type} `{Countable K} (key : A -> option K) (emit : A -> B)
    (limit : nat) (items : list A) : list B :=
  (bounded_loop key (fun a (_ : unit) => (tt, emit a)) limit ∅ [] items tt).2.

Definition app_key (volume : AppVolume) : option string :=
  let app_name := Text.sanitize_text (app_app_name volume) 256 in
  if str_is_empty app_name then None else Some app_name.
Definition bounded_app_volume (v : AppVolume) : PAppVolume :=
  {| papp_app_name := Text.sanitize_text (app_app_name v) 256; papp_volume := Z.min (app_volume v) 100 |}.
Definition build_media_snapshot (state : MediaState) : MediaStateSnapshot :=
  {| ms_playback := (fun playback =>
       let p := playback_info_to_proto playback in
       {| pplay_title := Text.sanitize_text (pplay_title p) 512;
          pplay_artist := Text.sanitize_text (pplay_artist p) 512;
          pplay_source_app := Text.sanitize_text (pplay_source_app p) 256;
          pplay_position_secs := bounded_nonnegative (pplay_position_secs p);
          pplay_duration_secs := bounded_nonnegative (pplay_duration_secs p);
          pplay_is_playing := pplay_is_playing p; pplay_confidence := pplay_confidence p |})
       <$> media_playback state;
     ms_volume := Some {| pvol_system_volume := Z.min (vol_system_volume (media_volume state)) 100;
                          pvol_is_muted := vol_is_muted (media_volume state) |};
     ms_app_volumes := pure_loop app_key
       bounded_app_volume MAX_APP_VOLUME_ITEMS (media_app_volumes state);
     ms_microphone_active := media_microphone_active state;
     ms_dnd_active := media_dnd_active state |}.

Definition process_key (process : ProcessInfo) : option Z :=
  if (proc_pid process =? 0) || str_is_empty (Text.sanitize_text (proc_name process) 128)
  then None else Some (proc_pid process).
Definition bounded_process (p : ProcessInfo) : PProcessInfo :=
  {| pproc_pid := proc_pid p; pproc_name := Text.sanitize_text (proc_name p) 128;
     pproc_cpu_percent := if is_finite (proc_cpu_percent p) then f_max_zero (proc_cpu_percent p)
                          else f_zero;
     pproc_memory_bytes := Text.protocol_u64 (proc_memory_bytes p) |}.
Definition build_process_snapshot (processes : list ProcessInfo) (focused_app_name : option string)
  : ProcessListSnapshot :=
  {| pl_processes := pure_loop process_key
       bounded_process MAX_PROCESS_ITEMS processes;
     pl_focused_app_name := focused_app_name |}.

Definition bounded_window_meta (window : WindowInfo) : PWindowInfo :=
  {| pwin_window_id := win_window_id window;
     pwin_title := Text.sanitize_text (win_title window) 512;
     pwin_app_name := let app_name := Text.sanitize_text (win_app_name window) 256 in
                      if str_is_empty app_name then "Unknown" else app_name;
     pwin_is_focused := win_is_focused window;
     pwin_thumbnail := None;
     pwin_space_id := Text.protocol_u64 (win_space_id window) |}.
Definition bounded_space (space : SpaceInfo) : PSpaceInfo :=
  {| pspace_space_id := space_space_id space; pspace_label := Text.sanitize_text (space_label space) 128;
     pspace_is_active := space_is_active space |}.

Section windows.
Context `{!Sha256}.

(** A blob store with the number of calls made on it: [times n] are the clock readings of the
    [n]-th. *)
Definition Store : Type := BlobStore.BlobStoreInner * nat.
Definition store_insert (times : nat -> Z * Z) (owner data : bytes) (media : string) (s : Store)
  : Store * option BlobRef :=
  let '(inner, r) := BlobStore.insert (times s.2).1 (times s.2).2 owner data media s.1 in
  ((inner, S s.2), r).

Definition window_with_blob (times : nat -> Z * Z) (blob_owner : bytes) (include_thumbnail : bool)
    (window : WindowInfo) (s : Store) : Store * PWindowInfo :=
  let '(s, thumbnail) :=
    if include_thumbnail then store_insert times blob_owner (win_thumbnail_png window) "image/png" s
    else (s, None) in
  let output := bounded_window_meta window in
  (s, {| pwin_window_id := pwin_window_id output; pwin_title := pwin_title output;
         pwin_app_name := pwin_app_name output; pwin_is_focused := pwin_is_focused output;
         pwin_thumbnail := thumbnail; pwin_space_id := pwin_space_id output |}).

Definition window_key (window : WindowInfo) : option Z :=
  if win_window_id window =? 0 then None else Some (win_window_id window).
(** [build_window_list] with a blob store and owner, and without. *)
Definition build_window_list (times : nat -> Z * Z) (blob_owner : bytes) (include_thumbnails : bool)
    (windows : list WindowInfo) (s : Store) : Store * list PWindowInfo :=
  bounded_loop window_key (window_with_blob times blob_owner include_thumbnails) MAX_WINDOW_ITEMS
    ∅ [] windows s.
Definition build_window_meta_list (windows : list WindowInfo) : list PWindowInfo :=
  pure_loop window_key bounded_window_meta MAX_WINDOW_ITEMS windows.
End windows.

Definition space_key (space : SpaceInfo) : option Z :=
  if (space_space_id space =? 0) || (space_space_id space >? i64_max) then None
  else Some (space_space_id space).
Definition build_space_list (spaces : list SpaceInfo) : list PSpaceInfo :=
  pure_loop space_key bounded_space MAX_SPACE_ITEMS spaces.

(** [provided] is what [list_actions] and [list_automations] return, if there is a provider. *)
Definition action_key (action : QuickActionInfo) : option string :=
  if Requests.valid_control_identifier (act_id action) then Some (act_id action) else None.
Definition automation_key (a : AutomationInfo) : option string :=
  if Requests.valid_control_identifier (aut_id a) then Some (aut_id a) else None.
Definition action_to_proto (action : QuickActionInfo) : PQuickActionInfo :=
  {| pact_id := act_id action; pact_name := Text.sanitize_text (act_name action) 256;
     pact_icon_id := Text.sanitize_text (act_icon_id action) 64;
     pact_icon_svg := Text.sanitize_text (act_icon_svg action) (16 * 1024);
     pact_color := Text.sanitize_text (act_color action) 64;
     pact_group := Text.sanitize_text (act_group action) 256;
     pact_action_type_label := Text.sanitize_text (act_action_type_label action) 128;
     pact_sort_order := act_sort_order action; pact_is_toggle := act_is_toggle action;
     pact_is_running := act_is_running action;
     pact_requires_confirmation := act_requires_confirmation action |}.
Definition automation_to_proto (a : AutomationInfo) : PAutomationInfo :=
  {| paut_id := aut_id a; paut_name := Text.sanitize_text (aut_name a) 256;
     paut_summary := Text.sanitize_text (aut_summary a) 2048; paut_enabled := aut_enabled a;
     paut_latest_activity_id := aut_latest_activity_id a ≫= fun id =>
       if Requests.valid_control_identifier id then Some id else None;
     paut_latest_status := (fun s => Text.sanitize_text s 64) <$> aut_latest_status a;
     paut_reason := (fun s => Text.sanitize_text s 2048) <$> aut_reason a;
     paut_next_run_at_ms := aut_next_run_at_ms a; paut_completed_steps := aut_completed_steps a;
     paut_total_steps := aut_total_steps a |}.
Definition build_action_snapshot (provided : option (list QuickActionInfo * list AutomationInfo))
  : ActionListSnapshot :=
  match provided with
  | None => {| al_actions := []; al_automations := [] |}
  | Some (actions, automations) =>
    {| al_actions := pure_loop action_key action_to_proto MAX_ACTION_ITEMS actions;
       al_automations := pure_loop automation_key automation_to_proto MAX_AUTOMATION_ITEMS automations |}
  end.

Definition build_notification_info (n : HostNotificationInfo) : NotificationInfo :=
  {| pnot_id := Text.sanitize_text (not_id n) 256; pnot_title := Text.sanitize_text (not_title n) 160;
     pnot_body := Text.sanitize_text (not_body n) (8 * 1024);
     pnot_source := Text.sanitize_text (not_source n) 120; pnot_kind := not_kind n;
     pnot_reference := (fun r => Text.sanitize_text r 512) <$> not_reference n;
     pnot_created_at_ms := Z.max (not_created_at_ms n) 1;
     pnot_read_at_ms := (fun v => Z.max v 1) <$> not_read_at_ms n;
     pnot_read_by_device_name := (fun s => Text.sanitize_text s 128) <$> not_read_by_device_name n |}.

(** [listed] is what the provider's [list_notifications] returns, if there is a provider; an error
    is a code with its message. *)
Definition notification_snapshot
    (listed : option (result (list HostNotificationInfo) HostCapabilityError))
  : result NotificationListSnapshot HostCapabilityError :=
  let? listing := ok_or listed {| hc_code := HcUnsupported; hc_message := "notifications are unavailable" |} in
  let? notifications := listing in
  Ok {| nl_notifications := build_notification_info <$> notifications |}.

(** ** Clipboard history *)

Section history.
Context `{!TextSyntaxCore} `{!Requests.RequestCodes} `{!SyncCodes}.

(** An entry of the snapshot: its source application truncated, dropped if it has control
    characters. *)
Definition history_entry (entry : ClipboardSummary) : ClipboardEntry :=
  let converted := clipboard_summary_to_proto entry in
  {| ce_id := ce_id converted; ce_kind := ce_kind converted; ce_preview := ce_preview converted;
     ce_source_app := ce_source_app converted ≫= fun source_app =>
       let source_app := Text.truncate_utf8 source_app 256 in
       if has_control source_app then None else Some source_app;
     ce_timestamp_ms := cs_captured_at entry; ce_size_bytes := ce_size_bytes converted;
     ce_item_count := ce_item_count converted; ce_width := ce_width converted;
     ce_height := ce_height converted; ce_sensitive := ce_sensitive converted;
     ce_favorite := ce_favorite converted; ce_copy_count := ce_copy_count converted;
     ce_available := ce_available converted; ce_labels := ce_labels converted |}.

Fixpoint history_loop (skip_oversized_history : bool) (seen_ids : gset Z)
    (history : list ClipboardSummary) : result (list ClipboardEntry) string :=
  match history with
  | [] => Ok []
  | entry :: history =>
    if slen (cs_preview entry) >? MAX_CLIPBOARD_PREVIEW_BYTES then
      if skip_oversized_history then history_loop skip_oversized_history seen_ids history
      else Err "clipboard summary exceeds the 2 KiB protocol limit"
    else if (cs_id entry =? 0) || (cs_id entry >? i64_max) || (cs_captured_at entry <=? 0)
            || bool_decide (cs_id entry ∈ seen_ids)
    then history_loop skip_oversized_history seen_ids history
    else
      let? rest := history_loop skip_oversized_history ({[cs_id entry]} ∪ seen_ids) history in
      Ok (history_entry entry :: rest)
  end.

Definition build_clipboard_snapshot (history : list ClipboardSummary) (policy : ClipboardPolicy)
    (next_cursor : option ClipboardCursor) (skip_oversized_history : bool)
  : result ClipboardSnapshot string :=
  let? bounded_history := history_loop skip_oversized_history ∅ (take MAX_CLIPBOARD_ITEMS history) in
  Ok {| snap_history := bounded_history;
        snap_next_cursor_timestamp_ms := cc_sort_at_ms <$> next_cursor;
        snap_next_cursor_id := cc_id <$> next_cursor;
        snap_policy := Some (clipboard_policy_to_proto policy);
        snap_labels := [] |}.
End history.


(** ** Clipboard sync records *)

Section sync.
Context `{!Sha256} `{!TextSyntaxCore} `{!Requests.RequestCodes} `{!SyncCodes}.

Definition change_kind_to_proto (c : Change) : PChange :=
  match c with
  | ChCopy => PChCopy | ChEdit => PChEdit | ChFavorite => PChFavorite | ChLabel => PChLabel
  | ChDelete => PChDelete | ChSnapshot => PChSnapshot
  end.

(** The payload of a record that is sent: its blobs go to the store first. *)
Definition sync_payload (times : nat -> Z * Z) (blob_owner : bytes) (r : ClipboardSyncRecord)
    (s : Store) : Store * result (option SyncPayload) string :=
  if deleted r || bool_decide (kind r = KFiles) then (s, Ok None) else
  match kind r with
  | KText => (s, let? t := ok_or (text r) "synchronized text payload is missing" in
                 Ok (Some (PayloadText t)))
  | KHtml =>
    match html r with
    | None => (s, Err "synchronized HTML payload is missing")
    | Some html =>
      match store_insert times blob_owner (into_bytes html) "text/html; charset=utf-8" s with
      | (s, None) => (s, Err "synchronized HTML cache is full")
      | (s, Some html) =>
        match rtf r with
        | None => (s, Ok (Some (PayloadRichText (default EmptyString (text r)) (Some html) None)))
        | Some rtf =>
          match store_insert times blob_owner (into_bytes rtf) "text/rtf" s with
          | (s, None) => (s, Err "synchronized RTF cache is full")
          | (s, Some rtf) =>
            (s, Ok (Some (PayloadRichText (default EmptyString (text r)) (Some html) (Some rtf))))
          end
        end
      end
    end
  | KImage =>
    match image_png r with
    | None => (s, Err "synchronized image payload is missing")
    | Some png =>
      match store_insert times blob_owner png "image/png" s with
      | (s, None) => (s, Err "synchronized image cache is full")
      | (s, Some image) => (s, Ok (Some (PayloadImage image)))
      end
    end
  | KFiles => (s, Ok None)
  end.

Definition sync_label (label : ClipboardLabel) : ProtoLabel :=
  {| pl_id := Text.sanitize_text (l_id label) 128; pl_name := Text.sanitize_text (l_name label) 128;
     pl_color := Text.sanitize_text (l_color label) 16; pl_revision := l_revision label;
     pl_updated_by_device_id := Text.sanitize_text (l_updated_by_device_id label) 128;
     pl_deleted := l_deleted label |}.
Definition sync_membership (m : ClipboardLabelMembership) : ProtoMembership :=
  {| pm_label_id := Text.sanitize_text (m_label_id m) 128; pm_attached := m_attached m;
     pm_revision := m_revision m;
     pm_updated_by_device_id := Text.sanitize_text (m_updated_by_device_id m) 128 |}.

Definition sync_record_to_proto (now_ms : Z) (times : nat -> Z * Z) (blob_owner : bytes)
    (r : ClipboardSyncRecord) (s : Store) : Store * result SyncRecord string :=
  match syntax_to_json (text_syntax r) with
  | None => (s, Err "clipboard text syntax is invalid")
  | Some text_syntax_json =>
    let '(s, payload) := sync_payload times blob_owner r s in
    (s, let? payload := payload in
        Ok {| sr_sync_id := sync_id r;
              sr_kind := content_kind_code (clipboard_kind_to_proto (kind r));
              sr_width := width r; sr_height := height r;
              sr_preview := Text.sanitize_text (preview r) (2 * 1024);
              sr_source_app := (fun v => Text.sanitize_text v 256) <$> source_app r;
              sr_source_device_id := Text.sanitize_text (source_device_id r) 128;
              sr_source_device_name := Text.sanitize_text (source_device_name r) 128;
              sr_captured_at_ms := Text.protocol_timestamp now_ms (captured_at_ms r);
              sr_revision := Z.max (revision r) 1;
              sr_updated_by_device_id := Text.sanitize_text (updated_by_device_id r) 128;
              sr_favorite := favorite r; sr_favorite_revision := favorite_revision r;
              sr_favorite_updated_by_device_id :=
                Text.sanitize_text (favorite_updated_by_device_id r) 128;
              sr_labels := sync_label <$> labels r;
              sr_label_memberships := sync_membership <$> label_memberships r;
              sr_deleted := deleted r;
              sr_change_kind := change_kind_code (change_kind_to_proto (change_kind r));
              sr_live := live r; sr_text_syntax_json := text_syntax_json; sr_payload := payload |})
  end.

(** [format!("{:032x}")] of a [u128]. *)
Fixpoint hex_digits (n : nat) (z : Z) : list ascii :=
  match n with
  | O => []
  | S n => hex_digits n (z / 16) ++ [hex_digit (z mod 16)]
  end.
Definition hex_u128 (z : Z) : string := string_of_list_ascii (hex_digits 32 z).
(** A byte string literal with escaped zero bytes, written [0]. *)
Definition tag (l : list (string + unit)) : bytes :=
  flat_map (fun x => match x with inl s => into_bytes s | inr _ => [Byte.x00] end) l.

Definition clipboard_sync_id (k : Kind) (text html rtf : option string) (image_png : option bytes)
  : string :=
  let str o := into_bytes (default EmptyString o) in
  let content := match k with
    | KText => tag [inl "text"; inr tt] ++ str text
    | KHtml => tag [inl "rich-text"; inr tt] ++ str html ++ tag [inr tt; inl "text"; inr tt] ++ str text
               ++ match rtf with
                  | Some rtf => tag [inr tt; inl "rtf"; inr tt] ++ into_bytes rtf
                  | None => []
                  end
    | KImage => tag [inl "image"; inr tt] ++ default [] image_png
    | KFiles => tag [inl "files"; inr tt]
    end in
  let content_hash := hex_u128 (xxh3_128 content) in
  hex (sha256 (tag [inl "arcrelay-clipboard-sync-v1"; inr tt] ++ into_bytes content_hash)).

Definition Uploads : Type := ClipboardUpload.ClipboardUploadStoreInner * nat.
Definition uploads_get (times : nat -> Z) (id sha : bytes) (media : string) (u : Uploads)
  : Uploads * option bytes :=
  let '(inner, r) := ClipboardUpload.get (times u.2) id sha media u.1 in ((inner, S u.2), r).

(** The four payload fields of a received record, read from the uploads.  [None] is a panic of
    [expect]. *)
Definition Content : Type := option string * option string * option string * option bytes.
Definition received_payload (times : nat -> Z) (payload : option SyncPayload) (u : Uploads)
  : option (Uploads * result Content string) :=
  match payload with
  | None => None
  | Some (PayloadText text) => Some (u, Ok (Some text, None, None, None))
  | Some (PayloadRichText plain_text html rtf) =>
    match html with
    | None => None
    | Some html_ref => Some
      match uploads_get times (blob_id html_ref) (ref_sha256 html_ref) "text/html; charset=utf-8" u with
      | (u, None) => (u, Err "clipboard HTML upload is unavailable")
      | (u, Some b) =>
        match from_utf8 b with
        | None => (u, Err "clipboard HTML upload is not UTF-8")
        | Some html =>
          match rtf with
          | None => (u, Ok (Some plain_text, Some html, None, None))
          | Some rtf_ref =>
            match uploads_get times (blob_id rtf_ref) (ref_sha256 rtf_ref) "text/rtf" u with
            | (u, None) => (u, Err "clipboard RTF upload is unavailable")
            | (u, Some b) =>
              (u, let? rtf := ok_or (from_utf8 b) "clipboard RTF upload is not UTF-8" in
                  Ok (Some plain_text, Some html, Some rtf, None))
            end
          end
        end
      end
    end
  | Some (PayloadImage image) => Some
    match uploads_get times (blob_id image) (ref_sha256 image) "image/png" u with
    | (u, None) => (u, Err "clipboard image upload is unavailable")
    | (u, Some b) => (u, Ok (None, None, None, Some b))
    end
  end.

Definition kind_from_proto (z : Z) : result Kind string :=
  match default Requests.CkUnspecified (Requests.content_kind_try_from z) with
  | Requests.CkText => Ok KText | Requests.CkHtml => Ok KHtml | Requests.CkImage => Ok KImage
  | Requests.CkFiles => Ok KFiles
  | _ => Err "invalid clipboard sync kind"
  end.
Definition change_from_proto (z : Z) : result Change string :=
  match default PChUnspecified (change_kind_try_from z) with
  | PChCopy => Ok ChCopy | PChEdit => Ok ChEdit | PChFavorite => Ok ChFavorite
  | PChLabel => Ok ChLabel | PChDelete => Ok ChDelete | PChSnapshot => Ok ChSnapshot
  | PChUnspecified => Err "invalid clipboard sync change kind"
  end.

Definition sync_record_from_proto (now_ms : Z) (times : nat -> Z) (r : SyncRecord)
    (device_id device_name : string) (u : Uploads) : option (Uploads * result ClipboardSyncRecord string) :=
  match Requests.validate_clipboard_sync_record now_ms r with
  | Err e => Some (u, Err e)
  | Ok _ =>
    match kind_from_proto (sr_kind r) with
    | Err e => Some (u, Err e)
    | Ok k =>
      let bare := sr_deleted r || bool_decide (k = KFiles) in
      read ← (if bare then Some (u, Ok (None, None, None, None))
              else received_payload times (sr_payload r) u);
      let '(u, content) := read in
      Some (u,
        let? (text, html, rtf, image_png) := content in
        let text_syntax := detect_text_syntax (default EmptyString text) in
        let canonical_sync_id :=
          if bare then sr_sync_id r else clipboard_sync_id k text html rtf image_png in
        let? change := change_from_proto (sr_change_kind r) in
        Ok {| sync_id := canonical_sync_id; kind := k; text := text; html := html; rtf := rtf;
              image_png := image_png; width := sr_width r; height := sr_height r;
              preview := sr_preview r; source_app := sr_source_app r;
              source_device_id := device_id; source_device_name := device_name;
              captured_at_ms := sr_captured_at_ms r; revision := sr_revision r;
              updated_by_device_id := device_id; favorite := sr_favorite r;
              favorite_revision := sr_favorite_revision r;
              favorite_updated_by_device_id := device_id; labels := []; label_memberships := [];
              deleted := sr_deleted r; change_kind := change; live := sr_live r;
              text_syntax := text_syntax |})
    end
  end.
End sync.


(** ** Floats and text stay in bounds *)

Definition in_percent (x : spec_float) : Prop :=
  is_finite x = true /\ SFleb f_zero x = true /\ SFleb x f_hundred = true.
Definition nonnegative (x : spec_float) : Prop := is_finite x = true /\ SFleb f_zero x = true.

Lemma zero_or_above x : is_finite x = true -> SFltb x f_zero = false -> SFleb f_zero x = true.
Proof. by destruct x as [[]|[]| |[] m e]. Qed.
Lemma finite_total m e m' e' :
  SFltb (S754_finite false m' e') (S754_finite false m e) = false ->
  SFleb (S754_finite false m e) (S754_finite false m' e') = true.
Proof.
  unfold SFltb, SFleb, SFcompare. change (PosDef.Pos.compare_cont Eq) with Pos.compare.
  rewrite (Z.compare_antisym e e'), (Pos.compare_antisym m m').
  by destruct (e ?= e')%Z, (m ?= m')%positive.
Qed.
Lemma hundred_or_below x : is_finite x = true -> SFltb f_hundred x = false -> SFleb x f_hundred = true.
Proof. destruct x as [[]|[]| |[] m e]; try done. intros _. apply finite_total. Qed.
Lemma bounded_percent_ok x : in_percent (bounded_percent x).
Proof.
  unfold bounded_percent. destruct (is_finite x) eqn:E; [|done]. unfold f_clamp.
  destruct (SFltb x f_zero) eqn:E0.
  - destruct (SFltb f_hundred f_zero) eqn:E1; [done|]. done.
  - destruct (SFltb f_hundred x) eqn:E1; [done|]. split; [done|]. split; [by apply zero_or_above|].
    by apply hundred_or_below.
Qed.
Lemma f_max_zero_ok x : is_finite x = true -> nonnegative (f_max_zero x).
Proof.
  intros Hx. unfold f_max_zero. destruct (SFltb x f_zero) eqn:E; [done|]. split; [done|].
  by apply zero_or_above.
Qed.
Lemma bounded_nonnegative_ok x : nonnegative (bounded_nonnegative x).
Proof. unfold bounded_nonnegative. destruct (is_finite x) eqn:E; [by apply f_max_zero_ok|done]. Qed.

(** [out] is at most [m] bytes, and if the source is text it is text without control
    characters. *)
Definition sanitized (m : nat) (source out : string) : Prop :=
  (String.length out <= m)%nat /\ (utf8_valid source -> utf8_valid out /\ has_control out = false).

Lemma sanitize_text_ok v m : sanitized m v (Text.sanitize_text v m).
Proof.
  split; [apply Text.truncate_length|]. intros (cs & Hcs & ->). unfold Text.sanitize_text.
  rewrite chars_of_chars by done. set (blank := fun c : Z => if is_control c then 0x20 else c).
  assert (Forall scalar (blank <$> cs)) as Hb.
  { apply Forall_fmap. eapply Forall_impl; [exact Hcs|]. intros c Hc. simpl. unfold blank.
    destruct (is_control c); [unfold scalar; lia|done]. }
  destruct (Text.truncate_chars (blank <$> cs) m Hb) as (cs1 & cs2 & E & ->).
  rewrite E in Hb. apply Forall_app in Hb as [Hb1 _]. split; [by exists cs1|].
  unfold has_control. rewrite chars_of_chars by done.
  apply not_true_iff_false. rewrite existsb_exists. intros (c & Hc%list_elem_of_In & Hcc).
  assert (c ∈ blank <$> cs) as Hin by (rewrite E; apply elem_of_app; by left).
  apply list_elem_of_fmap in Hin as (c0 & -> & _). unfold blank in Hcc.
  destruct (is_control c0) eqn:Ec; [done|congruence].
Qed.


(** A system snapshot is in bounds whatever the host reports: percentages are finite and between
    0 and 100, temperatures finite, byte counts fit a signed 64-bit integer and used never exceeds
    total, there are at most 64 GPUs and 256 disks, the first ones, and every name is at most 256
    bytes without control characters. *)
Theorem system_snapshot_bounded s :
  (forall c, psys_cpu (build_system_snapshot s) = Some c ->
     in_percent (pcpu_usage_percent c) /\ pcpu_core_count c <= 4096
     /\ (forall t, pcpu_temperature_celsius c = Some t -> is_finite t = true)
     /\ sanitized 256 (cpu_model_name (sys_cpu s)) (pcpu_model_name c))
  /\ (forall m, psys_memory (build_system_snapshot s) = Some m ->
     in_percent (pmem_usage_percent m) /\ pmem_used_bytes m <= pmem_total_bytes m <= i64_max)
  /\ (forall n, psys_network (build_system_snapshot s) = Some n ->
     pnet_download_bytes_per_sec n <= i64_max /\ pnet_upload_bytes_per_sec n <= i64_max)
  /\ length (psys_gpus (build_system_snapshot s)) = Nat.min MAX_GPU_ITEMS (length (sys_gpus s))
  /\ length (psys_disks (build_system_snapshot s)) = Nat.min MAX_DISK_ITEMS (length (sys_disks s))
  /\ (forall i g, psys_gpus (build_system_snapshot s) !! i = Some g ->
     exists g0, sys_gpus s !! i = Some g0 /\ sanitized 256 (gpu_name g0) (pgpu_name g)
       /\ (forall u, pgpu_usage_percent g = Some u -> in_percent u)
       /\ (forall t, pgpu_temperature_celsius g = Some t ->
             is_finite t = true /\ gpu_temperature_celsius g0 = Some t))
  /\ (forall i d, psys_disks (build_system_snapshot s) !! i = Some d ->
     exists d0, sys_disks s !! i = Some d0 /\ sanitized 256 (disk_name d0) (pdisk_name d)
       /\ in_percent (pdisk_usage_percent d)
       /\ pdisk_used_bytes d <= pdisk_total_bytes d <= i64_max).
Proof.
  unfold build_system_snapshot. cbn [psys_cpu psys_memory psys_network psys_gpus psys_disks].
  rewrite !length_fmap, !length_take. cbn [psys_gpus psys_disks system_snapshot_to_proto].
  rewrite !length_fmap. split_and!.
  - intros c [= <-]. simpl. split_and!; [apply bounded_percent_ok|lia| |apply sanitize_text_ok].
    intros t. destruct (cpu_temperature_celsius _) as [v|]; [|done]. simpl.
    destruct (is_finite v) eqn:E; [|done]. by intros [= <-].
  - intros m [= <-]. simpl. unfold Text.protocol_u64. split; [apply bounded_percent_ok|lia].
  - intros n [= <-]. simpl. unfold Text.protocol_u64. lia.
  - done.
  - done.
  - intros i g. rewrite list_lookup_fmap_Some. intros (g1 & -> & Hg).
    apply lookup_take_Some in Hg as [Hg _]. apply list_lookup_fmap_Some in Hg as (g0 & -> & Hg).
    exists g0. split; [done|]. simpl. split; [apply sanitize_text_ok|]. split.
    + intros u. destruct (gpu_usage_percent g0) as [v|]; [|done]. simpl. intros [= <-].
      apply bounded_percent_ok.
    + intros t. destruct (gpu_temperature_celsius g0) as [v|]; [|done]. simpl.
      destruct (is_finite v) eqn:E; [|done]. by intros [= <-].
  - intros i d. rewrite list_lookup_fmap_Some. intros (d1 & -> & Hd).
    apply lookup_take_Some in Hd as [Hd _]. apply list_lookup_fmap_Some in Hd as (d0 & -> & Hd).
    exists d0. split; [done|]. simpl. unfold Text.protocol_u64.
    split; [apply sanitize_text_ok|]. split; [apply bounded_percent_ok|lia].
Qed.

(** ** Listings are the first occurrences *)

(** The items whose key occurs for the first time. *)
Fixpoint firsts {A K : Type} `{Countable K} (key : A -> option K) (seen : gset K) (items : list A)
  : list A :=
  match items with
  | [] => []
  | a :: items =>
    match key a with
    | None => firsts key seen items
    | Some k => if bool_decide (k ∈ seen) then firsts key seen items
                else a :: firsts key ({[k]} ∪ seen) items
    end
  end.

(** Emitting a list of items one after the other. *)
Fixpoint emit_all {A B S : Type} (emit : A -> S -> S * B) (items : list A) (s : S) : S * list B :=
  match items with
  | [] => (s, [])
  | a :: items => let '(s, b) := emit a s in
                  let '(s, bs) := emit_all emit items s in (s, b :: bs)
  end.

Section loops.
Context {A K : Type} `{Countable K} (key : A -> option K).

Lemma bounded_loop_eq {B S} (emit : A -> S -> S * B) limit seen out items s :
  (length out < limit)%nat ->
  bounded_loop key emit limit seen out items s
  = let '(s', bs) := emit_all emit (take (limit - length out) (firsts key seen items)) s in
    (s', out ++ bs).
Proof.
  revert seen out s. induction items as [|a items IH]; intros seen out s Hl; cbn [bounded_loop firsts].
  { rewrite take_nil. simpl. by rewrite app_nil_r. }
  destruct (key a) as [k|]; [|by apply IH]. case_bool_decide; [by apply IH|].
  destruct (limit - length out)%nat as [|n] eqn:En; [lia|]. cbn [take emit_all].
  destruct (emit a s) as [s1 b]. rewrite length_app. cbn [length].
  destruct (Nat.leb_spec limit (length out + 1)).
  - assert (n = 0%nat) as -> by lia. by rewrite take_0.
  - rewrite IH by (rewrite length_app; simpl; lia). rewrite length_app. simpl length.
    replace (limit - (length out + 1))%nat with n by lia.
    destruct (emit_all _ _ _) as [s2 bs]. by rewrite <- app_assoc.
Qed.
Lemma emit_all_pure {B} (f : A -> B) items s :
  emit_all (fun a (_ : unit) => (tt, f a)) items s = (s, f <$> items).
Proof.
  induction items as [|a items IH] in s |- *; [done|]. cbn [emit_all]. rewrite IH. by destruct s.
Qed.
Lemma pure_loop_eq {B} (f : A -> B) limit items :
  (0 < limit)%nat -> pure_loop key f limit items = f <$> take limit (firsts key ∅ items).
Proof.
  intros Hl. unfold pure_loop. rewrite bounded_loop_eq by done. rewrite emit_all_pure.
  simpl. by rewrite Nat.sub_0_r.
Qed.

Lemma firsts_spec seen items i a :
  firsts key seen items !! i = Some a -> exists k, key a = Some k /\ k ∉ seen /\ a ∈ items.
Proof.
  revert seen i. induction items as [|x items IH]; intros seen i; [done|]. cbn [firsts].
  destruct (key x) as [k|] eqn:Ek.
  - case_bool_decide as E.
    + intros (k' & ? & ? & ?)%IH. exists k'. set_solver.
    + destruct i as [|i]; simpl.
      * intros [= ->]. exists k. set_solver.
      * intros (k' & ? & ? & ?)%IH. exists k'. set_solver.
  - intros (k' & ? & ? & ?)%IH. exists k'. set_solver.
Qed.
Lemma firsts_NoDup seen items : NoDup (key <$> firsts key seen items).
Proof.
  revert seen. induction items as [|x items IH]; intros seen; cbn [firsts]; [constructor|].
  destruct (key x) as [k|] eqn:Ek; [|apply IH]. case_bool_decide as E; [apply IH|].
  rewrite fmap_cons. constructor; [|apply IH]. intros (y & Hy & Hin)%list_elem_of_fmap.
  apply list_elem_of_lookup in Hin as [i Hi]. apply firsts_spec in Hi as (k' & Hk' & Hs & _).
  rewrite Ek, Hk' in Hy. injection Hy as ->. set_solver.
Qed.
Lemma firsts_complete seen items a k :
  a ∈ items -> key a = Some k -> k ∉ seen ->
  exists i b j, firsts key seen items !! i = Some b /\ key b = Some k
    /\ items !! j = Some b /\ forall j' c, (j' < j)%nat -> items !! j' = Some c -> key c <> Some k.
Proof.
  revert seen. induction items as [|x items IH]; intros seen Ha Hk Hs; [by apply elem_of_nil in Ha|].
  cbn [firsts]. destruct (decide (key x = Some k)) as [Ex|Ex].
  - rewrite Ex. rewrite bool_decide_false by done. exists 0%nat, x, 0%nat. split; [done|].
    split; [done|]. split; [done|]. intros j' c. lia.
  - apply elem_of_cons in Ha as [->|Ha]; [done|].
    assert (exists i b j, firsts key (match key x with
              | Some k' => if bool_decide (k' ∈ seen) then seen else {[k']} ∪ seen
              | None => seen end) items !! i = Some b /\ key b = Some k
      /\ items !! j = Some b /\ forall j' c, (j' < j)%nat -> items !! j' = Some c -> key c <> Some k)
      as (i & b & j & Hi & Hb & Hj & Hmin).
    { apply IH; [done|done|]. destruct (key x) as [k'|]; [|done]. case_bool_decide; set_solver. }
    assert (forall j' c, (j' < S j)%nat -> (x :: items) !! j' = Some c -> key c <> Some k) as Hmin'.
    { intros [|j'] c Hlt; simpl; [by intros [= <-]|]. intros Hc. by apply (Hmin j'); [lia|]. }
    destruct (key x) as [k'|]; [case_bool_decide|].
    + by exists i, b, (S j).
    + by exists (S i), b, (S j).
    + by exists i, b, (S j).
Qed.

(** The keys of the first [limit] first occurrences. *)
Lemma listing_spec limit items :
  let chosen := take limit (firsts key ∅ items) in
  NoDup (key <$> chosen) /\ (length chosen <= limit)%nat
  /\ (forall a, a ∈ chosen -> exists k j, key a = Some k /\ items !! j = Some a
        /\ forall j' c, (j' < j)%nat -> items !! j' = Some c -> key c <> Some k)
  /\ ((length chosen < limit)%nat -> forall a k, a ∈ items -> key a = Some k ->
        exists b, b ∈ chosen /\ key b = Some k).
Proof.
  cbn zeta. split_and!.
  - rewrite fmap_take. eapply sublist_NoDup; [apply firsts_NoDup|]. apply sublist_take.
  - rewrite length_take. lia.
  - intros a Ha. apply elem_of_take in Ha as (i & Hi & _).
    destruct (firsts_spec _ _ _ _ Hi) as (k & Hk & _ & Hin).
    destruct (firsts_complete ∅ items a k Hin Hk) as (i' & b & j & Hi' & Hb & Hj & Hmin); [set_solver|].
    assert (i' = i) as ->.
    { eapply NoDup_lookup; [apply (firsts_NoDup ∅ items)|..].
      - rewrite list_lookup_fmap, Hi'. simpl. by rewrite Hb.
      - rewrite list_lookup_fmap, Hi. simpl. by rewrite Hk. }
    simplify_eq. by exists k, j.
  - rewrite length_take. intros Hlt a k Ha Hk. rewrite take_ge by lia.
    destruct (firsts_complete ∅ items a k Ha Hk) as (i' & b & j & Hi' & Hb & _); [set_solver|].
    exists b. split; [by eapply list_elem_of_lookup_2|done].
Qed.
End loops.


(** [out] converts the first item of each key, in order, up to the limit: no key twice, and below
    the limit no key missing. *)
Definition listing {A B K : Type} `{Countable K} (key : A -> option K) (f : A -> B) (limit : nat)
    (items : list A) (out : list B) : Prop :=
  exists chosen, out = f <$> chosen /\ NoDup (key <$> chosen) /\ (length chosen <= limit)%nat
    /\ (forall a, a ∈ chosen -> exists k j, key a = Some k /\ items !! j = Some a
          /\ forall j' c, (j' < j)%nat -> items !! j' = Some c -> key c <> Some k)
    /\ ((length chosen < limit)%nat -> forall a k, a ∈ items -> key a = Some k ->
          exists b, b ∈ chosen /\ key b = Some k).

Lemma pure_loop_listing {A B K : Type} `{Countable K} (key : A -> option K) (f : A -> B) limit items :
  (0 < limit)%nat -> listing key f limit items (pure_loop key f limit items).
Proof.
  intros Hl. rewrite pure_loop_eq by done. eexists. split; [reflexivity|]. apply listing_spec.
Qed.

(** Listings are exact.  Processes, application volumes, windows, spaces, actions and automations
    are sent as the first item of each valid identity, in the host's order: none twice, at most as
    many as the limit, and none left out while there is room.  Process entries name a non-zero
    process with a non-empty sanitised name, a non-negative load and a size that fits 63 bits. *)
Theorem listings_exact processes focused state windows spaces actions automations :
  listing process_key bounded_process MAX_PROCESS_ITEMS processes
    (pl_processes (build_process_snapshot processes focused))
  /\ listing app_key bounded_app_volume MAX_APP_VOLUME_ITEMS (media_app_volumes state)
       (ms_app_volumes (build_media_snapshot state))
  /\ listing window_key bounded_window_meta MAX_WINDOW_ITEMS windows (build_window_meta_list windows)
  /\ listing space_key bounded_space MAX_SPACE_ITEMS spaces (build_space_list spaces)
  /\ listing action_key action_to_proto MAX_ACTION_ITEMS actions
       (al_actions (build_action_snapshot (Some (actions, automations))))
  /\ listing automation_key automation_to_proto MAX_AUTOMATION_ITEMS automations
       (al_automations (build_action_snapshot (Some (actions, automations))))
  /\ (forall p, p ∈ pl_processes (build_process_snapshot processes focused) ->
        pproc_pid p <> 0 /\ pproc_name p <> EmptyString
        /\ nonnegative (pproc_cpu_percent p) /\ pproc_memory_bytes p <= i64_max
        /\ exists q, q ∈ processes /\ pproc_pid p = proc_pid q
           /\ sanitized 128 (proc_name q) (pproc_name p)).
Proof.
  assert (listing process_key bounded_process MAX_PROCESS_ITEMS processes
    (pl_processes (build_process_snapshot processes focused))) as HP
    by (apply pure_loop_listing; unfold MAX_PROCESS_ITEMS; lia).
  split; [exact HP|]. split_and!; try (apply pure_loop_listing; vm_compute; lia).
  destruct HP as (chosen & -> & _ & _ & Hch & _). intros p (q & -> & Hq)%list_elem_of_fmap.
  destruct (Hch q Hq) as (k & j & Hk & Hj & _). unfold process_key in Hk.
  destruct (_ || _) eqn:E; [done|]. apply orb_false_iff in E as [E1 E2]. bool_arith.
  simpl. split; [done|]. split; [by intros E; rewrite E in E2|]. split.
  { destruct (is_finite _) eqn:F; [by apply f_max_zero_ok|done]. }
  split; [unfold Text.protocol_u64; lia|]. exists q. split; [by eapply list_elem_of_lookup_2|].
  split; [done|apply sanitize_text_ok].
Qed.

(** ** Blobs of a snapshot *)

Section blobs.
Context `{!Sha256}.

(** Clock readings from the [n]-th call on do not go back before [t]. *)
Definition clock (times : nat -> Z * Z) (t : Z) (n : nat) : Prop :=
  t <= (times n).1
  /\ forall m, (n <= m)%nat -> (times m).1 <= (times m).2 /\ (times m).2 <= (times (S m)).1.
(** SHA-256 does not collide on the data of interest, and the store holds only such data. *)
Definition collision_free (P : bytes -> Prop) : Prop :=
  forall a b, P a -> P b -> sha256 a = sha256 b -> a = b.
Definition holds_only (P : bytes -> Prop) (s : BlobStore.BlobStoreInner) : Prop :=
  forall k e, BlobStore.entries s !! k = Some e -> P (BlobStore.payload e).
Definition held (owner data : bytes) (ref : BlobRef) (s : BlobStore.BlobStoreInner) : Prop :=
  exists e, BlobStore.entries s !! sha256 data = Some e /\ BlobStore.payload e = data
    /\ BlobStore.reference e = ref /\ owner ∈ BlobStore.owners e.

Lemma shrinks_holds P s s' : BlobStore.shrinks s s' -> holds_only P s -> holds_only P s'.
Proof.
  intros [Hs _] HP k e' Hk. destruct (Hs k e' Hk) as (e & He & _ & -> & _). by apply (HP k e).
Qed.

Lemma insert_holds P t t0 t1 owner data media s :
  BlobStore.wf t s -> P data -> holds_only P s ->
  holds_only P (BlobStore.insert t0 t1 owner data media s).1.
Proof.
  intros Hwf Hd HP. destruct (BlobStore.insert_rejected owner data media) eqn:Hr.
  { by rewrite BlobStore.insert_rejected_same. }
  rewrite BlobStore.insert_eq by done. cbn zeta.
  destruct (BlobStore.prune_facts t t0 s Hwf) as (Hwf1 & _).
  destruct (BlobStore.reclaim_wf t owner (blen data) 1 _ Hwf1) as [_ [Hsh2 _ _ _]].
  pose proof (shrinks_holds P _ _ (BlobStore.prune_shrinks t t0 s Hwf) HP) as HP1.
  pose proof (shrinks_holds P _ _ Hsh2 HP1) as HP2.
  set (s1 := BlobStore.prune t0 s) in *.
  set (s2 := BlobStore.reclaim_delivered_for_owner owner (blen data) 1 s1) in *.
  assert (forall (m : gmap bytes BlobStore.BlobEntry) k e,
    (forall k e, m !! k = Some e -> P (BlobStore.payload e)) -> P (BlobStore.payload e) ->
    forall k' e', <[k := e]> m !! k' = Some e' -> P (BlobStore.payload e')) as Hins.
  { intros m k e Hm He k' e' [[_ <-]|[_ Hk']]%lookup_insert_Some; [done|by apply (Hm k')]. }
  destruct (BlobStore.entries s1 !! sha256 data) as [e|] eqn:E1.
  - case_bool_decide.
    + intros k' e' Hk'. refine (Hins _ _ _ HP1 _ k' e' Hk'). by apply (HP1 _ _ E1).
    + destruct (BlobStore.over_device_limit _ _ _); [done|].
      destruct (BlobStore.entries s2 !! sha256 data) as [e2|] eqn:E2; [|done].
      intros k' e' Hk'. refine (Hins _ _ _ HP2 _ k' e' Hk'). by apply (HP2 _ _ E2).
  - destruct (BlobStore.over_device_limit _ _ _); [done|]. destruct (negb _); [done|].
    intros k' e' Hk'. refine (Hins _ _ _ HP2 _ k' e' Hk'). done.
Qed.

(** One call of the store: its invariant is kept, and a returned reference is to the data, held for
    the owner.  A blob the owner already held stays unless it was delivered and not pinned. *)
Lemma store_insert_ok P times t owner data media s s' r :
  clock times t s.2 -> collision_free P -> P data ->
  BlobStore.wf t s.1 -> holds_only P s.1 ->
  store_insert times owner data media s = (s', r) ->
  clock times (times s.2).2 s'.2 /\ BlobStore.wf (times s.2).2 s'.1 /\ holds_only P s'.1
  /\ (forall ref, r = Some ref -> held owner data ref s'.1)
  /\ (forall k e, BlobStore.entries (BlobStore.prune (times s.2).1 s.1) !! k = Some e ->
        owner ∈ BlobStore.owners e ->
        (owner ∉ BlobStore.delivered_owners e
         \/ BlobStore.pins (BlobStore.prune (times s.2).1 s.1) k <> 0) ->
        exists e', BlobStore.entries s'.1 !! k = Some e' /\ BlobStore.payload e' = BlobStore.payload e
          /\ owner ∈ BlobStore.owners e').
Proof.
  destruct s as [inner n]. cbn [fst snd]. intros [Ht Hclock] Hcf Hd Hwf HP.
  pose proof (Hclock n ltac:(lia)) as [H01 H1n]. unfold store_insert. cbn [fst snd].
  destruct (times n) as [t0 t1] eqn:Et. cbn [fst snd] in *.
  pose proof (insert_holds P t t0 t1 owner data media inner Hwf Hd HP) as HP'.
  destruct (BlobStore.insert t0 t1 owner data media inner) as [inner' r0] eqn:Ei.
  intros [= <- <-]. cbn [fst snd] in *.
  split; [split; [done|intros m Hm; apply Hclock; lia]|].
  destruct (BlobStore.insert_rejected owner data media) eqn:Hr.
  - rewrite BlobStore.insert_rejected_same in Ei by done. injection Ei as <- <-.
    split; [eapply BlobStore.wf_later; [done|lia]|]. split; [done|]. split; [done|].
    intros k e Hk Ho _. destruct (BlobStore.prune_facts t t0 inner Hwf) as (_ & _ & HE).
    apply HE in Hk as [Hk _]. eauto.
  - assert (BlobStore.no_collision data inner) as Hnc.
    { intros e He. apply Hcf; [by apply (HP _ _ He)|done|].
      exact (BlobStore.entry_key _ _ (BlobStore.core_entry _ (BlobStore.wf_core _ _ Hwf) _ _ He)). }
    apply (BlobStore.insert_spec t) in Ei; [|done|lia|done|done]. destruct Ei as [W E I T].
    split; [done|]. split; [done|]. split.
    + intros ref ->. destruct (E ref eq_refl) as (e & ? & ? & ? & ? & _). by exists e.
    + intros k e Hk Ho Hc. apply (I k e owner Hk Ho). tauto.
Qed.
End blobs.


Section published.
Context `{!Sha256}.

(** A window on the wire without its thumbnail. *)
Definition without_thumbnail (o : PWindowInfo) : PWindowInfo :=
  {| pwin_window_id := pwin_window_id o; pwin_title := pwin_title o; pwin_app_name := pwin_app_name o;
     pwin_is_focused := pwin_is_focused o; pwin_thumbnail := None; pwin_space_id := pwin_space_id o |}.

Definition names (data : bytes) (ref : BlobRef) : Prop :=
  blob_id ref = sha256 data /\ ref_sha256 ref = sha256 data /\ ref_size ref = blen data.
Lemma held_names t owner data ref s :
  BlobStore.wf t s -> held owner data ref s -> names data ref.
Proof.
  intros Hwf (e & He & Hp & <- & _).
  destruct (BlobStore.entry_ref _ _ (BlobStore.core_entry _ (BlobStore.wf_core _ _ Hwf) _ _ He))
    as (? & ? & ?). split_and!; congruence.
Qed.

Lemma windows_emitted P times owner ws t s s' out :
  clock times t s.2 -> collision_free P -> Forall (fun w => P (win_thumbnail_png w)) ws ->
  BlobStore.wf t s.1 -> holds_only P s.1 ->
  emit_all (window_with_blob times owner true) ws s = (s', out) ->
  (exists t', BlobStore.wf t' s'.1 /\ clock times t' s'.2) /\ holds_only P s'.1
  /\ without_thumbnail <$> out = bounded_window_meta <$> ws
  /\ Forall2 (fun w o => forall ref, pwin_thumbnail o = Some ref -> names (win_thumbnail_png w) ref) ws out.
Proof.
  intros Hc Hcf Hws. revert t s s' out Hc.
  induction Hws as [|w ws Hw Hws IH]; intros t s s' out Hc Hwf HP; cbn [emit_all].
  { intros [= <- <-]. split; [by exists t|]. split; [done|]. split; [done|constructor]. }
  unfold window_with_blob at 1.
  destruct (store_insert times owner (win_thumbnail_png w) "image/png" s) as [s1 r] eqn:Es.
  destruct (store_insert_ok P times t owner _ _ s s1 r Hc Hcf Hw Hwf HP Es) as (Hc1 & Hwf1 & HP1 & Hr & _).
  destruct (emit_all _ ws s1) as [s2 bs] eqn:E. intros [= <- <-].
  destruct (IH _ _ _ _ Hc1 Hwf1 HP1 E) as (H1 & H2 & H3 & H4). split; [done|]. split; [done|].
  split; [by rewrite !fmap_cons, H3|]. constructor; [|done]. simpl. intros ref ->.
  by eapply held_names, Hr.
Qed.

(** Window lists with thumbnails publish what they show.  The list is the first window of every
    non-zero id, up to 1024, as without a blob store; the blob store's invariant survives the
    whole sequence of insertions; and each thumbnail reference names the digest and size of exactly
    that window's image. *)
Theorem window_thumbnails_published P times t owner windows s s' out :
  clock times t s.2 -> collision_free P -> (forall w, w ∈ windows -> P (win_thumbnail_png w)) ->
  BlobStore.wf t s.1 -> holds_only P s.1 ->
  build_window_list times owner true windows s = (s', out) ->
  (exists t', BlobStore.wf t' s'.1)
  /\ listing window_key bounded_window_meta MAX_WINDOW_ITEMS windows (without_thumbnail <$> out)
  /\ forall i o ref, out !! i = Some o -> pwin_thumbnail o = Some ref ->
       exists w, w ∈ windows /\ win_window_id w = pwin_window_id o /\ names (win_thumbnail_png w) ref.
Proof.
  intros Hc Hcf Hw Hwf HP. unfold build_window_list.
  rewrite bounded_loop_eq by (simpl; unfold MAX_WINDOW_ITEMS; lia).
  set (ws := take _ _).
  assert (forall w, w ∈ ws -> w ∈ windows) as Hin.
  { intros w Hws. apply elem_of_take in Hws as (i & Hi & _).
    by destruct (firsts_spec _ _ _ _ _ Hi) as (_ & _ & _ & ?). }
  destruct (emit_all (window_with_blob times owner true) ws s) as [s1 bs] eqn:E. intros [= <- <-].
  destruct (windows_emitted P times owner ws t s s1 bs Hc Hcf) as ((t' & ? & _) & _ & Hm & H2);
    [apply Forall_forall; auto|done|done|done|].
  split; [by exists t'|]. split.
  - rewrite Hm. exists ws. split; [done|]. subst ws. simpl length. rewrite Nat.sub_0_r. apply listing_spec.
  - intros i o ref Ho Hr. destruct (Forall2_lookup_r _ _ _ _ _ H2 Ho) as (w & Hwi & Hn).
    exists w. split; [by apply Hin; eapply list_elem_of_lookup_2|]. split; [|by apply Hn].
    assert ((without_thumbnail <$> bs) !! i = (bounded_window_meta <$> ws) !! i) as Ei by (by rewrite Hm).
    rewrite !list_lookup_fmap, Ho, Hwi in Ei. by injection Ei.
Qed.
End published.


(** ** Sync records sent *)

Section sent.
Context `{!Sha256} `{!TextSyntaxCore} `{!Requests.RequestCodes} `{!SyncCodes}.

(** Only a blob that was delivered to the owner before is marked delivered after an insertion. *)
Definition delivered_before (owner data : bytes) (s : BlobStore.BlobStoreInner) : Prop :=
  exists e, BlobStore.entries s !! sha256 data = Some e /\ owner ∈ BlobStore.delivered_owners e.

Lemma shrinks_delivered owner data s s' :
  BlobStore.shrinks s s' -> delivered_before owner data s' -> delivered_before owner data s.
Proof.
  intros [Hs _] (e' & He' & Hd). destruct (Hs _ _ He') as (e & He & _ & _ & _ & _ & Hsub).
  exists e. split; [done|]. set_solver.
Qed.
Lemma insert_delivered t t0 t1 owner data media s :
  BlobStore.wf t s -> delivered_before owner data (BlobStore.insert t0 t1 owner data media s).1 ->
  delivered_before owner data s.
Proof.
  intros Hwf. destruct (BlobStore.insert_rejected owner data media) eqn:Hr.
  { by rewrite BlobStore.insert_rejected_same. }
  rewrite BlobStore.insert_eq by done. cbn zeta.
  destruct (BlobStore.prune_facts t t0 s Hwf) as (Hwf1 & _).
  destruct (BlobStore.reclaim_wf t owner (blen data) 1 _ Hwf1) as [_ [Hsh2 _ _ _]].
  pose proof (BlobStore.prune_shrinks t t0 s Hwf) as Hsh1.
  set (s1 := BlobStore.prune t0 s) in *.
  set (s2 := BlobStore.reclaim_delivered_for_owner owner (blen data) 1 s1) in *.
  assert (BlobStore.shrinks s s2) as Hsh by (by etrans).
  assert (forall e e', BlobStore.delivered_owners e' ⊆ BlobStore.delivered_owners e ->
    forall (m : gmap bytes BlobStore.BlobEntry) x, BlobStore.entries x !! sha256 data = Some e -> BlobStore.shrinks s x ->
    (exists y, <[sha256 data := e']> m !! sha256 data = Some y /\ owner ∈ BlobStore.delivered_owners y) ->
    delivered_before owner data s) as Hup.
  { intros e e' Hsub m x He Hx (y & Hy & Hd). rewrite lookup_insert_eq in Hy. injection Hy as <-.
    apply (shrinks_delivered owner data s x Hx). exists e. split; [done|set_solver]. }
  destruct (BlobStore.entries s1 !! sha256 data) as [e|] eqn:E1.
  - case_bool_decide.
    + intros Hd. by apply (Hup e (BlobStore.touch t1 e) ltac:(done) _ s1 E1 Hsh1 Hd).
    + destruct (BlobStore.over_device_limit _ _ _); [by apply shrinks_delivered|].
      destruct (BlobStore.entries s2 !! sha256 data) as [e2|] eqn:E2.
      * intros Hd. by apply (Hup e2 (BlobStore.add_owner t1 owner e2) ltac:(done) _ s2 E2 Hsh Hd).
      * by intros (y & Hy & _); simpl in Hy; rewrite E2 in Hy.
  - destruct (BlobStore.over_device_limit _ _ _); [by apply shrinks_delivered|].
    destruct (negb _); [by apply shrinks_delivered|].
    intros (y & Hy & Hd). simpl in Hy. rewrite lookup_insert_eq in Hy. injection Hy as <-. by apply elem_of_empty in Hd.
Qed.

(** The owner can be issued a ticket for [data]. *)
Definition available (owner data : bytes) (s : BlobStore.BlobStoreInner) : Prop :=
  exists e, BlobStore.entries s !! sha256 data = Some e /\ BlobStore.payload e = data
    /\ owner ∈ BlobStore.owners e.
Lemma held_available owner data ref s : held owner data ref s -> available owner data s.
Proof. intros (e & ? & ? & _ & ?). by exists e. Qed.

(** After the insertion of [data], a second insertion keeps it, unless it had been delivered. *)
Lemma second_insert_keeps P times t owner data media data2 media2 s s1 r1 s2 r2 :
  clock times t s.2 -> collision_free P -> P data -> P data2 ->
  BlobStore.wf t s.1 -> holds_only P s.1 ->
  (times (S s.2)).1 < (times s.2).2 + BlobStore.BLOB_IDLE_TTL ->
  store_insert times owner data media s = (s1, Some r1) ->
  store_insert times owner data2 media2 s1 = (s2, r2) ->
  ~ delivered_before owner data s.1 -> available owner data s2.1.
Proof.
  intros Hc Hcf Hd Hd2 Hwf HP Hidle E1 E2 Hnd.
  destruct (store_insert_ok P times t owner _ _ _ _ _ Hc Hcf Hd Hwf HP E1) as (Hc1 & Hwf1 & HP1 & Hr1 & _).
  destruct (store_insert_ok P times _ owner _ _ _ _ _ Hc1 Hcf Hd2 Hwf1 HP1 E2)
    as (_ & Hwf2 & HP2 & _ & Hkeep).
  destruct (Hr1 r1 eq_refl) as (e & He & Hp & Href & Ho).
  assert (s1.2 = S s.2 /\ BlobStore.last_access e = (times s.2).2
    /\ owner ∉ BlobStore.delivered_owners e) as (Hn & Hla & Hdel).
  { clear Hkeep. unfold store_insert in E1.
    destruct (BlobStore.insert _ _ _ _ _ _) as [inner r0] eqn:Ei. injection E1 as <- ->. simpl in He.
    split; [done|]. split.
    - destruct (BlobStore.insert_rejected owner data media) eqn:Hr.
      { by rewrite BlobStore.insert_rejected_same in Ei by done. }
      destruct Hc as [Ht Hcl]. pose proof (Hcl s.2 ltac:(lia)) as [H01 _].
      apply (BlobStore.insert_spec t) in Ei; [|done|lia| |done].
      + destruct Ei as [_ HE _ _]. destruct (HE r1 eq_refl) as (e0 & He0 & _ & _ & _ & Hl). congruence.
      + intros e0 He0. apply Hcf; [by apply (HP _ _ He0)|done|].
        exact (BlobStore.entry_key _ _ (BlobStore.core_entry _ (BlobStore.wf_core _ _ Hwf) _ _ He0)).
    - intros Hin. apply Hnd. eapply (insert_delivered t (times s.2).1 (times s.2).2 owner data media); [done|].
      rewrite Ei. by exists e. }
  assert (BlobStore.entries (BlobStore.prune (times s1.2).1 s1.1) !! sha256 data = Some e) as He1.
  { destruct (BlobStore.prune_facts _ (times s1.2).1 _ Hwf1) as (_ & _ & HE). apply HE.
    split; [done|]. right. rewrite Hn, Hla. unfold duration_since.
    unfold BlobStore.BLOB_IDLE_TTL, from_secs in *. lia. }
  destruct (Hkeep _ _ He1 Ho (or_introl Hdel)) as (e' & He' & Hp' & Ho').
  exists e'. split; [done|]. split; [congruence|done].
Qed.

Definition record_blobs (r : ClipboardSyncRecord) : list bytes :=
  (into_bytes <$> option_list (html r)) ++ (into_bytes <$> option_list (rtf r)) ++ option_list (image_png r).

Lemma delivered_before_dec owner data s : delivered_before owner data s \/ ~ delivered_before owner data s.
Proof.
  unfold delivered_before. destruct (BlobStore.entries s !! sha256 data) as [e|]; [|right; by intros (? & ? & _)].
  destruct (decide (owner ∈ BlobStore.delivered_owners e)); [left; by exists e|right].
  by intros (? & [= <-] & ?).
Qed.

Lemma record_blobs_all P r :
  (forall x, x ∈ record_blobs r -> P x) ->
  (forall x, html r = Some x -> P (into_bytes x)) /\ (forall x, rtf r = Some x -> P (into_bytes x))
  /\ forall x, image_png r = Some x -> P x.
Proof.
  unfold record_blobs.
  intros HP. split_and!; intros x Hx; apply HP; rewrite Hx; set_solver.
Qed.

(** What a payload refers to, and that its owner can fetch it from the store [s'] left behind. *)
Definition payload_published (owner : bytes) (r : ClipboardSyncRecord)
    (payload : option SyncPayload) (s s' : BlobStore.BlobStoreInner) : Prop :=
  match payload with
  | None => deleted r = true \/ kind r = KFiles
  | Some (PayloadText t) => kind r = KText /\ text r = Some t
  | Some (PayloadRichText plain html_ref rtf_ref) =>
    kind r = KHtml /\ plain = default EmptyString (text r)
    /\ exists h href, html r = Some h /\ html_ref = Some href /\ names (into_bytes h) href
       /\ (available owner (into_bytes h) s'
           \/ rtf_ref <> None /\ delivered_before owner (into_bytes h) s)
       /\ match rtf_ref with
          | None => rtf r = None
          | Some ref => exists x, rtf r = Some x /\ names (into_bytes x) ref
                                  /\ available owner (into_bytes x) s'
          end
  | Some (PayloadImage ref) =>
    kind r = KImage /\ exists png, image_png r = Some png /\ names png ref /\ available owner png s'
  end.

Lemma sync_payload_published P times t owner r s s' res :
  clock times t s.2 -> collision_free P -> (forall x, x ∈ record_blobs r -> P x) ->
  BlobStore.wf t s.1 -> holds_only P s.1 ->
  (times (S s.2)).1 < (times s.2).2 + BlobStore.BLOB_IDLE_TTL ->
  sync_payload times owner r s = (s', res) ->
  (exists t', BlobStore.wf t' s'.1)
  /\ forall p, res = Ok p -> payload_published owner r p s.1 s'.1.
Proof.
  intros Hc Hcf HP Hwf Hh Hidle. destruct (record_blobs_all P r HP) as (HPh & HPr & HPi).
  clear HP. unfold sync_payload. destruct (deleted r || _) eqn:Eb.
  { intros [= <- <-]. split; [by exists t|]. intros p [= <-]. simpl.
    apply orb_true_iff in Eb as [?|Eb]; [by left|]. right. by bool_arith. }
  destruct (kind r) eqn:Ek.
  - intros [= <- <-]. split; [by exists t|]. intros p. destruct (text r) as [x|] eqn:Et; [|done].
    intros [= <-]. by simpl.
  - destruct (html r) as [h|] eqn:Eh; [|intros [= <- <-]; split; [by exists t|done]].
    destruct (store_insert times owner (into_bytes h) _ s) as [s1 r1] eqn:E1.
    destruct (store_insert_ok P times t owner _ _ _ _ _ Hc Hcf (HPh h eq_refl) Hwf Hh E1)
      as (Hc1 & Hwf1 & Hh1 & Hr1 & _).
    destruct r1 as [r1|]; [|intros [= <- <-]; split; [by eexists|done]].
    pose proof (held_names _ _ _ _ _ Hwf1 (Hr1 r1 eq_refl)) as Hn1.
    destruct (rtf r) as [x|] eqn:Ex.
    + destruct (store_insert times owner (into_bytes x) _ s1) as [s2 r2] eqn:E2.
      destruct (store_insert_ok P times _ owner _ _ _ _ _ Hc1 Hcf (HPr x eq_refl) Hwf1 Hh1 E2)
        as (Hc2 & Hwf2 & Hh2 & Hr2 & _).
      destruct r2 as [r2|]; intros [= <- <-]; (split; [by eexists|]); [|done].
      intros p [= <-]. simpl. split; [done|]. split; [done|]. exists h, r1. split; [done|].
      split; [done|]. split; [done|]. split.
      * destruct (delivered_before_dec owner (into_bytes h) s.1) as [Hd|Hd]; [by right|left].
        by refine (second_insert_keeps P times t owner _ _ _ _ s s1 _ s2 _ Hc Hcf (HPh h eq_refl)
          (HPr x eq_refl) Hwf Hh Hidle E1 E2 Hd).
      * exists x. split; [done|]. split; [by eapply held_names, Hr2|]. by eapply held_available, Hr2.
    + intros [= <- <-]. split; [by eexists|]. intros p [= <-]. simpl. split; [done|]. split; [done|].
      exists h, r1. split; [done|]. split; [done|]. split; [done|]. split; [|done]. left.
      by eapply held_available, Hr1.
  - destruct (image_png r) as [png|] eqn:Ei; [|intros [= <- <-]; split; [by exists t|done]].
    destruct (store_insert times owner png _ s) as [s1 r1] eqn:E1.
    destruct (store_insert_ok P times t owner _ _ _ _ _ Hc Hcf (HPi png eq_refl) Hwf Hh E1)
      as (Hc1 & Hwf1 & Hh1 & Hr1 & _).
    destruct r1 as [r1|]; intros [= <- <-]; (split; [by eexists|]); [|done].
    intros p [= <-]. simpl. split; [done|]. exists png. split; [done|].
    split; [by eapply held_names, Hr1|by eapply held_available, Hr1].
  - intros [= <- <-]. split; [by exists t|]. intros p [= <-]. by right.
Qed.

(** A clipboard record that is sent can be fetched.  The blob store's invariant is kept on every
    path; when the conversion succeeds, the record keeps its identity, its revision and timestamp
    are positive, its preview is sanitised, and its payload is the record's own content: text
    inline, HTML, RTF and images as references to exactly those bytes, which the device can be
    issued tickets for.  The one exception is an HTML part that had already been delivered to the
    device, which the insertion of the RTF part may reclaim. *)
Theorem sync_record_published P now_ms times t owner r s s' res :
  clock times t s.2 -> collision_free P -> (forall x, x ∈ record_blobs r -> P x) ->
  BlobStore.wf t s.1 -> holds_only P s.1 ->
  (times (S s.2)).1 < (times s.2).2 + BlobStore.BLOB_IDLE_TTL ->
  sync_record_to_proto now_ms times owner r s = (s', res) ->
  (exists t', BlobStore.wf t' s'.1)
  /\ forall out, res = Ok out ->
       payload_published owner r (sr_payload out) s.1 s'.1
       /\ sr_sync_id out = sync_id r /\ sr_deleted out = deleted r
       /\ 0 < sr_revision out /\ 0 < sr_captured_at_ms out
       /\ sanitized 2048 (preview r) (sr_preview out).
Proof.
  intros Hc Hcf HP Hwf Hh Hidle. unfold sync_record_to_proto.
  destruct (syntax_to_json (text_syntax r)) as [json|]; [|intros [= <- <-]; split; [by exists t|done]].
  destruct (sync_payload times owner r s) as [s1 p] eqn:E.
  destruct (sync_payload_published P times t owner r s s1 p Hc Hcf HP Hwf Hh Hidle E) as [Q1 Q2].
  intros [= <- <-]. split; [done|]. intros out. destruct p as [p|]; [|done]. simpl. intros [= <-].
  simpl. split; [by apply Q2|]. split; [done|]. split; [done|]. split; [lia|]. split.
  - unfold Text.protocol_timestamp. destruct (_ >? 0) eqn:Eg; bool_arith; lia.
  - apply sanitize_text_ok.
Qed.
End sent.


(** ** Sync records received *)

Section received.
Context `{!Sha256} `{!TextSyntaxCore} `{!Requests.RequestCodes} `{!SyncCodes}.

Lemma uploads_get_ok times id sha media u u' r :
  ClipboardUpload.wf u.1 -> uploads_get times id sha media u = (u', r) ->
  ClipboardUpload.wf u'.1 /\ forall b, r = Some b -> sha256 b = sha.
Proof.
  intros Hwf. unfold uploads_get, ClipboardUpload.get.
  pose proof (ClipboardUpload.upload_prune_wf (times u.2) _ Hwf) as Hp.
  intros [= <- <-]. split; [done|]. intros b.
  destruct (ClipboardUpload.uploads _ !! _) as [x|] eqn:Ex; [|done].
  destruct (bytes_eqb _ _) eqn:Eq; [|done]. intros [= <-]. unfold bytes_eqb in Eq. bool_arith.
  destruct (ClipboardUpload.wf_upload _ Hp _ _ Ex) as (Hs & _). congruence.
Qed.

(** The content of a received record is what its payload carries or refers to. *)
Definition content_received (payload : option SyncPayload) (k : Kind) (c : Content) : Prop :=
  let '(text, html, rtf, image) := c in
  match payload with
  | None => False
  | Some (PayloadText t) => k = KText /\ c = (Some t, None, None, None)
  | Some (PayloadRichText plain html_ref rtf_ref) =>
    k = KHtml /\ text = Some plain /\ image = None
    /\ (exists h href, html = Some h /\ html_ref = Some href /\ sha256 (into_bytes h) = blob_id href)
    /\ match rtf_ref with
       | None => rtf = None
       | Some ref => exists x, rtf = Some x /\ sha256 (into_bytes x) = blob_id ref
       end
  | Some (PayloadImage ref) =>
    k = KImage /\ text = None /\ html = None /\ rtf = None
    /\ exists b, image = Some b /\ sha256 b = blob_id ref
  end.

(** What validation leaves of the payload's shapes. *)
Definition payload_shape (k : Kind) (payload : option SyncPayload) : Prop :=
  match k, payload with
  | KText, Some (PayloadText _) => True
  | KHtml, Some (PayloadRichText _ (Some h) r) =>
    blob_id h = ref_sha256 h /\ forall x, r = Some x -> blob_id x = ref_sha256 x
  | KImage, Some (PayloadImage i) => blob_id i = ref_sha256 i
  | _, _ => False
  end.

Lemma valid_blob_ref ref media n :
  Requests.valid_clipboard_blob_ref (Some ref) media n = true -> blob_id ref = ref_sha256 ref.
Proof. unfold Requests.valid_clipboard_blob_ref, bytes_eqb. intros Hv. by bool_arith. Qed.

Lemma validated_shape now r k :
  Requests.validate_clipboard_sync_record now r = Ok tt ->
  kind_from_proto (sr_kind r) = Ok k ->
  is_ok (change_from_proto (sr_change_kind r)) = true
  /\ (sr_deleted r = false -> k <> KFiles -> payload_shape k (sr_payload r)).
Proof.
  unfold Requests.validate_clipboard_sync_record, kind_from_proto.
  do 6 (match goal with |- (if ?b then Err _ else _) = _ -> _ => destruct b; [discriminate|] end).
  cbn zeta. destruct (default Requests.CkUnspecified _) as [| | | |] eqn:Ek.
  { rewrite bool_decide_true, orb_true_r by done. done. }
  all: rewrite bool_decide_false, orb_false_r by done;
    rewrite change_kind_specified_spec; unfold change_from_proto;
    destruct (change_kind_try_from (sr_change_kind r)) as [[]|]; try done; cbn [negb default];
    intros Hv [= <-]; (split; [done|]); intros Hd Hk; rewrite Hd in Hv; try done;
    destruct (sr_payload r) as [[t|plain html rtf|image]|]; try done; unfold payload_shape.
  all: first
    [ destruct (_ || _) eqn:E; [discriminate Hv|]; apply orb_false_iff in E as [E E2];
      apply orb_false_iff in E as [_ E1]; apply negb_false_iff in E1;
      destruct html as [html|]; [|discriminate E1]; split; [by eapply valid_blob_ref|];
      intros x ->; apply negb_false_iff in E2; by eapply valid_blob_ref
    | destruct (Requests.valid_clipboard_blob_ref _ _ _) eqn:E; [|discriminate Hv];
      by eapply valid_blob_ref ].
Qed.

Lemma received_payload_ok times k payload u :
  ClipboardUpload.wf u.1 -> payload_shape k payload ->
  exists u' c, received_payload times payload u = Some (u', c) /\ ClipboardUpload.wf u'.1
    /\ forall x, c = Ok x -> content_received payload k x.
Proof.
  intros Hwf Hs. destruct k, payload as [[t|plain [html|] rtf|image]|]; try done; cbn [received_payload].
  - eexists _, _. split; [reflexivity|]. split; [done|]. by intros x [= <-].
  - destruct Hs as [Hh Hr]. eexists _, _. split; [apply f_equal, surjective_pairing|].
    destruct (uploads_get times (blob_id html) _ _ u) as [u1 [b|]] eqn:E1;
      destruct (uploads_get_ok _ _ _ _ _ _ _ Hwf E1) as [Hwf1 Hb]; [|done].
    specialize (Hb b eq_refl). destruct (from_utf8 b) as [h|] eqn:Eh; [|done].
    apply from_utf8_Some in Eh as [_ Eh].
    assert (sha256 (into_bytes h) = blob_id html) as Hhd by congruence.
    destruct rtf as [rtf|].
    + destruct (uploads_get times (blob_id rtf) _ _ u1) as [u2 [b2|]] eqn:E2;
        destruct (uploads_get_ok _ _ _ _ _ _ _ Hwf1 E2) as [Hwf2 Hb2]; [|done].
      split; [done|]. intros x. simpl. destruct (from_utf8 b2) as [y|] eqn:Ey; [|done].
      simpl. intros [= <-]. apply from_utf8_Some in Ey as [_ Ey]. simpl.
      split_and!; [done|done|done|by exists h, html|]. exists y. split; [done|].
      rewrite Ey, (Hb2 b2 eq_refl). symmetry. by apply Hr.
    + split; [done|]. intros x [= <-]. simpl. split_and!; [done|done|done|by exists h, html|done].
  - eexists _, _. split; [apply f_equal, surjective_pairing|].
    destruct (uploads_get times (blob_id image) _ _ u) as [u1 [b|]] eqn:E1;
      destruct (uploads_get_ok _ _ _ _ _ _ _ Hwf E1) as [Hwf1 Hb]; [|done].
    split; [done|]. intros x [= <-]. simpl. split_and!; try done. exists b. split; [done|].
    simpl in Hs. rewrite Hs. by apply Hb.
Qed.

(** What a received record becomes. *)
Lemma sync_record_from_proto_ok now_ms times r device_id device_name u :
  ClipboardUpload.wf u.1 ->
  exists u' res, sync_record_from_proto now_ms times r device_id device_name u = Some (u', res)
    /\ ClipboardUpload.wf u'.1
    /\ forall out, res = Ok out ->
         source_device_id out = device_id /\ source_device_name out = device_name
         /\ updated_by_device_id out = device_id /\ favorite_updated_by_device_id out = device_id
         /\ labels out = [] /\ label_memberships out = []
         /\ deleted out = sr_deleted r /\ revision out = sr_revision r
         /\ (if sr_deleted r || bool_decide (kind out = KFiles)
             then sync_id out = sr_sync_id r
                  /\ (text out, html out, rtf out, image_png out) = (None, None, None, None)
             else sync_id out = clipboard_sync_id (kind out) (text out) (html out) (rtf out) (image_png out)
                  /\ content_received (sr_payload r) (kind out)
                       (text out, html out, rtf out, image_png out)).
Proof.
  intros Hwf. unfold sync_record_from_proto.
  destruct (Requests.validate_clipboard_sync_record _ _) as [[]|e] eqn:Ev;
    [|eexists _, _; split; [reflexivity|]; done].
  destruct (kind_from_proto (sr_kind r)) as [k|e] eqn:Ek; [|eexists _, _; split; [reflexivity|]; done].
  destruct (validated_shape now_ms r k Ev Ek) as [Hc Hshape]. cbn zeta.
  destruct (sr_deleted r || bool_decide (k = KFiles)) eqn:Eb.
  - eexists _, _. split; [reflexivity|]. split; [done|]. intros out. cbn [rbind].
    destruct (change_from_proto (sr_change_kind r)) as [c|e]; [|done]. cbn [rbind]. intros [= <-]. simpl.
    split_and!; try done. by rewrite Eb.
  - apply orb_false_iff in Eb as [Ed Ef]. bool_arith.
    destruct (received_payload_ok times k (sr_payload r) u Hwf (Hshape Ed Ef))
      as (u' & c & -> & Hwf' & Hcont).
    eexists _, _. split; [reflexivity|]. split; [done|]. intros out.
    destruct c as [[[[t h] x] i]|e]; [|done]. cbn [rbind].
    destruct (change_from_proto (sr_change_kind r)) as [c|e]; [|done]. cbn [rbind]. intros [= <-]. simpl.
    split_and!; try done. rewrite Ed, bool_decide_false by done. simpl. split; [done|].
    exact (Hcont (t, h, x, i) eq_refl).
Qed.

(** C34: received clipboard records are attributed and addressed by the server.  Converting a record
    from a peer never panics, whatever the message, and keeps the upload store's invariant.  An
    accepted record carries the authenticated device as source and author of every change, no
    labels, and exactly the content its payload spells out or names by digest; its identity is
    computed from that content (the peer's own identity is kept only for deletions and files). *)
Theorem received_record_attributed now_ms times r device_id device_name u :
  ClipboardUpload.wf u.1 ->
  exists u' res, sync_record_from_proto now_ms times r device_id device_name u = Some (u', res)
    /\ ClipboardUpload.wf u'.1
    /\ forall out, res = Ok out ->
         source_device_id out = device_id /\ source_device_name out = device_name
         /\ updated_by_device_id out = device_id /\ favorite_updated_by_device_id out = device_id
         /\ labels out = [] /\ label_memberships out = []
         /\ deleted out = sr_deleted r /\ revision out = sr_revision r
         /\ (if sr_deleted r || bool_decide (kind out = KFiles)
             then sync_id out = sr_sync_id r
                  /\ (text out, html out, rtf out, image_png out) = (None, None, None, None)
             else sync_id out = clipboard_sync_id (kind out) (text out) (html out) (rtf out) (image_png out)
                  /\ content_received (sr_payload r) (kind out)
                       (text out, html out, rtf out, image_png out)).
Proof. apply sync_record_from_proto_ok. Qed.
End received.


(** ** Witnesses *)

#[local] Existing Instance toy_digest.
#[local] Existing Instance toy_limits.
#[local] Existing Instance toy_syntax.

Definition toy_token (c : Requests.CapabilityId) : string :=
  String (Ascii.ascii_of_nat (encode_nat c)) EmptyString.
Definition toy_requests : Requests.RequestCodes :=
  {| Requests.process_sort_try_from := fun z => if z =? 1 then Some Requests.SortCpu else None;
     Requests.playback_try_from := fun z => if z =? 1 then Some Requests.PaPlay else None;
     Requests.content_kind_try_from := fun z => match z with
       | 0 => Some Requests.CkUnspecified | 1 => Some Requests.CkText | 2 => Some Requests.CkHtml
       | 3 => Some Requests.CkImage | 4 => Some Requests.CkFiles | _ => None end;
     Requests.change_kind_specified := fun z => (1 <=? z) && (z <=? 6);
     Requests.token := toy_token; Requests.ClipboardCollection := string;
     Requests.MAX_COLLECTION_BYTES := 1024; Requests.collection_from_json := Some;
     Requests.collection_validate := fun _ => Ok tt |}.
#[local] Existing Instance toy_requests.
#[local] Instance toy_sync_codes : SyncCodes.
Proof.
  refine {|
    content_kind_code := fun k => match k with Requests.CkUnspecified => 0 | Requests.CkText => 1
      | Requests.CkHtml => 2 | Requests.CkImage => 3 | Requests.CkFiles => 4 end;
    change_kind_code := fun c => match c with PChUnspecified => 0 | PChCopy => 1 | PChEdit => 2
      | PChFavorite => 3 | PChDelete => 4 | PChSnapshot => 5 | PChLabel => 6 end;
    change_kind_try_from := fun z => match z with 0 => Some PChUnspecified | 1 => Some PChCopy
      | 2 => Some PChEdit | 3 => Some PChFavorite | 4 => Some PChDelete | 5 => Some PChSnapshot
      | 6 => Some PChLabel | _ => None end;
    syntax_to_json := fun _ => Some "{}";
    xxh3_128 := fun b => blen b |}.
  - by intros [].
  - by intros [].
  - intros z. simpl. destruct z as [|p|p]; [done| |done].
    destruct (Z.leb_spec (Z.pos p) 6).
    + assert (p = 1 \/ p = 2 \/ p = 3 \/ p = 4 \/ p = 5 \/ p = 6)%positive as Hp by lia.
      by repeat (destruct Hp as [->|Hp]; [done|]); subst.
    + rewrite andb_false_r. do 3 (try (destruct p as [p|p|]; try lia; try done)).
Defined.

Definition wtimes (n : nat) : Z * Z := (1000 + 2 * Z.of_nat n, 1001 + 2 * Z.of_nat n).
Lemma wclock : clock wtimes 1000 0.
Proof. split; [simpl; lia|]. intros m _. unfold wtimes. cbn [fst snd]. lia. Qed.
Definition wowner : bytes := [Byte.x01].

(** Every byte string, when its digest is its first 32 bytes and all are short and not empty at the
    end. *)
Definition wshort (b : bytes) : Prop :=
  (length b <= 32)%nat /\ match last b with Some x => x <> Byte.x00 | None => False end.
Lemma wshort_free : collision_free wshort.
Proof.
  intros a b [Ha La] [Hb Lb]. change (sha256 a) with (toy_sha256 a). change (sha256 b) with (toy_sha256 b).
  unfold toy_sha256.
  enough (forall n a b, (length a <= n)%nat -> (length b <= n)%nat ->
    match last a with Some x => x <> Byte.x00 | None => True end ->
    match last b with Some x => x <> Byte.x00 | None => True end ->
    take n (a ++ replicate 32 Byte.x00) = take n (b ++ replicate 32 Byte.x00) ->
    (n <= 32)%nat -> a = b) as Hn.
  { intros E. eapply (Hn 32%nat); [done|done| | |exact E|done].
    - by destruct (last a).
    - by destruct (last b). }
  clear. intros n. generalize 32%nat. intros m.
  assert (forall l k, match last l with Some x => x <> Byte.x00 | None => True end ->
    (length l <= k)%nat -> (k <= m)%nat -> take k (l ++ replicate m Byte.x00) = replicate k Byte.x00 -> l = []) as Hz.
  { intros l k Hl Hk Hm E. destruct l as [|x l0] using rev_ind; [done|]. exfalso.
    rewrite last_snoc in Hl. rewrite length_app in Hk. simpl in Hk.
    assert (replicate k Byte.x00 !! length l0 = Some x) as Hx.
    { rewrite <- E, lookup_take_lt by lia. rewrite <- app_assoc. by apply list_lookup_middle. }
    apply lookup_replicate in Hx as [-> _]. done. }
  intros a b. revert n b. induction a as [|x a IH]; intros n b Ha Hb La Lb E Hn.
  - symmetry. eapply (Hz b n); [done|done|lia|]. rewrite <- E. simpl. rewrite take_replicate. f_equal. lia.
  - destruct b as [|y b].
    + eapply (Hz (x :: a) n); [done|done|lia|]. rewrite E. simpl. rewrite take_replicate. f_equal. lia.
    + destruct n as [|n]; [simpl in Ha; lia|]. simpl in E. injection E as -> E. f_equal.
      apply (IH n); [simpl in Ha; lia|simpl in Hb; lia| | |done|lia].
      * destruct a; [done|]. exact La.
      * destruct b; [done|]. exact Lb.
Qed.


Definition wwindow (id : Z) : WindowInfo :=
  {| win_window_id := id; win_title := "Editor"; win_app_name := ""; win_is_focused := true;
     win_thumbnail_png := [Byte.x50; Byte.x4e; Byte.x47]; win_space_id := 2 |}.
Definition wwindows : list WindowInfo := [wwindow 9; wwindow 0; wwindow 9; wwindow 4].

Lemma window_thumbnails_published_witness :
  let run := build_window_list wtimes wowner true wwindows (BlobStore.new, 0%nat) in
  (exists t', BlobStore.wf t' run.1.1) /\ pwin_window_id <$> run.2 = [9; 4].
Proof.
  split; [|vm_compute; reflexivity].
  refine (proj1 (window_thumbnails_published wshort wtimes 1000 wowner wwindows (BlobStore.new, 0%nat) _ _
    wclock wshort_free _ (BlobStore.blob_store_new_wf 1000) _ (surjective_pairing _))).
  - intros w Hw. repeat (apply elem_of_cons in Hw as [->|Hw]; [split; [vm_compute; lia|done]|]).
    by apply elem_of_nil in Hw.
  - intros k e. cbn. by rewrite lookup_empty.
Defined.

Definition wrich : ClipboardSyncRecord :=
  {| sync_id := wid; kind := KHtml; text := Some "hi"; html := Some "<b>hi</b>"; rtf := Some "{\rtf1 hi}";
     image_png := None; width := None; height := None; preview := "hi"; source_app := None;
     source_device_id := "left"; source_device_name := "Left"; captured_at_ms := 20; revision := 3;
     updated_by_device_id := "left"; favorite := false; favorite_revision := 1;
     favorite_updated_by_device_id := "left"; labels := []; label_memberships := []; deleted := false;
     change_kind := ChCopy; live := true; text_syntax := 0%nat |}.

Lemma sync_record_published_witness :
  let run := sync_record_to_proto 100 wtimes wowner wrich (BlobStore.new, 0%nat) in
  exists out, run.2 = Ok out /\ available wowner (into_bytes "<b>hi</b>") run.1.1.
Proof.
  cbn zeta. assert (is_ok (sync_record_to_proto 100 wtimes wowner wrich (BlobStore.new, 0%nat)).2 = true)
    as Hok by (vm_compute; reflexivity).
  destruct (sync_record_to_proto _ _ _ _ _) as [s' res] eqn:E.
  destruct res as [out|e]; [|discriminate Hok]. exists out. split; [reflexivity|].
  destruct (sync_record_published wshort 100 wtimes 1000 wowner wrich (BlobStore.new, 0%nat) s' (Ok out)
    wclock wshort_free) as [_ HO]; [..|exact E|].
  - change (record_blobs wrich) with [into_bytes "<b>hi</b>"; into_bytes "{\rtf1 hi}"].
    intros x Hx. apply elem_of_cons in Hx as [->|Hx%list_elem_of_singleton]; [|subst x];
      (split; [vm_compute; lia|done]).
  - apply BlobStore.blob_store_new_wf.
  - intros k e. cbn. by rewrite lookup_empty.
  - vm_compute. reflexivity.
  - destruct (HO out eq_refl) as [HP _]. destruct (sr_payload out) as [[t|plain html rtf|image]|] eqn:Ep;
      [..|by destruct HP].
    + exfalso. by destruct HP as [HP _].
    + destruct HP as (_ & _ & h & href & [= <-] & _ & _ & [Ha|[_ (e & He & _)]] & _); [exact Ha|].
      change (BlobStore.entries (BlobStore.new, 0%nat).1) with (∅ : gmap bytes BlobStore.BlobEntry) in He.
      by rewrite lookup_empty in He.
    + exfalso. by destruct HP as [HP _].
Defined.

Definition wreceived : SyncRecord :=
  {| sr_sync_id := wid; sr_kind := 1; sr_width := None; sr_height := None; sr_preview := "hi";
     sr_source_app := None; sr_source_device_id := "forged"; sr_source_device_name := "Forged";
     sr_captured_at_ms := 20; sr_revision := 3; sr_updated_by_device_id := "forged"; sr_favorite := false;
     sr_favorite_revision := 1; sr_favorite_updated_by_device_id := "forged"; sr_labels := [];
     sr_label_memberships := []; sr_deleted := false; sr_change_kind := 1; sr_live := true;
     sr_text_syntax_json := "{}"; sr_payload := Some (PayloadText "hi") |}.

Lemma received_record_attributed_witness :
  exists u' out, sync_record_from_proto 100 (fun _ => 5) wreceived "phone" "Phone"
      (ClipboardUpload.default_store, 0%nat) = Some (u', Ok out)
    /\ source_device_id out = "phone" /\ text out = Some "hi".
Proof.
  destruct (received_record_attributed 100 (fun _ => 5) wreceived "phone" "Phone"
    (ClipboardUpload.default_store, 0%nat) ClipboardUpload.default_store_wf) as (u' & res & E & _ & HO).
  destruct res as [out|e]; [|vm_compute in E; discriminate E].
  exists u', out. split; [exact E|]. destruct (HO out eq_refl) as (H1 & _). split; [exact H1|].
  vm_compute in E. by injection E as <- <-.
Defined.

End Snapshots.
