(* ===== verification/Subscriptions.v ===== *)
(** * Subscriptions and event delivery

    Models [src/server/proto_handler/subscriptions.rs] and the queues and subscription state of
    [src/server/proto_handler.rs]: the latest-state queue, the bounded event channel, the record of
    lost action output ([ActionGap]), subscribing and unsubscribing, the pushes of every topic, and
    the recovery of lost output by gap events.  Frames go out by three queues that the connection's
    writer drains with a fixed priority.  What a watch or broadcast receiver yields, the host's
    current state and random draws are inputs of each operation. *)

From Stdlib Require Import ZArith Lia Ascii String.
From stdpp Require Import base tactics option list strings gmap sorting.
From S2P Require Import Prelude Proto Text Negotiation Requests RemoteFiles ReplicaWire Snapshots.

(** [encoded_len] of a [prost] message. *)
Class EncodedLen (M : Type) := { encoded_len : M -> Z }.

Module Subscriptions.
Import Snapshots.
Local Open Scope string_scope.
Local Open Scope list_scope.
Local Open Scope Z_scope.

Definition CRITICAL_CONTROL_QUEUE_CAPACITY : nat := 32.
Definition STATE_CONTROL_QUEUE_CAPACITY : nat := 16.
Definition MAX_ACTION_GAP_RESOURCE_IDS : Z := 1024.
Definition MAX_ACTION_GAP_RESOURCE_BYTES : Z := 256 * 1024.

(** ** Frames *)

Inductive SubscriptionTopic :=
| TUnspecified | TSystem | TMedia | TWindows | TClipboard | TActions | TActionOutput
| TNotifications | TClipboardSync.
#[global] Instance SubscriptionTopic_eq_dec : EqDecision SubscriptionTopic.
Proof. solve_decision. Defined.

Record EventGap := {
  eg_first_missing_sequence : Z;
  eg_next_available_sequence : Z;
  eg_resync_required : bool;
  eg_resource_ids : list string;
}.
Inductive Data :=
| DSystem (s : PSystemSnapshot)
| DMedia (s : MediaStateSnapshot)
| DWindows (s : WindowListSnapshot)
| DClipboard (s : ClipboardSnapshot)
| DActions (s : ActionListSnapshot)
| DNotifications (s : NotificationListSnapshot)
| DClipboardSync (r : SyncRecord)
| DActionOutput (action_id : string) (lines : list string)
| DGap (gap : EventGap).
Record Event := {
  ev_subscription_id : Z;
  ev_sequence : Z;
  ev_captured_at_ms : Z;
  ev_data : option Data;
}.
Record SubscriptionResult := {
  res_request_id : Z;
  res_status : Status;
  res_subscription_id : Z;
  res_topic : SubscriptionTopic;
  res_next_sequence : Z;
}.

(** [ServerControlFrame] with the bodies sent here; [X] is everything else. *)
Inductive Body (X : Type) :=
| BEvent (e : Event)
| BSubscriptionResult (r : SubscriptionResult)
| BOther (x : X).
Arguments BEvent {_}.
Arguments BSubscriptionResult {_}.
Arguments BOther {_}.
Record ServerControlFrame (X : Type) := { sc_body : option (Body X) }.
Arguments Build_ServerControlFrame {_}.
Arguments sc_body {_}.
Definition server_frame {X} (body : Body X) : ServerControlFrame X := {| sc_body := Some body |}.

Definition event_frame {X} (now subscription_id sequence captured_at_ms : Z) (data : Data)
  : ServerControlFrame X :=
  server_frame (BEvent {| ev_subscription_id := subscription_id; ev_sequence := sequence;
                          ev_captured_at_ms := Text.protocol_timestamp now captured_at_ms;
                          ev_data := Some data |}).

(** ** Lost action output *)

Record ActionGap := {
  first_missing_sequence : option Z;
  resource_ids : gset string;
  resource_bytes : Z;
  resync_all : bool;
}.
Definition default_gap : ActionGap :=
  {| first_missing_sequence := None; resource_ids := ∅; resource_bytes := 0; resync_all := false |}.

Definition remember_sequence (sequence : Z) (g : ActionGap) : ActionGap :=
  {| first_missing_sequence := Some (default sequence (first_missing_sequence g));
     resource_ids := resource_ids g; resource_bytes := resource_bytes g; resync_all := resync_all g |}.
Definition set_resync_all (g : ActionGap) : ActionGap :=
  {| first_missing_sequence := first_missing_sequence g; resource_ids := resource_ids g;
     resource_bytes := resource_bytes g; resync_all := true |}.
(** The resources are forgotten: everything must be refreshed. *)
Definition give_up_resources (g : ActionGap) : ActionGap :=
  {| first_missing_sequence := first_missing_sequence g; resource_ids := ∅; resource_bytes := 0;
     resync_all := true |}.

Definition remember_resource (sequence : Z) (resource_id : string) (g : ActionGap) : ActionGap :=
  let g := remember_sequence sequence g in
  if resync_all g || bool_decide (resource_id ∈ resource_ids g) then g else
  if str_is_empty resource_id
     || (Z.of_nat (size (resource_ids g)) >=? MAX_ACTION_GAP_RESOURCE_IDS)
     || (sat_add usize_max (resource_bytes g) (slen resource_id) >? MAX_ACTION_GAP_RESOURCE_BYTES)
  then give_up_resources g else
  {| first_missing_sequence := first_missing_sequence g;
     resource_ids := {[resource_id]} ∪ resource_ids g;
     resource_bytes := sat_add usize_max (resource_bytes g) (slen resource_id);
     resync_all := resync_all g |}.

Definition remember_gap (gap : EventGap) (g : ActionGap) : ActionGap :=
  let g := remember_sequence (eg_first_missing_sequence gap) g in
  if is_empty (eg_resource_ids gap) then give_up_resources g else
  fold_left (fun g id => remember_resource (eg_first_missing_sequence gap) id g)
    (eg_resource_ids gap) g.

(** The sorted ids, and the record cleared but for its first sequence. *)
Definition take_resource_ids (g : ActionGap) : ActionGap * list string :=
  ({| first_missing_sequence := first_missing_sequence g; resource_ids := ∅; resource_bytes := 0;
      resync_all := false |},
   sort_by str_leb (if resync_all g then [] else elements (resource_ids g))).
Definition take_first (g : ActionGap) : ActionGap :=
  {| first_missing_sequence := None; resource_ids := resource_ids g;
     resource_bytes := resource_bytes g; resync_all := resync_all g |}.

(** ** Subscription state *)

Record StateSubscription := { ss_id : Z; ss_sequence : Z }.
Record EventSubscription := { es_id : Z; es_sequence : Z; es_action_gap : ActionGap }.
Record PassiveSubscription := { ps_id : Z; ps_sequence : Z }.

(** [next_sequence] of both kinds of subscription: the new state; its sequence is returned. *)
Definition state_next (sub : StateSubscription) : StateSubscription :=
  {| ss_id := ss_id sub; ss_sequence := sat_add u64_max (ss_sequence sub) 1 |}.
Definition event_next (sub : EventSubscription) : EventSubscription :=
  {| es_id := es_id sub; es_sequence := sat_add u64_max (es_sequence sub) 1;
     es_action_gap := es_action_gap sub |}.
Definition set_gap (g : ActionGap) (sub : EventSubscription) : EventSubscription :=
  {| es_id := es_id sub; es_sequence := es_sequence sub; es_action_gap := g |}.

Record ConnectionSubscriptions := {
  system_sub : option StateSubscription;
  media_sub : option StateSubscription;
  window_sub : option StateSubscription;
  clipboard_sub : option StateSubscription;
  action_catalog_sub : option PassiveSubscription;
  action_output_sub : option EventSubscription;
  notification_sub : option EventSubscription;
  clipboard_sync_sub : option EventSubscription;
}.
Definition default_subscriptions : ConnectionSubscriptions :=
  {| system_sub := None; media_sub := None; window_sub := None; clipboard_sub := None;
     action_catalog_sub := None; action_output_sub := None; notification_sub := None;
     clipboard_sync_sub := None |}.

(** What a broadcast receiver yields, and a line of action output. *)
Inductive Recv (A : Type) := Received (a : A) | Lagged (count : Z) | RecvClosed.
Arguments Received {_}.
Arguments Lagged {_}.
Arguments RecvClosed {_}.
Record OutputLine := { ol_action_id : string; ol_text : string }.

(** ** Queues *)

Section queues.
Context {X : Type} `{!WireLimits} `{!EncodedLen (ServerControlFrame X)}.
Notation Frame := (ServerControlFrame X).

(** [LatestStateQueue]: at most one frame per subscription. *)
Definition replace (frame : Frame) (frames : gmap Z Frame) : gmap Z Frame :=
  if encoded_len frame >? MAX_CONTROL_FRAME_SIZE then frames else
  match sc_body frame with
  | Some (BEvent event) => <[ev_subscription_id event := frame]> frames
  | _ => frames
  end.

(** A bounded channel with its capacity; [None] once the receiver is gone. *)
Inductive TrySend := Sent (queue : list Frame) | Full | Closed.
Definition try_send (capacity : nat) (frame : Frame) (queue : option (list Frame)) : TrySend :=
  match queue with
  | None => Closed
  | Some q => if Nat.leb capacity (length q) then Full else Sent (q ++ [frame])
  end.

Definition remember_action_gap (frame : Frame) (g : ActionGap) : ActionGap :=
  match sc_body frame with
  | Some (BEvent event) =>
    match ev_data event with
    | Some (DGap dropped) => remember_gap dropped g
    | Some (DActionOutput action_id _) => remember_resource (ev_sequence event) action_id g
    | _ => set_resync_all (remember_sequence (ev_sequence event) g)
    end
  | _ => g
  end.

(** The event channel and the gap record after [queue_event]. *)
Definition queue_event (frame : Frame) (queue : option (list Frame)) (g : ActionGap)
  : option (list Frame) * ActionGap :=
  if encoded_len frame >? MAX_CONTROL_FRAME_SIZE then (queue, remember_action_gap frame g) else
  match try_send STATE_CONTROL_QUEUE_CAPACITY frame queue with
  | Sent queue => (Some queue, g)
  | Full => (queue, remember_action_gap frame g)
  | Closed => (queue, g)
  end.

(** ** Pushes of state *)

Definition push_system_event (now captured_at_ms : Z) (data : SystemSnapshot)
    (sub : StateSubscription) (frames : gmap Z Frame) : StateSubscription * gmap Z Frame :=
  let sub := state_next sub in
  (sub, replace (event_frame now (ss_id sub) (ss_sequence sub) captured_at_ms
                   (DSystem (build_system_snapshot data))) frames).
Definition push_media_event (now captured_at_ms : Z) (data : MediaState)
    (sub : StateSubscription) (frames : gmap Z Frame) : StateSubscription * gmap Z Frame :=
  let sub := state_next sub in
  (sub, replace (event_frame now (ss_id sub) (ss_sequence sub) captured_at_ms
                   (DMedia (build_media_snapshot data))) frames).
Definition push_window_event (now captured_at_ms : Z) (data : list WindowInfo)
    (spaces : list PSpaceInfo) (sub : StateSubscription) (frames : gmap Z Frame)
  : StateSubscription * gmap Z Frame :=
  let sub := state_next sub in
  (sub, replace (event_frame now (ss_id sub) (ss_sequence sub) captured_at_ms
                   (DWindows {| wl_windows := build_window_meta_list data; wl_spaces := spaces |})) frames).

(** The loop of [clipboard_event_frame]: entries leave from the end until the frame fits. *)
Definition with_history (h : list ClipboardEntry) (s : ClipboardSnapshot) : ClipboardSnapshot :=
  {| snap_history := h; snap_next_cursor_timestamp_ms := snap_next_cursor_timestamp_ms s;
     snap_next_cursor_id := snap_next_cursor_id s; snap_policy := snap_policy s;
     snap_labels := snap_labels s |}.
Fixpoint fit_clipboard (n : nat) (now subscription_id sequence captured_at_ms : Z)
    (snapshot : ClipboardSnapshot) : option Frame :=
  let frame := event_frame now subscription_id sequence captured_at_ms
                 (DClipboard (with_history (take n (snap_history snapshot)) snapshot)) in
  if encoded_len frame <=? MAX_CONTROL_FRAME_SIZE then Some frame else
  match n with
  | O => None
  | S n => fit_clipboard n now subscription_id sequence captured_at_ms snapshot
  end.
Definition clipboard_event_frame (now subscription_id sequence captured_at_ms : Z)
    (snapshot : ClipboardSnapshot) : option Frame :=
  fit_clipboard (length (snap_history snapshot)) now subscription_id sequence captured_at_ms snapshot.

Section clipboard.
Context `{!ReplicaWire.TextSyntaxCore} `{!Requests.RequestCodes} `{!SyncCodes}.

Definition push_clipboard_event (now captured_at_ms : Z) (history : list ClipboardSummary)
    (policy : ClipboardPolicy) (sub : StateSubscription) (frames : gmap Z Frame)
  : StateSubscription * gmap Z Frame :=
  match build_clipboard_snapshot history policy None true with
  | Err _ => (sub, frames)
  | Ok snapshot =>
    let sequence := sat_add u64_max (ss_sequence sub) 1 in
    match clipboard_event_frame now (ss_id sub) sequence captured_at_ms snapshot with
    | None => (sub, frames)
    | Some frame => ({| ss_id := ss_id sub; ss_sequence := sequence |}, replace frame frames)
    end
  end.
End clipboard.

Definition push_notification_event (now : Z)
    (listed : option (result (list HostNotificationInfo) HostCapabilityError))
    (sub : EventSubscription) (frames : gmap Z Frame) : EventSubscription * gmap Z Frame :=
  match notification_snapshot listed with
  | Err _ => (sub, frames)
  | Ok snapshot =>
    let sub := event_next sub in
    (sub, replace (event_frame now (es_id sub) (es_sequence sub) now (DNotifications snapshot)) frames)
  end.

(** ** Pushes of events *)

Definition push_action_output_event (now : Z) (output : OutputLine) (sub : EventSubscription)
    (queue : option (list Frame)) : EventSubscription * option (list Frame) :=
  if negb (Requests.valid_control_identifier (ol_action_id output)) then (sub, queue) else
  let sub := event_next sub in
  let sequence := es_sequence sub in
  let '(sub, data) :=
    match first_missing_sequence (es_action_gap sub) with
    | Some first_missing =>
      let g := remember_resource sequence (ol_action_id output) (es_action_gap sub) in
      let '(g, ids) := take_resource_ids (take_first g) in
      (set_gap g sub,
       DGap {| eg_first_missing_sequence := first_missing;
               eg_next_available_sequence := sat_add u64_max sequence 1;
               eg_resync_required := true; eg_resource_ids := ids |})
    | None =>
      (sub, DActionOutput (ol_action_id output)
              [Text.truncate_utf8 (ol_text output) (Z.to_nat Text.MAX_ACTION_OUTPUT_LINE_BYTES)])
    end in
  let '(queue, g) := queue_event (event_frame now (es_id sub) sequence now data) queue
                       (es_action_gap sub) in
  (set_gap g sub, queue).

(** [recv_action_output]: the subscription and the line to push. *)
Definition recv_action_output (r : Recv OutputLine) (sub : EventSubscription)
  : EventSubscription * option OutputLine :=
  match r with
  | Received value => (sub, Some value)
  | Lagged _ =>
    (set_gap (set_resync_all (remember_sequence (sat_add u64_max (es_sequence sub) 1)
                (es_action_gap sub))) sub, None)
  | RecvClosed => (sub, None)
  end.

(** The part of the heartbeat that reports lost action output, on the critical queue. *)
Definition flush_action_gap (now : Z) (sub : EventSubscription) : EventSubscription * option Frame :=
  match first_missing_sequence (es_action_gap sub) with
  | None => (sub, None)
  | Some first_missing =>
    let sub := event_next (set_gap (take_first (es_action_gap sub)) sub) in
    let '(g, ids) := take_resource_ids (es_action_gap sub) in
    (set_gap g sub,
     Some (event_frame now (es_id sub) (es_sequence sub) now
       (DGap {| eg_first_missing_sequence := first_missing;
                eg_next_available_sequence := sat_add u64_max (es_sequence sub) 1;
                eg_resync_required := true; eg_resource_ids := ids |})))
  end.

(** [recv_notification_change]: a lag still asks for the latest snapshot. *)
Definition recv_notification_change (r : Recv unit) : bool :=
  match r with Received _ | Lagged _ => true | RecvClosed => false end.

Section clipboard_sync.
Context `{!Sha256} `{!ReplicaWire.TextSyntaxCore} `{!Requests.RequestCodes} `{!SyncCodes}.

Definition recv_clipboard_sync (r : Recv ReplicaWire.ClipboardSyncRecord)
  : option ReplicaWire.ClipboardSyncRecord :=
  match r with Received record => Some record | Lagged _ | RecvClosed => None end.

Definition push_clipboard_sync_event (now : Z) (times : nat -> Z * Z) (blob_owner : bytes)
    (record : ReplicaWire.ClipboardSyncRecord) (s : Store) (sub : EventSubscription)
    (queue : option (list Frame)) : Store * EventSubscription * option (list Frame) :=
  match sync_record_to_proto now times blob_owner record s with
  | (s, Err _) => (s, sub, queue)
  | (s, Ok record) =>
    let sub := event_next sub in
    let '(queue, g) := queue_event (event_frame now (es_id sub) (es_sequence sub) now
                                      (DClipboardSync record)) queue (es_action_gap sub) in
    (s, set_gap g sub, queue)
  end.
End clipboard_sync.
End queues.

(** ** Subscribing *)

Record SubscribeRequest := { sq_request_id : Z; sq_topic : Z }.
Record UnsubscribeRequest := { uq_request_id : Z; uq_subscription_id : Z }.

(** [SubscriptionTopic::try_from]. *)
Class TopicCodes := { topic_try_from : Z -> option SubscriptionTopic }.

(** The host state a subscription reads: whether the sources can be subscribed to, and the latest
    values for its baseline. *)
Record Host := {
  h_now : Z;
  h_output_available : bool;
  h_notifications_available : bool;
  h_sync_available : bool;
  h_latest_system : option (Z * SystemSnapshot);
  h_latest_media : option (Z * MediaState);
  h_spaces : list SpaceInfo;
  h_latest_windows : option (Z * list WindowInfo);
  h_latest_clipboard : option (Z * list ClipboardSummary * ClipboardPolicy);
  h_actions : option (list QuickActionInfo * list AutomationInfo);
  h_notifications : option (result (list HostNotificationInfo) HostCapabilityError);
}.

(** The feature and capability of a topic. *)
Definition topic_requires (topic : SubscriptionTopic) : option (Feature * Requests.CapabilityId) :=
  match topic with
  | TSystem => Some (FSystem, Requests.SystemRead)
  | TMedia => Some (FMedia, Requests.MediaRead)
  | TWindows => Some (FWindows, Requests.WindowRead)
  | TClipboard => Some (FClipboard, Requests.ClipboardRead)
  | TActions | TActionOutput => Some (FActions, Requests.ActionRead)
  | TNotifications => Some (FNotifications, Requests.NotificationRead)
  | TClipboardSync => Some (FClipboardSync, Requests.ClipboardSync)
  | TUnspecified => None
  end.

Definition active_subscription_ids (s : ConnectionSubscriptions) : list (option Z) :=
  [ss_id <$> system_sub s; ss_id <$> media_sub s; ss_id <$> window_sub s; ss_id <$> clipboard_sub s;
   ps_id <$> action_catalog_sub s; es_id <$> action_output_sub s; es_id <$> notification_sub s;
   es_id <$> clipboard_sync_sub s].

(** [random_nonzero_u64] of a raw draw, and the loop that redraws active ids: [None] while no draw
    has been accepted. *)
Definition random_nonzero_u64 (raw : Z) : Z :=
  let value := Z.land raw i64_max in if value =? 0 then 1 else value.
Definition draw_id (s : ConnectionSubscriptions) (raws : list Z) : option Z :=
  head (List.filter (fun candidate => negb (bool_decide (Some candidate ∈ active_subscription_ids s)))
          (random_nonzero_u64 <$> raws)).

(** The [match] that stores the new subscription with a sequence. *)
Definition store_subscription (topic : SubscriptionTopic) (id sequence : Z)
    (s : ConnectionSubscriptions) : ConnectionSubscriptions :=
  let state := Some {| ss_id := id; ss_sequence := sequence |} in
  let event := Some {| es_id := id; es_sequence := sequence; es_action_gap := default_gap |} in
  {| system_sub := if decide (topic = TSystem) then state else system_sub s;
     media_sub := if decide (topic = TMedia) then state else media_sub s;
     window_sub := if decide (topic = TWindows) then state else window_sub s;
     clipboard_sub := if decide (topic = TClipboard) then state else clipboard_sub s;
     action_catalog_sub := if decide (topic = TActions)
                           then Some {| ps_id := id; ps_sequence := sequence |} else action_catalog_sub s;
     action_output_sub := if decide (topic = TActionOutput) then event else action_output_sub s;
     notification_sub := if decide (topic = TNotifications) then event else notification_sub s;
     clipboard_sync_sub := if decide (topic = TClipboardSync) then event else clipboard_sync_sub s |}.

Section subscribe.
Context {X : Type} `{!WireLimits} `{!EncodedLen (ServerControlFrame X)} `{!FeatureCodes} `{!TopicCodes}.
Context `{!ReplicaWire.TextSyntaxCore} `{!Requests.RequestCodes} `{!SyncCodes}.
Notation Frame := (ServerControlFrame X).

Definition subscription_result (request_id subscription_id : Z) (topic : SubscriptionTopic)
    (next_sequence : Z) (result : Status) : Frame :=
  server_frame (BSubscriptionResult
    {| res_request_id := request_id; res_status := result; res_subscription_id := subscription_id;
       res_topic := topic; res_next_sequence := next_sequence |}).

(** The baseline of a topic: its first event. *)
Definition initial_frame (h : Host) (topic : SubscriptionTopic) (id : Z) : option Frame :=
  match topic with
  | TSystem => '(at_ms, v) ← h_latest_system h;
               Some (event_frame (h_now h) id 1 at_ms (DSystem (build_system_snapshot v)))
  | TMedia => '(at_ms, v) ← h_latest_media h;
              Some (event_frame (h_now h) id 1 at_ms (DMedia (build_media_snapshot v)))
  | TWindows => '(at_ms, v) ← h_latest_windows h;
                Some (event_frame (h_now h) id 1 at_ms
                  (DWindows {| wl_windows := build_window_meta_list v;
                               wl_spaces := build_space_list (h_spaces h) |}))
  | TClipboard => '(at_ms, history, policy) ← h_latest_clipboard h;
                  match build_clipboard_snapshot history policy None true with
                  | Ok snapshot => clipboard_event_frame (h_now h) id 1 at_ms snapshot
                  | Err _ => None
                  end
  | TActions => Some (event_frame (h_now h) id 1 (h_now h) (DActions (build_action_snapshot (h_actions h))))
  | TNotifications => match notification_snapshot (h_notifications h) with
                      | Ok snapshot => Some (event_frame (h_now h) id 1 (h_now h) (DNotifications snapshot))
                      | Err _ => None
                      end
  | TActionOutput | TClipboardSync | TUnspecified => None
  end.

(** Why a subscription is refused, in the order of the checks. *)
Definition refusal (h : Host) (features : gset Z) (capabilities : gset Requests.CapabilityId)
    (topic : SubscriptionTopic) : option (ErrorCode * string) :=
  match topic_requires topic with
  | None => Some (ECInvalidArgument, "invalid subscription topic")
  | Some (f, required) =>
    if negb (bool_decide (feature_code FSubscriptions ∈ features))
       || negb (bool_decide (feature_code f ∈ features))
    then Some (ECUnsupported, "subscription feature was not negotiated") else
    if negb (bool_decide (required ∈ capabilities))
    then Some (ECPermissionDenied, "subscription capability was not granted") else
    if bool_decide (topic = TActionOutput) && negb (h_output_available h)
    then Some (ECUnavailable, "action output subscription is unavailable") else
    if bool_decide (topic = TNotifications) && negb (h_notifications_available h)
    then Some (ECUnavailable, "notification subscription is unavailable") else
    if bool_decide (topic = TClipboardSync) && negb (h_sync_available h)
    then Some (ECUnavailable, "clipboard sync subscription is unavailable") else None
  end.

(** The subscriptions and the frames for the critical queue, in order. *)
Definition handle_subscribe (h : Host) (features : gset Z) (capabilities : gset Requests.CapabilityId)
    (raws : list Z) (request : SubscribeRequest) (s : ConnectionSubscriptions)
  : option (ConnectionSubscriptions * list Frame) :=
  let topic := default TUnspecified (topic_try_from (sq_topic request)) in
  match refusal h features capabilities topic with
  | Some (code, message) =>
    Some (s, [subscription_result (sq_request_id request) 0 topic 0 (Negotiation.status "" code message)])
  | None =>
    id ← draw_id s raws;
    let result := subscription_result (sq_request_id request) id topic 1 Negotiation.ok_status in
    match initial_frame h topic id with
    | Some frame => Some (store_subscription topic id 1 s, [result; frame])
    | None => Some (store_subscription topic id 0 s, [result])
    end
  end.

(** ** Unsubscribing *)

(** A slot is emptied when it holds the id. *)
Definition drop_state (id : Z) (o : option StateSubscription) : option StateSubscription :=
  match o with Some sub => if ss_id sub =? id then None else o | None => None end.
Definition drop_passive (id : Z) (o : option PassiveSubscription) : option PassiveSubscription :=
  match o with Some sub => if ps_id sub =? id then None else o | None => None end.
Definition drop_event (id : Z) (o : option EventSubscription) : option EventSubscription :=
  match o with Some sub => if es_id sub =? id then None else o | None => None end.

(** The topic reported: the last slot that held the id. *)
Definition topic_slots (s : ConnectionSubscriptions) : list (SubscriptionTopic * option Z) :=
  zip [TSystem; TMedia; TWindows; TClipboard; TActions; TActionOutput; TNotifications; TClipboardSync]
    (active_subscription_ids s).
Definition topic_of (id : Z) (s : ConnectionSubscriptions) : option SubscriptionTopic :=
  fold_left (fun found '(topic, slot) => if bool_decide (slot = Some id) then Some topic else found)
    (topic_slots s) None.

Definition handle_unsubscribe (request : UnsubscribeRequest) (s : ConnectionSubscriptions)
  : ConnectionSubscriptions * Frame :=
  let id := uq_subscription_id request in
  if id =? 0 then
    (s, subscription_result (uq_request_id request) 0 TUnspecified 0
          (Negotiation.status "" ECInvalidArgument "subscription id must be non-zero"))
  else
    ({| system_sub := drop_state id (system_sub s); media_sub := drop_state id (media_sub s);
        window_sub := drop_state id (window_sub s); clipboard_sub := drop_state id (clipboard_sub s);
        action_catalog_sub := drop_passive id (action_catalog_sub s);
        action_output_sub := drop_event id (action_output_sub s);
        notification_sub := drop_event id (notification_sub s);
        clipboard_sync_sub := drop_event id (clipboard_sync_sub s) |},
     subscription_result (uq_request_id request) id (default TUnspecified (topic_of id s)) 0
       (if bool_decide (topic_of id s = None)
        then Negotiation.status "" ECNotFound "subscription was not found" else Negotiation.ok_status)).
End subscribe.


(** ** The record of lost output *)

Fixpoint total_len (l : list string) : Z :=
  match l with [] => 0 | s :: l => slen s + total_len l end.
Lemma total_len_perm l l' : l ≡ₚ l' -> total_len l = total_len l'.
Proof. induction 1; simpl; lia. Qed.

(** The record is bounded, its byte count exact, and it is empty when nothing is missing. *)
Record gap_wf (g : ActionGap) : Prop := {
  gw_bytes : resource_bytes g = total_len (elements (resource_ids g));
  gw_ids : Z.of_nat (size (resource_ids g)) <= MAX_ACTION_GAP_RESOURCE_IDS;
  gw_limit : resource_bytes g <= MAX_ACTION_GAP_RESOURCE_BYTES;
  gw_none : first_missing_sequence g = None -> resource_ids g = ∅ /\ resync_all g = false;
}.
(** [g'] still asks for everything [g] asked for. *)
Record gap_le (g g' : ActionGap) : Prop := {
  gl_first : forall f, first_missing_sequence g = Some f -> first_missing_sequence g' = Some f;
  gl_all : resync_all g = true -> resync_all g' = true;
  gl_ids : forall r, r ∈ resource_ids g -> resync_all g' = true \/ r ∈ resource_ids g';
}.
#[global] Instance gap_le_preorder : PreOrder gap_le.
Proof.
  split.
  - intros g. split; auto.
  - intros g1 g2 g3 [F1 A1 I1] [F2 A2 I2]. split; [auto|auto|].
    intros r [?|?]%I1; [left; auto|auto].
Qed.

Lemma total_len_nonneg l : 0 <= total_len l.
Proof. induction l as [|s l IH]; simpl; [lia|]. pose proof (slen_nonneg s). lia. Qed.

Lemma default_gap_wf : gap_wf default_gap.
Proof. by split. Qed.

Lemma remember_sequence_le s g : gap_le g (remember_sequence s g).
Proof. split; simpl; auto. by intros f ->. Qed.
Lemma remember_sequence_wf s g : gap_wf g -> gap_wf (remember_sequence s g).
Proof. intros [W1 W2 W3 W4]. by split. Qed.
Lemma remember_sequence_first s g :
  first_missing_sequence (remember_sequence s g) = Some (default s (first_missing_sequence g)).
Proof. done. Qed.

Lemma remember_resource_spec s r g :
  gap_wf g ->
  gap_wf (remember_resource s r g) /\ gap_le g (remember_resource s r g)
  /\ first_missing_sequence (remember_resource s r g) = Some (default s (first_missing_sequence g))
  /\ (resync_all (remember_resource s r g) = true \/ r ∈ resource_ids (remember_resource s r g)).
Proof.
  intros Hwf. unfold remember_resource. pose proof (remember_sequence_wf s g Hwf) as Hwf1.
  pose proof (remember_sequence_le s g) as Hle. set (g1 := remember_sequence s g) in *.
  assert (first_missing_sequence g1 = Some (default s (first_missing_sequence g))) as Hf by done.
  destruct (resync_all g1 || _) eqn:E1.
  { split; [done|]. split; [done|]. split; [done|].
    apply orb_true_iff in E1 as [?|E1]; [by left|]. right. by bool_arith. }
  apply orb_false_iff in E1 as [Er E1]. bool_arith.
  destruct (_ || _) eqn:E2.
  - split; [by split|].
    split; [|split; [done|by left]]. split; [apply Hle|done|by left].
  - apply orb_false_iff in E2 as [E2 Eb]. apply orb_false_iff in E2 as [Ee Es].
    destruct Hwf1 as [W1 W2 W3 W4]. bool_arith.
    pose proof (total_len_nonneg (elements (resource_ids g1))). pose proof (slen_nonneg r).
    assert (sat_add usize_max (resource_bytes g1) (slen r) = resource_bytes g1 + slen r) as Hsat.
    { unfold sat_add in *. unfold MAX_ACTION_GAP_RESOURCE_BYTES, usize_max in *. lia. }
    split; [split; cbn [resource_bytes resource_ids first_missing_sequence resync_all]|].
    + rewrite Hsat, W1. rewrite (total_len_perm _ _ (elements_union_singleton _ _ E1)). cbn [total_len]. lia.
    + rewrite size_union by set_solver. rewrite size_singleton. lia.
    + lia.
    + by rewrite Hf.
    + split; [split; cbn [resource_bytes resource_ids first_missing_sequence resync_all]; [apply Hle|apply Hle|]|split; [done|]].
      * intros x Hx. right. set_solver.
      * right. cbn [resource_ids]. set_solver.
Qed.

Lemma remember_resources_spec s l g f :
  gap_wf g -> first_missing_sequence g = Some f ->
  let g' := fold_left (fun g id => remember_resource s id g) l g in
  gap_wf g' /\ gap_le g g' /\ forall r, r ∈ l -> resync_all g' = true \/ r ∈ resource_ids g'.
Proof.
  revert g. induction l as [|x l IH]; intros g Hwf Hf; cbn [fold_left].
  { split; [done|]. split; [done|]. intros r Hr. by apply elem_of_nil in Hr. }
  destruct (remember_resource_spec s x g Hwf) as (Hwf1 & Hle1 & Hf1 & Hx).
  destruct (IH _ Hwf1 (gl_first _ _ Hle1 f Hf)) as (Hwf2 & Hle2 & Hl). cbn zeta in *.
  split; [done|]. split; [by etrans|]. intros r [->|Hr]%elem_of_cons; [|by apply Hl].
  destruct Hx as [Hx|Hx]; [left; by apply Hle2|by apply Hle2].
Qed.

(** A gap event that is dropped is asked for again in full. *)
Lemma remember_gap_spec gap g :
  gap_wf g -> first_missing_sequence g = None ->
  gap_wf (remember_gap gap g)
  /\ first_missing_sequence (remember_gap gap g) = Some (eg_first_missing_sequence gap)
  /\ (eg_resource_ids gap = [] -> resync_all (remember_gap gap g) = true)
  /\ (forall r, r ∈ eg_resource_ids gap ->
        resync_all (remember_gap gap g) = true \/ r ∈ resource_ids (remember_gap gap g)).
Proof.
  intros Hwf Hf. unfold remember_gap. pose proof (remember_sequence_wf (eg_first_missing_sequence gap) g Hwf) as Hwf1.
  assert (first_missing_sequence (remember_sequence (eg_first_missing_sequence gap) g)
    = Some (eg_first_missing_sequence gap)) as Hf1 by (simpl; by rewrite Hf).
  set (g1 := remember_sequence (eg_first_missing_sequence gap) g) in *.
  destruct (eg_resource_ids gap) as [|x l] eqn:El; cbn [is_empty].
  - split; [split; simpl; try done; by rewrite Hf1|].
    split; [done|]. split; [done|by left].
  - destruct (remember_resources_spec (eg_first_missing_sequence gap) (x :: l) g1 _ Hwf1 Hf1)
      as (Hwf2 & Hle & Hr). split; [done|]. split; [by apply Hle|]. split; [done|exact Hr].
Qed.

(** Taking the ids: all of them, or none when everything must be refreshed. *)
Lemma take_resource_ids_spec g :
  gap_wf g ->
  gap_wf (take_resource_ids (take_first g)).1
  /\ first_missing_sequence (take_resource_ids (take_first g)).1 = None
  /\ (resync_all g = true -> (take_resource_ids (take_first g)).2 = [])
  /\ (forall r, r ∈ resource_ids g -> resync_all g = true
        \/ r ∈ (take_resource_ids (take_first g)).2)
  /\ Z.of_nat (length (take_resource_ids (take_first g)).2) <= MAX_ACTION_GAP_RESOURCE_IDS
  /\ total_len (take_resource_ids (take_first g)).2 <= MAX_ACTION_GAP_RESOURCE_BYTES.
Proof.
  intros [W1 W2 W3 W4]. unfold take_resource_ids. cbn [fst snd take_first resync_all resource_ids].
  split; [by split|]. split; [done|]. split; [by intros ->|]. split.
  { intros r Hr. destruct (resync_all g); [by left|]. right. rewrite sort_by_perm. by apply elem_of_elements. }
  rewrite (total_len_perm _ _ (sort_by_perm _ _)), (Permutation_length (sort_by_perm _ _)).
  destruct (resync_all g); simpl; [unfold MAX_ACTION_GAP_RESOURCE_IDS, MAX_ACTION_GAP_RESOURCE_BYTES; lia|].
  rewrite <- W1. split; [exact W2|lia].
Qed.


(** ** Delivery of action output *)

Section delivery.
Context {X : Type} `{!WireLimits} `{!EncodedLen (ServerControlFrame X)}.
Notation Frame := (ServerControlFrame X).

(** The subscription with its event queue, the frames that have left it or went by the critical
    queue, and, for the statements only, every line received, the lines issued a sequence number with
    it, and the sequences at which the receiver lagged. *)
Record Delivery := {
  dl_sub : EventSubscription;
  dl_queue : list Frame;
  dl_out : list Frame;
  dl_received : list OutputLine;
  dl_issued : list (Z * OutputLine);
  dl_lags : list Z;
}.
Definition accepted (d : Delivery) : list Frame := dl_out d ++ dl_queue d.

Definition start (id : Z) (queue out : list Frame) : Delivery :=
  {| dl_sub := {| es_id := id; es_sequence := 0; es_action_gap := default_gap |};
     dl_queue := queue; dl_out := out; dl_received := []; dl_issued := []; dl_lags := [] |}.

(** The steps of the connection that concern the subscription, while the writer lives and fewer
    than [2^64 - 2] events have been issued. *)
Inductive deliver : Delivery -> Delivery -> Prop :=
| deliver_line d now line sub queue :
    es_sequence (dl_sub d) < u64_max - 1 ->
    Requests.identifier (ol_action_id line) ->
    push_action_output_event now line (dl_sub d) (Some (dl_queue d)) = (sub, Some queue) ->
    deliver d {| dl_sub := sub; dl_queue := queue; dl_out := dl_out d;
                 dl_received := dl_received d ++ [line];
                 dl_issued := dl_issued d ++ [(es_sequence (dl_sub d) + 1, line)];
                 dl_lags := dl_lags d |}
| deliver_invalid d now line sub queue :
    ~ Requests.identifier (ol_action_id line) ->
    push_action_output_event now line (dl_sub d) (Some (dl_queue d)) = (sub, queue) ->
    deliver d {| dl_sub := sub; dl_queue := default [] queue; dl_out := dl_out d;
                 dl_received := dl_received d ++ [line]; dl_issued := dl_issued d; dl_lags := dl_lags d |}
| deliver_lag d count :
    es_sequence (dl_sub d) < u64_max - 1 ->
    deliver d {| dl_sub := (recv_action_output (Lagged count) (dl_sub d)).1; dl_queue := dl_queue d;
                 dl_out := dl_out d; dl_received := dl_received d; dl_issued := dl_issued d;
                 dl_lags := dl_lags d ++ [es_sequence (dl_sub d) + 1] |}
| deliver_heartbeat d now sub frame :
    es_sequence (dl_sub d) < u64_max - 1 ->
    flush_action_gap now (dl_sub d) = (sub, frame) ->
    deliver d {| dl_sub := sub; dl_queue := dl_queue d; dl_out := dl_out d ++ option_list frame;
                 dl_received := dl_received d; dl_issued := dl_issued d; dl_lags := dl_lags d |}
| deliver_write d frame rest :
    dl_queue d = frame :: rest ->
    deliver d {| dl_sub := dl_sub d; dl_queue := rest; dl_out := dl_out d ++ [frame];
                 dl_received := dl_received d; dl_issued := dl_issued d; dl_lags := dl_lags d |}
| deliver_other d frame queue :
    try_send STATE_CONTROL_QUEUE_CAPACITY frame (Some (dl_queue d)) = Sent queue ->
    deliver d {| dl_sub := dl_sub d; dl_queue := queue; dl_out := dl_out d;
                 dl_received := dl_received d; dl_issued := dl_issued d; dl_lags := dl_lags d |}.

(** An accepted event of the subscription, its output line, or a gap over a sequence. *)
Definition seen (id : Z) (fs : list Frame) (P : Z -> Data -> Prop) : Prop :=
  exists e data, server_frame (BEvent e) ∈ fs /\ ev_subscription_id e = id /\ ev_data e = Some data
    /\ P (ev_sequence e) data.
Definition seen_output (id : Z) (fs : list Frame) (s : Z) (line : OutputLine) : Prop :=
  seen id fs (fun q data => q = s /\ data = DActionOutput (ol_action_id line)
    [Text.truncate_utf8 (ol_text line) (Z.to_nat Text.MAX_ACTION_OUTPUT_LINE_BYTES)]).
Definition seen_gap (id : Z) (fs : list Frame) (s : Z) (P : list string -> Prop) : Prop :=
  seen id fs (fun _ data => exists gap, data = DGap gap
    /\ eg_first_missing_sequence gap <= s < eg_next_available_sequence gap /\ P (eg_resource_ids gap)).
(** The record still asks for a sequence, and for a resource or for everything. *)
Definition asks (g : ActionGap) (s : Z) (P : Prop) : Prop :=
  exists f, first_missing_sequence g = Some f /\ f <= s /\ P.

Record delivery_inv (d : Delivery) : Prop := {
  di_gap : gap_wf (es_action_gap (dl_sub d));
  di_sequence : 0 <= es_sequence (dl_sub d) < u64_max;
  di_first : forall f, first_missing_sequence (es_action_gap (dl_sub d)) = Some f ->
    1 <= f <= es_sequence (dl_sub d) + 1;
  di_issued : forall s r, (s, r) ∈ dl_issued d -> 1 <= s <= es_sequence (dl_sub d)
    /\ (seen_output (es_id (dl_sub d)) (accepted d) s r
        \/ seen_gap (es_id (dl_sub d)) (accepted d) s (fun ids => ids = [] \/ ol_action_id r ∈ ids)
        \/ asks (es_action_gap (dl_sub d)) s (resync_all (es_action_gap (dl_sub d)) = true
             \/ ol_action_id r ∈ resource_ids (es_action_gap (dl_sub d))));
  di_lags : forall s, s ∈ dl_lags d -> 1 <= s <= es_sequence (dl_sub d) + 1
    /\ (seen_gap (es_id (dl_sub d)) (accepted d) s (fun ids => ids = [])
        \/ asks (es_action_gap (dl_sub d)) s (resync_all (es_action_gap (dl_sub d)) = true));
  di_covered : forall s, 1 <= s <= es_sequence (dl_sub d) ->
    seen (es_id (dl_sub d)) (accepted d) (fun q _ => q = s)
    \/ seen_gap (es_id (dl_sub d)) (accepted d) s (fun _ => True)
    \/ asks (es_action_gap (dl_sub d)) s True;
}.

Lemma seen_mono id fs fs' P : fs ⊆ fs' -> seen id fs P -> seen id fs' P.
Proof. intros Hs (e & data & Hin & ?). exists e, data. split; [by apply Hs|done]. Qed.

(** A step after which the record asks for at least as much, and that accounts for what is new. *)
Lemma delivery_inv_step d d' :
  delivery_inv d -> es_id (dl_sub d') = es_id (dl_sub d) ->
  es_sequence (dl_sub d) <= es_sequence (dl_sub d') < u64_max -> accepted d ⊆ accepted d' ->
  gap_wf (es_action_gap (dl_sub d')) -> gap_le (es_action_gap (dl_sub d)) (es_action_gap (dl_sub d')) ->
  (forall f, first_missing_sequence (es_action_gap (dl_sub d')) = Some f ->
     1 <= f <= es_sequence (dl_sub d') + 1) ->
  (forall s r, (s, r) ∈ dl_issued d' -> (s, r) ∈ dl_issued d \/
     1 <= s <= es_sequence (dl_sub d')
     /\ (seen_output (es_id (dl_sub d)) (accepted d') s r
         \/ asks (es_action_gap (dl_sub d')) s (resync_all (es_action_gap (dl_sub d')) = true
              \/ ol_action_id r ∈ resource_ids (es_action_gap (dl_sub d'))))) ->
  (forall s, s ∈ dl_lags d' -> s ∈ dl_lags d \/
     1 <= s <= es_sequence (dl_sub d') + 1
     /\ asks (es_action_gap (dl_sub d')) s (resync_all (es_action_gap (dl_sub d')) = true)) ->
  (forall s, es_sequence (dl_sub d) < s <= es_sequence (dl_sub d') ->
     seen (es_id (dl_sub d)) (accepted d') (fun q _ => q = s)
     \/ asks (es_action_gap (dl_sub d')) s True) ->
  delivery_inv d'.
Proof.
  intros [I1 I2 I3 I4 I5 I6] Eid Hseq Hacc Hwf Hle Hf Hiss Hlag Hcov.
  split; rewrite ?Eid in *; [done|lia|done| | |].
  - intros s r [Hin|[Hs [Ho|Ha]]]%Hiss; [|by auto|by auto].
    destruct (I4 s r Hin) as [Hs [Ho|[Hg|(f & Hff & Hfs & Hr)]]]; (split; [lia|]).
    + left. by eapply seen_mono.
    + right. left. by eapply seen_mono.
    + right. right. exists f. split; [by apply Hle|]. split; [done|].
      destruct Hr as [Hr|Hr]; [left; by apply Hle|by apply Hle].
  - intros s [Hin|[Hs Ha]]%Hlag; [|by auto].
    destruct (I5 s Hin) as [Hs [Hg|(f & Hff & Hfs & Hr)]]; (split; [lia|]).
    + left. by eapply seen_mono.
    + right. exists f. split; [by apply Hle|]. split; [done|]. by apply Hle.
  - intros s Hs. destruct (decide (s <= es_sequence (dl_sub d))) as [Hold|Hnew].
    + destruct (I6 s) as [Ho|[Hg|(f & Hff & Hfs & _)]]; [lia|..].
      * left. by eapply seen_mono.
      * right. left. by eapply seen_mono.
      * right. right. exists f. split; [by apply Hle|]. done.
    + destruct (Hcov s) as [Ho|Ha]; [lia|by left|by auto].
Qed.

(** A step in which a gap event takes over everything the record asked for. *)
Lemma delivery_inv_flush d d' f gap :
  delivery_inv d -> first_missing_sequence (es_action_gap (dl_sub d)) = Some f ->
  es_id (dl_sub d') = es_id (dl_sub d) ->
  es_sequence (dl_sub d') = es_sequence (dl_sub d) + 1 -> es_sequence (dl_sub d') < u64_max ->
  gap_wf (es_action_gap (dl_sub d')) -> first_missing_sequence (es_action_gap (dl_sub d')) = None ->
  accepted d ⊆ accepted d' ->
  seen (es_id (dl_sub d)) (accepted d') (fun q data => q = es_sequence (dl_sub d') /\ data = DGap gap) ->
  eg_first_missing_sequence gap = f -> eg_next_available_sequence gap = es_sequence (dl_sub d') + 1 ->
  (resync_all (es_action_gap (dl_sub d)) = true -> eg_resource_ids gap = []) ->
  (forall r, r ∈ resource_ids (es_action_gap (dl_sub d)) ->
     eg_resource_ids gap = [] \/ r ∈ eg_resource_ids gap) ->
  dl_lags d' = dl_lags d ->
  (forall s r, (s, r) ∈ dl_issued d' -> (s, r) ∈ dl_issued d
     \/ s = es_sequence (dl_sub d') /\ (eg_resource_ids gap = [] \/ ol_action_id r ∈ eg_resource_ids gap)) ->
  delivery_inv d'.
Proof.
  intros [I1 I2 I3 I4 I5 I6] Hf Eid Eseq Hmax Hwf Hnone Hacc Hseen Gf Gn Hall Hids Elag Hiss.
  specialize (I3 f Hf).
  assert (forall s (P : list string -> Prop), f <= s <= es_sequence (dl_sub d') -> P (eg_resource_ids gap) ->
    seen_gap (es_id (dl_sub d)) (accepted d') s P) as Hgap.
  { intros s P Hs HP. destruct Hseen as (e & data & Hin & Hid & Hd & Hq & ->).
    exists e, (DGap gap). split_and!; try done. exists gap. split; [done|]. split; [lia|done]. }
  split; rewrite ?Eid; [done|lia|by rewrite Hnone| | |].
  - intros s r [Hin|[-> Hr]]%Hiss.
    + destruct (I4 s r Hin) as [Hs [Ho|[Hg|(f' & Hff & Hfs & Hr)]]]; (split; [lia|]).
      * left. by eapply seen_mono.
      * right. left. by eapply seen_mono.
      * right. left. assert (f' = f) as -> by congruence. apply Hgap; [lia|].
        destruct Hr as [Hr|Hr]; [left; by apply Hall|by apply Hids].
    + split; [lia|]. right. left. apply Hgap; [lia|done].
  - rewrite Elag. intros s Hin. destruct (I5 s Hin) as [Hs [Hg|(f' & Hff & Hfs & Hr)]]; (split; [lia|]); left.
    + by eapply seen_mono.
    + assert (f' = f) as -> by congruence. apply Hgap; [lia|by apply Hall].
  - intros s Hs. destruct (decide (f <= s)) as [Hfs|Hfs]; [right; left; apply Hgap; [lia|done]|].
    destruct (I6 s) as [Ho|[Hg|(f' & Hff & Hfs' & _)]]; [lia|..].
    + left. by eapply seen_mono.
    + right. left. by eapply seen_mono.
    + assert (f' = f) as -> by congruence. lia.
Qed.

Lemma grown {A} (a b c : list A) : a ++ b ⊆ a ++ (b ++ c).
Proof. intros x. rewrite !elem_of_app. tauto. Qed.
Lemma grown_last {A} (a b : list A) x : x ∈ a ++ (b ++ [x]).
Proof. rewrite !elem_of_app, list_elem_of_singleton. auto. Qed.

(** The event channel either takes a frame or hands it to the record. *)
Lemma queue_event_cases frame queue g queue' g' :
  queue_event frame (Some queue) g = (queue', g') ->
  (queue' = Some (queue ++ [frame]) /\ g' = g)
  \/ (queue' = Some queue /\ g' = remember_action_gap frame g).
Proof.
  unfold queue_event, try_send. destruct (_ >? _); [intros [= <- <-]; by right|].
  destruct (Nat.leb _ _); intros [= <- <-]; [by right|by left].
Qed.

Lemma seen_event id now s data fs :
  (event_frame now id s now data : Frame) ∈ fs ->
  forall P : Z -> Data -> Prop, P s data -> seen id fs P.
Proof. intros Hin P HP. unfold event_frame in Hin. eexists _, data. split; [exact Hin|]. done. Qed.

(** A line while a gap is recorded: the gap is announced, or stays recorded with the line in it. *)
Lemma deliver_line_gap d now f line sub queue :
  delivery_inv d -> es_sequence (dl_sub d) < u64_max - 1 ->
  first_missing_sequence (es_action_gap (dl_sub d)) = Some f ->
  Requests.valid_control_identifier (ol_action_id line) = true ->
  push_action_output_event now line (dl_sub d) (Some (dl_queue d)) = (sub, Some queue) ->
  delivery_inv {| dl_sub := sub; dl_queue := queue; dl_out := dl_out d; dl_received := dl_received d ++ [line];
                  dl_issued := dl_issued d ++ [(es_sequence (dl_sub d) + 1, line)];
                  dl_lags := dl_lags d |}.
Proof.
  intros Hinv Hmax Hf Hid. unfold push_action_output_event. rewrite Hid. cbn [negb]. cbv zeta. unfold event_next.
  pose proof (di_gap _ Hinv) as Hwf. pose proof (di_sequence _ Hinv) as Hseq.
  pose proof (di_first _ Hinv) as Hfirst.
  destruct d as [[id sequence g] q out received issued lags]. cbn [dl_sub dl_queue dl_out dl_received dl_issued dl_lags] in *.
  cbn [event_next es_id es_sequence es_action_gap] in *.
  assert (sat_add u64_max sequence 1 = sequence + 1) as -> by (unfold sat_add; lia).
  set (r := ol_action_id line) in *. set (s := sequence + 1) in *.
  destruct (remember_resource_spec s r g Hwf) as (Hwf1 & Hle1 & Hf1 & Hr1).
  rewrite Hf. specialize (Hfirst f Hf). set (g1 := remember_resource s r g) in *.
  destruct (take_resource_ids_spec g1 Hwf1) as (Hwf2 & Hn2 & Hall & Hids & _).
  destruct (take_resource_ids (take_first g1)) as [g2 ids] eqn:Et. cbn [fst snd] in *.
  set (gap := {| eg_first_missing_sequence := f |}).
  cbn [set_gap es_action_gap es_id es_sequence].
  destruct (queue_event _ _ g2) as [queue' g3] eqn:Eq. intros [= <- ->].
  assert (forall x, x ∈ resource_ids g1 -> ids = [] \/ x ∈ ids) as Hids'.
  { intros x [Hx|Hx]%Hids; [left; by apply Hall|by right]. }
  assert (ids = [] \/ r ∈ ids) as Hr.
  { destruct Hr1 as [Hr1|Hr1]; [left; by apply Hall|by apply Hids']. }
  apply queue_event_cases in Eq as [[[= ->] ->]|[[= ->] ->]].
  + eapply (delivery_inv_flush _ _ f gap Hinv); cbn; try done; try lia.
    * apply grown.
    * apply (seen_event id now s (DGap gap)); [|done]. apply grown_last.
    * unfold sat_add. lia.
    * intros Ha. apply Hall. by apply Hle1.
    * intros x Hx. apply (gl_ids _ _ Hle1) in Hx as [Hx|Hx]; [left; by apply Hall|by apply Hids'].
    * intros s' r' [?|[= -> ->]%list_elem_of_singleton]%elem_of_app; auto.
  + cbn [remember_action_gap event_frame server_frame sc_body ev_data].
    destruct (remember_gap_spec gap g2 Hwf2 Hn2) as (Hwf3 & Hf3 & Ha3 & Hr3).
    set (g3 := remember_gap gap g2) in *. cbn [gap eg_first_missing_sequence eg_resource_ids] in Hf3, Ha3, Hr3.
    assert (forall x, (ids = [] \/ x ∈ ids) -> resync_all g3 = true \/ x ∈ resource_ids g3) as Hback.
    { intros x [Hx|Hx]; [left; by apply Ha3|by apply Hr3]. }
    assert (gap_le g g3) as Hle3.
    { split; [by rewrite Hf; intros ? [= <-]|intros Ha; apply Ha3, Hall; by apply Hle1|].
      intros x Hx. apply Hback. apply (gl_ids _ _ Hle1) in Hx as [Hx|Hx]; [left; by apply Hall|by apply Hids']. }
    apply (delivery_inv_step _ _ Hinv); cbn; try done; try lia.
    * rewrite Hf3. intros f' [= <-]. lia.
    * intros s' r' [?|[= -> ->]%list_elem_of_singleton]%elem_of_app; [by left|]. right. split; [lia|].
      right. exists f. split; [done|]. split; [lia|by apply Hback].
    * intros s' Hin. by left.
    * intros s' Hs'. right. exists f. split; [done|]. split; [lia|done].
Qed.

(** A line while nothing is missing: it is queued, or it opens a gap. *)
Lemma deliver_line_fresh d now line sub queue :
  delivery_inv d -> es_sequence (dl_sub d) < u64_max - 1 ->
  first_missing_sequence (es_action_gap (dl_sub d)) = None ->
  Requests.valid_control_identifier (ol_action_id line) = true ->
  push_action_output_event now line (dl_sub d) (Some (dl_queue d)) = (sub, Some queue) ->
  delivery_inv {| dl_sub := sub; dl_queue := queue; dl_out := dl_out d; dl_received := dl_received d ++ [line];
                  dl_issued := dl_issued d ++ [(es_sequence (dl_sub d) + 1, line)];
                  dl_lags := dl_lags d |}.
Proof.
  intros Hinv Hmax Hf Hid. unfold push_action_output_event. rewrite Hid. cbn [negb]. cbv zeta. unfold event_next.
  pose proof (di_gap _ Hinv) as Hwf. pose proof (di_sequence _ Hinv) as Hseq.
  destruct d as [[id sequence g] q out received issued lags]. cbn [dl_sub dl_queue dl_out dl_received dl_issued dl_lags] in *.
  cbn [event_next es_id es_sequence es_action_gap] in *.
  assert (sat_add u64_max sequence 1 = sequence + 1) as -> by (unfold sat_add; lia).
  set (r := ol_action_id line) in *. set (s := sequence + 1) in *.
  destruct (remember_resource_spec s r g Hwf) as (Hwf1 & Hle1 & Hf1 & Hr1).
  rewrite Hf in Hf1 |- *. cbn [set_gap es_action_gap es_id es_sequence].
  destruct (queue_event _ _ g) as [queue' g3] eqn:Eq. intros [= <- ->].
  apply queue_event_cases in Eq as [[[= ->] ->]|[[= ->] ->]].
  + apply (delivery_inv_step _ _ Hinv); cbn; try done; try lia.
    * apply grown.
    * by rewrite Hf.
    * intros s' r' [?|[= -> ->]%list_elem_of_singleton]%elem_of_app; [by left|]. right. split; [lia|]. left.
      eapply (seen_event id now s); [apply grown_last|by eauto].
    * intros s' Hin. by left.
    * intros s' Hs'. left. eapply (seen_event id now s); [apply grown_last|lia].
  + cbn [remember_action_gap event_frame server_frame sc_body ev_data ev_sequence].
    set (g3 := remember_resource s r g) in *. simpl in Hf1.
    apply (delivery_inv_step _ _ Hinv); cbn; try done; try lia.
    * rewrite Hf1. intros f' [= <-]. lia.
    * intros s' r' [?|[= -> ->]%list_elem_of_singleton]%elem_of_app; [by left|]. right. split; [lia|].
      right. exists s. split; [done|]. split; [lia|done].
    * intros s' Hin. by left.
    * intros s' Hs'. right. exists s. split; [done|]. split; [lia|done].
Qed.

Lemma deliver_line_inv d now line sub queue :
  delivery_inv d -> es_sequence (dl_sub d) < u64_max - 1 ->
  Requests.valid_control_identifier (ol_action_id line) = true ->
  push_action_output_event now line (dl_sub d) (Some (dl_queue d)) = (sub, Some queue) ->
  delivery_inv {| dl_sub := sub; dl_queue := queue; dl_out := dl_out d; dl_received := dl_received d ++ [line];
                  dl_issued := dl_issued d ++ [(es_sequence (dl_sub d) + 1, line)];
                  dl_lags := dl_lags d |}.
Proof.
  intros. destruct (first_missing_sequence (es_action_gap (dl_sub d))) as [f|] eqn:Hf.
  - by eapply deliver_line_gap.
  - by eapply deliver_line_fresh.
Qed.

Lemma deliver_heartbeat_inv d now sub frame :
  delivery_inv d -> es_sequence (dl_sub d) < u64_max - 1 ->
  flush_action_gap now (dl_sub d) = (sub, frame) ->
  delivery_inv {| dl_sub := sub; dl_queue := dl_queue d; dl_out := dl_out d ++ option_list frame;
                  dl_received := dl_received d; dl_issued := dl_issued d; dl_lags := dl_lags d |}.
Proof.
  intros Hinv Hmax. unfold flush_action_gap.
  pose proof (di_gap _ Hinv) as Hwf. pose proof (di_sequence _ Hinv) as Hseq.
  destruct d as [[id sequence g] q out received issued lags]. cbn [dl_sub dl_queue dl_out dl_received dl_issued dl_lags] in *.
  cbv zeta. unfold event_next. cbn [set_gap es_id es_sequence es_action_gap] in *.
  assert (sat_add u64_max sequence 1 = sequence + 1) as -> by (unfold sat_add; lia).
  destruct (first_missing_sequence g) as [f|] eqn:Hf.
  - destruct (take_resource_ids_spec g Hwf) as (Hwf2 & Hn2 & Hall & Hids & _).
    destruct (take_resource_ids (take_first g)) as [g2 ids] eqn:Et. cbn [fst snd] in *.
    set (gap := {| eg_first_missing_sequence := f |}). intros [= <- <-].
    assert (out ++ q ⊆ (out ++ [event_frame now id (sequence + 1) now (DGap gap)]) ++ q) as Hacc.
    { intros x. rewrite !elem_of_app. tauto. }
    eapply (delivery_inv_flush _ _ f gap Hinv); cbn; try done; try lia.
    + apply (seen_event id now (sequence + 1) (DGap gap)); [|done].
      unfold accepted. cbn [dl_out dl_queue]. apply elem_of_app. left. apply elem_of_app. right.
      apply list_elem_of_singleton. reflexivity.
    + unfold sat_add. lia.
    + intros x [Hx|Hx]%Hids; [left; by apply Hall|by right].
    + intros s r Hin. by left.
  - intros [= <- <-]. cbn [option_list]. by rewrite app_nil_r.
Qed.

Lemma deliver_inv d d' : deliver d d' -> delivery_inv d -> delivery_inv d'.
Proof.
  intros Hs Hinv. pose proof (di_gap _ Hinv) as Hwf. pose proof (di_sequence _ Hinv) as Hseq.
  pose proof (di_first _ Hinv) as Hfirst.
  destruct Hs as [d now line sub queue Hmax Hid E|d now line sub queue Hid E|d count Hmax|d now sub frame Hmax E|
    d frame rest E|d frame queue E].
  - apply Requests.identifier_spec in Hid. by eapply deliver_line_inv.
  - rewrite <- Requests.identifier_spec, not_true_iff_false in Hid.
    unfold push_action_output_event in E. rewrite Hid in E. injection E as <- <-.
    by apply (delivery_inv_step _ _ Hinv); cbn; try done; try lia; try by left.
  - destruct d as [[id sequence g] q out received issued lags].
    cbn [dl_sub dl_queue dl_out dl_received dl_issued dl_lags es_sequence es_id es_action_gap] in *.
    unfold recv_action_output. cbn [fst set_gap es_sequence es_id es_action_gap].
    assert (sat_add u64_max sequence 1 = sequence + 1) as -> by (unfold sat_add; lia).
    set (g1 := set_resync_all (remember_sequence (sequence + 1) g)).
    assert (first_missing_sequence g1 = Some (default (sequence + 1) (first_missing_sequence g))) as Hf by done.
    assert (1 <= default (sequence + 1) (first_missing_sequence g) <= sequence + 1) as Hd.
    { destruct (first_missing_sequence g) as [f|]; [by apply Hfirst|simpl; lia]. }
    apply (delivery_inv_step _ _ Hinv); cbn; try done; try lia.
    + destruct (remember_sequence_wf (sequence + 1) g Hwf) as [W1 W2 W3 W4]. by split.
    + destruct (remember_sequence_le (sequence + 1) g) as [L1 L2 L3]. split; [done|done|by left].
    + intros f [= <-]. exact Hd.
    + intros s r Hin. by left.
    + intros s [?| ->%list_elem_of_singleton]%elem_of_app; [by left|]. right. split; [lia|].
      exists (default (sequence + 1) (first_missing_sequence g)). split; [done|]. split; [lia|done].
  - by eapply deliver_heartbeat_inv.
  - apply (delivery_inv_step _ _ Hinv); cbn; try done; try lia; try by left.
    unfold accepted. cbn [dl_out dl_queue]. rewrite E. intros x. rewrite <- app_assoc. done.
  - unfold try_send in E. destruct (Nat.leb _ _); [done|]. injection E as <-.
    apply (delivery_inv_step _ _ Hinv); cbn; try done; try lia; try by left.
    apply grown.
Qed.

Lemma push_action_output_id now line sub queue :
  es_id (push_action_output_event (X := X) now line sub queue).1 = es_id sub.
Proof.
  unfold push_action_output_event. destruct (negb _); [done|]. cbv zeta.
  destruct (first_missing_sequence _); [destruct (take_resource_ids _)|];
    by destruct (queue_event _ _ _).
Qed.
Lemma deliver_id d d' : deliver d d' -> es_id (dl_sub d') = es_id (dl_sub d).
Proof.
  intros []; cbn [dl_sub]; try done.
  - match goal with E : push_action_output_event _ _ _ _ = _ |- _ => apply (f_equal fst) in E; cbn in E; subst end.
    apply push_action_output_id.
  - match goal with E : push_action_output_event _ _ _ _ = _ |- _ => apply (f_equal fst) in E; cbn in E; subst end.
    apply push_action_output_id.
  - match goal with E : flush_action_gap _ _ = _ |- _ => revert E end. unfold flush_action_gap.
    destruct (first_missing_sequence _); [|by intros [= <- _]]. cbv zeta.
    destruct (take_resource_ids _). by intros [= <- _].
Qed.

(** The lines with an identifier are issued numbers, in the order in which they were received. *)
#[local] Instance identifier_dec (s : string) : Decision (Requests.identifier s).
Proof.
  refine (cast_if (decide (Requests.valid_control_identifier s = true)));
    abstract (by rewrite <- Requests.identifier_spec).
Defined.
Record numbered (d : Delivery) : Prop := {
  nu_lines : (dl_issued d).*2 = filter (fun line => Requests.identifier (ol_action_id line)) (dl_received d);
  nu_sorted : StronglySorted Z.lt (dl_issued d).*1;
  nu_range : Forall (fun s => s <= es_sequence (dl_sub d)) (dl_issued d).*1;
}.
Lemma push_action_output_sequence now line sub queue :
  Requests.valid_control_identifier (ol_action_id line) = true -> es_sequence sub < u64_max ->
  es_sequence (push_action_output_event (X := X) now line sub queue).1 = es_sequence sub + 1.
Proof.
  intros Hid Hmax. unfold push_action_output_event. rewrite Hid. cbn [negb]. cbv zeta.
  destruct (first_missing_sequence _); [destruct (take_resource_ids _)|]; destruct (queue_event _ _ _);
    cbn; unfold sat_add; lia.
Qed.
Lemma numbered_later d d' :
  numbered d -> dl_issued d' = dl_issued d -> dl_received d' = dl_received d ->
  es_sequence (dl_sub d) <= es_sequence (dl_sub d') -> numbered d'.
Proof.
  intros [N1 N2 N3] Ei Er Hs. split; rewrite ?Ei, ?Er; [done|done|].
  eapply Forall_impl; [exact N3|]. simpl. lia.
Qed.
Lemma deliver_numbered d d' : deliver d d' -> delivery_inv d -> numbered d -> numbered d'.
Proof.
  intros Hs Hinv Hn. pose proof (di_sequence _ Hinv) as Hseq. pose proof Hn as [N1 N2 N3].
  destruct Hs as [d now line sub queue Hmax Hid E|d now line sub queue Hid E|d count Hmax|d now sub frame Hmax E|
    d frame rest E|d frame queue E].
  - pose proof (proj2 (Requests.identifier_spec _) Hid) as Hv.
    pose proof (push_action_output_sequence now line (dl_sub d) (Some (dl_queue d)) Hv ltac:(lia)) as Es.
    rewrite E in Es. cbn [fst] in Es.
    split; cbn [dl_issued dl_received dl_sub]; rewrite ?fmap_app; cbn [fmap list_fmap fst snd].
    + by rewrite N1, filter_app, filter_cons_True.
    + apply StronglySorted_snoc; [done|]. eapply Forall_impl; [exact N3|]. simpl. lia.
    + apply Forall_app. split; [eapply Forall_impl; [exact N3|]; simpl; lia|]. constructor; [lia|done].
  - rewrite <- Requests.identifier_spec, not_true_iff_false in Hid. pose proof E as E'.
    unfold push_action_output_event in E. rewrite Hid in E. injection E as <- <-.
    split; cbn [dl_issued dl_received dl_sub]; [|done|done].
    rewrite N1, filter_app, filter_cons_False; [by rewrite app_nil_r|].
    by rewrite <- Requests.identifier_spec, Hid.
  - by apply (numbered_later d).
  - apply (numbered_later d); [done..|]. cbn [dl_sub]. revert E. unfold flush_action_gap.
    destruct (first_missing_sequence _); [|by intros [= <- _]]. cbv zeta.
    destruct (take_resource_ids _). intros [= <- _]. cbn. unfold sat_add. lia.
  - by apply (numbered_later d).
  - by apply (numbered_later d).
Qed.

End delivery.


(** ** Latest state *)

Section latest.
Context {X : Type} `{!WireLimits} `{!EncodedLen (ServerControlFrame X)}.
Context `{!ReplicaWire.TextSyntaxCore} `{!Requests.RequestCodes} `{!SyncCodes}.
Notation Frame := (ServerControlFrame X).

Notation clipboard_prefix now id sequence at_ms snapshot n :=
  (event_frame now id sequence at_ms
     (DClipboard (with_history (take n (snap_history snapshot)) snapshot)) : Frame).

Lemma fit_clipboard_longest now id sequence at_ms snapshot k :
  (k <= length (snap_history snapshot))%nat ->
  (forall m, (k < m <= length (snap_history snapshot))%nat ->
     MAX_CONTROL_FRAME_SIZE < encoded_len (clipboard_prefix now id sequence at_ms snapshot m)) ->
  match fit_clipboard k now id sequence at_ms snapshot with
  | Some f => exists n, (n <= length (snap_history snapshot))%nat
      /\ f = clipboard_prefix now id sequence at_ms snapshot n
      /\ encoded_len f <= MAX_CONTROL_FRAME_SIZE
      /\ forall m, (n < m <= length (snap_history snapshot))%nat ->
           MAX_CONTROL_FRAME_SIZE < encoded_len (clipboard_prefix now id sequence at_ms snapshot m)
  | None => forall m, (m <= length (snap_history snapshot))%nat ->
           MAX_CONTROL_FRAME_SIZE < encoded_len (clipboard_prefix now id sequence at_ms snapshot m)
  end.
Proof.
  induction k as [|k IH]; intros Hk Hlarge; cbn [fit_clipboard];
    destruct (encoded_len _ <=? MAX_CONTROL_FRAME_SIZE) eqn:E; apply Z.leb_le in E || apply Z.leb_gt in E.
  - by exists 0%nat.
  - intros [|m] Hm; [done|]. apply Hlarge. lia.
  - by exists (S k).
  - apply IH; [lia|]. intros m Hm. destruct (decide (m = S k)) as [->|]; [done|]. apply Hlarge. lia.
Qed.

(** A clipboard frame is an event of the subscription with a prefix of the history. *)
Lemma clipboard_event_frame_shape now id sequence at_ms snapshot f :
  clipboard_event_frame now id sequence at_ms snapshot = Some f ->
  exists n, f = clipboard_prefix now id sequence at_ms snapshot n
    /\ encoded_len f <= MAX_CONTROL_FRAME_SIZE.
Proof.
  intros Hf. pose proof (fit_clipboard_longest now id sequence at_ms snapshot
    (length (snap_history snapshot)) (le_n _)) as Hl. unfold clipboard_event_frame in Hf. rewrite Hf in Hl.
  destruct Hl as (n & _ & E & Hn & _); [intros m; lia|]. by exists n.
Qed.

(** A clipboard event carries as much history as fits.  The frame sent is the snapshot with the
    longest prefix of its history whose encoding fits a control frame, and the event is skipped
    only if no prefix fits, not even the empty one. *)
Theorem clipboard_frame_longest now id sequence at_ms snapshot :
  match clipboard_event_frame now id sequence at_ms snapshot with
  | Some f => exists n, (n <= length (snap_history snapshot))%nat
      /\ f = clipboard_prefix now id sequence at_ms snapshot n
      /\ encoded_len f <= MAX_CONTROL_FRAME_SIZE
      /\ forall m, (n < m <= length (snap_history snapshot))%nat ->
           MAX_CONTROL_FRAME_SIZE < encoded_len (clipboard_prefix now id sequence at_ms snapshot m)
  | None => forall m, (m <= length (snap_history snapshot))%nat ->
              MAX_CONTROL_FRAME_SIZE < encoded_len (clipboard_prefix now id sequence at_ms snapshot m)
  end.
Proof. apply fit_clipboard_longest; [done|]. intros m. lia. Qed.

(** A state subscription, the latest-state queue and what its writer has taken from it; for the
    statements, the newest state of the subscription: the event that the last push was to publish,
    among those that fit a control frame. *)
Record Latest := {
  lt_sub : StateSubscription;
  lt_frames : gmap Z Frame;
  lt_out : list Frame;
  lt_newest : option Frame;
}.
Definition frame_event (f : Frame) : option Event :=
  match sc_body f with Some (BEvent e) => Some e | _ => None end.
(** The next event of a subscription with a state, and the state of the clipboard: the longest prefix
    of its history that fits, if any does. *)
Definition state_event (now at_ms : Z) (data : Data) (sub : StateSubscription) : Frame :=
  {| sc_body := Some (BEvent {| ev_subscription_id := ss_id sub; ev_sequence := ss_sequence sub + 1;
       ev_captured_at_ms := Text.protocol_timestamp now at_ms; ev_data := Some data |}) |}.
Definition clipboard_prefix_event (now at_ms : Z) (snapshot : ClipboardSnapshot) (sub : StateSubscription)
    (n : nat) : Frame :=
  state_event now at_ms (DClipboard (with_history (take n (snap_history snapshot)) snapshot)) sub.
Inductive clipboard_state (now at_ms : Z) (history : list ClipboardSummary) (policy : ClipboardPolicy)
    (sub : StateSubscription) : option Frame -> Prop :=
| clipboard_unusable e :
    build_clipboard_snapshot history policy None true = Err e -> clipboard_state now at_ms history policy sub None
| clipboard_too_large snapshot :
    build_clipboard_snapshot history policy None true = Ok snapshot ->
    (forall m, (m <= length (snap_history snapshot))%nat ->
       MAX_CONTROL_FRAME_SIZE < encoded_len (clipboard_prefix_event now at_ms snapshot sub m)) ->
    clipboard_state now at_ms history policy sub None
| clipboard_fits snapshot n :
    build_clipboard_snapshot history policy None true = Ok snapshot ->
    (n <= length (snap_history snapshot))%nat ->
    encoded_len (clipboard_prefix_event now at_ms snapshot sub n) <= MAX_CONTROL_FRAME_SIZE ->
    (forall m, (n < m <= length (snap_history snapshot))%nat ->
       MAX_CONTROL_FRAME_SIZE < encoded_len (clipboard_prefix_event now at_ms snapshot sub m)) ->
    clipboard_state now at_ms history policy sub (Some (clipboard_prefix_event now at_ms snapshot sub n)).

Definition pushed (d : Latest) (state : option Frame) (sub : StateSubscription) (frames : gmap Z Frame) : Latest :=
  {| lt_sub := sub; lt_frames := frames; lt_out := lt_out d;
     lt_newest := match state with
                  | Some f => if decide (encoded_len f <= MAX_CONTROL_FRAME_SIZE) then Some f else lt_newest d
                  | None => lt_newest d
                  end |}.
Inductive latest : Latest -> Latest -> Prop :=
| latest_system d now at_ms data sub frames :
    push_system_event now at_ms data (lt_sub d) (lt_frames d) = (sub, frames) ->
    latest d (pushed d (Some (state_event now at_ms (DSystem (build_system_snapshot data)) (lt_sub d))) sub frames)
| latest_media d now at_ms data sub frames :
    push_media_event now at_ms data (lt_sub d) (lt_frames d) = (sub, frames) ->
    latest d (pushed d (Some (state_event now at_ms (DMedia (build_media_snapshot data)) (lt_sub d))) sub frames)
| latest_window d now at_ms data spaces sub frames :
    push_window_event now at_ms data spaces (lt_sub d) (lt_frames d) = (sub, frames) ->
    latest d (pushed d (Some (state_event now at_ms
      (DWindows {| wl_windows := build_window_meta_list data; wl_spaces := spaces |}) (lt_sub d))) sub frames)
| latest_clipboard d now at_ms history policy state sub frames :
    clipboard_state now at_ms history policy (lt_sub d) state ->
    push_clipboard_event now at_ms history policy (lt_sub d) (lt_frames d) = (sub, frames) ->
    latest d (pushed d state sub frames)
| latest_other d frame :
    ev_subscription_id <$> frame_event frame <> Some (ss_id (lt_sub d)) ->
    latest d {| lt_sub := lt_sub d; lt_frames := replace frame (lt_frames d); lt_out := lt_out d;
                lt_newest := lt_newest d |}
| latest_write d k frame :
    lt_frames d !! k = Some frame ->
    latest d {| lt_sub := lt_sub d; lt_frames := delete k (lt_frames d);
                lt_out := lt_out d ++ [frame]; lt_newest := lt_newest d |}.

(** What [LatestStateQueue] holds: events under their own subscription. *)
Definition keyed (frames : gmap Z Frame) : Prop :=
  forall k f, frames !! k = Some f -> ev_subscription_id <$> frame_event f = Some k.
(** The sequences a client has seen for a subscription. *)
Definition sequences (id : Z) (fs : list Frame) : list Z :=
  omap (fun f => e ← frame_event f; if ev_subscription_id e =? id then Some (ev_sequence e) else None) fs.
Definition of_subscription (id : Z) (fs : list Frame) : list Frame :=
  filter (fun f => ev_subscription_id <$> frame_event f = Some id) fs.

Record latest_inv (s0 : Z) (d : Latest) : Prop := {
  li_keyed : keyed (lt_frames d);
  li_start : s0 <= ss_sequence (lt_sub d);
  li_sorted : StronglySorted Z.lt (sequences (ss_id (lt_sub d)) (lt_out d));
  li_range : Forall (fun q => s0 < q <= ss_sequence (lt_sub d)) (sequences (ss_id (lt_sub d)) (lt_out d));
  li_pending : forall f, lt_frames d !! ss_id (lt_sub d) = Some f -> lt_newest d = Some f
    /\ exists e, frame_event f = Some e /\ s0 < ev_sequence e <= ss_sequence (lt_sub d)
       /\ Forall (fun q => q < ev_sequence e) (sequences (ss_id (lt_sub d)) (lt_out d));
  li_drained : lt_frames d !! ss_id (lt_sub d) = None ->
    lt_newest d = last (of_subscription (ss_id (lt_sub d)) (lt_out d));
}.

(** The clipboard's frame is the one its state calls for. *)
Lemma clipboard_state_frame now at_ms history policy sub state snapshot :
  ss_sequence sub < u64_max -> clipboard_state now at_ms history policy sub state ->
  build_clipboard_snapshot history policy None true = Ok snapshot ->
  clipboard_event_frame now (ss_id sub) (sat_add u64_max (ss_sequence sub) 1) at_ms snapshot = state.
Proof.
  intros Hmax Hst Hb. pose proof (clipboard_frame_longest now (ss_id sub) (ss_sequence sub + 1) at_ms snapshot) as Hl.
  assert (sat_add u64_max (ss_sequence sub) 1 = ss_sequence sub + 1) as -> by (unfold sat_add; lia).
  destruct (clipboard_event_frame _ _ _ _ _) as [f|].
  - destruct Hl as (n & Hn & -> & Hfit & Hmore).
    destruct Hst as [e Hb'|s' Hb' Hbig|s' n' Hb' Hn' Hfit' Hmore']; rewrite Hb in Hb'; simplify_eq.
    + specialize (Hbig n Hn). unfold clipboard_prefix_event, state_event, event_frame, server_frame in *. lia.
    + assert (n = n') as ->; [|done]. unfold clipboard_prefix_event, state_event, event_frame, server_frame in *.
      destruct (lt_eq_lt_dec n n') as [[Hlt|]|Hlt]; [specialize (Hmore n'); lia|done|specialize (Hmore' n); lia].
  - destruct Hst as [e Hb'|s' Hb' Hbig|s' n' Hb' Hn' Hfit' _]; [done|done|]. rewrite Hb in Hb'. simplify_eq.
    specialize (Hl n' Hn'). unfold clipboard_prefix_event, state_event, event_frame, server_frame in *. lia.
Qed.

(** Every push issues the next sequence and queues the new state, or there is none and it does nothing. *)
Lemma push_shape d d' :
  ss_sequence (lt_sub d) < u64_max -> latest d d' ->
  (exists sub frames state, d' = pushed d state sub frames /\
     ((sub = lt_sub d /\ frames = lt_frames d /\ state = None)
      \/ exists e, sub = state_next (lt_sub d)
         /\ ev_subscription_id e = ss_id sub /\ ev_sequence e = ss_sequence sub
         /\ frames = replace (server_frame (BEvent e)) (lt_frames d) /\ state = Some (server_frame (BEvent e))))
  \/ (exists frame, ev_subscription_id <$> frame_event frame <> Some (ss_id (lt_sub d))
      /\ d' = {| lt_sub := lt_sub d; lt_frames := replace frame (lt_frames d); lt_out := lt_out d;
                 lt_newest := lt_newest d |})
  \/ (exists k frame, lt_frames d !! k = Some frame
      /\ d' = {| lt_sub := lt_sub d; lt_frames := delete k (lt_frames d);
                 lt_out := lt_out d ++ [frame]; lt_newest := lt_newest d |}).
Proof.
  intros Hmax Hs. assert (sat_add u64_max (ss_sequence (lt_sub d)) 1 = ss_sequence (lt_sub d) + 1) as Hsat
    by (unfold sat_add; lia).
  destruct Hs as [d0 now at_ms data sub frames E|d0 now at_ms data sub frames E|d0 now at_ms data spaces sub frames E|
    d0 now at_ms history policy state sub frames Hst E|d0 frame Hf|d0 k frame Hk].
  1-3: injection E as <- <-; left; eexists _, _, _; split; [reflexivity|]; right; eexists;
    split; [reflexivity|]; split; [|split; [|split; [reflexivity|]]]; unfold state_event, event_frame, server_frame;
    cbn [state_next ss_sequence ss_id]; rewrite ?Hsat; reflexivity.
  - left. exists sub, frames, state. split; [done|]. unfold push_clipboard_event in E.
    destruct (build_clipboard_snapshot _ _ _ _) as [snapshot|e] eqn:Eb; last first.
    { injection E as <- <-. left. destruct Hst as [|? Hb'|? ? Hb']; [done|congruence..]. }
    pose proof (clipboard_state_frame _ _ _ _ _ _ _ Hmax Hst Eb) as Hfr. rewrite Hfr in E. cbn zeta in E.
    destruct state as [f|]; injection E as <- <-; [right|by left].
    apply clipboard_event_frame_shape in Hfr as (n & -> & _). eexists. split; [reflexivity|].
    split; [|split; [|split; [reflexivity|reflexivity]]]; reflexivity.
  - right. left. by exists frame.
  - right. right. by exists k, frame.
Qed.

Lemma replace_lookup frame frames k :
  replace frame frames !! k = frames !! k
  \/ (ev_subscription_id <$> frame_event frame = Some k /\ replace frame frames !! k = Some frame
      /\ encoded_len frame <= MAX_CONTROL_FRAME_SIZE).
Proof.
  unfold replace, frame_event. destruct (_ >? _) eqn:E; [by left|]. bool_arith.
  destruct (sc_body frame) as [[e|r|x]|]; try by left.
  destruct (decide (ev_subscription_id e = k)) as [<-|Hne].
  - right. rewrite lookup_insert_eq. split_and!; [done|done|lia].
  - left. by rewrite lookup_insert_ne.
Qed.
Lemma replace_keyed frame frames : keyed frames -> keyed (replace frame frames).
Proof.
  intros Hk k f. destruct (replace_lookup frame frames k) as [->|(Hid & -> & _)]; [apply Hk|].
  by intros [= <-].
Qed.
Lemma sequences_snoc id fs f :
  sequences id (fs ++ [f]) = sequences id fs ++ sequences id [f].
Proof. unfold sequences. apply omap_app. Qed.
Lemma of_subscription_snoc id fs f :
  of_subscription id (fs ++ [f]) = of_subscription id fs ++ of_subscription id [f].
Proof. unfold of_subscription. apply filter_app. Qed.

Lemma replace_event e frames :
  replace (server_frame (BEvent e)) frames =
  if decide (encoded_len (server_frame (BEvent e) : Frame) <= MAX_CONTROL_FRAME_SIZE)
  then <[ev_subscription_id e := server_frame (BEvent e)]> frames else frames.
Proof. unfold replace. destruct (_ >? _) eqn:E; bool_arith; case_decide; try done; lia. Qed.
Lemma latest_inv_pushed s0 d e :
  latest_inv s0 d -> ss_sequence (lt_sub d) < u64_max ->
  let sub := state_next (lt_sub d) in
  ev_subscription_id e = ss_id sub -> ev_sequence e = ss_sequence sub ->
  latest_inv s0 (pushed d (Some (server_frame (BEvent e))) sub (replace (server_frame (BEvent e)) (lt_frames d))).
Proof.
  intros [I1 I2 I3 I4 I5 I6] Hmax. cbn zeta. unfold state_next. destruct d as [[id q] frames out newest].
  cbn [lt_sub lt_frames lt_out lt_newest state_next ss_id ss_sequence] in *.
  assert (sat_add u64_max q 1 = q + 1) as Es by (unfold sat_add; lia). rewrite !Es. intros Hid Hseq.
  unfold pushed. cbn [lt_sub lt_frames lt_out lt_newest state_next ss_id ss_sequence].
  assert (Forall (fun x => s0 < x <= q + 1) (sequences id out)) as HF
    by (eapply Forall_impl; [exact I4|]; simpl; lia).
  pose proof (replace_keyed (server_frame (BEvent e)) frames I1) as Hk.
  rewrite replace_event in Hk |- *. destruct (decide (encoded_len _ <= _)); rewrite ?Hid in *.
  - split; cbn [lt_sub lt_frames lt_out lt_newest ss_id ss_sequence]; try done; [lia| |].
    + rewrite lookup_insert_eq. intros f [= <-]. split; [done|]. exists e. split; [done|]. split; [lia|].
      eapply Forall_impl; [exact I4|]. simpl. lia.
    + by rewrite lookup_insert_eq.
  - split; cbn [lt_sub lt_frames lt_out lt_newest ss_id ss_sequence]; try done; [lia|].
    intros f Hf. destruct (I5 f Hf) as (? & e' & ? & ? & ?). split; [done|]. exists e'.
    split; [done|]. split; [lia|done].
Qed.

Lemma latest_inv_step s0 d d' :
  latest d d' -> ss_sequence (lt_sub d) < u64_max -> latest_inv s0 d -> latest_inv s0 d'.
Proof.
  intros Hs Hmax HI. apply push_shape in Hs as [(sub & frames & state & -> & [(-> & -> & ->)|(e & -> & Hid & Hseq & -> & ->)])|
    [(frame & Hne & ->)|(k & frame & Hk & ->)]]; [..|done].
  - by destruct d as [? ? ? ?], HI; split.
  - by apply latest_inv_pushed.
  - destruct HI as [I1 I2 I3 I4 I5 I6].
    destruct (replace_lookup frame (lt_frames d) (ss_id (lt_sub d))) as [E|(E & _)]; [|done].
    split; cbn [lt_sub lt_frames lt_out lt_newest]; rewrite ?E; try done. by apply replace_keyed.
  - destruct HI as [I1 I2 I3 I4 I5 I6]. pose proof (I1 k frame Hk) as Hkey.
    assert (keyed (delete k (lt_frames d))) as Hkd by (intros k' f' [_ ?]%lookup_delete_Some; by apply I1).
    set (id := ss_id (lt_sub d)) in *.
    destruct (frame_event frame) as [e|] eqn:Ee; [|done]. injection Hkey as Hkey.
    assert (sequences id [frame] = if ev_subscription_id e =? id then [ev_sequence e] else []) as Eseq.
    { unfold sequences. simpl. rewrite Ee. simpl. by destruct (_ =? _). }
    destruct (decide (k = id)) as [->|Hne].
    + destruct (I5 frame Hk) as (Hnew & e' & Hfe & Hr & Hlt). assert (e' = e) as -> by congruence.
      rewrite (proj2 (Z.eqb_eq _ _) Hkey) in Eseq.
      split; cbn [lt_sub lt_frames lt_out lt_newest]; fold id; rewrite ?sequences_snoc, ?Eseq; try done.
      * by apply StronglySorted_snoc.
      * apply Forall_app. split; [done|]. by constructor.
      * intros f. by rewrite lookup_delete_eq.
      * intros _. rewrite of_subscription_snoc. unfold of_subscription at 2.
        rewrite filter_cons_True by (rewrite Ee; simpl; by rewrite Hkey). cbn [filter list_filter].
        by rewrite last_snoc.
    + rewrite (proj2 (Z.eqb_neq _ _)) in Eseq by congruence.
      split; cbn [lt_sub lt_frames lt_out lt_newest]; fold id; rewrite ?sequences_snoc, ?Eseq, ?app_nil_r; try done.
      * intros f. rewrite lookup_delete_ne by done. apply I5.
      * rewrite lookup_delete_ne by done. rewrite of_subscription_snoc. unfold of_subscription at 2.
        rewrite filter_cons_False by (rewrite Ee; simpl; congruence). cbn [filter list_filter].
        by rewrite app_nil_r.
Qed.

(** C30: state subscriptions deliver the newest state, in order.  However pushes and the writer
    interleave, and whatever other subscriptions do, the sequence numbers a client receives for a
    state subscription strictly increase; at most one frame is pending, it is the event of the newest
    state pushed that fits a control frame (for the clipboard, with the longest history that fits),
    and when none is pending the last frame delivered is that event. *)
Theorem latest_state_newest_in_order s0 d0 d :
  keyed (lt_frames d0) -> lt_frames d0 !! ss_id (lt_sub d0) = None -> lt_newest d0 = None ->
  of_subscription (ss_id (lt_sub d0)) (lt_out d0) = [] -> sequences (ss_id (lt_sub d0)) (lt_out d0) = [] ->
  ss_sequence (lt_sub d0) = s0 ->
  rtc (fun d d' => latest d d' /\ ss_sequence (lt_sub d) < u64_max) d0 d ->
  StronglySorted Z.lt (sequences (ss_id (lt_sub d)) (lt_out d))
  /\ Forall (fun q => s0 < q <= ss_sequence (lt_sub d)) (sequences (ss_id (lt_sub d)) (lt_out d))
  /\ match lt_frames d !! ss_id (lt_sub d) with
     | Some f => lt_newest d = Some f
     | None => lt_newest d = last (of_subscription (ss_id (lt_sub d)) (lt_out d))
     end.
Proof.
  intros Hk Hn Hw Ho Hs Hstart Hrun.
  assert (latest_inv s0 d0) as HI.
  { split; rewrite ?Hn, ?Hs, ?Ho, ?Hw; try done; [lia|constructor]. }
  assert (latest_inv s0 d) as [I1 I2 I3 I4 I5 I6].
  { clear -HI Hrun. induction Hrun as [d|d1 d2 d3 [Hs Hm] _ IH]; [done|]. apply IH. by eapply latest_inv_step. }
  split; [done|]. split; [done|].
  destruct (lt_frames d !! _) as [f|] eqn:Ef; [by apply (I5 f)|by apply I6].
Qed.
End latest.


(** ** Subscription ids *)

Section ids.
Context {X : Type} `{!WireLimits} `{!EncodedLen (ServerControlFrame X)} `{!FeatureCodes} `{!TopicCodes}.
Context `{!ReplicaWire.TextSyntaxCore} `{!Requests.RequestCodes} `{!SyncCodes}.
Notation Frame := (ServerControlFrame X).

Definition active_ids (s : ConnectionSubscriptions) : list Z := omap id (active_subscription_ids s).
(** The active ids are distinct and positive [i64]s. *)
Record subs_wf (s : ConnectionSubscriptions) : Prop := {
  sw_distinct : NoDup (active_ids s);
  sw_range : Forall (fun i => 0 < i <= i64_max) (active_ids s);
}.

Lemma active_ids_elem s i : i ∈ active_ids s <-> Some i ∈ active_subscription_ids s.
Proof.
  unfold active_ids. rewrite list_elem_of_omap. split.
  - intros (o & Ho & E). simpl in E. by subst o.
  - intros Hi. by exists (Some i).
Qed.
Lemma random_nonzero_u64_range raw : 0 < random_nonzero_u64 raw <= i64_max.
Proof.
  unfold random_nonzero_u64. assert (0 <= Z.land raw i64_max <= i64_max) as Hl.
  { change i64_max with (Z.ones 63). rewrite Z.land_ones by lia.
    pose proof (Z.mod_pos_bound raw (2 ^ 63) eq_refl). change (Z.ones 63) with (2 ^ 63 - 1). lia. }
  cbn zeta. destruct (Z.eqb_spec (Z.land raw i64_max) 0); unfold i64_max in *; lia.
Qed.
Lemma draw_id_Some s raws i :
  draw_id s raws = Some i -> 0 < i <= i64_max /\ i ∉ active_ids s.
Proof.
  unfold draw_id. intros Hh. apply head_Some_elem_of, list_elem_of_In, List.filter_In in Hh as [Hin Hn].
  apply list_elem_of_In, list_elem_of_fmap in Hin as (raw & -> & _). split; [apply random_nonzero_u64_range|].
  rewrite active_ids_elem. apply negb_true_iff in Hn. by bool_arith.
Qed.
Lemma draw_id_fresh s raws raw :
  raw ∈ raws -> random_nonzero_u64 raw ∉ active_ids s -> is_Some (draw_id s raws).
Proof.
  intros Hin Hn. unfold draw_id. rewrite head_lookup, lookup_lt_is_Some.
  destruct (List.filter _ _) as [|x l] eqn:E; [|simpl; lia]. exfalso.
  assert (In (random_nonzero_u64 raw) []) as Hf; [|done]. rewrite <- E. apply List.filter_In.
  split; [by apply list_elem_of_In, list_elem_of_fmap_2|]. rewrite active_ids_elem in Hn.
  by rewrite bool_decide_false.
Qed.

(** Storing under a fresh id keeps ids distinct. *)
Lemma store_subscription_wf topic i q s :
  subs_wf s -> 0 < i <= i64_max -> i ∉ active_ids s -> subs_wf (store_subscription topic i q s).
Proof.
  intros [W1 W2] Hi Hn.
  assert (topic = TUnspecified \/ exists l1 o l2, active_subscription_ids s = l1 ++ o :: l2
    /\ active_subscription_ids (store_subscription topic i q s) = l1 ++ Some i :: l2) as [->|(l1 & o & l2 & E1 & E2)].
  { destruct topic; [by left|..]; right; unfold active_subscription_ids.
    - by eexists [], _, _.
    - by eexists [_], _, _.
    - by eexists [_; _], _, _.
    - by eexists [_; _; _], _, _.
    - by eexists [_; _; _; _], _, _.
    - by eexists [_; _; _; _; _], _, _.
    - by eexists [_; _; _; _; _; _], _, _.
    - by eexists [_; _; _; _; _; _; _], _, _. }
  { by destruct s. }
  unfold active_ids in *. rewrite E1 in W1, W2, Hn. rewrite omap_app in W1, W2, Hn. simpl in W1, W2, Hn.
  assert (omap id (l1 ++ Some i :: l2) = omap id l1 ++ i :: omap id l2) as E3 by (by rewrite omap_app).
  split; unfold active_ids; rewrite E2, E3.
  - apply NoDup_app in W1 as (N1 & N2 & N3). apply NoDup_app.
    assert (NoDup (omap id l2)) as N4 by (destruct o; [by apply NoDup_cons in N3 as [_ ?]|done]).
    rewrite not_elem_of_app in Hn. destruct Hn as [Hn1 Hn2].
    assert (i ∉ omap id l2) as Hn3 by (destruct o; [set_solver|done]).
    split; [done|]. split; [|by constructor]. intros x Hx. apply not_elem_of_cons. split; [by intros ->|].
    destruct o as [y|]; [|by apply N2]. intros Hx2. apply (N2 x Hx). by right.
  - apply Forall_app in W2 as [F1 F2]. apply Forall_app. split; [done|]. constructor; [done|].
    destruct o; [by apply Forall_cons in F2 as [_ ?]|done].
Qed.

(** What a topic reads and under which feature. *)
Inductive topic_reads : SubscriptionTopic -> Feature -> Requests.CapabilityId -> Prop :=
| reads_system : topic_reads TSystem FSystem Requests.SystemRead
| reads_media : topic_reads TMedia FMedia Requests.MediaRead
| reads_windows : topic_reads TWindows FWindows Requests.WindowRead
| reads_clipboard : topic_reads TClipboard FClipboard Requests.ClipboardRead
| reads_actions : topic_reads TActions FActions Requests.ActionRead
| reads_output : topic_reads TActionOutput FActions Requests.ActionRead
| reads_notifications : topic_reads TNotifications FNotifications Requests.NotificationRead
| reads_sync : topic_reads TClipboardSync FClipboardSync Requests.ClipboardSync.
Definition source_ready (h : Host) (topic : SubscriptionTopic) : Prop :=
  match topic with
  | TActionOutput => h_output_available h = true
  | TNotifications => h_notifications_available h = true
  | TClipboardSync => h_sync_available h = true
  | _ => True
  end.
(** What comes of asking for a topic: [ECOk] for a grant. *)
Inductive decided (h : Host) (features : gset Z) (capabilities : gset Requests.CapabilityId)
    (topic : SubscriptionTopic) : ErrorCode -> Prop :=
| decided_unknown : topic = TUnspecified -> decided h features capabilities topic ECInvalidArgument
| decided_unsupported f c : topic_reads topic f c ->
    feature_code FSubscriptions ∉ features \/ feature_code f ∉ features ->
    decided h features capabilities topic ECUnsupported
| decided_denied f c : topic_reads topic f c ->
    feature_code FSubscriptions ∈ features -> feature_code f ∈ features -> c ∉ capabilities ->
    decided h features capabilities topic ECPermissionDenied
| decided_unavailable f c : topic_reads topic f c ->
    feature_code FSubscriptions ∈ features -> feature_code f ∈ features -> c ∈ capabilities ->
    ~ source_ready h topic -> decided h features capabilities topic ECUnavailable
| decided_granted f c : topic_reads topic f c ->
    feature_code FSubscriptions ∈ features -> feature_code f ∈ features -> c ∈ capabilities ->
    source_ready h topic -> decided h features capabilities topic ECOk.
Lemma topic_reads_spec topic f c : topic_reads topic f c <-> topic_requires topic = Some (f, c).
Proof. split; [by destruct 1|]. destruct topic; intros [= <- <-]; constructor. Qed.
Lemma source_ready_spec h topic :
  source_ready h topic <->
  bool_decide (topic = TActionOutput) && negb (h_output_available h) = false
  /\ bool_decide (topic = TNotifications) && negb (h_notifications_available h) = false
  /\ bool_decide (topic = TClipboardSync) && negb (h_sync_available h) = false.
Proof. destruct topic; simpl; rewrite ?negb_false_iff; tauto. Qed.
Lemma refusal_decided h features capabilities topic :
  decided h features capabilities topic
    match refusal h features capabilities topic with Some (code, _) => code | None => ECOk end.
Proof.
  unfold refusal. destruct (topic_requires topic) as [[f c]|] eqn:E; last first.
  { apply decided_unknown. by destruct topic. }
  apply topic_reads_spec in E. destruct (_ || _) eqn:E1.
  { eapply decided_unsupported; [exact E|]. apply orb_true_iff in E1 as [E1|E1]; bool_arith; auto. }
  destruct (negb (bool_decide (c ∈ capabilities))) eqn:E2; bool_arith; [by eapply decided_denied|].
  pose proof (source_ready_spec h topic) as Hr.
  destruct (_ && negb (h_output_available h)) eqn:E3; [eapply decided_unavailable; naive_solver|].
  destruct (_ && negb (h_notifications_available h)) eqn:E4; [eapply decided_unavailable; naive_solver|].
  destruct (_ && negb (h_sync_available h)) eqn:E5; [eapply decided_unavailable; naive_solver|].
  eapply decided_granted; naive_solver.
Qed.
Lemma refusal_code h features capabilities topic code message :
  refusal h features capabilities topic = Some (code, message) -> code <> ECOk.
Proof.
  unfold refusal. intros E. destruct (topic_requires topic) as [[f c]|]; [|by injection E as <- _].
  repeat (match type of E with (if ?b then _ else _) = _ => destruct b; [by injection E as <- _|] end). done.
Qed.

(** The current state of a topic as event 1 of a subscription; output and clipboard changes have no
    state to start from. *)
Inductive baseline (h : Host) (sub : StateSubscription) : SubscriptionTopic -> option Frame -> Prop :=
| baseline_system at_ms v : h_latest_system h = Some (at_ms, v) ->
    baseline h sub TSystem (Some (state_event (h_now h) at_ms (DSystem (build_system_snapshot v)) sub))
| baseline_no_system : h_latest_system h = None -> baseline h sub TSystem None
| baseline_media at_ms v : h_latest_media h = Some (at_ms, v) ->
    baseline h sub TMedia (Some (state_event (h_now h) at_ms (DMedia (build_media_snapshot v)) sub))
| baseline_no_media : h_latest_media h = None -> baseline h sub TMedia None
| baseline_windows at_ms v : h_latest_windows h = Some (at_ms, v) ->
    baseline h sub TWindows (Some (state_event (h_now h) at_ms
      (DWindows {| wl_windows := build_window_meta_list v; wl_spaces := build_space_list (h_spaces h) |}) sub))
| baseline_no_windows : h_latest_windows h = None -> baseline h sub TWindows None
| baseline_clipboard at_ms history policy f : h_latest_clipboard h = Some (at_ms, history, policy) ->
    clipboard_state (h_now h) at_ms history policy sub f -> baseline h sub TClipboard f
| baseline_no_clipboard : h_latest_clipboard h = None -> baseline h sub TClipboard None
| baseline_actions :
    baseline h sub TActions (Some (state_event (h_now h) (h_now h)
      (DActions (build_action_snapshot (h_actions h))) sub))
| baseline_notifications v : notification_snapshot (h_notifications h) = Ok v ->
    baseline h sub TNotifications (Some (state_event (h_now h) (h_now h) (DNotifications v) sub))
| baseline_no_notifications e : notification_snapshot (h_notifications h) = Err e ->
    baseline h sub TNotifications None
| baseline_output : baseline h sub TActionOutput None
| baseline_sync : baseline h sub TClipboardSync None.

Lemma clipboard_frame_state now i at_ms history policy snapshot :
  build_clipboard_snapshot history policy None true = Ok snapshot ->
  clipboard_state now at_ms history policy {| ss_id := i; ss_sequence := 0 |}
    (clipboard_event_frame now i 1 at_ms snapshot : option Frame).
Proof.
  intros Hb. pose proof (clipboard_frame_longest (X := X) now i 1 at_ms snapshot) as Hl.
  destruct (clipboard_event_frame _ _ _ _ _) as [f|].
  - destruct Hl as (n & Hn & -> & Hfit & Hmore).
    exact (clipboard_fits now at_ms history policy {| ss_id := i; ss_sequence := 0 |} snapshot n Hb Hn Hfit Hmore).
  - exact (clipboard_too_large now at_ms history policy {| ss_id := i; ss_sequence := 0 |} snapshot Hb Hl).
Qed.
Lemma initial_frame_baseline h topic i :
  topic <> TUnspecified -> baseline h {| ss_id := i; ss_sequence := 0 |} topic (initial_frame h topic i).
Proof.
  intros Ht. destruct topic; simpl; try done; try constructor.
  - destruct (h_latest_system h) as [[]|] eqn:E; [by apply baseline_system|by apply baseline_no_system].
  - destruct (h_latest_media h) as [[]|] eqn:E; [by apply baseline_media|by apply baseline_no_media].
  - destruct (h_latest_windows h) as [[]|] eqn:E; [by apply baseline_windows|by apply baseline_no_windows].
  - destruct (h_latest_clipboard h) as [[[at_ms history] policy]|] eqn:E; [|by apply baseline_no_clipboard].
    eapply baseline_clipboard; [exact E|]. simpl.
    destruct (build_clipboard_snapshot history policy None true) as [snapshot|e] eqn:Eb.
    + by apply clipboard_frame_state.
    + by eapply clipboard_unusable.
  - destruct (notification_snapshot (h_notifications h)) as [v|e] eqn:E;
      [by apply baseline_notifications|by eapply baseline_no_notifications].
Qed.

(** The id, sequence and lost output of a topic's subscription. *)
Definition slot (t : SubscriptionTopic) (s : ConnectionSubscriptions) : option (Z * Z * ActionGap) :=
  let state sub := (ss_id sub, ss_sequence sub, default_gap) in
  let event sub := (es_id sub, es_sequence sub, es_action_gap sub) in
  match t with
  | TUnspecified => None
  | TSystem => state <$> system_sub s
  | TMedia => state <$> media_sub s
  | TWindows => state <$> window_sub s
  | TClipboard => state <$> clipboard_sub s
  | TActions => (fun sub => (ps_id sub, ps_sequence sub, default_gap)) <$> action_catalog_sub s
  | TActionOutput => event <$> action_output_sub s
  | TNotifications => event <$> notification_sub s
  | TClipboardSync => event <$> clipboard_sync_sub s
  end.
Lemma slot_active t s i q g : slot t s = Some (i, q, g) -> i ∈ active_ids s.
Proof.
  rewrite active_ids_elem. unfold active_subscription_ids. destruct s, t; cbn; intros E; try done;
    apply fmap_Some in E as (sub & -> & E); injection E as -> -> ->; repeat (constructor || right).
Qed.
Lemma slot_store t topic i q s :
  topic <> TUnspecified ->
  slot t (store_subscription topic i q s) = if decide (t = topic) then Some (i, q, default_gap) else slot t s.
Proof. intros Ht. by destruct topic, t. Qed.
(** A result frame, by its fields. *)
Definition answers (f : Frame) (request : SubscribeRequest) (topic : SubscriptionTopic) (i next : Z)
    (code : ErrorCode) : Prop :=
  exists r, f = server_frame (BSubscriptionResult r) /\ res_request_id r = sq_request_id request
    /\ res_topic r = topic /\ res_subscription_id r = i /\ res_next_sequence r = next
    /\ st_code (res_status r) = code.

(** C31: subscribing is authorised, unambiguous and announced.  The request is decided by the topic,
    the negotiated features, the granted capability and whether the source is there, in this order,
    and the result names the reason.  A refusal changes nothing and sends just that result.  A grant
    gets an id that is positive and used by no other active subscription, fills the topic's slot with
    it and leaves all other topics alone, and sends the successful result first, then, if the topic
    has a state at the moment, that state as event 1, from which the numbering goes on; the ids stay
    distinct; and it is only undecided while every draw so far hit an active id. *)
Theorem subscribe_exact h features capabilities raws request s :
  subs_wf s ->
  let topic := default TUnspecified (topic_try_from (sq_topic request)) in
  match handle_subscribe h features capabilities raws request s with
  | None => decided h features capabilities topic ECOk
      /\ forall raw, raw ∈ raws -> random_nonzero_u64 raw ∈ active_ids s
  | Some (s', frames) =>
    subs_wf s'
    /\ ((exists code f, decided h features capabilities topic code /\ code <> ECOk /\ s' = s /\ frames = [f]
            /\ answers f request topic 0 0 code)
        \/ (decided h features capabilities topic ECOk
            /\ exists i result first, 0 < i <= i64_max
               /\ (forall t q g, slot t s <> Some (i, q, g))
               /\ (forall t, slot t s' = if decide (t = topic)
                     then Some (i, if first is Some _ then 1 else 0, default_gap) else slot t s)
               /\ frames = result :: option_list first /\ answers result request topic i 1 ECOk
               /\ baseline h {| ss_id := i; ss_sequence := 0 |} topic first))
  end.
Proof.
  intros Hwf. cbn zeta. unfold handle_subscribe. cbn zeta. set (topic := default _ _).
  pose proof (refusal_decided h features capabilities topic) as Hd.
  destruct (refusal h features capabilities topic) as [[code message]|] eqn:Er.
  - split; [done|]. left. exists code. eexists. split; [done|]. split; [by eapply refusal_code|].
    split; [done|]. split; [reflexivity|]. eexists. split; [reflexivity|]. done.
  - assert (topic <> TUnspecified) as Ht by (intros Et; unfold refusal in Er; by rewrite Et in Er).
    destruct (draw_id s raws) as [i|] eqn:Ed; simpl.
    + destruct (draw_id_Some _ _ _ Ed) as [Hi Hn].
      pose proof (initial_frame_baseline h topic i Ht) as Hb.
      assert (forall t q g, slot t s <> Some (i, q, g)) as Hfresh by (intros t q g ?%slot_active; done).
      destruct (initial_frame h topic i) as [f|] eqn:Ef; (split; [by apply store_subscription_wf|]);
        right; (split; [done|]).
      all: [> eexists i, _, (Some f)|eexists i, _, None]; (split; [done|]); (split; [done|]);
        (split; [intros t; by apply slot_store|]); (split; [reflexivity|]); (split; [|done]);
        eexists; (split; [reflexivity|]); done.
    + split; [done|]. intros raw Hin. destruct (decide (random_nonzero_u64 raw ∈ active_ids s)); [done|].
      destruct (draw_id_fresh s raws raw Hin) as [x Hx]; [done|]. congruence.
Qed.
End ids.


Section unsubscribe.
Context {X : Type}.

(** Emptying the slots that hold an id. *)
Definition without_id (i : Z) (slot : SubscriptionTopic * option Z) : SubscriptionTopic * option Z :=
  (slot.1, if bool_decide (slot.2 = Some i) then None else slot.2).

Lemma drop_state_id i o : ss_id <$> drop_state i o = (without_id i (TSystem, ss_id <$> o)).2.
Proof.
  destruct o as [o|]; [|done]. unfold without_id. simpl. destruct (Z.eqb_spec (ss_id o) i).
  - by rewrite bool_decide_true by congruence.
  - by rewrite bool_decide_false by congruence.
Qed.
Lemma drop_passive_id i o : ps_id <$> drop_passive i o = (without_id i (TSystem, ps_id <$> o)).2.
Proof.
  destruct o as [o|]; [|done]. unfold without_id. simpl. destruct (Z.eqb_spec (ps_id o) i).
  - by rewrite bool_decide_true by congruence.
  - by rewrite bool_decide_false by congruence.
Qed.
Lemma drop_event_id i o : es_id <$> drop_event i o = (without_id i (TSystem, es_id <$> o)).2.
Proof.
  destruct o as [o|]; [|done]. unfold without_id. simpl. destruct (Z.eqb_spec (es_id o) i).
  - by rewrite bool_decide_true by congruence.
  - by rewrite bool_decide_false by congruence.
Qed.

Lemma topic_of_None_slots i (l : list (SubscriptionTopic * option Z)) found :
  Forall (fun slot => slot.2 <> Some i) l ->
  fold_left (fun found '(topic, slot) => if bool_decide (slot = Some i) then Some topic else found) l found
  = found.
Proof.
  intros Hl. revert found. induction Hl as [|[t o] l Ho _ IH]; intros found; [done|]. simpl in *.
  rewrite bool_decide_false by done. apply IH.
Qed.
Lemma topic_of_found (i : Z) t (l1 l2 : list (SubscriptionTopic * option Z)) (found : option SubscriptionTopic) :
  Forall (fun slot => slot.2 <> Some i) l2 ->
  fold_left (fun found '(topic, slot) => if bool_decide (slot = Some i) then Some topic else found)
    (l1 ++ (t, Some i) :: l2) found = Some t.
Proof.
  intros Hl. rewrite fold_left_app. simpl. rewrite bool_decide_true by done. by apply topic_of_None_slots.
Qed.
Lemma zip_snd_ids s : (topic_slots s).*2 = active_subscription_ids s.
Proof. done. Qed.

(** A slot's topic is the one reported, when ids are distinct. *)
Lemma topic_of_Some s i t :
  subs_wf s -> (topic_of i s = Some t <-> (t, Some i) ∈ topic_slots s).
Proof.
  intros [Hnd _]. unfold active_ids in Hnd. rewrite <- zip_snd_ids in Hnd. unfold topic_of.
  generalize dependent (topic_slots s). intros l Hnd.
  assert (forall l1 l2 t', l = l1 ++ (t', Some i) :: l2 -> Forall (fun slot => slot.2 <> Some i) l2) as Hrest.
  { intros l1 l2 t' ->. rewrite fmap_app, omap_app in Hnd. simpl in Hnd.
    apply NoDup_app in Hnd as (_ & _ & Hnd). apply NoDup_cons in Hnd as [Hni _].
    apply Forall_forall. intros [t2 o] Hin. simpl. intros ->. apply Hni.
    apply list_elem_of_omap. exists (Some i). split; [|done]. by apply (list_elem_of_fmap_2 snd) in Hin. }
  split.
  - intros Hf. destruct (decide (Exists (fun slot => slot.2 = Some i) l)) as [Hex|Hno].
    + apply Exists_exists in Hex as ([t' o] & Hin & Ho). simpl in Ho. subst o.
      apply list_elem_of_split in Hin as (l1 & l2 & El). pose proof (Hrest _ _ _ El) as Hr. subst l.
      rewrite topic_of_found in Hf by done. injection Hf as ->. set_solver.
    + rewrite topic_of_None_slots in Hf; [done|]. by apply Forall_Exists_neg.
  - intros Hin. apply list_elem_of_split in Hin as (l1 & l2 & El). pose proof (Hrest _ _ _ El) as Hr. subst l.
    by apply topic_of_found.
Qed.

Lemma without_id_same i (slots : list (SubscriptionTopic * option Z)) :
  Forall (fun slot => slot.2 <> Some i) slots -> without_id i <$> slots = slots.
Proof.
  intros Hf. induction Hf as [|[t o] l Ho _ IH]; [done|]. rewrite fmap_cons, IH. f_equal.
  unfold without_id. simpl in *. by rewrite bool_decide_false.
Qed.
Lemma without_id_filter i (l : list (SubscriptionTopic * option Z)) :
  omap id (without_id i <$> l).*2 = filter (fun x => x <> i) (omap id l.*2).
Proof.
  induction l as [|[t [x|]] l IH]; [done| |exact IH]. rewrite !fmap_cons. unfold without_id at 1. cbn [fst snd].
  case_bool_decide as Ex.
  - injection Ex as ->. change (omap id (without_id i <$> l).*2 = filter (fun x => x <> i) (i :: omap id l.*2)).
    rewrite filter_cons_False by (intros Hf; by apply Hf). exact IH.
  - change (x :: omap id (without_id i <$> l).*2 = filter (fun x => x <> i) (x :: omap id l.*2)).
    rewrite filter_cons_True by congruence. f_equal. exact IH.
Qed.
Lemma active_ids_slots s i : i ∈ active_ids s <-> exists t, (t, Some i) ∈ topic_slots s.
Proof.
  rewrite active_ids_elem, <- zip_snd_ids, list_elem_of_fmap. split.
  - intros ([t o] & E & Hin). simpl in E. subst o. by exists t.
  - intros (t & Hin). by exists (t, Some i).
Qed.

(** Unsubscribing ends exactly the named subscription.  The slots are as before, except that the
    one with the id is empty; the ids stay distinct; and the answer is success with that slot's
    topic if there is one, not-found if there is none, and invalid for the id zero. *)
Theorem unsubscribe_exact request s :
  subs_wf s ->
  let '(s', frame) := handle_unsubscribe (X := X) request s in
  subs_wf s'
  /\ topic_slots s' = without_id (uq_subscription_id request) <$> topic_slots s
  /\ exists topic status, frame = subscription_result (uq_request_id request)
       (uq_subscription_id request) topic 0 status
     /\ (st_code status = ECOk <-> uq_subscription_id request ∈ active_ids s)
     /\ (st_code status = ECOk -> (topic, Some (uq_subscription_id request)) ∈ topic_slots s)
     /\ (uq_subscription_id request = 0 -> st_code status = ECInvalidArgument)
     /\ (uq_subscription_id request <> 0 -> st_code status = ECOk \/ st_code status = ECNotFound).
Proof.
  intros Hwf. unfold handle_unsubscribe. set (i := uq_subscription_id request). cbn zeta.
  pose proof (active_ids_slots s i) as Hact.
  destruct (Z.eqb_spec i 0) as [E0|E0].
  - split; [done|].
    assert (i ∉ active_ids s) as Hn.
    { intros Hin. destruct Hwf as [_ Hr]. eapply Forall_forall in Hr; [|exact Hin]. simpl in Hr. lia. }
    split.
    + symmetry. apply without_id_same, Forall_forall. intros [t o] Hin. simpl. intros ->. apply Hn, Hact. by exists t.
    + eexists TUnspecified, _. split; [by rewrite E0|]. split_and!; [split; [done|by intros ?%Hn]|done|done|done].
  - set (s' := {| system_sub := drop_state i (system_sub s) |}).
    assert (topic_slots s' = without_id i <$> topic_slots s) as Hslots.
    { unfold topic_slots, active_subscription_ids, s'. cbn [system_sub media_sub window_sub clipboard_sub
        action_catalog_sub action_output_sub notification_sub clipboard_sync_sub].
      rewrite !drop_state_id, drop_passive_id, !drop_event_id. done. }
    split; [|split; [done|]].
    + destruct Hwf as [W1 W2]. split; unfold active_ids in *; rewrite <- zip_snd_ids in *; rewrite Hslots, without_id_filter.
      * by apply NoDup_filter.
      * apply Forall_forall. intros x [_ Hx]%list_elem_of_filter. by eapply Forall_forall in W2; [|exact Hx].
    + eexists _, _. split; [reflexivity|]. destruct (topic_of i s) as [t|] eqn:Et.
      * rewrite bool_decide_false by done. apply topic_of_Some in Et; [|done]. simpl.
        split_and!; [|done|done|by left]. split; [|done]. intros _. apply Hact. by exists t.
      * rewrite bool_decide_true by done. simpl. split_and!; [|done|done|by right]. split; [done|].
        intros (t & Hin)%Hact. apply topic_of_Some in Hin; [|done]. congruence.
Qed.
End unsubscribe.

(** ** Witnesses *)

#[local] Existing Instance toy_limits.
#[local] Existing Instance toy_features.
#[local] Existing Instance toy_requests.
#[local] Existing Instance toy_sync_codes.
#[local] Existing Instance ReplicaWire.toy_syntax.
#[local] Instance toy_topics : TopicCodes :=
  {| topic_try_from := fun z => match z with
       | 0 => Some TUnspecified | 1 => Some TSystem | 2 => Some TMedia | 3 => Some TWindows
       | 4 => Some TClipboard | 5 => Some TActions | 6 => Some TActionOutput | 7 => Some TNotifications
       | 8 => Some TClipboardSync | _ => None end |}.
(** A frame is as long as the text of its output lines. *)
#[local] Instance toy_len : EncodedLen (ServerControlFrame unit) :=
  {| encoded_len f := match sc_body f with
       | Some (BEvent {| ev_data := Some (DActionOutput _ lines) |}) => total_len lines
       | _ => 16 end |}.

(** A line is dropped by a full queue, the receiver lags, the heartbeat reports both. *)
Definition wfiller : list (ServerControlFrame unit) := replicate 16 {| sc_body := Some (BOther tt) |}.
Definition wline : OutputLine := {| ol_action_id := "build"; ol_text := "done" |}.
Definition wbad : OutputLine := {| ol_action_id := ""; ol_text := "?" |}.
Definition wdropped : Delivery (X := unit) :=
  {| dl_sub := (push_action_output_event 50 wline (dl_sub (start 7 wfiller [])) (Some wfiller)).1;
     dl_queue := wfiller; dl_out := []; dl_received := [wline]; dl_issued := [(1, wline)]; dl_lags := [] |}.
Definition wlagged : Delivery (X := unit) :=
  {| dl_sub := (recv_action_output (Lagged 3) (dl_sub wdropped)).1; dl_queue := wfiller; dl_out := [];
     dl_received := [wline]; dl_issued := [(1, wline)]; dl_lags := [2] |}.
Definition wreported : Delivery (X := unit) :=
  {| dl_sub := (flush_action_gap (X := unit) 60 (dl_sub wlagged)).1; dl_queue := wfiller;
     dl_out := option_list (flush_action_gap 60 (dl_sub wlagged)).2;
     dl_received := [wline]; dl_issued := [(1, wline)]; dl_lags := [2] |}.
Definition wdiscarded : Delivery (X := unit) :=
  {| dl_sub := dl_sub wreported; dl_queue := wfiller; dl_out := dl_out wreported;
     dl_received := [wline; wbad]; dl_issued := [(1, wline)]; dl_lags := [2] |}.

Lemma wdiscarded_run : rtc deliver (start 7 wfiller []) wdiscarded.
Proof.
  apply (rtc_l _ _ wdropped).
  { apply (deliver_line (start 7 wfiller []) 50 wline); [by vm_compute| |by vm_compute].
    apply Requests.identifier_spec. by vm_compute. }
  apply (rtc_l _ _ wlagged).
  { apply (deliver_lag wdropped 3). vm_compute. reflexivity. }
  apply (rtc_l _ _ wreported).
  { apply (deliver_heartbeat wlagged 60 (dl_sub wreported)); vm_compute; reflexivity. }
  apply (rtc_l _ _ wdiscarded); [|done].
  apply (deliver_invalid wreported 70 wbad _ (Some wfiller)); [|by vm_compute].
  rewrite <- Requests.identifier_spec. by vm_compute.
Qed.


(** Two states of the windows: the second replaces the first, and the writer takes it. *)
Definition wstate0 : Latest (X := unit) :=
  {| lt_sub := {| ss_id := 3; ss_sequence := 0 |}; lt_frames := ∅; lt_out := []; lt_newest := None |}.
Definition wstate1 : Latest (X := unit) :=
  let r := push_window_event 50 40 [] [] (lt_sub wstate0) (lt_frames wstate0) in
  pushed wstate0 (Some (state_event 50 40 (DWindows {| wl_windows := []; wl_spaces := [] |}) (lt_sub wstate0))) r.1 r.2.
Definition wstate2 : Latest (X := unit) :=
  let r := push_window_event 60 55 [] [] (lt_sub wstate1) (lt_frames wstate1) in
  pushed wstate1 (Some (state_event 60 55 (DWindows {| wl_windows := []; wl_spaces := [] |}) (lt_sub wstate1))) r.1 r.2.
Definition wframe2 : ServerControlFrame unit :=
  event_frame 60 3 2 55 (DWindows {| wl_windows := []; wl_spaces := [] |}).
Definition wstate3 : Latest (X := unit) :=
  {| lt_sub := lt_sub wstate2; lt_frames := delete 3 (lt_frames wstate2);
     lt_out := lt_out wstate2 ++ [wframe2]; lt_newest := lt_newest wstate2 |}.
Lemma wstate_run : rtc (fun d d' => latest d d' /\ ss_sequence (lt_sub d) < u64_max) wstate0 wstate3.
Proof.
  apply (rtc_l _ _ wstate1).
  { split; [|done]. by apply (latest_window wstate0 50 40 [] []). }
  apply (rtc_l _ _ wstate2).
  { split; [|done]. by apply (latest_window wstate1 60 55 [] []). }
  apply (rtc_l _ _ wstate3); [|done]. split; [|done]. by apply latest_write.
Qed.
Lemma latest_state_newest_in_order_witness :
  sequences 3 (lt_out wstate3) = [2] /\ StronglySorted Z.lt (sequences 3 (lt_out wstate3))
  /\ lt_newest wstate3 = Some wframe2.
Proof.
  split; [reflexivity|].
  destruct (latest_state_newest_in_order 0 wstate0 wstate3) as (H1 & _ & H2);
    [intros k f Hf; exfalso; exact (lookup_empty_Some k f Hf)|reflexivity..|apply wstate_run|].
  split; [exact H1|reflexivity].
Defined.

(** A device that may read windows subscribes while id 9 is taken, and then unsubscribes. *)
Definition whost : Host :=
  {| h_now := 100; h_output_available := false; h_notifications_available := false;
     h_sync_available := false; h_latest_system := None; h_latest_media := None; h_spaces := [];
     h_latest_windows := Some (90, []); h_latest_clipboard := None; h_actions := None;
     h_notifications := None |}.
Definition wfeatures : gset Z := {[toy_feature_code FSubscriptions; toy_feature_code FWindows]}.
Definition wcapabilities : gset Requests.CapabilityId := {[Requests.WindowRead]}.
Definition wsubs : ConnectionSubscriptions := store_subscription TSystem 9 0 default_subscriptions.
Lemma wsubs_wf : subs_wf wsubs.
Proof. split; [apply NoDup_singleton|by constructor]. Qed.
Definition wsubscribe : SubscribeRequest := {| sq_request_id := 1; sq_topic := 3 |}.
Definition wsubs' : ConnectionSubscriptions := store_subscription TWindows 12 1 wsubs.
Lemma subscribe_exact_witness :
  handle_subscribe (X := unit) whost wfeatures wcapabilities [9; 12] wsubscribe wsubs
  = Some (wsubs', [subscription_result 1 12 TWindows 1 Negotiation.ok_status;
                   event_frame 100 12 1 90 (DWindows {| wl_windows := []; wl_spaces := [] |})])
  /\ subs_wf wsubs'.
Proof.
  split; [vm_compute; reflexivity|].
  exact (proj1 (subscribe_exact (X := unit) whost wfeatures wcapabilities [9; 12] wsubscribe wsubs wsubs_wf)).
Defined.

Lemma unsubscribe_exact_witness :
  topic_slots (handle_unsubscribe (X := unit) {| uq_request_id := 2; uq_subscription_id := 9 |} wsubs).1
  = without_id 9 <$> topic_slots wsubs
  /\ subs_wf (handle_unsubscribe (X := unit) {| uq_request_id := 2; uq_subscription_id := 9 |} wsubs).1.
Proof.
  pose proof (unsubscribe_exact (X := unit) {| uq_request_id := 2; uq_subscription_id := 9 |} wsubs wsubs_wf)
    as (Q1 & Q2 & _).
  split; [exact Q2|exact Q1].
Defined.

End Subscriptions.
