(* ===== verification/Handlers.v ===== *)
(** * Query and command handlers

    Models [handle_query] of [src/server/proto_handler/requests/queries.rs], [handle_command] of
    [commands.rs] and the query and command branches of [handle_request] in [control.rs].  What they
    ask of the host (the coordinator, its services and the capability provider) are calls, data of the
    model; a host answers each call from a state of its own.  So the calls of a request can be recorded
    and compared with what its sender was granted. *)

From Stdlib Require Import ZArith Lia Ascii String.
From stdpp Require Import base tactics option list strings gmap sorting.
From S2P Require Import Prelude Proto Text Negotiation Requests CommandCache CommandExec BlobStore.
From S2P Require Import ClipboardUpload RemoteFiles ReplicaWire Replication Snapshots.

Module Handlers.
Import ReplicaWire Snapshots.
Local Open Scope string_scope.
Local Open Scope list_scope.
Local Open Scope Z_scope.

Definition MAX_THUMBNAIL_WINDOW_IDS : Z := 64.
Definition MAX_COMMAND_OUTPUT_BYTES : Z := 256 * 1024.

(** ** Errors *)

(** [arcrelay_core::Error]: its kind and its text. *)
Inductive ErrorKind := OperationFailed | KindNotFound | KindUnsupported | KindUnavailable | KindInternal.
Record CoreError := { err_kind : ErrorKind; err_text : string }.
Definition core_error_code (error : CoreError) : ErrorCode :=
  match err_kind error with
  | OperationFailed => ECFailedPrecondition
  | KindNotFound => ECNotFound
  | KindUnsupported => ECUnsupported
  | KindUnavailable => ECUnavailable
  | KindInternal => ECInternal
  end.

Record CommandFailure := { cf_code : ErrorCode; cf_message : string }.
Definition invalid (message : string) : CommandFailure :=
  {| cf_code := ECInvalidArgument; cf_message := message |}.
Definition internal (message : string) : CommandFailure :=
  {| cf_code := ECInternal; cf_message := message |}.
Definition unsupported (message : string) : CommandFailure :=
  {| cf_code := ECUnsupported; cf_message := message |}.
Definition provider_failure (error : HostCapabilityError) : CommandFailure :=
  {| cf_code := protocol_code (hc_code error); cf_message := hc_message error |}.
Definition from_core (error : CoreError) : CommandFailure :=
  {| cf_code := core_error_code error; cf_message := err_text error |}.

(** ** Values exchanged with the host *)

Record Versioned (A : Type) := { v_revision : Z; v_captured_at_ms : Z; v_data : A }.
Arguments v_revision {_}.
Arguments v_captured_at_ms {_}.
Arguments v_data {_}.

(** [arcrelay_core]'s [ClipboardQuery], which is always sorted by [UpdatedAt] and never counts. *)
Record HistoryQuery := {
  hq_limit : Z;
  hq_cursor : option ClipboardCursor;
  hq_search : option string;
  hq_kinds : list Kind;
  hq_favorite_only : bool;
  hq_label_ids : list string;
}.
Record HistoryPage := { hp_entries : list ClipboardSummary; hp_next_cursor : option ClipboardCursor }.
(** The fields of a [WindowStateSample] that are sent. *)
Record WindowStateSample := { sample_windows : list WindowInfo; sample_spaces : list SpaceInfo }.
Record DeviceSyncPage `{!TextSyntaxCore} := {
  dsp_records : list (Z * ClipboardSyncRecord);
  dsp_next_cursor : option Z;
}.

(** ** Responses *)

Record DeviceSnapshot := {
  ds_local_device : option PLocalDeviceInfo;
  ds_config : option PConnectionConfig;
}.
Inductive SnapshotData :=
| SdSystem (s : PSystemSnapshot)
| SdProcesses (s : ProcessListSnapshot)
| SdMedia (s : MediaStateSnapshot)
| SdClipboard (s : ClipboardSnapshot)
| SdDevices (s : DeviceSnapshot)
| SdWindows (s : WindowListSnapshot)
| SdActions (s : ActionListSnapshot)
| SdActionOutput (action_id : string) (lines : list string)
| SdNotifications (s : NotificationListSnapshot)
| SdClipboardCollections (page : Replication.CollectionPage)
| SdClipboardSync (records : list SyncRecord) (next_cursor : option Z).
Record Snapshot := { sn_revision : Z; sn_captured_at_ms : Z; sn_data : SnapshotData }.
Inductive ResponseBody :=
| BSnapshot (s : Snapshot)
| BCommandResult (output : string)
| BBlobTicket (ticket : BlobTicket).
Notation Response := (CommandExec.Response ResponseBody).

(** [response_error] for any code: [error_id] is the random id of an internal error. *)
Definition error_response (error_id : string) (request_id : Z) (code : ErrorCode) (message : string)
  : Response :=
  {| CommandExec.rs_request_id := request_id;
     CommandExec.rs_status := Some (Negotiation.status error_id code message);
     CommandExec.rs_body := None |}.

(** A successful response, and the replacement of a frame that is too long. *)
Definition success (request_id : Z) (body : ResponseBody) : Response :=
  {| CommandExec.rs_request_id := request_id;
     CommandExec.rs_status := Some Negotiation.ok_status; CommandExec.rs_body := Some body |}.
Definition fit_response `{!WireLimits} (encoded_len : Response -> Z) (message : string)
    (frame : Response) : Response :=
  if encoded_len frame >? MAX_CONTROL_FRAME_SIZE
  then CommandExec.response_error (CommandExec.rs_request_id frame) ECResourceExhausted message
  else frame.

(** ** Queries *)

Section queries.
Context `{!Sha256} `{!WireLimits} `{!FeatureCodes}.
Context `{!TextSyntaxCore} `{!Requests.RequestCodes} `{!SyncCodes} `{!Replication.CollectionCore}.

(** What a query asks of the host.  An answer is an option where there may be no provider. *)
Inductive QueryCall : Type -> Type :=
| CurrentSystemSnapshot : QueryCall (result (Versioned SystemSnapshot) CoreError)
| QueryProcessList (sort : ProcessSort) : QueryCall (result (Versioned (list ProcessInfo)) CoreError)
| CurrentFocusedAppName : QueryCall (option string)
| CurrentMediaState : QueryCall (Versioned MediaState)
| History (query : HistoryQuery) : QueryCall (result HistoryPage CoreError)
| Policy : QueryCall (result ClipboardPolicy CoreError)
| Labels : QueryCall (result (list ClipboardLabel) CoreError)
| ClipboardRevision : QueryCall (result Z CoreError)
| LocalInfo : QueryCall (result LocalDeviceInfo CoreError)
| GetConfig : QueryCall (result ConnectionConfig CoreError)
| ListAllWindows : QueryCall (result (list WindowInfo) CoreError)
| ListSpaces : QueryCall (result (list SpaceInfo) CoreError)
| SampleWindowStateWithThumbnails (ids : list Z) : QueryCall (result WindowStateSample CoreError)
| SampleWindowState : QueryCall (result WindowStateSample CoreError)
| ProvidedActions : QueryCall (option (list QuickActionInfo * list AutomationInfo))
| ActionOutput (action_id : string) : QueryCall (option (list string))
| ListNotifications (include_read : bool) (limit : Z)
  : QueryCall (option (result (list HostNotificationInfo) HostCapabilityError))
| SyncPreferences : QueryCall Replication.Preferences
| Collections (after : string) : QueryCall (result (list Requests.ClipboardCollection) string)
| SyncRecords (after_local_id limit : Z) : QueryCall (result DeviceSyncPage CoreError).

Section handler.
Context {W : Type} (host : forall A, QueryCall A -> W -> W * A).
(** The wall clock read for the response, and for each synchronised record; the clock of the blob
    store; the owner of the blobs. *)
Context (now : Z) (record_now : nat -> Z) (times : nat -> Z * Z) (blob_owner : bytes).
Context (error_id : string).

(** The host's state with the blob store; an error is the code and message of the response. *)
Definition Q (A : Type) : Type := W * Store -> (W * Store) * result A (ErrorCode * string).
Definition qret {A} (a : A) : Q A := fun s => (s, Ok a).
Definition qfail {A} (code : ErrorCode) (message : string) : Q A := fun s => (s, Err (code, message)).
Definition qbind {A B} (m : Q A) (k : A -> Q B) : Q B :=
  fun s => match m s with (s, Ok a) => k a s | (s, Err e) => (s, Err e) end.
Definition ask {A} (call : QueryCall A) : Q A :=
  fun s => let '(w, a) := host A call s.1 in ((w, s.2), Ok a).
Definition lift {A} (r : result A (ErrorCode * string)) : Q A := fun s => (s, r).
(** A core call whose error becomes the response. *)
Definition core_result {A} (r : result A CoreError) : result A (ErrorCode * string) :=
  map_err (fun e => (core_error_code e, err_text e)) r.
Notation "'do?' x ':=' m 'in' k" := (qbind m (fun x => k))
  (at level 200, x pattern, m at level 100, k at level 200, right associativity).

Definition versioned {A} (v : Versioned A) (data : SnapshotData) : Snapshot :=
  {| sn_revision := Z.max (Text.protocol_u64 (v_revision v)) 1;
     sn_captured_at_ms := Text.protocol_timestamp now (v_captured_at_ms v); sn_data := data |}.
Definition current (revision : Z) (data : SnapshotData) : Snapshot :=
  {| sn_revision := revision; sn_captured_at_ms := now; sn_data := data |}.

Definition get_system : Q Snapshot :=
  do? r := ask CurrentSystemSnapshot in
  do? value := lift (core_result r) in
  qret (versioned value (SdSystem (build_system_snapshot (v_data value)))).

Definition list_processes (sort_by : Z) : Q Snapshot :=
  let sort := process_sort_from_proto (default Requests.SortCpu (Requests.process_sort_try_from sort_by)) in
  do? r := ask (QueryProcessList sort) in
  do? value := lift (core_result r) in
  do? focused := ask CurrentFocusedAppName in
  qret (versioned value (SdProcesses (build_process_snapshot (v_data value)
    ((fun name => Text.sanitize_text name 256) <$> focused)))).

Definition get_media : Q Snapshot :=
  do? value := ask CurrentMediaState in
  qret (versioned value (SdMedia (build_media_snapshot (v_data value)))).

(** The filters of a clipboard query. *)
Definition kind_to_core (kind : Requests.ContentKind) : option Kind :=
  match kind with
  | Requests.CkText => Some KText
  | Requests.CkHtml => Some KHtml
  | Requests.CkImage => Some KImage
  | Requests.CkFiles => Some KFiles
  | Requests.CkUnspecified => None
  end.
Definition history_query (request : Requests.ClipboardQuery) : HistoryQuery :=
  {| hq_limit := if Requests.history_limit request =? 0 then 20
                 else Z.min (Requests.history_limit request) Requests.MAX_CLIPBOARD_ITEMS;
     hq_cursor := match Requests.cursor_timestamp_ms request, Requests.cursor_id request with
                  | Some at_ms, Some id => Some {| cc_sort_at_ms := at_ms; cc_id := id |}
                  | _, _ => None
                  end;
     hq_search := if str_is_empty (trim (Requests.search request)) then None
                  else Some (trim (Requests.search request));
     hq_kinds := omap (fun k => Requests.content_kind_try_from k ≫= kind_to_core) (Requests.kinds request);
     hq_favorite_only := Requests.favorite_only request;
     hq_label_ids := Requests.label_ids request |}.
Definition with_labels (labels : list ClipboardLabel) (s : ClipboardSnapshot) : ClipboardSnapshot :=
  {| snap_history := snap_history s; snap_next_cursor_timestamp_ms := snap_next_cursor_timestamp_ms s;
     snap_next_cursor_id := snap_next_cursor_id s; snap_policy := snap_policy s;
     snap_labels := clipboard_label_to_proto <$> labels |}.
Definition unwrap_or {A E} (d : A) (r : result A E) : A :=
  match r with Ok a => a | Err _ => d end.

Definition get_clipboard (request : Requests.ClipboardQuery) : Q Snapshot :=
  do? r := ask (History (history_query request)) in
  do? page := lift (core_result r) in
  do? r := ask Policy in
  do? policy := lift (core_result r) in
  do? clipboard := lift (map_err (fun message => (ECResourceExhausted, message))
    (build_clipboard_snapshot (hp_entries page) policy (hp_next_cursor page) false)) in
  do? labels := ask Labels in
  do? revision := ask ClipboardRevision in
  qret (current (Z.max (unwrap_or 1 revision) 1) (SdClipboard (with_labels (unwrap_or [] labels) clipboard))).

Definition bounded_device (d : PLocalDeviceInfo) : PLocalDeviceInfo :=
  {| pdev_name := Text.sanitize_text (pdev_name d) 128; pdev_ip := Text.sanitize_text (pdev_ip d) 128;
     pdev_app_version := Text.sanitize_text (pdev_app_version d) 64; pdev_port := Z.min (pdev_port d) 65535 |}.
Definition bounded_config (c : PConnectionConfig) : PConnectionConfig :=
  {| pconf_port := Z.min (pconf_port c) 65535; pconf_encrypted := true;
     pconf_auto_reconnect := pconf_auto_reconnect c |}.
Definition result_ok {A E} (r : result A E) : option A := match r with Ok a => Some a | Err _ => None end.
Definition get_devices : Q Snapshot :=
  do? local := ask LocalInfo in
  do? config := ask GetConfig in
  qret (current 1 (SdDevices
    {| ds_local_device := (fun d => bounded_device (local_device_info_to_proto d)) <$> result_ok local;
       ds_config := (fun c => bounded_config (connection_config_to_proto c)) <$> result_ok config |})).

(** The distinct non-zero ids, in order. *)
Definition thumbnail_ids (requested : list Z) : list Z :=
  sort_by Z.leb (elements (list_to_set (filter (fun id => id <> 0) requested) : gset Z)).
Definition sample_windows_for (include_thumbnails : bool) (ids : list Z)
  : Q (result WindowStateSample CoreError) :=
  if include_thumbnails && is_empty ids then
    do? windows := ask ListAllWindows in
    match windows with
    | Ok windows =>
      do? spaces := ask ListSpaces in
      qret (Ok {| sample_windows := windows; sample_spaces := unwrap_or [] spaces |})
    | Err error => qret (Err error)
    end
  else if include_thumbnails then ask (SampleWindowStateWithThumbnails ids)
  else ask SampleWindowState.
(** [build_window_list] on the shared store. *)
Definition publish_windows (include_thumbnails : bool) (windows : list WindowInfo) : Q (list PWindowInfo) :=
  fun s => let '(store, out) := build_window_list times blob_owner include_thumbnails windows s.2 in
           ((s.1, store), Ok out).
Definition list_windows (can_read_blobs include_thumbnails : bool) (requested : list Z) : Q Snapshot :=
  let include_thumbnails := include_thumbnails && can_read_blobs in
  let ids := thumbnail_ids requested in
  if Z.of_nat (length ids) >? MAX_THUMBNAIL_WINDOW_IDS
  then qfail ECInvalidArgument "at most 64 thumbnail window IDs are allowed" else
  do? r := sample_windows_for include_thumbnails ids in
  do? sample := lift (core_result r) in
  do? windows := publish_windows include_thumbnails (sample_windows sample) in
  qret (current 1 (SdWindows {| wl_windows := windows;
                                wl_spaces := build_space_list (sample_spaces sample) |})).

Definition list_actions : Q Snapshot :=
  do? provided := ask ProvidedActions in
  qret (current 1 (SdActions (build_action_snapshot provided))).

Definition get_action_output (action_id : string) : Q Snapshot :=
  do? lines := ask (ActionOutput action_id) in
  qret (current 1 (SdActionOutput action_id
    match lines with Some lines => Text.bounded_action_output lines | None => [] end)).

Definition get_notifications (include_read : bool) (limit : Z) : Q Snapshot :=
  do? listed := ask (ListNotifications include_read (if limit =? 0 then 50 else Z.min limit 100)) in
  match listed with
  | None => qfail ECUnsupported "notifications are unavailable"
  | Some (Err error) => qfail (protocol_code (hc_code error)) (hc_message error)
  | Some (Ok notifications) =>
    qret (current 1 (SdNotifications {| nl_notifications := build_notification_info <$> notifications |}))
  end.

Definition get_clipboard_collections (after_id : string) : Q Snapshot :=
  do? p := ask SyncPreferences in
  match Replication.page_refused p after_id with
  | Some message => qfail ECFailedPrecondition message
  | None =>
    do? values := ask (Collections after_id) in
    do? page := lift (map_err (fun message => (ECFailedPrecondition, message))
                        (let? values := values in Replication.page_of p values)) in
    do? revision := ask ClipboardRevision in
    qret (current (unwrap_or 1 revision) (SdClipboardCollections page))
  end.

(** The loop over the records of a page: the first one that cannot be sent ends it. *)
Fixpoint convert_records (i : nat) (records : list ClipboardSyncRecord) : Q (list SyncRecord) :=
  match records with
  | [] => qret []
  | record :: records =>
    do? wire := (fun s => let '(store, r) := sync_record_to_proto (record_now i) times blob_owner record s.2 in
                          ((s.1, store), map_err (fun message => (ECResourceExhausted, message)) r)) in
    do? rest := convert_records (S i) records in
    qret (wire :: rest)
  end.
Definition get_clipboard_sync (after_local_id limit : Z) : Q Snapshot :=
  do? r := ask (SyncRecords after_local_id (Z.max 1 (Z.min 200 limit))) in
  do? page := lift (core_result r) in
  do? records := convert_records 0 (snd <$> dsp_records page) in
  do? revision := ask ClipboardRevision in
  qret (current (Z.max (unwrap_or 1 revision) 1) (SdClipboardSync records (dsp_next_cursor page))).

Definition query_snapshot (query : option Requests.QueryBody) (can_read_blobs : bool) : Q Snapshot :=
  match query with
  | Some Requests.GetSystem => get_system
  | Some (Requests.ListProcesses sort_by) => list_processes sort_by
  | Some Requests.GetMedia => get_media
  | Some (Requests.GetClipboard request) => get_clipboard request
  | Some Requests.GetDevices => get_devices
  | Some (Requests.ListWindows include_thumbnails ids) => list_windows can_read_blobs include_thumbnails ids
  | Some Requests.ListActions => list_actions
  | Some (Requests.GetActionOutput action_id) => get_action_output action_id
  | Some (Requests.GetNotifications include_read limit) => get_notifications include_read limit
  | Some (Requests.GetClipboardCollections after_id) => get_clipboard_collections after_id
  | Some (Requests.GetClipboardSync after_local_id limit) => get_clipboard_sync after_local_id limit
  | None => qfail ECInvalidArgument "empty query"
  end.

Definition handle_query (encoded_len : Response -> Z) (request_id : Z) (query : option Requests.QueryBody)
    (can_read_blobs : bool) (s : W * Store) : (W * Store) * Response :=
  match query_snapshot query can_read_blobs s with
  | (s, Err (code, message)) => (s, error_response error_id request_id code message)
  | (s, Ok snapshot) =>
    (s, fit_response encoded_len "query result exceeds the negotiated control-frame limit"
          (success request_id (BSnapshot snapshot)))
  end.

(** The query branch of [handle_request]. *)
Definition can_read_blobs (features : gset Z) (capabilities : gset Requests.CapabilityId) : bool :=
  (bool_decide (Requests.ClipboardRead ∈ capabilities) || bool_decide (Requests.ClipboardSync ∈ capabilities))
  && bool_decide (feature_code FBlobs ∈ features).
Definition query_request (encoded_len : Response -> Z) (request_id : Z) (idempotency_key : bytes)
    (query : option Requests.QueryBody) (features : gset Z) (capabilities : gset Requests.CapabilityId)
    (s : W * Store) : (W * Store) * Response :=
  if negb (is_empty idempotency_key)
  then (s, CommandExec.response_error request_id ECInvalidArgument "queries must not include an idempotency key")
  else match Requests.authorize_query request_id query features capabilities with
       | Err rejection => (s, CommandExec.into_frame rejection)
       | Ok _ => handle_query encoded_len request_id query (can_read_blobs features capabilities) s
       end.
End handler.
End queries.

(** ** Commands *)

Section commands.
Context `{!Sha256} `{!WireLimits} `{!FeatureCodes}.
Context `{!TextSyntaxCore} `{!Requests.RequestCodes} `{!SyncCodes}.

(** What a command asks of the core services and of the capability provider. *)
Inductive ServiceCall :=
| DoPlayback (action : Playback)
| DoSetSystemVolume (volume : Z)
| DoSetAppVolume (app_name : string) (volume : Z)
| DoSetMicrophone (active : bool)
| DoSetDnd (active : bool)
| DoKill (pid : Z)
| DoSetText (content : string)
| DoClearHistory
| DoPasteRecord (record_id : Z)
| DoDelete (record_id : Z)
| DoSetFavorite (record_id : Z) (favorite : bool)
| DoCreateLabel (name color : string)
| DoUpdateLabel (label_id name color : string)
| DoDeleteLabel (label_id : string)
| DoSetLabels (record_id : Z) (label_ids : list string)
| DoUpdatePolicy (policy : ClipboardPolicy)
| DoApplyCollection (record : Requests.ClipboardCollection)
| DoApplySyncRecord (record : ClipboardSyncRecord) (notify : bool)
| DoFocusWindow (window_id : Z)
| DoSwitchSpace (space_id : Z).
Inductive ProviderCall :=
| DoExecuteAction (action_id : string)
| DoRunAutomation (automation_id : string)
| DoSetAutomationEnabled (automation_id : string) (enabled : bool)
| DoCancelAutomation (activity_id : string)
| DoMarkNotificationRead (notification_id device_id device_name : string).

(** The services and the provider, if there is one.  A provider's answer is its output; only
    [execute_action] and [run_automation] have one. *)
Record CommandHost (W : Type) := {
  service : ServiceCall -> W -> W * result unit CoreError;
  provider : option (ProviderCall -> W -> W * result string HostCapabilityError);
}.
Arguments service {_}.
Arguments provider {_}.

(** The tasks a command leaves behind: a delayed push of fresh state. *)
Inductive Refresh := RefreshMedia | RefreshWindows.

(** A [u32] cast to [u8]. *)
Definition as_u8 (x : Z) : Z := x mod 256.

Section handler.
Context {W : Type} (host : CommandHost W).
(** The wall clock when a received record is validated again, the clock of the upload store, and
    the authenticated device. *)
Context (now : Z) (times : nat -> Z) (device_id device_name : string) (error_id : string).

(** The host and the uploads after a command, its output, the tasks it spawned and its result. *)
Record Outcome := {
  oc_state : W * Uploads;
  oc_output : string;
  oc_spawned : list Refresh;
  oc_result : result unit CommandFailure;
}.
Definition serve (spawn : list Refresh) (call : ServiceCall) (s : W * Uploads) : Outcome :=
  let '(w, r) := service host call s.1 in
  {| oc_state := (w, s.2); oc_output := EmptyString;
     oc_spawned := match r with Ok _ => spawn | Err _ => [] end; oc_result := map_err from_core r |}.
Definition fail (failure : CommandFailure) (s : W * Uploads) : Outcome :=
  {| oc_state := s; oc_output := EmptyString; oc_spawned := []; oc_result := Err failure |}.
Definition provide (has_output : bool) (unavailable : string) (call : ProviderCall) (s : W * Uploads)
  : Outcome :=
  match provider host with
  | None => fail (unsupported unavailable) s
  | Some provider =>
    let '(w, r) := provider call s.1 in
    {| oc_state := (w, s.2);
       oc_output := match r with Ok value => if has_output then value else EmptyString | Err _ => EmptyString end;
       oc_spawned := [];
       oc_result := match r with Ok _ => Ok tt | Err error => Err (provider_failure error) end |}
  end.

(** The [match] on the command; [None] is a failed [expect]. *)
Definition run_command (action : option Requests.Action) (s : W * Uploads) : option Outcome :=
  match action with
  | Some (Requests.PlaybackAction action) =>
    Some (serve [RefreshMedia] (DoPlayback (playback_action_from_proto
            (default Requests.PaPlay (Requests.playback_try_from action)))) s)
  | Some (Requests.SetSystemVolume volume) => Some (serve [RefreshMedia] (DoSetSystemVolume (as_u8 volume)) s)
  | Some (Requests.SetAppVolume app_name volume) =>
    Some (serve [RefreshMedia] (DoSetAppVolume app_name (as_u8 volume)) s)
  | Some (Requests.SetMicrophone active) => Some (serve [RefreshMedia] (DoSetMicrophone active) s)
  | Some (Requests.SetDnd active) => Some (serve [RefreshMedia] (DoSetDnd active) s)
  | Some (Requests.KillProcess pid) => Some (serve [] (DoKill pid) s)
  | Some (Requests.SetClipboard content) => Some (serve [] (DoSetText content) s)
  | Some Requests.ClearClipboardHistory => Some (serve [] DoClearHistory s)
  | Some (Requests.PasteClipboardRecord record_id) => Some (serve [] (DoPasteRecord record_id) s)
  | Some (Requests.DeleteClipboardRecord record_id) => Some (serve [] (DoDelete record_id) s)
  | Some (Requests.SetClipboardFavorite record_id favorite) => Some (serve [] (DoSetFavorite record_id favorite) s)
  | Some (Requests.CreateClipboardLabel name color) => Some (serve [] (DoCreateLabel name color) s)
  | Some (Requests.UpdateClipboardLabel label_id name color) => Some (serve [] (DoUpdateLabel label_id name color) s)
  | Some (Requests.DeleteClipboardLabel label_id) => Some (serve [] (DoDeleteLabel label_id) s)
  | Some (Requests.SetClipboardLabels record_id label_ids) => Some (serve [] (DoSetLabels record_id label_ids) s)
  | Some (Requests.UpdateClipboardPolicy policy) =>
    policy ← policy;
    Some (serve [] (DoUpdatePolicy {| pol_history_enabled := ppol_history_enabled policy;
                                      pol_retention_days := ppol_retention_days policy;
                                      pol_save_sensitive := ppol_save_sensitive policy |}) s)
  | Some (Requests.ApplyClipboardCollection format_version document_json) =>
    Some match Requests.collection_decode format_version document_json with
         | Ok record => serve [] (DoApplyCollection record) s
         | Err _ => fail (invalid "invalid clipboard collection") s
         end
  | Some (Requests.ApplyClipboardSyncRecord record) =>
    record ← record;
    '(uploads, r) ← sync_record_from_proto now times record device_id device_name s.2;
    Some match r with
         | Ok record => serve [] (DoApplySyncRecord record true) (s.1, uploads)
         | Err message => fail (invalid message) (s.1, uploads)
         end
  | Some (Requests.FocusWindow window_id) => Some (serve [] (DoFocusWindow window_id) s)
  | Some (Requests.SwitchSpace space_id) => Some (serve [RefreshWindows] (DoSwitchSpace space_id) s)
  | Some (Requests.ExecuteQuickAction action_id) =>
    Some (provide true "quick actions are unavailable" (DoExecuteAction action_id) s)
  | Some (Requests.RunAutomation automation_id) =>
    Some (provide true "automations unavailable" (DoRunAutomation automation_id) s)
  | Some (Requests.SetAutomationEnabled automation_id enabled) =>
    Some (provide false "automations unavailable" (DoSetAutomationEnabled automation_id enabled) s)
  | Some (Requests.CancelAutomation activity_id) =>
    Some (provide false "automations unavailable" (DoCancelAutomation activity_id) s)
  | Some (Requests.MarkNotificationRead notification_id) =>
    Some (provide false "notifications are unavailable"
            (DoMarkNotificationRead notification_id device_id device_name) s)
  | None => Some (fail (internal "empty command") s)
  end.

(** The response to an outcome. *)
Definition command_frame (request_id : Z) (output : string) (r : result unit CommandFailure) : Response :=
  match r with
  | Ok _ => success request_id
              (BCommandResult (Text.truncate_utf8 output (Z.to_nat MAX_COMMAND_OUTPUT_BYTES)))
  | Err error => error_response error_id request_id (cf_code error) (cf_message error)
  end.
Definition handle_command (encoded_len : Response -> Z) (request_id : Z) (action : option Requests.Action)
    (s : W * Uploads) : option ((W * Uploads) * list Refresh * Response) :=
  outcome ← run_command action s;
  Some (oc_state outcome, oc_spawned outcome,
    fit_response encoded_len "command result exceeds the negotiated control-frame limit"
      (command_frame request_id (oc_output outcome) (oc_result outcome))).

(** The command branch of [handle_request]: the guards; the first critical section on the command
    cache, then the second; the task that the leader spawns, which runs the command, completes it
    under the lock and publishes its result; the wait for the result ([None]: not there yet).
    [meanwhile] is what the other callers and tasks do to the cache at each of the awaits in
    between, [clock] the reading at each critical section; the caller that opened a channel is the
    leader.  A command whose task panicked, on an
    [expect] that comes before its call to the host, is answered with the text of the join error. *)
Definition command_request (encoded_len : Response -> Z) (now_ms : Z) (clock : nat -> Z)
    (meanwhile : nat -> CommandExec.state (Body := ResponseBody) -> CommandExec.state (Body := ResponseBody))
    (join_error : string) (request_id : Z)
    (device_public_key idempotency_key encoded_command : bytes) (action : option Requests.Action)
    (features : gset Z) (capabilities : gset Requests.CapabilityId)
    (cache : CommandExec.state (Body := ResponseBody)) (s : W * Uploads)
  : CommandExec.state (Body := ResponseBody) * (W * Uploads) * list Refresh * option Response :=
  match CommandExec.command_guard now_ms request_id idempotency_key action features capabilities with
  | Some frame => (cache, s, [], Some frame)
  | None =>
    let cache_key := CommandCache.new_key device_public_key idempotency_key in
    match CommandExec.check_cache (clock 0%nat) cache_key encoded_command request_id cache with
    | (cache, CommandExec.Reply frame) => (cache, s, [], Some frame)
    | (cache, _) =>
      let cache := meanwhile 0%nat cache in
      let channels := CommandExec.next_channel cache in
      match CommandExec.join_or_start (clock 1%nat) cache_key encoded_command request_id cache with
      | (cache, CommandExec.Wait result_rx) =>
        if Nat.eqb (CommandExec.next_channel cache) channels then
          let cache := meanwhile 1%nat cache in
          (cache, s, [], CommandExec.await result_rx request_id cache)
        else
          let '(s, spawned, response) :=
            match handle_command encoded_len request_id action s with
            | Some done => done
            | None => (s, [], error_response error_id request_id ECInternal ("command task failed: " ++ join_error))
            end in
          let cache := CommandExec.complete encoded_len (clock 2%nat) (clock 3%nat) result_rx response (meanwhile 1%nat cache) in
          let cache := CommandExec.publish result_rx (meanwhile 2%nat cache) in
          let cache := meanwhile 3%nat cache in
          (cache, s, spawned, CommandExec.await result_rx request_id cache)
      | (cache, CommandExec.Reply frame) => (cache, s, [], Some frame)
      | (cache, CommandExec.Proceed) => (cache, s, [], None)
      end
    end
  end.
End handler.
End commands.


(** ** What commands do *)

Section performed.
Context `{!Sha256} `{!WireLimits} `{!FeatureCodes}.
Context `{!TextSyntaxCore} `{!Requests.RequestCodes} `{!SyncCodes}.
Context {W : Type} (host : CommandHost W).
Context (now : Z) (times : nat -> Z) (device_id device_name : string) (error_id : string).

(** A call that was made, with its answer; a host that records them. *)
Inductive Performed :=
| PService (call : ServiceCall) (answer : result unit CoreError)
| PProvider (call : ProviderCall) (answer : result string HostCapabilityError).
Definition recorded : CommandHost (W * list Performed) :=
  {| service := fun call s =>
       let '(w, r) := service _ host call s.1 in ((w, s.2 ++ [PService call r]), r);
     provider := (fun p call s =>
       let '(w, r) := p call s.1 in ((w, s.2 ++ [PProvider call r]), r)) <$> provider _ host |}.

(** The capability a call exercises. *)
Definition call_capability (p : Performed) : Requests.CapabilityId :=
  match p with
  | PService (DoPlayback _ | DoSetSystemVolume _ | DoSetAppVolume _ _ | DoSetMicrophone _ | DoSetDnd _) _ =>
    Requests.MediaControl
  | PService (DoKill _) _ => Requests.ProcessManage
  | PService (DoSetText _ | DoClearHistory | DoPasteRecord _ | DoDelete _ | DoSetFavorite _ _
             | DoCreateLabel _ _ | DoUpdateLabel _ _ _ | DoDeleteLabel _ | DoSetLabels _ _
             | DoUpdatePolicy _) _ => Requests.ClipboardWrite
  | PService (DoApplyCollection _ | DoApplySyncRecord _ _) _ => Requests.ClipboardSync
  | PService (DoFocusWindow _ | DoSwitchSpace _) _ => Requests.WindowControl
  | PProvider (DoExecuteAction _ | DoRunAutomation _ | DoSetAutomationEnabled _ _ | DoCancelAutomation _) _ =>
    Requests.ActionExecute
  | PProvider (DoMarkNotificationRead _ _ _) _ => Requests.NotificationAcknowledge
  end.

(** The call is the one the command spells out. *)
Definition requested (a : Requests.Action) (p : Performed) : Prop :=
  match a, p with
  | Requests.PlaybackAction z, PService (DoPlayback x) _ =>
    exists q, Requests.playback_try_from z = Some q /\ q <> Requests.PaUnspecified
      /\ x = playback_action_from_proto q
  | Requests.SetSystemVolume v, PService (DoSetSystemVolume v') _ => v' = v /\ v <= 100
  | Requests.SetAppVolume n v, PService (DoSetAppVolume n' v') _ => n' = n /\ v' = v /\ v <= 100
  | Requests.SetMicrophone b, PService (DoSetMicrophone b') _ => b' = b
  | Requests.SetDnd b, PService (DoSetDnd b') _ => b' = b
  | Requests.KillProcess pid, PService (DoKill pid') _ => pid' = pid /\ pid <> 0
  | Requests.SetClipboard c, PService (DoSetText c') _ =>
    c' = c /\ slen c <= Requests.MAX_CLIPBOARD_TEXT_BYTES
  | Requests.ClearClipboardHistory, PService DoClearHistory _ => True
  | Requests.PasteClipboardRecord i, PService (DoPasteRecord i') _ => i' = i /\ i <> 0
  | Requests.DeleteClipboardRecord i, PService (DoDelete i') _ => i' = i /\ i <> 0
  | Requests.SetClipboardFavorite i b, PService (DoSetFavorite i' b') _ => i' = i /\ b' = b /\ i <> 0
  | Requests.CreateClipboardLabel n c, PService (DoCreateLabel n' c') _ =>
    n' = n /\ c' = c /\ trim n <> EmptyString
  | Requests.UpdateClipboardLabel l n c, PService (DoUpdateLabel l' n' c') _ => l' = l /\ n' = n /\ c' = c
  | Requests.DeleteClipboardLabel l, PService (DoDeleteLabel l') _ => l' = l /\ l <> EmptyString
  | Requests.SetClipboardLabels i ls, PService (DoSetLabels i' ls') _ => i' = i /\ ls' = ls /\ i <> 0
  | Requests.UpdateClipboardPolicy policy, PService (DoUpdatePolicy p) _ =>
    exists q, policy = Some q /\ pol_history_enabled p = ppol_history_enabled q
      /\ pol_retention_days p = ppol_retention_days q /\ pol_retention_days p <= 3650
      /\ pol_save_sensitive p = ppol_save_sensitive q
  | Requests.ApplyClipboardCollection v doc, PService (DoApplyCollection c) _ =>
    Requests.collection_decode v doc = Ok c
  | Requests.ApplyClipboardSyncRecord r, PService (DoApplySyncRecord c true) _ =>
    exists r', r = Some r' /\ source_device_id c = device_id /\ source_device_name c = device_name
      /\ updated_by_device_id c = device_id /\ favorite_updated_by_device_id c = device_id
      /\ labels c = [] /\ revision c = sr_revision r'
  | Requests.FocusWindow i, PService (DoFocusWindow i') _ => i' = i /\ i <> 0
  | Requests.SwitchSpace i, PService (DoSwitchSpace i') _ => i' = i /\ i <> 0
  | Requests.ExecuteQuickAction i, PProvider (DoExecuteAction i') _ => i' = i
  | Requests.RunAutomation i, PProvider (DoRunAutomation i') _ => i' = i
  | Requests.SetAutomationEnabled i b, PProvider (DoSetAutomationEnabled i' b') _ => i' = i /\ b' = b
  | Requests.CancelAutomation i, PProvider (DoCancelAutomation i') _ => i' = i
  | Requests.MarkNotificationRead i, PProvider (DoMarkNotificationRead i' d n) _ =>
    i' = i /\ d = device_id /\ n = device_name
  | _, _ => False
  end.

(** The response that tells the answer of a call. *)
Definition reported (request_id : Z) (p : Performed) : Response :=
  match p with
  | PService _ (Ok _) => success request_id (BCommandResult EmptyString)
  | PService _ (Err e) => error_response error_id request_id (core_error_code e) (err_text e)
  | PProvider (DoExecuteAction _ | DoRunAutomation _) (Ok out) =>
    success request_id (BCommandResult (Text.truncate_utf8 out (Z.to_nat MAX_COMMAND_OUTPUT_BYTES)))
  | PProvider _ (Ok _) => success request_id (BCommandResult EmptyString)
  | PProvider _ (Err e) =>
    error_response error_id request_id (protocol_code (hc_code e)) (hc_message e)
  end.

(** An outcome for action [a]: at most one call, the requested one, truthfully answered; without a
    call the command is refused; fresh state is pushed only after a successful service call. *)
Record performed_ok (request_id : Z) (a : Requests.Action) (o : Outcome (W := W * list Performed)) : Prop := {
  po_one : (length (oc_state o).1.2 <= 1)%nat;
  po_requested : Forall (fun p => requested a p
    /\ call_capability p ∈ Requests.command_privileges a) (oc_state o).1.2;
  po_frame : match (oc_state o).1.2 with
             | [] => exists f, oc_result o = Err f
                 /\ (cf_code f = ECInvalidArgument \/ cf_code f = ECUnsupported)
             | p :: _ => command_frame error_id request_id (oc_output o) (oc_result o) = reported request_id p
             end;
  po_spawned : oc_spawned o <> [] -> exists c, (oc_state o).1.2 = [PService c (Ok tt)];
}.

Lemma truncate_empty n : Text.truncate_utf8 EmptyString n = EmptyString.
Proof. by destruct n. Qed.

Lemma serve_ok request_id a spawn call w u :
  (forall r, requested a (PService call r)) ->
  (forall r, call_capability (PService call r) ∈ Requests.command_privileges a) ->
  performed_ok request_id a (serve recorded spawn call ((w, []), u)).
Proof.
  intros Hr Hc. unfold serve, recorded. cbn [service fst snd].
  destruct (service _ host call w) as [w' r]. split; cbn [oc_state oc_output oc_spawned oc_result fst snd app].
  - done.
  - by repeat constructor.
  - destruct r; [|done]. cbn [map_err command_frame reported]. by rewrite truncate_empty.
  - destruct r as [[]|]; [by eauto|done].
Qed.
Lemma fail_ok request_id a f w u :
  cf_code f = ECInvalidArgument \/ cf_code f = ECUnsupported ->
  performed_ok request_id a (fail f ((w, []), u)).
Proof. intros Hf. split; cbn; [lia|constructor|by eauto|done]. Qed.
Lemma provide_ok request_id a has_output unavailable call w u :
  (forall r, requested a (PProvider call r)) ->
  (forall r, call_capability (PProvider call r) ∈ Requests.command_privileges a) ->
  has_output = match call with DoExecuteAction _ | DoRunAutomation _ => true | _ => false end ->
  performed_ok request_id a (provide recorded has_output unavailable call ((w, []), u)).
Proof.
  intros Hr Hc ->. unfold provide, recorded. cbn [provider].
  destruct (provider _ host) as [p|]; [|by apply fail_ok; right]. cbn.
  destruct (p call w) as [w' r]. split; cbn [oc_state oc_output oc_spawned oc_result fst snd app].
  - done.
  - by repeat constructor.
  - destruct r as [out|]; [|by destruct call]. destruct call; cbn [command_frame reported]; by rewrite ?truncate_empty.
  - done.
Qed.
End performed.

Section commands_performed.
Context `{!Sha256} `{!WireLimits} `{!FeatureCodes}.
Context `{!TextSyntaxCore} `{!Requests.RequestCodes} `{!SyncCodes}.
Context {W : Type} (host : CommandHost W).
Context (now : Z) (times : nat -> Z) (device_id device_name : string) (error_id : string).

(** The [u32] fields that are cast to [u8]. *)
Definition typed (a : Requests.Action) : Prop :=
  match a with
  | Requests.SetSystemVolume v | Requests.SetAppVolume _ v => 0 <= v <= u32_max
  | _ => True
  end.

(** The outcome of a command as an option, its uploads well formed. *)
Definition runs_ok (request_id : Z) (a : Requests.Action) (r : option (Outcome (W := W * list Performed))) : Prop :=
  exists o, r = Some o /\ ClipboardUpload.wf (oc_state o).2.1
    /\ performed_ok device_id device_name error_id request_id a o.

Lemma serve_runs request_id a spawn call w u :
  (forall r, requested device_id device_name a (PService call r)) ->
  (forall r, call_capability (PService call r) ∈ Requests.command_privileges a) ->
  ClipboardUpload.wf u.1 -> runs_ok request_id a (Some (serve (recorded host) spawn call ((w, []), u))).
Proof.
  intros Hr Hc Hu. eexists. split; [done|]. split; [|by apply serve_ok].
  unfold serve. cbn. by destruct (service _ host call w).
Qed.
Lemma fail_runs request_id a f w u :
  cf_code f = ECInvalidArgument \/ cf_code f = ECUnsupported -> ClipboardUpload.wf u.1 ->
  runs_ok request_id a (Some (fail f ((w, []), u))).
Proof. intros Hf Hu. eexists. split; [done|]. split; [done|by apply fail_ok]. Qed.
Lemma provide_runs request_id a has_output unavailable call w u :
  (forall r, requested device_id device_name a (PProvider call r)) ->
  (forall r, call_capability (PProvider call r) ∈ Requests.command_privileges a) ->
  has_output = match call with DoExecuteAction _ | DoRunAutomation _ => true | _ => false end ->
  ClipboardUpload.wf u.1 ->
  runs_ok request_id a (Some (provide (recorded host) has_output unavailable call ((w, []), u))).
Proof.
  intros Hr Hc Ho Hu. eexists. split; [done|]. split; [|by apply provide_ok].
  unfold provide, recorded. cbn. destruct (provider _ host) as [p|]; [|done]. cbn. by destruct (p call w).
Qed.

Lemma run_command_ok request_id now0 a w u :
  Requests.validate_command now0 (Some a) = Ok tt -> typed a -> ClipboardUpload.wf u.1 ->
  runs_ok request_id a (run_command (recorded host) now times device_id device_name (Some a) ((w, []), u)).
Proof.
  intros Hv Ht Hu. destruct a; cbn [run_command];
    try (apply provide_runs; [intros r; cbn; try done|intros r; cbn; set_solver|done|done]);
    try (apply serve_runs; [intros r; cbn in *;
           repeat match goal with H : (if ?b then _ else _) = Ok tt |- _ => destruct b eqn:?; try discriminate H end;
           bool_arith; try lia; try done; unfold as_u8; rewrite ?Z.mod_small by lia; try lia; try done
         |intros r; cbn; set_solver|done]).
  - destruct (Requests.playback_try_from action) as [q|] eqn:Eq; [|done]. exists q. by destruct q.
  - split; [done|]. split; [done|]. intros E. by rewrite E in *.
  - split; [done|]. intros E. by rewrite E in *.
  - cbn in Hv. destruct policy as [q|]; [|done]. cbn.
    apply serve_runs; [|intros r; cbn; set_solver|done]. intros r. cbn. exists q.
    destruct (_ >? _) eqn:E; [done|]. bool_arith. repeat split; lia.
  - destruct (Requests.collection_decode _ _) as [c|e] eqn:Ec; [|by apply fail_runs; [left|]].
    apply serve_runs; [|intros r; cbn; set_solver|done]. intros r. exact Ec.
  - cbn in Hv. destruct record0 as [r|]; [|done]. cbn [mbind option_bind snd fst].
    destruct (sync_record_from_proto_ok now times r device_id device_name u Hu) as (u' & res & E & Hu' & Hout).
    rewrite E. cbn [mbind option_bind]. destruct res as [out|e]; [|by apply fail_runs; [left|]].
    destruct (Hout out eq_refl) as (Q1 & Q2 & Q3 & Q4 & Q5 & Q6 & Q7 & Q8 & _).
    apply serve_runs; [|intros x; cbn; set_solver|done]. intros x. cbn. by exists r.
Qed.

(** The whole branch: what the host was called for was authorised. *)
Lemma command_request_calls encoded_len now_ms clock meanwhile join_error request_id key idempotency_key encoded
    action features capabilities cache w u cache' w' log u' spawned response :
  match action with Some a => typed a | None => True end -> ClipboardUpload.wf u.1 ->
  command_request (recorded host) now times device_id device_name error_id encoded_len now_ms clock meanwhile join_error
    request_id key idempotency_key encoded action features capabilities cache ((w, []), u)
    = (cache', ((w', log), u'), spawned, response) ->
  Forall (fun p => (exists a, action = Some a /\ requested device_id device_name a p)
                   /\ call_capability p ∈ capabilities) log.
Proof.
  intros Ht Hu. unfold command_request, CommandExec.command_guard.
  destruct (negb _); [by intros [= _ _ <- _ _ _]|].
  destruct (Requests.authorize_command _ _ _ _ _) as [[]|rej] eqn:Ea; [|by intros [= _ _ <- _ _ _]].
  apply Requests.authorize_command_Ok in Ea as (a & -> & Hv & _ & Hp).
  destruct (CommandExec.check_cache _ _ _ _ _) as [c1 o1]. destruct (run_command_ok request_id now_ms a w u Hv Ht Hu) as (o & Ho & _ & [_ P2 _ _]).
  unfold handle_command. rewrite Ho. cbn [mbind option_bind]. cbn beta zeta iota.
  destruct o1; [by intros [= _ _ <- _ _ _]|..];
    (destruct (CommandExec.join_or_start _ _ _ _ _) as [c2 [frame| |ch]]; [by intros [= _ _ <- _ _ _]..|];
     destruct (Nat.eqb _ _); [by intros [= _ _ <- _ _ _]|]; intros [= _ Eo _ _]; rewrite Eo in P2;
     eapply Forall_impl; [exact P2|]; intros p [Hr Hc]; split; [by exists a|by apply Hp]).
Qed.

(** C5: an authorised command does what it says, once.  When a command passes authorisation, running
    it never panics, keeps the upload store's invariant and makes at most one call to the host: the
    one it spells out, with its arguments intact (volumes survive the cast to a byte, playback
    actions are not defaulted, received records carry the authenticated device), and exercising a
    capability the peer was granted.  The response has the request's id and tells the call's answer
    truthfully, or names a size limit; without a call it is an error; fresh state is pushed only
    after success. *)
Theorem authorized_command_performed encoded_len now0 request_id a features capabilities w u :
  Requests.authorize_command now0 request_id (Some a) features capabilities = Ok tt ->
  typed a -> ClipboardUpload.wf u.1 ->
  exists w' log u' spawned response,
    handle_command (recorded host) now times device_id device_name error_id encoded_len request_id (Some a)
      ((w, []), u) = Some (((w', log), u'), spawned, response)
    /\ ClipboardUpload.wf u'.1
    /\ (length log <= 1)%nat
    /\ Forall (fun p => requested device_id device_name a p /\ call_capability p ∈ capabilities) log
    /\ CommandExec.rs_request_id response = request_id
    /\ (exists frame, response = fit_response encoded_len
          "command result exceeds the negotiated control-frame limit" frame
        /\ match log with
           | [] => exists code message, frame = error_response error_id request_id code message
                     /\ (code = ECInvalidArgument \/ code = ECUnsupported)
           | p :: _ => frame = reported error_id request_id p
           end)
    /\ (spawned <> [] -> exists c, log = [PService c (Ok tt)]).
Proof.
  intros (a' & [= <-] & Hv & _ & Hp)%Requests.authorize_command_Ok Ht Hu.
  destruct (run_command_ok request_id now0 a w u Hv Ht Hu) as (o & Ho & Hwf & [P1 P2 P3 P4]).
  destruct (oc_state o) as [[w' log] u'] eqn:Eo. cbn [fst snd] in *.
  exists w', log, u', (oc_spawned o). eexists. unfold handle_command. rewrite Ho. cbn. rewrite Eo.
  split; [done|]. split; [done|]. split; [done|]. split.
  { eapply Forall_impl; [exact P2|]. intros p [Hr Hc]. split; [done|by apply Hp]. }
  assert (CommandExec.rs_request_id (command_frame error_id request_id (oc_output o) (oc_result o)) = request_id)
    as Hid by (by destruct (oc_result o)).
  split; [unfold fit_response; by destruct (_ >? _)|]. split; [|done].
  eexists. split; [done|]. destruct log as [|p log]; [|done].
  destruct P3 as (f & -> & Hf). by exists (cf_code f), (cf_message f).
Qed.
End commands_performed.

(** ** What queries read *)

Section asked.
Context `{!Sha256} `{!WireLimits} `{!FeatureCodes}.
Context `{!TextSyntaxCore} `{!Requests.RequestCodes} `{!SyncCodes} `{!Replication.CollectionCore}.
Context {W : Type} (host : forall A, QueryCall A -> W -> W * A).
Context (now : Z) (record_now : nat -> Z) (times : nat -> Z * Z) (blob_owner : bytes) (error_id : string).

(** A call of any type; a host that records the calls. *)
Definition Asked : Type := sigT QueryCall.
Definition recording (A : Type) (call : QueryCall A) (s : W * list Asked) : (W * list Asked) * A :=
  let '(w, a) := host A call s.1 in ((w, s.2 ++ [existT A call]), a).

(** The capabilities that entitle to a call. *)
Definition entitled (c : Requests.CapabilityId) (asked : Asked) : Prop :=
  match projT2 asked with
  | CurrentSystemSnapshot | LocalInfo | GetConfig => c = Requests.SystemRead
  | QueryProcessList _ | CurrentFocusedAppName => c = Requests.ProcessRead
  | CurrentMediaState => c = Requests.MediaRead
  | History _ | Policy | Labels => c = Requests.ClipboardRead
  | ClipboardRevision => c = Requests.ClipboardRead \/ c = Requests.ClipboardSync
  | ListAllWindows | ListSpaces | SampleWindowStateWithThumbnails _ | SampleWindowState =>
    c = Requests.WindowRead
  | ProvidedActions | ActionOutput _ => c = Requests.ActionRead
  | ListNotifications _ _ => c = Requests.NotificationRead
  | SyncPreferences | Collections _ | SyncRecords _ _ => c = Requests.ClipboardSync
  end.

(** The arguments of a call are those of the query, within the bounds of the protocol; windows are
    captured only when the query asks for it and the peer may fetch the images. *)
Definition within (query : Requests.QueryBody) (blobs : bool) (asked : Asked) : Prop :=
  match projT2 asked with
  | History q => exists request, query = Requests.GetClipboard request
      /\ 1 <= hq_limit q <= 200 /\ length (hq_kinds q) = length (Requests.kinds request)
      /\ hq_label_ids q = Requests.label_ids request
      /\ (Requests.cursor_id request = None <-> hq_cursor q = None)
  | ListAllWindows => exists ids, query = Requests.ListWindows true ids /\ blobs = true
  | SampleWindowStateWithThumbnails captured =>
    exists ids, query = Requests.ListWindows true ids /\ blobs = true
      /\ (forall id, id ∈ captured <-> id ∈ ids /\ id <> 0) /\ NoDup captured
      /\ 1 <= Z.of_nat (length captured) <= MAX_THUMBNAIL_WINDOW_IDS
  | ActionOutput id => query = Requests.GetActionOutput id
  | ListNotifications include_read limit =>
    (exists l, query = Requests.GetNotifications include_read l) /\ 1 <= limit <= 100
  | Collections after => query = Requests.GetClipboardCollections after
  | SyncRecords after limit => (exists l, query = Requests.GetClipboardSync after l) /\ 1 <= limit <= 200
  | _ => True
  end.

(** A computation whose calls all satisfy [P], that leaves the blob store alone if [keep], and
    whose results satisfy [post]. *)
Definition runs (P : Asked -> Prop) (keep : bool) {A} (post : A -> Prop) (m : Q (W := W * list Asked) A) : Prop :=
  forall w log s s' r, m ((w, log), s) = (s', r) ->
  (exists new, s'.1.2 = log ++ new /\ Forall P new) /\ (keep = true -> s'.2 = s)
  /\ forall a, r = Ok a -> post a.

Lemma runs_lift P keep {A} (post : A -> Prop) (x : result A (ErrorCode * string)) :
  (forall a, x = Ok a -> post a) -> runs P keep post (lift x).
Proof.
  intros Hx w log s s' r [= <- <-]. split; [exists []; by rewrite app_nil_r|]. split; [done|]. exact Hx.
Qed.
Lemma runs_ret P keep {A} (post : A -> Prop) (a : A) : post a -> runs P keep post (qret a).
Proof. intros Ha. apply (runs_lift P keep post (Ok a)). by intros ? [= <-]. Qed.
Lemma runs_fail P keep {A} (post : A -> Prop) code message : runs P keep post (qfail code message).
Proof. by apply (runs_lift P keep post (Err (code, message))). Qed.
Lemma runs_ask (P : Asked -> Prop) keep {A} (post : A -> Prop) (call : QueryCall A) :
  P (existT A call) -> (forall a, post a) -> runs P keep post (ask recording call).
Proof.
  intros Hp Hpost w log s s' r. unfold ask, recording. cbn [fst snd].
  destruct (host A call w) as [w' a]. intros [= <- <-].
  split; [exists [existT A call]; split; [done|]; by constructor|]. by split.
Qed.
Lemma runs_bind P keep {A B} (mid : A -> Prop) (post : B -> Prop) (m : Q A) (k : A -> Q B) :
  runs P keep mid m -> (forall a, mid a -> runs P keep post (k a)) -> runs P keep post (qbind m k).
Proof.
  intros Hm Hk w log s s' r. unfold qbind. destruct (m ((w, log), s)) as [[[w1 log1] s1] [a|e]] eqn:E;
    destruct (Hm _ _ _ _ _ E) as ((n1 & L1 & F1) & K1 & R1); cbn in L1, K1; subst log1.
  - intros Ek. destruct (Hk a (R1 a eq_refl) _ _ _ _ _ Ek) as ((n2 & L2 & F2) & K2 & R2).
    split; [|split; [intros Hkeep; by rewrite K2, K1|done]].
    exists (n1 ++ n2). rewrite L2, <- app_assoc. split; [done|]. by apply Forall_app.
  - intros [= <- <-]. split; [by exists n1|]. split; [done|]. by intros ? [=].
Qed.
(** The usual cases: what is asked or checked first matters only for what it asks. *)
Lemma runs_ask_bind (P : Asked -> Prop) keep {A B} (post : B -> Prop) (call : QueryCall A) (k : A -> Q B) :
  P (existT A call) -> (forall a, runs P keep post (k a)) -> runs P keep post (qbind (ask recording call) k).
Proof. intros Hp Hk. eapply (runs_bind _ _ (fun _ => True)); [by apply runs_ask|]. intros a _. apply Hk. Qed.
Lemma runs_lift_bind P keep {A B} (post : B -> Prop) (x : result A (ErrorCode * string)) (k : A -> Q B) :
  (forall a, x = Ok a -> runs P keep post (k a)) -> runs P keep post (qbind (lift x) k).
Proof. intros Hk. eapply (runs_bind _ _ (fun a => x = Ok a)); [by apply runs_lift|]. exact Hk. Qed.

Lemma window_list_meta owner ws s :
  build_window_list times owner false ws s = (s, build_window_meta_list ws).
Proof.
  unfold build_window_list, build_window_meta_list, pure_loop.
  rewrite !bounded_loop_eq by (unfold MAX_WINDOW_ITEMS; cbn; lia). cbn [app].
  assert (forall l (s : Store), emit_all (window_with_blob times owner false) l s
    = (s, bounded_window_meta <$> l)) as He.
  { induction l as [|x l IH]; intros s0; [done|]. cbn [emit_all]. unfold window_with_blob at 1.
    rewrite IH. rewrite fmap_cons. by destruct x. }
  rewrite He. rewrite emit_all_pure. done.
Qed.
Lemma runs_publish P keep include windows :
  (keep = true -> include = false) ->
  runs P keep (fun out => include = false -> Forall (fun o => pwin_thumbnail o = None) out)
    (publish_windows times blob_owner include windows).
Proof.
  intros Hk w log s s' r. unfold publish_windows. cbn [fst snd].
  destruct (build_window_list _ _ _ _ _) as [s1 out] eqn:E. intros [= <- <-].
  split; [exists []; by rewrite app_nil_r|]. cbn. destruct include.
  - split; [by intros ?%Hk|by intros ? [= <-]].
  - rewrite window_list_meta in E. injection E as <- <-. split; [done|]. intros ? [= <-] _.
    unfold build_window_meta_list. rewrite pure_loop_eq by (unfold MAX_WINDOW_ITEMS; lia).
    apply Forall_fmap, Forall_true. done.
Qed.
Lemma runs_convert P i records : runs P false (fun _ => True) (convert_records record_now times blob_owner i records).
Proof.
  revert i. induction records as [|x records IH]; intros i; cbn [convert_records]; [by apply runs_ret|].
  eapply (runs_bind _ _ (fun _ => True)); [|intros wire _; eapply (runs_bind _ _ (fun _ => True)); [apply IH|intros rest _; by apply runs_ret]].
  intros w log s s' r. cbn [fst snd]. destruct (sync_record_to_proto _ _ _ _ _) as [s1 res].
  intros [= <- <-]. split; [exists []; by rewrite app_nil_r|]. by split.
Qed.

Lemma thumbnail_ids_spec requested :
  NoDup (thumbnail_ids requested)
  /\ forall id, id ∈ thumbnail_ids requested <-> id ∈ requested /\ id <> 0.
Proof.
  unfold thumbnail_ids. split.
  - rewrite sort_by_perm. apply NoDup_elements.
  - intros id. rewrite sort_by_perm, elem_of_elements, elem_of_list_to_set, list_elem_of_filter. tauto.
Qed.

Lemma kinds_kept request :
  Requests.validate_query (Some (Requests.GetClipboard request)) = Ok tt ->
  length (hq_kinds (history_query request)) = length (Requests.kinds request)
  /\ Requests.history_limit request <= 200
  /\ (Requests.cursor_id request = None <-> hq_cursor (history_query request) = None).
Proof.
  cbn. unfold Requests.MAX_CLIPBOARD_ITEMS. destruct (_ >? 200) eqn:E1; [done|].
  destruct (_ || _); [done|]. destruct (_ || _) eqn:E3; [done|]. destruct (existsb _ _) eqn:E4; [done|]. intros _.
  split; [|split; [bool_arith; lia|]].
  - induction (Requests.kinds request) as [|k ks IH]; [done|]. cbn in E4. apply orb_false_iff in E4 as [E4 E5].
    cbn. destruct (Requests.content_kind_try_from k) as [[]|]; try discriminate E4; cbn; f_equal; by apply IH.
  - apply orb_false_iff in E3 as [E3 _]. apply negb_false_iff, Bool.eqb_prop in E3.
    destruct (Requests.cursor_timestamp_ms request), (Requests.cursor_id request); try done;
      cbn in E3; repeat case_bool_decide; naive_solver.
Qed.

(** The [u32] limits of a query. *)
Definition typed_query (q : Requests.QueryBody) : Prop :=
  match q with
  | Requests.GetClipboard request => 0 <= Requests.history_limit request
  | Requests.GetNotifications _ limit => 0 <= limit
  | _ => True
  end.
(** A query that puts blobs into the store. *)
Definition publishes (q : Requests.QueryBody) (blobs : bool) : bool :=
  match q with
  | Requests.ListWindows include_thumbnails _ => include_thumbnails && blobs
  | Requests.GetClipboardSync _ _ => true
  | _ => false
  end.
(** A snapshot answers a query: it is of its kind, dated, and no larger or more telling than the
    query allows. *)
Definition answers (q : Requests.QueryBody) (blobs : bool) (snap : Snapshot) : Prop :=
  0 < sn_captured_at_ms snap /\
  match q, sn_data snap with
  | Requests.GetSystem, SdSystem _ | Requests.ListProcesses _, SdProcesses _ | Requests.GetMedia, SdMedia _
  | Requests.GetDevices, SdDevices _ | Requests.ListActions, SdActions _ => 0 < sn_revision snap
  | Requests.GetClipboard _, SdClipboard c => 0 < sn_revision snap /\ (length (snap_history c) <= 200)%nat
  | Requests.ListWindows include_thumbnails _, SdWindows wl =>
    include_thumbnails && blobs = false -> Forall (fun o => pwin_thumbnail o = None) (wl_windows wl)
  | Requests.GetActionOutput id, SdActionOutput id' lines =>
    id' = id /\ Z.of_nat (length lines) <= Text.MAX_ACTION_OUTPUT_LINES
  | Requests.GetNotifications _ _, SdNotifications _ => True
  | Requests.GetClipboardCollections _, SdClipboardCollections _ => True
  | Requests.GetClipboardSync _ _, SdClipboardSync _ _ => 0 < sn_revision snap
  | _, _ => False
  end.

Lemma history_loop_length skip seen l out : history_loop skip seen l = Ok out -> (length out <= length l)%nat.
Proof.
  revert seen out. induction l as [|x l IH]; intros seen out; cbn [history_loop]; [by intros [= <-]|].
  destruct (_ >? _); [destruct skip; [intros ?%IH; cbn; lia|done]|].
  destruct (_ || _); [intros ?%IH; cbn; lia|].
  destruct (history_loop skip _ l) as [rest|] eqn:E; [|done]. intros [= <-]. apply IH in E. cbn. lia.
Qed.
Lemma clipboard_snapshot_length entries policy cursor skip c :
  build_clipboard_snapshot entries policy cursor skip = Ok c -> (length (snap_history c) <= 200)%nat.
Proof.
  unfold build_clipboard_snapshot. destruct (history_loop _ _ _) as [h|] eqn:E; [|done]. intros [= <-].
  apply history_loop_length in E. rewrite length_take in E. cbn. unfold MAX_CLIPBOARD_ITEMS in E. lia.
Qed.

(** What a query may ask for, and the calls it makes. *)
Definition may_ask (q : Requests.QueryBody) (blobs : bool) (asked : Asked) : Prop :=
  entitled (Requests.query_requires q).2 asked /\ within q blobs asked.
Notation query_calls q blobs m :=
  (runs (may_ask q blobs) (negb (publishes q blobs)) (answers q blobs) m).

Lemma clipboard_runs request blobs :
  0 < now -> Requests.validate_query (Some (Requests.GetClipboard request)) = Ok tt ->
  0 <= Requests.history_limit request ->
  query_calls (Requests.GetClipboard request) blobs (get_clipboard recording now request).
Proof.
  intros Hnow Hv Ht. destruct (kinds_kept _ Hv) as (Hk & Hl & Hc). apply runs_ask_bind.
  { split; [done|]. exists request. split; [done|]. split; [|done]. cbn in *.
    unfold Requests.MAX_CLIPBOARD_ITEMS. destruct (_ =? 0) eqn:E; bool_arith; lia. }
  intros r. apply runs_lift_bind. intros page _. apply runs_ask_bind; [by split|]. intros r'.
  apply runs_lift_bind. intros policy _. apply runs_lift_bind. intros c Hbuild.
  destruct (build_clipboard_snapshot _ _ _ _) as [c'|] eqn:E; [|done]. injection Hbuild as <-.
  apply clipboard_snapshot_length in E.
  apply runs_ask_bind; [by split|]. intros ls. apply runs_ask_bind; [split; [by left|done]|]. intros rev.
  apply runs_ret. split; [done|]. cbn. split; [lia|done].
Qed.
Lemma windows_runs include_thumbnails ids blobs :
  0 < now -> query_calls (Requests.ListWindows include_thumbnails ids) blobs
    (list_windows recording now times blob_owner blobs include_thumbnails ids).
Proof.
  intros Hnow. unfold list_windows. destruct (thumbnail_ids_spec ids) as [Hnd Hids].
  destruct (Z.of_nat _ >? _) eqn:El; [apply runs_fail|]. bool_arith.
  eapply (runs_bind _ _ (fun _ => True)).
  { unfold sample_windows_for. destruct (include_thumbnails && blobs) eqn:Ei; cbn [andb].
    - apply andb_true_iff in Ei as [-> ->]. destruct (thumbnail_ids _) as [|x xs] eqn:Et; cbn [is_empty].
      + apply runs_ask_bind; [split; [done|by eexists]|]. intros [windows|e]; [|by apply runs_ret].
        apply runs_ask_bind; [by split|]. intros sp. by apply runs_ret.
      + apply runs_ask; [|done]. split; [done|]. exists ids. split_and!; try done. cbn in *. lia.
    - apply runs_ask; [by split|done]. }
  intros r _. apply runs_lift_bind. intros sample _.
  eapply runs_bind; [apply runs_publish; cbn [publishes]; intros ?%negb_true_iff; done|].
  intros ws Hws. apply runs_ret. by split.
Qed.
Lemma query_runs q blobs :
  0 < now -> Requests.validate_query (Some q) = Ok tt -> typed_query q ->
  query_calls q blobs (query_snapshot recording now record_now times blob_owner (Some q) blobs).
Proof.
  intros Hnow Hv Ht.
  assert (forall t, 0 < Text.protocol_timestamp now t) as Hts.
  { intros t. unfold Text.protocol_timestamp. destruct (t >? 0) eqn:E; bool_arith; lia. }
  destruct q; cbn [query_snapshot]; [| | |by apply clipboard_runs| |by apply windows_runs|..].
  - apply runs_ask_bind; [by split|]. intros r. apply runs_lift_bind. intros v _.
    apply runs_ret. split; [apply Hts|cbn; lia].
  - apply runs_ask_bind; [by split|]. intros r. apply runs_lift_bind. intros v _.
    apply runs_ask_bind; [by split|]. intros f. apply runs_ret. split; [apply Hts|cbn; lia].
  - apply runs_ask_bind; [by split|]. intros v. apply runs_ret. split; [apply Hts|cbn; lia].
  - apply runs_ask_bind; [by split|]. intros l. apply runs_ask_bind; [by split|]. intros c.
    apply runs_ret. by split.
  - apply runs_ask_bind; [by split|]. intros p. apply runs_ret. by split.
  - apply runs_ask_bind; [by split|]. intros [lines|]; apply runs_ret; split; try done; split; try done.
    apply Text.bounded_action_output_sound.
  - unfold get_notifications. apply runs_ask_bind.
    { split; [done|]. split; [by eexists|]. cbn in Ht. destruct (_ =? 0) eqn:E; bool_arith; lia. }
    intros [[ns|e]|]; [apply runs_ret; by split|apply runs_fail..].
  - unfold get_clipboard_collections. apply runs_ask_bind; [by split|]. intros p.
    destruct (Replication.page_refused p after_id); [apply runs_fail|].
    apply runs_ask_bind; [by split|]. intros vs. apply runs_lift_bind. intros page _.
    apply runs_ask_bind; [split; [by right|done]|]. intros rev. apply runs_ret. by split.
  - unfold get_clipboard_sync. apply runs_ask_bind; [split; [done|split; [by eexists|lia]]|].
    intros r. apply runs_lift_bind. intros page _.
    eapply (runs_bind _ _ (fun _ => True)); [apply runs_convert|]. intros rs _.
    apply runs_ask_bind; [split; [by right|done]|]. intros rev. apply runs_ret. split; [done|cbn; lia].
Qed.
(** The calls of a query from a peer, whether it is refused or served. *)
Lemma query_request_calls encoded_len request_id key q features capabilities w store w' log store' response :
  0 < now -> typed_query q ->
  query_request recording now record_now times blob_owner error_id encoded_len request_id key (Some q)
    features capabilities ((w, []), store) = (((w', log), store'), response) ->
  Forall (fun asked => (exists c, c ∈ capabilities /\ entitled c asked)
                       /\ within q (can_read_blobs features capabilities) asked) log.
Proof.
  intros Hnow Ht. unfold query_request. destruct (negb (is_empty key)); [by intros [= _ <- _ _]; constructor|].
  destruct (Requests.authorize_query _ _ _ _) as [[]|rej] eqn:Ea; [|by intros [= _ <- _ _]; constructor].
  apply Requests.authorize_query_Ok in Ea as (q' & [= <-] & Hv & _ & Hc). unfold handle_query.
  destruct (query_snapshot _ _ _ _ _ _ _ _) as [s1 r] eqn:E.
  destruct (query_runs q _ Hnow Hv Ht _ _ _ _ _ E) as ((new & Hlog & HF) & _ & _).
  assert (Forall (fun asked => (exists c, c ∈ capabilities /\ entitled c asked)
    /\ within q (can_read_blobs features capabilities) asked) s1.1.2) as Hall.
  { rewrite Hlog. eapply Forall_impl; [exact HF|]. intros asked [? ?]. split; [by eexists|done]. }
  destruct r as [snap|[code message]]; intros [= -> _]; exact Hall.
Qed.

Lemma plain_error request_id code message :
  code <> ECInternal ->
  CommandExec.response_error request_id code message = error_response error_id request_id code message.
Proof.
  intros Hc. unfold CommandExec.response_error, error_response, Negotiation.status.
  by rewrite !(bool_decide_false _ Hc).
Qed.
Lemma rejection_id request_id q features capabilities rej :
  Requests.authorize_query request_id q features capabilities = Err rej ->
  Requests.rej_request_id rej = request_id /\ Requests.rej_code rej <> ECInternal.
Proof.
  unfold Requests.authorize_query. destruct (Requests.validate_query q); [|by intros [= <-]].
  destruct q as [body|]; [|by intros [= <-]]. destruct (Requests.query_requires body) as [f c].
  unfold Requests.require_feature, Requests.require_capability.
  case_bool_decide; [|by intros [= <-]]. cbn. case_bool_decide; [done|by intros [= <-]].
Qed.

(** C14: a query reads only what it may.  Whatever the query, every question it puts to the host is
    covered by a capability the peer was granted and has arguments within the protocol's bounds; in
    particular windows are captured only for a peer that asked for thumbnails and may fetch blobs,
    and only the windows it named.  The response has the request's id; it is an error, or a snapshot
    of the kind asked for, dated and bounded, that fits a control frame; and the blob store is
    touched only by queries that publish blobs. *)
Theorem query_reads_only_granted encoded_len request_id key q features capabilities w store w' log store' response :
  0 < now -> typed_query q ->
  query_request recording now record_now times blob_owner error_id encoded_len request_id key (Some q)
    features capabilities ((w, []), store) = (((w', log), store'), response) ->
  let blobs := can_read_blobs features capabilities in
  Forall (fun asked => (exists c, c ∈ capabilities /\ entitled c asked) /\ within q blobs asked) log
  /\ CommandExec.rs_request_id response = request_id
  /\ (publishes q blobs = false -> store' = store)
  /\ match CommandExec.rs_body response with
     | None => exists code message, response = error_response error_id request_id code message
     | Some (BSnapshot snap) => answers q blobs snap /\ encoded_len response <= MAX_CONTROL_FRAME_SIZE
     | Some (BCommandResult _ | BBlobTicket _) => False
     end.
Proof.
  intros Hnow Ht Hq. split; [by eapply query_request_calls|]. revert Hq. unfold query_request. cbn zeta.
  set (blobs := can_read_blobs features capabilities). destruct (negb (is_empty key)).
  { intros [= <- <- <- <-]. split; [done|]. split; [done|]. eexists _, _. by apply plain_error. }
  destruct (Requests.authorize_query _ _ _ _) as [[]|rej] eqn:Ea; last first.
  { intros [= <- <- <- <-]. destruct (rejection_id _ _ _ _ _ Ea) as [Hid Hcode].
    split; [exact Hid|]. split; [done|]. cbn. exists (Requests.rej_code rej), (Requests.rej_message rej).
    unfold CommandExec.into_frame. rewrite Hid. by apply plain_error. }
  apply Requests.authorize_query_Ok in Ea as (q' & [= <-] & Hv & _ & _).
  unfold handle_query. destruct (query_snapshot _ _ _ _ _ _ _ _) as [s1 r] eqn:E.
  destruct (query_runs q blobs Hnow Hv Ht _ _ _ _ _ E) as (_ & Hkeep & Hans).
  destruct r as [snap|[code message]]; intros [= -> <-]; cbn [fst snd] in *.
  - unfold fit_response. destruct (_ >? _) eqn:El.
    + split; [done|]. split; [by intros Hp; apply Hkeep; rewrite Hp|]. eexists _, _. by apply plain_error.
    + split; [done|]. split; [by intros Hp; apply Hkeep; rewrite Hp|]. cbn. split; [by apply Hans|].
      bool_arith. lia.
  - split; [done|]. split; [by intros Hp; apply Hkeep; rewrite Hp|]. by eexists _, _.
Qed.
End asked.

(** ** Witnesses *)

#[local] Existing Instance toy_digest.
#[local] Existing Instance toy_limits.
#[local] Existing Instance toy_features.
#[local] Existing Instance toy_syntax.
#[local] Existing Instance toy_requests.
#[local] Existing Instance toy_sync_codes.
#[local] Instance toy_collections : Replication.CollectionCore :=
  {| Replication.col_id := fun c => c; Replication.col_revision := fun _ => 1;
     Replication.col_updated_by := fun _ => "left"; Replication.col_favorite := fun _ => false;
     Replication.col_favorite_revision := fun _ => 1; Replication.col_favorite_updated_by := fun _ => "left";
     Replication.col_deleted := fun _ => false; Replication.col_with_favorite := fun _ _ _ c => c;
     Replication.col_to_json := Some; Replication.col_json_bytes := fun _ => [] |}.
Definition toy_response_len (r : Response) : Z := 100.

(** A host that counts its calls and sets the volume. *)
Definition whost : CommandHost nat :=
  {| service := fun _ n => (S n, Ok tt); provider := None |}.
Lemma authorized_command_performed_witness :
  Requests.authorize_command 50 7 (Some (Requests.SetSystemVolume 55)) {[toy_feature_code FMedia]}
    {[Requests.MediaControl]} = Ok tt
  /\ exists w' log u' spawned response,
    handle_command (recorded whost) 50 (fun _ => 0) "phone" "Phone" "id" toy_response_len 7
      (Some (Requests.SetSystemVolume 55)) ((0%nat, []), (ClipboardUpload.default_store, 0%nat))
      = Some (((w', log), u'), spawned, response)
    /\ CommandExec.rs_request_id response = 7.
Proof.
  split; [vm_compute; reflexivity|].
  destruct (authorized_command_performed whost 50 (fun _ => 0) "phone" "Phone" "id" toy_response_len 50 7
    (Requests.SetSystemVolume 55) {[toy_feature_code FMedia]} {[Requests.MediaControl]} 0%nat
    (ClipboardUpload.default_store, 0%nat)) as (w' & log & u' & sp & r & E & _ & _ & _ & Hid & _).
  - vm_compute. reflexivity.
  - unfold typed, u32_max. lia.
  - apply ClipboardUpload.default_store_wf.
  - exists w', log, u', sp, r. split; [exact E|exact Hid].
Defined.

(** A host with one window and nothing else. *)
Definition wanswer (A : Type) (call : QueryCall A) (w : unit) : unit * A :=
  let failed := {| err_kind := KindUnavailable; err_text := "unavailable" |} in
  let window := {| win_window_id := 5; win_title := "t"; win_app_name := "a"; win_is_focused := true;
                   win_thumbnail_png := [Byte.x01]; win_space_id := 1 |} in
  (tt, match call in QueryCall A return A with
       | CurrentSystemSnapshot => Err failed
       | QueryProcessList _ => Err failed
       | CurrentFocusedAppName => None
       | CurrentMediaState => {| v_revision := 1; v_captured_at_ms := 1; v_data :=
           {| media_playback := None; media_volume := {| vol_system_volume := 0; vol_is_muted := false |};
              media_app_volumes := []; media_microphone_active := false; media_dnd_active := false |} |}
       | History _ => Err failed
       | Policy => Err failed
       | Labels => Err failed
       | ClipboardRevision => Err failed
       | LocalInfo => Err failed
       | GetConfig => Err failed
       | ListAllWindows => Ok [window]
       | ListSpaces => Ok []
       | SampleWindowStateWithThumbnails _ => Ok {| sample_windows := [window]; sample_spaces := [] |}
       | SampleWindowState => Ok {| sample_windows := [window]; sample_spaces := [] |}
       | ProvidedActions => None
       | ActionOutput _ => None
       | ListNotifications _ _ => None
       | SyncPreferences => Replication.Build_Preferences false false false
       | Collections _ => Err "unavailable"
       | SyncRecords _ _ => Err failed
       end).
Definition wquery : ((unit * list Asked) * Store) * Response :=
  query_request (recording wanswer) 50 (fun _ => 50) wtimes wowner "id" toy_response_len 9 []
    (Some (Requests.ListWindows true [5; 0; 5])) {[toy_feature_code FWindows; toy_feature_code FBlobs]}
    {[Requests.WindowRead; Requests.ClipboardRead]} ((tt, []), (BlobStore.new, 0%nat)).
Lemma query_reads_only_granted_witness :
  length wquery.1.1.2 = 1%nat
  /\ Forall (within (Requests.ListWindows true [5; 0; 5]) true) wquery.1.1.2
  /\ CommandExec.rs_request_id wquery.2 = 9.
Proof.
  split; [vm_compute; reflexivity|].
  destruct (query_reads_only_granted wanswer 50 (fun _ => 50) wtimes wowner "id" toy_response_len 9 []
    (Requests.ListWindows true [5; 0; 5]) {[toy_feature_code FWindows; toy_feature_code FBlobs]}
    {[Requests.WindowRead; Requests.ClipboardRead]} tt (BlobStore.new, 0%nat) wquery.1.1.1 wquery.1.1.2
    wquery.1.2 wquery.2) as (HF & Hid & _).
  - lia.
  - exact I.
  - change (wquery = (wquery.1.1.1, wquery.1.1.2, wquery.1.2, wquery.2)). by destruct wquery as [[[] ] ].
  - split; [|exact Hid]. eapply Forall_impl; [exact HF|]. intros asked [_ Hw]. exact Hw.
Defined.

End Handlers.
