(* ===== verification/Providers.v ===== *)
(** * Providers of host capabilities

    Models the traits [ActionProvider], [WorkflowProvider] and [NotificationProvider] of
    [src/server/types.rs] with their default methods, the bundle the server takes, and what the
    server makes of it: the calls of [Handlers], the sources of [Subscriptions], and the features it
    offers ([serve_control_session] in [src/server.rs]).  Of a broadcast receiver the model keeps
    whether there is one; what it yields is an input of [Subscriptions]. *)

From Stdlib Require Import ZArith Lia String.
From stdpp Require Import base tactics option list strings gmap sorting.
From S2P Require Import Prelude Proto Negotiation Requests ClipboardUpload CommandExec ReplicaWire Replication Snapshots Subscriptions Handlers.

Module Providers.
Import Snapshots Handlers.
Local Open Scope string_scope.
Local Open Scope list_scope.
Local Open Scope Z_scope.

(** ** The traits *)

Section traits.
Context {W : Type}.

Record ActionProvider := {
  list_actions : W -> W * list QuickActionInfo;
  execute_action : string -> W -> W * result string HostCapabilityError;
  subscribe_output : bool;
  get_action_output : string -> W -> W * list string;
}.
Record WorkflowProvider := {
  list_automations : W -> W * list AutomationInfo;
  run_automation : string -> W -> W * result string HostCapabilityError;
  set_automation_enabled : string -> bool -> W -> W * result unit HostCapabilityError;
  cancel_automation : string -> W -> W * result unit HostCapabilityError;
}.
Record NotificationProvider := {
  notifications_available : bool;
  subscribe_notifications : bool;
  list_notifications : bool -> Z -> W -> W * result (list HostNotificationInfo) HostCapabilityError;
  mark_notification_read : string -> string -> string -> W -> W * result HostNotificationInfo HostCapabilityError;
}.
Record HostCapabilityProvider := {
  actions : ActionProvider;
  workflows : WorkflowProvider;
  notifications : NotificationProvider;
}.

(** The default methods, for hosts that do not override them. *)
Definition host_error (code : HostCapabilityErrorCode) (message : string) : HostCapabilityError :=
  {| hc_code := code; hc_message := message |}.
Definition default_subscribe_output : bool := false.
Definition default_get_action_output (_ : string) (w : W) : W * list string := (w, []).
Definition default_workflow : WorkflowProvider :=
  {| list_automations := fun w => (w, []);
     run_automation := fun _ w => (w, Err (host_error HcUnsupported "automations unavailable"));
     set_automation_enabled := fun _ _ w => (w, Err (host_error HcUnsupported "automations unavailable"));
     cancel_automation := fun _ w => (w, Err (host_error HcUnsupported "automations unavailable")) |}.
Definition default_notifications : NotificationProvider :=
  {| notifications_available := false;
     subscribe_notifications := false;
     list_notifications := fun _ _ w => (w, Err (host_error HcUnsupported "notifications are unavailable"));
     mark_notification_read :=
       fun _ _ _ w => (w, Err (host_error HcUnsupported "notifications are unavailable")) |}.

(** ** What the server makes of a provider *)

(** The calls of [handle_command]; only [execute_action] and [run_automation] have an output. *)
Definition without_output {A} (r : W * result A HostCapabilityError) : W * result string HostCapabilityError :=
  (r.1, match r.2 with Ok _ => Ok EmptyString | Err e => Err e end).
Definition provider_call (p : HostCapabilityProvider) (call : ProviderCall) (w : W)
  : W * result string HostCapabilityError :=
  match call with
  | DoExecuteAction action_id => execute_action (actions p) action_id w
  | DoRunAutomation id => run_automation (workflows p) id w
  | DoSetAutomationEnabled id enabled => without_output (set_automation_enabled (workflows p) id enabled w)
  | DoCancelAutomation id => without_output (cancel_automation (workflows p) id w)
  | DoMarkNotificationRead id device_id device_name =>
    without_output (mark_notification_read (notifications p) id device_id device_name w)
  end.
End traits.
Arguments ActionProvider : clear implicits.
Arguments WorkflowProvider : clear implicits.
Arguments NotificationProvider : clear implicits.
Arguments HostCapabilityProvider : clear implicits.

Section server.
Context `{!Sha256} `{!WireLimits} `{!FeatureCodes}.
Context `{!ReplicaWire.TextSyntaxCore} `{!Requests.RequestCodes} `{!SyncCodes} `{!Replication.CollectionCore}.
Context {W : Type}.

Definition command_host (services : ServiceCall -> W -> W * result unit CoreError)
    (p : option (HostCapabilityProvider W)) : CommandHost W :=
  {| service := services; provider := provider_call <$> p |}.

(** The questions of [handle_query] that go to the provider; [rest] answers the others. *)
Definition list_provided (p : HostCapabilityProvider W) (w : W)
  : W * option (list QuickActionInfo * list AutomationInfo) :=
  let '(w, provided_actions) := list_actions (actions p) w in
  let '(w, provided_automations) := list_automations (workflows p) w in
  (w, Some (provided_actions, provided_automations)).
Definition query_host (p : option (HostCapabilityProvider W)) (rest : forall A, QueryCall A -> W -> W * A)
    (A : Type) (call : QueryCall A) : W -> W * A :=
  match call with
  | ProvidedActions => fun w => match p with Some p => list_provided p w | None => (w, None) end
  | ActionOutput id => fun w =>
    match p with Some p => prod_map (fun w => w) Some (get_action_output (actions p) id w) | None => (w, None) end
  | ListNotifications include_read limit => fun w =>
    match p with
    | Some p => prod_map (fun w => w) Some (list_notifications (notifications p) include_read limit w)
    | None => (w, None)
    end
  | call => rest _ call
  end.

(** The sources [handle_subscribe] asks for a receiver. *)
Definition sources (p : option (HostCapabilityProvider W)) (h : Subscriptions.Host) : Subscriptions.Host :=
  {| Subscriptions.h_now := Subscriptions.h_now h;
     Subscriptions.h_output_available :=
       match p with Some p => subscribe_output (actions p) | None => false end;
     Subscriptions.h_notifications_available :=
       match p with Some p => subscribe_notifications (notifications p) | None => false end;
     Subscriptions.h_sync_available := Subscriptions.h_sync_available h;
     Subscriptions.h_latest_system := Subscriptions.h_latest_system h;
     Subscriptions.h_latest_media := Subscriptions.h_latest_media h;
     Subscriptions.h_spaces := Subscriptions.h_spaces h;
     Subscriptions.h_latest_windows := Subscriptions.h_latest_windows h;
     Subscriptions.h_latest_clipboard := Subscriptions.h_latest_clipboard h;
     Subscriptions.h_actions := Subscriptions.h_actions h;
     Subscriptions.h_notifications := Subscriptions.h_notifications h |}.

(** The features a session is offered, as [serve_control_session] asks for them. *)
Definition offered (p : option (HostCapabilityProvider W)) (remote_files input workspace : bool)
  : list Negotiation.FeatureVersion :=
  Negotiation.server_features (bool_decide (is_Some p))
    (match p with Some p => notifications_available (notifications p) | None => false end)
    remote_files input workspace.

(** ** Hosts that implement actions only *)

Definition minimal (a : ActionProvider W) : HostCapabilityProvider W :=
  {| actions := a; workflows := default_workflow; notifications := default_notifications |}.
(** The commands such a host leaves to the defaults. *)
Definition left_to_defaults (a : Requests.Action) : bool :=
  match a with
  | Requests.RunAutomation _ | Requests.SetAutomationEnabled _ _ | Requests.CancelAutomation _
  | Requests.MarkNotificationRead _ => true
  | _ => false
  end.

Lemma server_features_offered a n r i w f :
  Negotiation.feature f ∈ Negotiation.server_features a n r i w <-> f ∈ Negotiation.offered_features a n r i w.
Proof.
  unfold Negotiation.server_features. rewrite merge_sort_Permutation, list_elem_of_fmap. split.
  - intros (f' & E & Hin). replace f with f'; [done|].
    apply feature_code_inj. by injection E.
  - intros Hin. by exists f.
Qed.

(** A host that implements actions only is honest about it: notifications are not among the features
    it offers nor can they be subscribed to, its automations are an empty list, and whatever command
    goes to a default method is answered as unsupported without touching the host. *)
Lemma minimal_host_honest services a now times d name error_id encoded_len id action w u :
  left_to_defaults action = true ->
  (forall r i wk, Negotiation.feature FNotifications ∉ offered (Some (minimal a)) r i wk)
  /\ (forall w, (list_provided (minimal a) w).2 = Some ((list_actions a w).2, []))
  /\ (forall h features capabilities, is_Some (Subscriptions.refusal (sources (Some (minimal a)) h) features capabilities
       Subscriptions.TNotifications))
  /\ exists message,
       handle_command (command_host services (Some (minimal a))) now times d name error_id encoded_len id (Some action) (w, u)
       = Some ((w, u), [], fit_response encoded_len "command result exceeds the negotiated control-frame limit"
                             (error_response error_id id ECUnsupported message)).
Proof.
  intros Hd. split_and!.
  - intros r i wk. unfold offered. rewrite server_features_offered. unfold Negotiation.offered_features. cbn.
    intros Hin. destruct r, i, wk; cbn in Hin; set_solver.
  - intros w0. unfold list_provided. cbn. by destruct (list_actions a w0).
  - intros h features capabilities. unfold Subscriptions.refusal. cbn. by repeat case_match.
  - destruct action; try discriminate Hd; by eexists.
Qed.
End server.
End Providers.
