(* ===== verification/Pairing.v ===== *)
(** * Pairing

    Models the pairing side of [src/server.rs]: [handle_v1_pairing] with the decoding, validation
    and encoding of grant constraints, and [grant_to_proto] of [requests/control.rs].  The network
    runtime, which keeps the paired peers and their grants, and the user's answer are parameters.
    A pairing starts with the stream the peer opened, once it holds the pairing gate, which lets one
    run at a time; failures of the transport while the response is written are left out. *)

From Stdlib Require Import ZArith Lia Ascii String.
From stdpp Require Import base tactics option list strings gmap.
From S2P Require Import Prelude Proto Requests RemoteFiles Snapshots.

Module Pairing.
Import RemoteFiles.
Local Open Scope string_scope.
Local Open Scope list_scope.
Local Open Scope Z_scope.

(** ** Messages *)

(** [common::GrantConstraints], whose [oneof] has one variant and may be unset. *)
Record WireConstraints := { wc_kind : option (list string * bool) }.
Record CapabilityGrant := {
  wg_capability : string;
  wg_direction : Z;
  wg_constraints : option WireConstraints;
  wg_granted_at_ms : Z;
}.
Record PairingRequest := { requested_grants : list CapabilityGrant }.
Record PairingResult := { pr_paired : bool; pr_peer_id : string; pr_error : string }.
Record PairingResponse := {
  rp_result : option PairingResult;
  granted_grants : list CapabilityGrant;
}.
(** [common::GrantDirection], by its variants. *)
Inductive WireDirection := WdUnspecified | WdInbound | WdOutbound.

(** The tokens of capabilities ([CapabilityId::parse_token] and [token]). *)
Class CapabilityTokens `{!Requests.RequestCodes} := {
  parse_token : string -> option Requests.CapabilityId;
  parse_token_token : forall c, parse_token (Requests.token c) = Some c;
}.

(** The peer of a session, as the transport authenticated it. *)
Record Peer := { peer_device_id : string; peer_public_key : bytes; peer_name : string }.
(** [StoredPeer]: what is known of a paired peer. *)
Record StoredPeer := { sp_device_id : string; sp_public_key : bytes }.

(** [PairingRequestForApproval], without the channel for the answer. *)
Record PairingRequestForApproval := {
  pa_device_name : string;
  pa_device_id : string;
  pa_pairing_code : string;
  pa_requested_grants : list Grant;
}.
Record PairingApproval := {
  accepted : bool;
  approved_grants : list (Requests.CapabilityId * GrantDirection);
}.
(** What comes of asking the user: the channel is closed, no answer within the time limit (or the
    channel for it dropped), or an answer. *)
Inductive UserAnswer := UiStopped | NoAnswer | Answered (approval : PairingApproval).

(** The operations of the network runtime that pairing uses, on its state. *)
Record Network (N : Type) := {
  paired_peers : N -> N * result (list StoredPeer) string;
  confirm_pairing_with_grants : Peer -> list Grant -> N -> N * result unit string;
  local_device_id : string;
}.
Arguments paired_peers {_}.
Arguments confirm_pairing_with_grants {_}.
Arguments local_device_id {_}.

(** What the peer opened the stream with. *)
Record FeatureStream := {
  feature_id : string;
  minor_negotiated : bool;
  opening_payload : bytes;
}.

(** ** Constraints *)

Definition decode_pairing_constraints (constraints : option WireConstraints)
  : result GrantConstraints string :=
  match constraints with
  | None => Ok GNone
  | Some {| wc_kind := None |} => Err "unknown or empty grant constraints"
  | Some {| wc_kind := Some (share_ids, writable) |} => Ok (GRemoteFileShares share_ids writable)
  end.
Definition encode_pairing_constraints (constraints : GrantConstraints) : option WireConstraints :=
  match constraints with
  | GNone => None
  | GRemoteFileShares share_ids writable => Some {| wc_kind := Some (share_ids, writable) |}
  end.

(** The [any] over the share ids, with the set of those seen. *)
Fixpoint bad_shares (seen : gset string) (share_ids : list string) : bool :=
  match share_ids with
  | [] => false
  | id :: share_ids =>
    str_is_empty id || (slen id >? 256) || bool_decide (id ∈ seen)
    || bad_shares ({[id]} ∪ seen) share_ids
  end.
Definition validate_grant_constraints (capability : Requests.CapabilityId) (constraints : GrantConstraints)
  : result unit string :=
  match constraints with
  | GNone => Ok tt
  | GRemoteFileShares share_ids writable =>
    if negb (bool_decide (capability = Requests.RemoteFilesRead)
             || bool_decide (capability = Requests.RemoteFilesWrite))
       || (bool_decide (capability = Requests.RemoteFilesRead) && writable)
       || (bool_decide (capability = Requests.RemoteFilesWrite) && negb writable)
       || (Z.of_nat (length share_ids) >? 128)
    then Err "invalid remote-file grant constraints" else
    if bad_shares ∅ share_ids then Err "invalid remote-file share constraint" else Ok tt
  end.

Section pairing.
Context `{!WireLimits} `{!Requests.RequestCodes} `{!CapabilityTokens} `{!ProstEnum WireDirection}.
Context `{!ProstMessage PairingRequest} `{!ProstMessage PairingResponse} `{!FrameTransport}.

Definition direction_from_wire (z : Z) : result GrantDirection string :=
  match try_from z with
  | Some WdInbound => Ok Inbound
  | Some WdOutbound => Ok Outbound
  | _ => Err "invalid pairing grant direction"
  end.
Definition direction_to_wire (d : GrantDirection) : Z :=
  as_i32 match d with Inbound => WdInbound | Outbound => WdOutbound end.

(** The body of the loop over the requested grants. *)
Definition decode_request (peer_id : string) (now : Z) (seen : gset (Requests.CapabilityId * bool))
    (wire : CapabilityGrant) : result Grant string :=
  if str_is_empty (wg_capability wire) || (slen (wg_capability wire) >? 128)
     || negb (wg_granted_at_ms wire =? 0)
  then Err "invalid pairing capability request" else
  let? capability := ok_or (parse_token (wg_capability wire))
                       ("unknown capability " +:+ wg_capability wire) in
  let? direction := direction_from_wire (wg_direction wire) in
  if bool_decide ((capability, bool_decide (direction = Inbound)) ∈ seen)
  then Err "duplicate pairing capability request" else
  let? constraints := decode_pairing_constraints (wg_constraints wire) in
  let? _ := validate_grant_constraints capability constraints in
  Ok {| g_peer_id := peer_id; g_capability := capability; g_direction := direction;
        g_constraints := constraints; g_granted_at_ms := now |}.
Fixpoint decode_requests (peer_id : string) (now : Z) (seen : gset (Requests.CapabilityId * bool))
    (wires : list CapabilityGrant) : result (list Grant) string :=
  match wires with
  | [] => Ok []
  | wire :: wires =>
    let? grant := decode_request peer_id now seen wire in
    let? rest := decode_requests peer_id now
                   ({[(g_capability grant, bool_decide (g_direction grant = Inbound))]} ∪ seen) wires in
    Ok (grant :: rest)
  end.

(** The request of a stream, decoded and checked. *)
Definition pairing_request (peer : Peer) (now : Z) (stream : FeatureStream) : result (list Grant) string :=
  if negb (str_eqb (feature_id stream) "arcrelay.pairing") || negb (minor_negotiated stream)
  then Err "invalid pairing stream type" else
  let? request := ok_or (prost_decode (opening_payload stream)) "invalid pairing request" in
  if Z.of_nat (length (requested_grants request)) >? 64 then Err "too many requested capabilities" else
  decode_requests (peer_device_id peer) now ∅ (requested_grants request).

(** ** The decision *)

Definition rejected : PairingApproval := {| accepted := false; approved_grants := [] |}.
Definition is_paired (peer : Peer) (stored : list StoredPeer) : bool :=
  existsb (fun s => str_eqb (sp_device_id s) (peer_device_id peer)
                    && bytes_eqb (sp_public_key s) (peer_public_key peer)) stored.
(** What the user is shown, if anything, and the decision. *)
Definition approval_request (peer : Peer) (code : string) (requested : list Grant) : PairingRequestForApproval :=
  {| pa_device_name := peer_name peer; pa_device_id := peer_device_id peer; pa_pairing_code := code;
     pa_requested_grants := requested |}.
Definition approved_of (decision : PairingApproval) (requested : list Grant) : list Grant :=
  if accepted decision
  then filter (fun g => (g_capability g, g_direction g) ∈ approved_grants decision) requested
  else [].

Definition grant_to_wire (g : Grant) : CapabilityGrant :=
  {| wg_capability := Requests.token (g_capability g); wg_direction := direction_to_wire (g_direction g);
     wg_constraints := encode_pairing_constraints (g_constraints g);
     wg_granted_at_ms := g_granted_at_ms g |}.
Definition pairing_response (local_id : string) (paired : bool) (approved : list Grant) : PairingResponse :=
  {| rp_result := Some {| pr_paired := paired; pr_peer_id := local_id;
                          pr_error := if paired then EmptyString else "pairing rejected" |};
     granted_grants := grant_to_wire <$> approved |}.

(** Everything a pairing does besides changing the network's state. *)
Record Outcome := {
  shown : option PairingRequestForApproval;
  confirmed : option (list Grant);
  event_accepted : option bool;
  sent : bytes;
  closed : bool;
  outcome : result unit string;
}.
Definition stopped (shown : option PairingRequestForApproval) (error : string) : Outcome :=
  {| shown := shown; confirmed := None; event_accepted := None; sent := []; closed := false;
     outcome := Err error |}.

(** [handle_v1_pairing] from the decision on. *)
Definition conclude {N} (network : Network N) (peer : Peer) (shown : option PairingRequestForApproval)
    (requested : list Grant) (decision : PairingApproval) (n : N) : N * Outcome :=
  let approved := approved_of decision requested in
  let '(n, confirmation) :=
    if accepted decision then confirm_pairing_with_grants network peer approved n else (n, Ok tt) in
  let confirmed := if accepted decision then Some approved else None in
  match confirmation with
  | Err error => (n, {| shown := shown; confirmed := confirmed; event_accepted := None; sent := [];
                        closed := false; outcome := Err error |})
  | Ok _ =>
    let response := pairing_response (local_device_id network) (accepted decision) approved in
    match write_frame MAX_CONTROL_FRAME_SIZE (encode_to_vec response) with
    | None => (n, {| shown := shown; confirmed := confirmed; event_accepted := Some (accepted decision);
                     sent := []; closed := false; outcome := Err "frame is too large" |})
    | Some frame => (n, {| shown := shown; confirmed := confirmed;
                           event_accepted := Some (accepted decision); sent := frame;
                           closed := negb (accepted decision); outcome := Ok tt |})
    end
  end.

(** [ask] is the user: the request shown to the answer. *)
Definition handle_v1_pairing {N} (network : Network N) (ask : PairingRequestForApproval -> UserAnswer)
    (peer : Peer) (code : string) (now : Z) (stream : FeatureStream) (n : N) : N * Outcome :=
  match pairing_request peer now stream with
  | Err error => (n, stopped None error)
  | Ok requested =>
    let '(n, stored) := paired_peers network n in
    match stored with
    | Err error => (n, stopped None error)
    | Ok stored =>
      if is_paired peer stored && is_empty requested
      then conclude network peer None requested {| accepted := true; approved_grants := [] |} n else
      let request := approval_request peer code requested in
      match ask request with
      | UiStopped => (n, stopped None "pairing UI stopped")
      | NoAnswer => conclude network peer (Some request) requested rejected n
      | Answered approval => conclude network peer (Some request) requested approval n
      end
    end
  end.

(** [grant_to_proto]: the grants as the control session announces them. *)
Record GrantedCapability := {
  gc_capability : string;
  gc_direction : WireDirection;
  gc_constraints : option WireConstraints;
  gc_granted_at_ms : Z;
}.
Definition grant_to_proto (grant : Grant) : GrantedCapability :=
  {| gc_capability := Requests.token (g_capability grant);
     gc_direction := match g_direction grant with Inbound => WdInbound | Outbound => WdOutbound end;
     gc_constraints := match g_constraints grant with
                       | GNone => None
                       | GRemoteFileShares share_ids writable => Some {| wc_kind := Some (share_ids, writable) |}
                       end;
     gc_granted_at_ms := g_granted_at_ms grant |}.
End pairing.


(** ** What is requested *)

Section requested.
Context `{!WireLimits} `{!Requests.RequestCodes} `{!CapabilityTokens} `{!ProstEnum WireDirection}.

(** Constraints that make sense for a capability. *)
Definition constraints_ok (c : Requests.CapabilityId) (k : GrantConstraints) : Prop :=
  match k with
  | GNone => True
  | GRemoteFileShares ids writable =>
    (c = Requests.RemoteFilesRead /\ writable = false \/ c = Requests.RemoteFilesWrite /\ writable = true)
    /\ (length ids <= 128)%nat /\ NoDup ids /\ Forall (fun id => id <> EmptyString /\ slen id <= 256) ids
  end.

Lemma bad_shares_false seen ids :
  bad_shares seen ids = false ->
  NoDup ids /\ Forall (fun id => id <> EmptyString /\ slen id <= 256) ids /\ forall id, id ∈ ids -> id ∉ seen.
Proof.
  revert seen. induction ids as [|id ids IH]; intros seen; cbn [bad_shares].
  { intros _. split; [constructor|]. split; [constructor|]. intros ? []%elem_of_nil. }
  intros Hb. apply orb_false_iff in Hb as [Hb (Hnd & Hf & Hn)%IH].
  apply orb_false_iff in Hb as [Hb Hs]. apply orb_false_iff in Hb as [He Hl]. bool_arith.
  split; [constructor; [intros Hin; apply (Hn id Hin); set_solver|done]|].
  split; [constructor; [|done]; split; [by intros ->|lia]|].
  intros x [->|Hx]%elem_of_cons; [done|]. apply Hn in Hx. set_solver.
Qed.
Lemma validate_constraints_Ok c k : validate_grant_constraints c k = Ok tt -> constraints_ok c k.
Proof.
  unfold validate_grant_constraints. destruct k as [|ids w]; [done|].
  destruct (_ || _) eqn:E; [done|]. destruct (bad_shares ∅ ids) eqn:Eb; [done|]. intros _.
  apply bad_shares_false in Eb as (Hnd & Hf & _).
  apply orb_false_iff in E as [E El]. apply orb_false_iff in E as [E Ew]. apply orb_false_iff in E as [E Er].
  bool_arith. split; [|split; [lia|done]].
  apply orb_true_iff in E as [E|E]; bool_arith; subst c.
  - left. split; [done|]. by destruct w.
  - right. split; [done|]. by destruct w.
Qed.

(** A grant that one of the wire requests spells out. *)
Record spelled (peer_id : string) (now : Z) (wires : list CapabilityGrant) (g : Grant) : Prop := {
  sp_peer : g_peer_id g = peer_id;
  sp_time : g_granted_at_ms g = now;
  sp_constraints : constraints_ok (g_capability g) (g_constraints g);
  sp_wire : exists wire, wire ∈ wires /\ parse_token (wg_capability wire) = Some (g_capability g)
    /\ direction_from_wire (wg_direction wire) = Ok (g_direction g)
    /\ decode_pairing_constraints (wg_constraints wire) = Ok (g_constraints g);
}.
Definition grant_key (g : Grant) : Requests.CapabilityId * GrantDirection := (g_capability g, g_direction g).

Lemma decode_request_Ok peer_id now seen wire g :
  decode_request peer_id now seen wire = Ok g ->
  spelled peer_id now [wire] g /\ (g_capability g, bool_decide (g_direction g = Inbound)) ∉ seen.
Proof.
  unfold decode_request. destruct (_ || _); [done|].
  destruct (parse_token _) as [c|] eqn:Ec; [|done]. cbn [ok_or rbind].
  destruct (direction_from_wire _) as [d|] eqn:Ed; [|done]. cbn [rbind].
  case_bool_decide as Hs; [done|]. destruct (decode_pairing_constraints _) as [k|] eqn:Ek; [|done]. cbn [rbind].
  destruct (validate_grant_constraints c k) as [[]|] eqn:Ev; [|done]. intros [= <-]. cbn. split; [|done].
  split; [done|done|by apply validate_constraints_Ok|]. exists wire. split; [by left|]. by rewrite Ec, Ed, Ek.
Qed.
Lemma decode_requests_Ok peer_id now seen wires gs :
  decode_requests peer_id now seen wires = Ok gs ->
  Forall (spelled peer_id now wires) gs /\ NoDup (grant_key <$> gs) /\ length gs = length wires
  /\ forall g, g ∈ gs -> (g_capability g, bool_decide (g_direction g = Inbound)) ∉ seen.
Proof.
  revert seen gs. induction wires as [|wire wires IH]; intros seen gs; cbn [decode_requests].
  { intros [= <-]. split; [constructor|]. split; [constructor|]. split; [done|]. intros ? []%elem_of_nil. }
  destruct (decode_request _ _ _ wire) as [g|] eqn:Eg; [|done]. cbn [rbind].
  destruct (decode_requests _ _ _ wires) as [rest|] eqn:Er; [|done]. intros [= <-].
  apply decode_request_Ok in Eg as [[P T C (x & Hx & Q)] Hn]. apply IH in Er as (HF & Hnd & Hlen & Hns).
  split_and!.
  - constructor.
    + split; try done. exists x. split; [|done]. apply list_elem_of_singleton in Hx as ->. by left.
    + eapply Forall_impl; [exact HF|]. intros y [P' T' C' (x' & Hx' & Q')]. split; try done.
      exists x'. split; [by right|done].
  - rewrite fmap_cons. constructor; [|done]. intros (y & Ey & Hy)%list_elem_of_fmap.
    apply (Hns y Hy). injection Ey as -> ->. set_solver.
  - cbn. by rewrite Hlen.
  - intros y [->|Hy]%elem_of_cons; [done|]. apply Hns in Hy. set_solver.
Qed.

(** Grants survive the wire: what the peer is told it was granted is what was stored. *)
Lemma grant_wire_roundtrip g :
  parse_token (wg_capability (grant_to_wire g)) = Some (g_capability g)
  /\ direction_from_wire (wg_direction (grant_to_wire g)) = Ok (g_direction g)
  /\ decode_pairing_constraints (wg_constraints (grant_to_wire g)) = Ok (g_constraints g)
  /\ wg_granted_at_ms (grant_to_wire g) = g_granted_at_ms g.
Proof.
  split; [apply parse_token_token|]. split.
  { unfold direction_from_wire. cbn. unfold direction_to_wire. rewrite try_from_as_i32. by destruct (g_direction g). }
  split; [|done]. by destruct g as [? ? ? []].
Qed.
End requested.

(** ** What is granted *)

Section granted.
Context `{!WireLimits} `{!Requests.RequestCodes} `{!CapabilityTokens} `{!ProstEnum WireDirection}.
Context `{!ProstMessage PairingRequest} `{!ProstMessage PairingResponse} `{!FrameTransport}.
Context {N : Type} (network : Network N).

Lemma pairing_request_Ok peer now stream gs :
  pairing_request peer now stream = Ok gs ->
  exists request, prost_decode (opening_payload stream) = Some request
    /\ Forall (spelled (peer_device_id peer) now (requested_grants request)) gs
    /\ NoDup (grant_key <$> gs) /\ (length gs <= 64)%nat.
Proof.
  unfold pairing_request. destruct (_ || _); [done|].
  destruct (prost_decode _) as [request|]; [|done]. cbn [ok_or rbind].
  destruct (_ >? 64) eqn:E; [done|]. intros (HF & Hnd & Hlen & _)%decode_requests_Ok. bool_arith.
  exists request. split_and!; try done. lia.
Qed.

(** Whether the user's decision, or the earlier pairing of the same key, stands behind a
    confirmation. *)
Definition consented (ask : PairingRequestForApproval -> UserAnswer) (peer : Peer) (code : string)
    (requested grants : list Grant) (stored : list StoredPeer) (shown : option PairingRequestForApproval) : Prop :=
  match shown with
  | Some request => request = approval_request peer code requested
      /\ exists approval, ask request = Answered approval /\ accepted approval = true
         /\ forall g, g ∈ grants <-> g ∈ requested /\ grant_key g ∈ approved_grants approval
  | None => requested = [] /\ grants = []
      /\ exists s, s ∈ stored /\ sp_device_id s = peer_device_id peer /\ sp_public_key s = peer_public_key peer
  end.

(** The peer is told the truth: the frame decodes to the result and the grants that were stored. *)
Definition told (o : Outcome) : Prop :=
  exists payload response, read_frame MAX_CONTROL_FRAME_SIZE (sent o) = Some (payload, [])
    /\ prost_decode payload = Some response
    /\ (pr_paired <$> rp_result response) = Some (bool_decide (is_Some (confirmed o)))
    /\ granted_grants response = grant_to_wire <$> default [] (confirmed o).

Lemma conclude_spec peer shown0 requested decision n n' o :
  conclude network peer shown0 requested decision n = (n', o) ->
  shown o = shown0
  /\ confirmed o = (if accepted decision then Some (approved_of decision requested) else None)
  /\ match confirmed o with
     | None => n' = n
     | Some grants => exists r, confirm_pairing_with_grants network peer grants n = (n', r)
                        /\ (outcome o = Ok tt -> r = Ok tt)
     end
  /\ (outcome o = Ok tt -> told o /\ closed o = negb (accepted decision)
        /\ event_accepted o = Some (accepted decision)).
Proof.
  unfold conclude. set (approved := approved_of decision requested).
  assert (accepted decision = false -> approved = []) as Hna.
  { intros E. unfold approved, approved_of. by rewrite E. }
  destruct (if accepted decision then _ else _) as [n1 r] eqn:Ec.
  destruct r as [[]|e]; [destruct (write_frame _ _) as [frame|] eqn:Ew|]; intros [= <- <-]; cbn [shown confirmed outcome sent closed event_accepted].
  all: (split; [done|]); (split; [done|]); (split; [destruct (accepted decision); [by eexists|congruence]|]); try done.
  intros _. split; [|done]. pose proof (read_write_frame _ _ _ [] Ew) as Hr. rewrite app_nil_r in Hr.
  exists (encode_to_vec (pairing_response (local_device_id network) (accepted decision) approved)).
  eexists. split; [exact Hr|]. split; [apply prost_decode_encode|]. cbn [rp_result pairing_response fmap option_fmap option_map pr_paired confirmed granted_grants].
  destruct (accepted decision) eqn:Ea; [by split|]. rewrite Hna by done. by split.
Qed.

Lemma approved_of_spec decision requested g :
  accepted decision = true ->
  g ∈ approved_of decision requested <-> g ∈ requested /\ grant_key g ∈ approved_grants decision.
Proof. intros E. unfold approved_of. rewrite E, list_elem_of_filter. unfold grant_key. tauto. Qed.
Lemma is_paired_true peer stored :
  is_paired peer stored = true ->
  exists s, s ∈ stored /\ sp_device_id s = peer_device_id peer /\ sp_public_key s = peer_public_key peer.
Proof.
  unfold is_paired. intros (s & Hin & E)%existsb_exists. apply andb_true_iff in E as [E1 E2].
  exists s. split; [by apply list_elem_of_In|]. unfold str_eqb, bytes_eqb in *. by bool_arith.
Qed.

(** From the decision on: grants that are stored stand on the request and on consent. *)
Lemma conclude_granted ask peer code now request requested stored sh decision n n' o :
  Forall (spelled (peer_device_id peer) now (requested_grants request)) requested ->
  NoDup (grant_key <$> requested) ->
  (accepted decision = true -> consented ask peer code requested (approved_of decision requested) stored sh) ->
  conclude network peer sh requested decision n = (n', o) ->
  match confirmed o with
  | None => n' = n
  | Some grants => (exists r, confirm_pairing_with_grants network peer grants n = (n', r)
                      /\ (outcome o = Ok tt -> r = Ok tt))
      /\ consented ask peer code requested grants stored (shown o)
      /\ Forall (spelled (peer_device_id peer) now (requested_grants request)) grants
      /\ NoDup (grant_key <$> grants)
  end
  /\ (outcome o = Ok tt -> told o /\ closed o = bool_decide (confirmed o = None)
        /\ event_accepted o = Some (bool_decide (is_Some (confirmed o)))).
Proof.
  intros HF Hnd Hcons Hc. destruct (conclude_spec _ _ _ _ _ _ _ Hc) as (-> & E & Hn & Hok).
  rewrite E in *. destruct (accepted decision) eqn:Ea; cbn; [|by auto].
  split; [|done]. split; [done|]. split; [by apply Hcons|]. split.
  - rewrite Forall_forall in HF |- *. intros g Hg. apply approved_of_spec in Hg as [Hg _]; [by apply HF|done].
  - unfold approved_of. rewrite Ea. apply (sublist_NoDup _ _ Hnd), fmap_sublist, sublist_filter.
Qed.

(** C6: pairing grants what was asked for and approved, nothing else.  Whatever a peer sends and
    however the user reacts, the state of the network changes by at most one call that stores grants:
    the call names the authenticated peer of the session and the grants are each spelled out by its
    request with constraints that fit the capability, no capability twice in a direction, and exactly
    those the user approved when shown that request; the user is bypassed only for a peer already
    paired with the same key that asks for nothing, and then nothing is granted.  Otherwise the network
    is only read.  A completed exchange means that the call succeeded, if there was one; it tells the
    peer and the interface truthfully what was stored, and closes the session when nothing was. *)
Theorem pairing_least_privilege ask peer code now stream n n' o :
  handle_v1_pairing network ask peer code now stream n = (n', o) ->
  match confirmed o with
  | None => n' = n \/ n' = (paired_peers network n).1
  | Some grants =>
    exists requested request stored,
      pairing_request peer now stream = Ok requested
      /\ prost_decode (opening_payload stream) = Some request
      /\ (paired_peers network n).2 = Ok stored
      /\ (exists r, confirm_pairing_with_grants network peer grants (paired_peers network n).1 = (n', r)
            /\ (outcome o = Ok tt -> r = Ok tt))
      /\ consented ask peer code requested grants stored (shown o)
      /\ Forall (spelled (peer_device_id peer) now (requested_grants request)) grants
      /\ NoDup (grant_key <$> grants)
  end
  /\ (outcome o = Ok tt -> told o /\ closed o = bool_decide (confirmed o = None)
        /\ event_accepted o = Some (bool_decide (is_Some (confirmed o)))).
Proof.
  unfold handle_v1_pairing. destruct (pairing_request peer now stream) as [requested|e] eqn:Er; last first.
  { intros [= <- <-]. split; [by left|done]. }
  destruct (pairing_request_Ok _ _ _ _ Er) as (request & Hd & HF & Hnd & _).
  destruct (paired_peers network n) as [n1 [stored|e]] eqn:Ep; last first.
  { intros [= <- <-]. split; [by right|done]. }
  cbn [snd fst]. pose proof (conclude_granted ask peer code now request requested stored) as Hconc.
  match goal with |- _ -> ?G =>
    assert (forall sh decision, conclude network peer sh requested decision n1 = (n', o) ->
      (accepted decision = true -> consented ask peer code requested (approved_of decision requested) stored sh) ->
      G) as Hgoal end.
  2: destruct (is_paired peer stored && is_empty requested) eqn:Eb.
  - intros sh decision Hc Hcons. destruct (Hconc _ _ _ _ _ HF Hnd Hcons Hc) as [Hg Ht]. split; [|exact Ht].
    destruct (confirmed o); [|by right]. destruct Hg as (Hg0 & Hg1 & Hg2 & Hg3). by exists requested, request, stored.
  - apply andb_true_iff in Eb as [Hp He]. destruct requested as [|]; [|done].
    intros Hc. apply (Hgoal _ _ Hc). intros _. split; [done|]. split; [done|]. by apply is_paired_true.
  - destruct (ask _) as [| |approval] eqn:Ea.
    + intros [= <- <-]. split; [by right|done].
    + intros Hc. by apply (Hgoal _ _ Hc).
    + intros Hc. apply (Hgoal _ _ Hc). intros Hacc. split; [done|]. exists approval.
      split; [done|]. split; [done|]. intros g. by apply approved_of_spec.
Qed.
End granted.

(** ** Witness: a request for two capabilities of which the user approves one *)

Definition toy_tokens : @CapabilityTokens Snapshots.toy_requests.
Proof.
  refine (Build_CapabilityTokens Snapshots.toy_requests (fun s => match s with
    | String a EmptyString => decode_nat (Ascii.nat_of_ascii a) | _ => None end) _).
  intros []; vm_compute; reflexivity.
Defined.
Definition toy_directions : ProstEnum WireDirection.
Proof.
  refine {| as_i32 e := match e with WdUnspecified => 0 | WdInbound => 1 | WdOutbound => 2 end;
    try_from z := [WdUnspecified; WdInbound; WdOutbound] !! Z.to_nat z |}.
  by intros [].
Defined.
#[local] Instance constraints_eq : EqDecision WireConstraints.
Proof. solve_decision. Defined.
#[local] Instance capability_grant_eq : EqDecision CapabilityGrant.
Proof. solve_decision. Defined.
#[local] Instance pairing_request_eq : EqDecision PairingRequest.
Proof. solve_decision. Defined.
#[local] Instance pairing_result_eq : EqDecision PairingResult.
Proof. solve_decision. Defined.
#[local] Instance pairing_response_eq : EqDecision PairingResponse.
Proof. solve_decision. Defined.
#[local] Instance capability_grant_countable : Countable CapabilityGrant.
Proof.
  refine (inj_countable' (fun g => (wg_capability g, wg_direction g, wc_kind <$> wg_constraints g, wg_granted_at_ms g))
    (fun '(c, d, k, t) => {| wg_capability := c; wg_direction := d;
       wg_constraints := Build_WireConstraints <$> k; wg_granted_at_ms := t |}) _).
  by intros [? ? [[]|] ?].
Defined.
#[local] Instance pairing_request_countable : Countable PairingRequest.
Proof. refine (inj_countable' requested_grants Build_PairingRequest _). by intros []. Defined.
#[local] Instance pairing_response_countable : Countable PairingResponse.
Proof.
  refine (inj_countable' (fun r => ((fun x => (pr_paired x, pr_peer_id x, pr_error x)) <$> rp_result r, granted_grants r))
    (fun '(r, g) => {| rp_result := (fun '(p, i, e) => {| pr_paired := p; pr_peer_id := i; pr_error := e |}) <$> r;
                       granted_grants := g |}) _).
  by intros [[[]|] ?].
Defined.
#[local] Existing Instance toy_limits.
#[local] Existing Instance Snapshots.toy_requests.
#[local] Existing Instance toy_tokens.
#[local] Existing Instance toy_directions.
#[local] Existing Instance toy_message.
#[local] Existing Instance toy_frames.

(** The network's state is the grants stored. *)
Definition toy_network : Network (list Grant) :=
  {| paired_peers := fun n => (n, Ok []);
     confirm_pairing_with_grants := fun _ grants n => (n ++ grants, Ok tt);
     local_device_id := "host" |}.
Definition wpeer : Peer := {| peer_device_id := "phone"; peer_public_key := [Byte.x07]; peer_name := "Phone" |}.
Definition wstream : FeatureStream :=
  {| feature_id := "arcrelay.pairing"; minor_negotiated := true;
     opening_payload := encode_to_vec {| requested_grants :=
       [{| wg_capability := Snapshots.toy_token Requests.SystemRead; wg_direction := 1; wg_constraints := None; wg_granted_at_ms := 0 |};
        {| wg_capability := Snapshots.toy_token Requests.RemoteFilesWrite; wg_direction := 1;
           wg_constraints := Some {| wc_kind := Some (["home"], true) |}; wg_granted_at_ms := 0 |}] |} |}.
Definition wask (_ : PairingRequestForApproval) : UserAnswer :=
  Answered {| accepted := true; approved_grants := [(Requests.RemoteFilesWrite, Inbound); (Requests.Transfer, Inbound)] |}.
Definition wrun : list Grant * Outcome := handle_v1_pairing toy_network wask wpeer "1234" 7 wstream [].

Lemma pairing_least_privilege_witness :
  exists g, confirmed wrun.2 = Some [g] /\ g_peer_id g = "phone" /\ told wrun.2 /\ closed wrun.2 = false.
Proof.
  destruct (pairing_least_privilege toy_network wask wpeer "1234" 7 wstream [] wrun.1 wrun.2
    (surjective_pairing wrun)) as [Hg Ht].
  assert (outcome wrun.2 = Ok tt) as Hok by (vm_compute; reflexivity).
  destruct (Ht Hok) as (Htold & Hcl & _).
  destruct (confirmed wrun.2) as [[|g [|]]|] eqn:Ec;
    try (exfalso; vm_compute in Ec; discriminate Ec).
  exists g. destruct Hg as (? & ? & ? & _ & _ & _ & _ & _ & HF & _). apply Forall_cons_1 in HF as [HF _].
  split; [done|]. split; [exact (sp_peer _ _ _ _ HF)|]. split; [done|]. exact Hcl.
Defined.

End Pairing.
