(* ===== verification/Product.v ===== *)
(** * Products

    Models [src/product.rs]: the product manifest with its validation and the two built-in
    manifests, and the installation identity that [ProductInstallation::load_or_create] keeps in a
    private file.  Calls of several processes interleave at their file system operations, each of
    which may fail. *)

From Stdlib Require Import ZArith Lia Ascii String.
From stdpp Require Import base tactics option list strings gmap finite.
From S2P Require Import Prelude.

Module Product.
Local Open Scope string_scope.
Local Open Scope list_scope.
Local Open Scope Z_scope.

Definition PRODUCT_MANIFEST_SCHEMA_VERSION : Z := 1.
Definition PRODUCT_INSTALLATION_SCHEMA_VERSION : Z := 1.

Inductive CapabilityId := Mouse | Transfer | Clipboard | Monitor | Privacy | Automate | Print.
#[global] Instance CapabilityId_eq_dec : EqDecision CapabilityId.
Proof. solve_decision. Defined.
#[global] Program Instance CapabilityId_finite : Finite CapabilityId :=
  {| enum := [Mouse; Transfer; Clipboard; Monitor; Privacy; Automate; Print] |}.
Next Obligation. apply (bool_decide_unpack _). vm_compute. exact I. Qed.
Next Obligation. intros []; apply (bool_decide_unpack _); vm_compute; exact I. Qed.
Inductive ActivationPolicy := Always | OnDemand | OnInterest | Scheduled.

Record ProductManifest := {
  schema_version : Z;
  product_id : string;
  product_code : string;
  display_name : string;
  data_namespace : string;
  included_modules : list CapabilityId;
  enabled_ui_routes : list string;
  default_activation_policy : gmap CapabilityId ActivationPolicy;
}.
(** [ProtocolError], by the variants of this file. *)
Inductive ProtocolError := Other (message : string) | Io (message : string) | Json.
Definition product_error (message : string) : ProtocolError := Other ("product context error: " +:+ message).

(** ** Manifests *)

Definition id_byte (b : Z) : bool := is_ascii_lowercase b || is_ascii_digit b || (b =? 45).
Definition first_alphanumeric (l : list Z) : bool :=
  match head l with Some b => is_ascii_alphanumeric b | None => false end.
Definition last_alphanumeric (l : list Z) : bool :=
  match last l with Some b => is_ascii_alphanumeric b | None => false end.
Definition dot : ascii := "."%char.

Definition valid_segment (segment : string) : bool :=
  negb (str_is_empty segment) && (slen segment <=? 32) && forallb id_byte (units segment)
  && first_alphanumeric (units segment) && last_alphanumeric (units segment).
Definition valid_product_id (value : string) : bool :=
  (slen value <=? 64) && (Z.of_nat (length (split_on dot value)) >=? 3)
  && forallb valid_segment (split_on dot value).
Definition valid_short_identifier (value : string) (maximum : Z) : bool :=
  negb (str_is_empty value) && (slen value <=? maximum) && forallb id_byte (units value)
  && first_alphanumeric (units value) && last_alphanumeric (units value).

Definition validate (m : ProductManifest) : result unit ProtocolError :=
  if negb (schema_version m =? PRODUCT_MANIFEST_SCHEMA_VERSION)
  then Err (product_error "unsupported product manifest schema") else
  if negb (valid_product_id (product_id m)) then Err (product_error "invalid product id") else
  if negb (valid_short_identifier (product_code m) 8) then Err (product_error "invalid product code") else
  if str_is_empty (trim (display_name m)) || (Z.of_nat (length (chars (display_name m))) >? 64)
     || has_control (display_name m)
  then Err (product_error "invalid product display name") else
  if negb (valid_short_identifier (data_namespace m) 64)
  then Err (product_error "invalid data namespace") else
  if is_empty (included_modules m) || (Z.of_nat (length (included_modules m)) >? 32)
  then Err (product_error "product must contain 1 to 32 modules") else
  let modules : gset CapabilityId := list_to_set (included_modules m) in
  if negb (Z.of_nat (size modules) =? Z.of_nat (length (included_modules m)))
  then Err (product_error "product modules must be unique") else
  if negb (bool_decide (dom (default_activation_policy m) = modules))
  then Err (product_error "every product module must have exactly one activation policy") else
  if (Z.of_nat (length (enabled_ui_routes m)) >? 32)
     || existsb (fun route => negb (valid_short_identifier route 48)) (enabled_ui_routes m)
     || negb (Z.of_nat (size (list_to_set (enabled_ui_routes m) : gset string))
              =? Z.of_nat (length (enabled_ui_routes m)))
  then Err (product_error "invalid or duplicate product UI route") else Ok tt.

Definition supports (m : ProductManifest) (capability : CapabilityId) : bool :=
  bool_decide (capability ∈ included_modules m).

(** The built-in manifests, as [manifests/*.json] spell them. *)
Definition suite : ProductManifest := {|
  schema_version := 1;
  product_id := "com.arcrelay.suite";
  product_code := "suite";
  display_name := "ArcRelay";
  data_namespace := "arcrelay-suite";
  included_modules := [Mouse; Transfer; Clipboard; Monitor; Privacy; Automate; Print];
  enabled_ui_routes := ["mouse"; "transfer"; "clipboard"; "monitor"; "privacy"; "automate"; "print"];
  default_activation_policy := list_to_map
    [(Mouse, OnInterest); (Transfer, OnInterest); (Clipboard, OnInterest); (Monitor, OnInterest);
     (Privacy, OnInterest); (Automate, Scheduled); (Print, OnInterest)];
|}.
Definition transfer : ProductManifest := {|
  schema_version := 1;
  product_id := "com.arcrelay.transfer";
  product_code := "xfer";
  display_name := "ArcRelay Transfer";
  data_namespace := "arcrelay-transfer";
  included_modules := [Transfer];
  enabled_ui_routes := ["transfer"];
  default_activation_policy := {[Transfer := OnInterest]};
|}.
Definition product_id_for_code (code : string) : option string :=
  if str_eqb code "suite" then Some "com.arcrelay.suite" else
  if str_eqb code "xfer" then Some "com.arcrelay.transfer" else None.
Definition for_product_id (id : string) : option ProductManifest :=
  if str_eqb id "com.arcrelay.suite" then Some suite else
  if str_eqb id "com.arcrelay.transfer" then Some transfer else None.

(** ** The installation identity *)

Record ProductInstallation := {
  i_schema_version : Z;
  i_product_id : string;
  i_installation_id : string;
  i_created_at_ms : Z;
}.

(** [uuid] and [serde_json], as far as they are used: identifiers and documents read back as they
    were written, and a document that is cut short is not a document. *)
Class ProductLibraries := {
  Uuid : Type;
  uuid_parse_str : string -> option Uuid;
  uuid_to_string : Uuid -> string;
  uuid_is_random : Uuid -> bool;
  uuid_parse_to_string : forall u, uuid_parse_str (uuid_to_string u) = Some u;
  to_vec_pretty : ProductInstallation -> bytes;
  from_slice : bytes -> option ProductInstallation;
  from_slice_to_vec : forall i, i64_wf (i_created_at_ms i) -> 0 <= i_schema_version i < 2 ^ 16 ->
    from_slice (to_vec_pretty i) = Some i;
  from_slice_truncated : forall i c rest, to_vec_pretty i = c ++ rest -> rest <> [] -> from_slice c = None;
}.

(** The file system around the identity file: the mode of its directory, and what the path names. *)
Inductive Node := Regular (content : bytes) (mode : Z) | Symlink (target : option bytes) | Directory.
(** File modes: for the owner only, and what a directory is created with. *)
Definition MODE_0600 : Z := 6 * 8 ^ 2.
Definition MODE_0700 : Z := 7 * 8 ^ 2.
Definition MODE_0755 : Z := 7 * 8 ^ 2 + 5 * 8 + 5.
Record Fs := { directory_mode : option Z; node : option Node }.

Definition path_exists (fs : Fs) : bool :=
  match node fs with None | Some (Symlink None) => false | Some _ => true end.
Definition is_symlink (n : Node) : bool := match n with Symlink _ => true | _ => false end.
Definition read_node (n : Node) : result bytes ProtocolError :=
  match n with
  | Regular content _ | Symlink (Some content) => Ok content
  | Symlink None => Err (Io "not found")
  | Directory => Err (Io "is a directory")
  end.
Definition set_permissions (mode : Z) (n : Node) : Node :=
  match n with Regular content _ => Regular content mode | n => n end.
Definition harden_directory (fs : Fs) : Fs := {| directory_mode := Some MODE_0700; node := node fs |}.
Definition harden_private_file (fs : Fs) : Fs :=
  {| directory_mode := directory_mode fs; node := set_permissions MODE_0600 <$> node fs |}.
(** [create_new] with mode 0600: [None] when the path names anything already. *)
Definition create_private_file (fs : Fs) : option Fs :=
  match node fs with
  | Some _ => None
  | None => Some {| directory_mode := directory_mode fs; node := Some (Regular [] MODE_0600) |}
  end.
Definition append_file (chunk : bytes) (fs : Fs) : Fs :=
  {| directory_mode := directory_mode fs;
     node := match node fs with
             | Some (Regular content mode) => Some (Regular (content ++ chunk) mode)
             | n => n
             end |}.

Section installation.
Context `{!ProductLibraries}.

Definition is_uuid_v4 (value : string) : bool :=
  match uuid_parse_str value with Some uuid => uuid_is_random uuid | None => false end.
(** [now_ms], of the time since the epoch, which is negative for a clock set before it. *)
Definition now_ms (since_epoch_ms : Z) : Z := Z.min (Z.max 0 since_epoch_ms) i64_max.

(** One call of [load_or_create]: its manifest, the identifier it draws and its clock. *)
Record Call := { manifest : ProductManifest; uuid : Uuid; clock : Z }.
Definition new_installation (c : Call) : ProductInstallation :=
  {| i_schema_version := PRODUCT_INSTALLATION_SCHEMA_VERSION; i_product_id := product_id (manifest c);
     i_installation_id := uuid_to_string (uuid c); i_created_at_ms := now_ms (clock c) |}.
Definition identity_matches (m : ProductManifest) (i : ProductInstallation) : bool :=
  negb (negb (i_schema_version i =? PRODUCT_INSTALLATION_SCHEMA_VERSION)
        || negb (str_eqb (i_product_id i) (product_id m))
        || negb (is_uuid_v4 (i_installation_id i)) || (i_created_at_ms i <=? 0)).

(** Where a call is: before its next file system operation, or done. *)
Inductive Pc :=
| Start | HardenDirectory | Exists | LoadMetadata | LoadRead | LoadHarden (i : ProductInstallation)
| Create | WriteAll (i : ProductInstallation) (rest : bytes) | SyncAll (i : ProductInstallation)
| HardenFile (i : ProductInstallation) | Done (r : result ProductInstallation ProtocolError).
(** What the system makes of an operation: it fails, or goes through; a write takes up to [chunk]
    bytes. *)
Inductive Env := Fault (message : string) | Proceed (chunk : nat).
Definition fail (message : string) : Pc := Done (Err (Io message)).

(** [load_installation] *)
Definition load_step (c : Call) (env : Env) (pc : Pc) (fs : Fs) : Pc * Fs :=
  match pc, env with
  | LoadMetadata, Fault e => (fail e, fs)
  | LoadMetadata, Proceed _ =>
    match node fs with
    | None => (fail "not found", fs)
    | Some n =>
      if is_symlink n then (Done (Err (product_error "product installation identity cannot be a symlink")), fs)
      else (LoadRead, fs)
    end
  | LoadRead, Fault e => (fail e, fs)
  | LoadRead, Proceed _ =>
    match node fs with
    | None => (fail "not found", fs)
    | Some n =>
      match read_node n with
      | Err e => (Done (Err e), fs)
      | Ok content =>
        match from_slice content with
        | None => (Done (Err Json), fs)
        | Some i =>
          if identity_matches (manifest c) i then (LoadHarden i, fs)
          else (Done (Err (product_error "product installation identity does not match this product")), fs)
        end
      end
    end
  | LoadHarden i, Fault e => (fail e, fs)
  | LoadHarden i, Proceed _ => (Done (Ok i), harden_private_file fs)
  | _, _ => (pc, fs)
  end.

(** [load_or_create], one operation at a time. *)
Definition step (c : Call) (env : Env) (pc : Pc) (fs : Fs) : Pc * Fs :=
  match pc with
  | Start =>
    match validate (manifest c) with
    | Err e => (Done (Err e), fs)
    | Ok _ =>
      match env with
      | Fault e => (fail e, fs)
      | Proceed _ => (HardenDirectory, {| directory_mode := Some (default MODE_0755 (directory_mode fs));
                                          node := node fs |})
      end
    end
  | HardenDirectory =>
    match env with Fault e => (fail e, fs) | Proceed _ => (Exists, harden_directory fs) end
  | Exists =>
    (* a failing lookup counts as absence *)
    match env with
    | Fault _ => (Create, fs)
    | Proceed _ => if path_exists fs then (LoadMetadata, fs) else (Create, fs)
    end
  | Create =>
    match env with
    | Fault e => (fail e, fs)
    | Proceed _ =>
      match create_private_file fs with
      | None => (LoadMetadata, fs)
      | Some fs => (WriteAll (new_installation c) (to_vec_pretty (new_installation c)), fs)
      end
    end
  | WriteAll i [] => (SyncAll i, fs)
  | WriteAll i rest =>
    match env with
    | Fault e => (fail e, fs)
    | Proceed O => (fail "failed to write whole buffer", fs)
    | Proceed k => (WriteAll i (drop k rest), append_file (take k rest) fs)
    end
  | SyncAll i => match env with Fault e => (fail e, fs) | Proceed _ => (HardenFile i, fs) end
  | HardenFile i =>
    match env with Fault e => (fail e, fs) | Proceed _ => (Done (Ok i), harden_private_file fs) end
  | LoadMetadata | LoadRead | LoadHarden _ => load_step c env pc fs
  | Done _ => (pc, fs)
  end.

(** A call on its own, the system's behaviour given operation by operation. *)
Fixpoint load_or_create (c : Call) (envs : list Env) (pc : Pc) (fs : Fs) : Pc * Fs :=
  match envs with
  | [] => (pc, fs)
  | env :: envs => let '(pc, fs) := step c env pc fs in load_or_create c envs pc fs
  end.

(** Several calls at once, on the same directory. *)
Record World := { w_fs : Fs; w_calls : list (Call * Pc) }.
Inductive world_step : World -> World -> Prop :=
| call_step w k c pc env pc' fs' :
    w_calls w !! k = Some (c, pc) -> step c env pc (w_fs w) = (pc', fs') ->
    world_step w {| w_fs := fs'; w_calls := <[k := (c, pc')]> (w_calls w) |}.
End installation.


(** ** Manifests that validate *)

(** Lower-case letters, digits and inner hyphens: a name that is safe in a path or a URL. *)
Record identifier (maximum : Z) (s : string) : Prop := {
  id_length : 1 <= slen s <= maximum;
  id_bytes : Forall (fun b => 97 <= b <= 122 \/ 48 <= b <= 57 \/ b = 45) (units s);
  id_first : head (units s) <> Some 45;
  id_last : last (units s) <> Some 45;
}.
Record manifest_ok (m : ProductManifest) : Prop := {
  mo_schema : schema_version m = PRODUCT_MANIFEST_SCHEMA_VERSION;
  mo_id_length : slen (product_id m) <= 64;
  mo_segments : (3 <= length (split_on dot (product_id m)))%nat;
  mo_id : Forall (identifier 32) (split_on dot (product_id m));
  mo_code : identifier 8 (product_code m);
  mo_name : trim (display_name m) <> EmptyString /\ (length (chars (display_name m)) <= 64)%nat
            /\ Forall (fun c => is_control c = false) (chars (display_name m));
  mo_namespace : identifier 64 (data_namespace m);
  mo_modules : included_modules m <> [] /\ NoDup (included_modules m);
  mo_policies : forall c, is_Some (default_activation_policy m !! c) <-> supports m c = true;
  mo_routes : (length (enabled_ui_routes m) <= 32)%nat /\ NoDup (enabled_ui_routes m)
              /\ Forall (identifier 48) (enabled_ui_routes m);
}.

Lemma slen_units s : slen s = Z.of_nat (length (units s)).
Proof. unfold slen, units. rewrite length_fmap. f_equal. by induction s; simpl; [|f_equal]. Qed.
Lemma id_byte_spec b : id_byte b = true <-> 97 <= b <= 122 \/ 48 <= b <= 57 \/ b = 45.
Proof. unfold id_byte, is_ascii_lowercase, is_ascii_digit. lia. Qed.
Lemma id_byte_alphanumeric b : id_byte b = true -> is_ascii_alphanumeric b = negb (b =? 45).
Proof.
  unfold id_byte, is_ascii_alphanumeric, is_ascii_lowercase, is_ascii_uppercase, is_ascii_digit. lia.
Qed.
Lemma forallb_Forall_stdpp {A} (p : A -> bool) l : forallb p l = true <-> Forall (fun x => p x = true) l.
Proof. rewrite forallb_forall, Forall_forall. by setoid_rewrite list_elem_of_In. Qed.
Lemma end_alphanumeric (l : list Z) (o : option Z) :
  forallb id_byte l = true -> (forall b, o = Some b -> b ∈ l) -> is_Some o ->
  (match o with Some b => is_ascii_alphanumeric b | None => false end) = true <-> o <> Some 45.
Proof.
  intros Hl Ho [b ->]. apply forallb_Forall_stdpp in Hl. rewrite Forall_forall in Hl.
  rewrite (id_byte_alphanumeric b) by (by apply Hl, Ho). rewrite negb_true_iff, Z.eqb_neq. split; congruence.
Qed.
Lemma valid_short_identifier_spec s maximum : valid_short_identifier s maximum = true <-> identifier maximum s.
Proof.
  unfold valid_short_identifier, first_alphanumeric, last_alphanumeric. rewrite !andb_true_iff.
  assert (str_is_empty s = false <-> units s <> []) as He by (destruct s; cbn; naive_solver).
  assert (forall b, last (units s) = Some b -> b ∈ units s) as Hlast.
  { intros b Hb. apply last_Some in Hb as [l' ->]. set_solver. }
  assert (forall b, head (units s) = Some b -> b ∈ units s) as Hhead.
  { intros b Hb. apply head_Some in Hb as [l' ->]. set_solver. }
  assert (units s <> [] -> is_Some (head (units s)) /\ is_Some (last (units s))) as Hs.
  { intros Hn. split; [by destruct (units s)|]. destruct (last (units s)) eqn:E; [done|].
    by apply last_None in E. }
  rewrite negb_true_iff, He, Z.leb_le. rewrite (forallb_Forall_stdpp id_byte (units s)).
  split.
  - intros [[[[Hn Hm] Hb] Hf] Hl]. destruct (Hs Hn) as [Hsf Hsl].
    assert (forallb id_byte (units s) = true) as Hb' by (by apply forallb_Forall_stdpp).
    split.
    + rewrite slen_units. rewrite slen_units in Hm. destruct (units s); [done|]. simpl in *. lia.
    + eapply Forall_impl; [exact Hb|]. intros b. apply id_byte_spec.
    + by apply (end_alphanumeric _ _ Hb' Hhead Hsf).
    + by apply (end_alphanumeric _ _ Hb' Hlast Hsl).
  - intros [[Hn Hm] Hb Hf Hl].
    assert (units s <> []) as Hn' by (intros E; rewrite slen_units, E in Hn; simpl in Hn; lia).
    destruct (Hs Hn') as [Hsf Hsl].
    assert (Forall (fun x => id_byte x = true) (units s)) as Hb2.
    { eapply Forall_impl; [exact Hb|]. intros b. apply id_byte_spec. }
    assert (forallb id_byte (units s) = true) as Hb' by (by apply forallb_Forall_stdpp).
    split_and!; try done; by apply (end_alphanumeric (units s)).
Qed.
Lemma valid_segment_short s : valid_segment s = valid_short_identifier s 32.
Proof. done. Qed.

Lemma size_list_to_set_NoDup {A} `{Countable A} (l : list A) :
  Z.of_nat (size (list_to_set l : gset A)) = Z.of_nat (length l) <-> NoDup l.
Proof.
  split; [|intros Hl; by rewrite size_list_to_set]. intros E%Nat2Z.inj.
  assert (forall l : list A, (size (list_to_set l : gset A) <= length l)%nat) as Hle.
  { clear. induction l as [|x l IH]; simpl; [done|]. rewrite size_union_alt.
    pose proof (subseteq_size (list_to_set l ∖ {[x]} : gset A) (list_to_set l) ltac:(set_solver)).
    rewrite size_singleton. lia. }
  induction l as [|x l IH]; [constructor|]. simpl in E.
  destruct (decide (x ∈ (list_to_set l : gset A))) as [Hin|Hn].
  - replace ({[x]} ∪ list_to_set l : gset A) with (list_to_set l : gset A) in E by set_solver.
    specialize (Hle l). lia.
  - rewrite size_union, size_singleton in E by set_solver. constructor; [set_solver|]. apply IH. lia.
Qed.

Lemma existsb_negb_Forall {A} (p : A -> bool) l :
  existsb (fun x => negb (p x)) l = false <-> Forall (fun x => p x = true) l.
Proof.
  rewrite <- forallb_Forall_stdpp. induction l as [|x l IH]; simpl; [done|].
  destruct (p x); simpl; [exact IH|done].
Qed.
Lemma valid_routes_spec l :
  existsb (fun route => negb (valid_short_identifier route 48)) l = false <-> Forall (identifier 48) l.
Proof. rewrite existsb_negb_Forall. by setoid_rewrite valid_short_identifier_spec. Qed.
Lemma valid_product_id_spec id :
  valid_product_id id = true <->
  slen id <= 64 /\ (3 <= length (split_on dot id))%nat /\ Forall (identifier 32) (split_on dot id).
Proof.
  unfold valid_product_id. rewrite !andb_true_iff, forallb_Forall_stdpp, Z.leb_le, Z.geb_le.
  setoid_rewrite valid_segment_short. setoid_rewrite valid_short_identifier_spec. intuition lia.
Qed.
Lemma has_control_spec s : has_control s = false <-> Forall (fun c => is_control c = false) (chars s).
Proof. unfold has_control. induction (chars s) as [|c l IH]; simpl; [done|].
  rewrite orb_false_iff, Forall_cons, IH. done.
Qed.
Lemma policies_spec m :
  dom (default_activation_policy m) = (list_to_set (included_modules m) : gset CapabilityId)
  <-> forall c, is_Some (default_activation_policy m !! c) <-> supports m c = true.
Proof.
  rewrite set_eq. setoid_rewrite elem_of_dom. setoid_rewrite elem_of_list_to_set.
  unfold supports. by setoid_rewrite bool_decide_eq_true.
Qed.
Lemma modules_at_most (l : list CapabilityId) : NoDup l -> (length l <= length (enum CapabilityId))%nat.
Proof. intros Hnd. apply submseteq_length, NoDup_submseteq; [done|]. intros c _. apply elem_of_enum. Qed.

(** Validation accepts exactly the manifests that are right in every field. *)
Lemma validate_spec m : validate m = Ok tt <-> manifest_ok m.
Proof.
  pose proof (valid_routes_spec (enabled_ui_routes m)) as Hroutes.
  pose proof (valid_product_id_spec (product_id m)) as Hid.
  pose proof (has_control_spec (display_name m)) as Hcontrol.
  pose proof (policies_spec m) as Hpol.
  assert (forall s, str_is_empty s = false <-> s <> EmptyString) as Hempty
    by (intros []; cbn; naive_solver).
  assert (is_empty (included_modules m) = false <-> included_modules m <> []) as Hmods
    by (destruct (included_modules m); cbn; naive_solver).
  unfold validate. split.
  - intros Hv. repeat case_match; try done. bool_arith.
    repeat match goal with Hc : (_ || _) = false |- _ => apply orb_false_iff in Hc as [? ?] end. bool_arith.
    repeat match goal with Hc : Z.of_nat (size _) = _ |- _ => apply size_list_to_set_NoDup in Hc end.
    split; try tauto; try (by apply valid_short_identifier_spec).
    + split; [by apply Hempty|]. split; [lia|tauto].
    + split; [lia|]. tauto.
  - intros [S L3 L64 Hi Hc (N1 & N2 & N3) Hns (M1 & M2) P (R1 & R2 & R3)].
    apply valid_short_identifier_spec in Hc, Hns. apply Hempty in N1. apply Hcontrol in N3.
    apply Hmods in M1. apply Hpol in P. apply Hroutes in R3. pose proof (modules_at_most _ M2) as M7. cbn in M7.
    assert (valid_product_id (product_id m) = true) as Hid' by (apply Hid; tauto).
    apply size_list_to_set_NoDup in M2, R2.
    rewrite S, Hid', Hc, Hns, N1, N3, M1, R3, M2, R2, !Z.eqb_refl. cbn [negb orb].
    rewrite (bool_decide_eq_true_2 _ P).
    replace (Z.of_nat (length (chars (display_name m))) >? 64) with false by lia.
    replace (Z.of_nat (length (included_modules m)) >? 32) with false by lia.
    replace (Z.of_nat (length (enabled_ui_routes m)) >? 32) with false by lia. done.
Qed.

(** The built-in manifests are valid and found by their code and by their id, and those are the
    only products known. *)
Lemma built_in_manifests :
  manifest_ok suite /\ manifest_ok transfer
  /\ (forall code id, product_id_for_code code = Some id ->
        exists m, for_product_id id = Some m /\ product_code m = code /\ product_id m = id)
  /\ (forall id m, for_product_id id = Some m ->
        product_id m = id /\ product_id_for_code (product_code m) = Some id).
Proof.
  split; [apply validate_spec; vm_compute; reflexivity|].
  split; [apply validate_spec; vm_compute; reflexivity|]. split.
  - intros code id. unfold product_id_for_code, str_eqb.
    repeat case_bool_decide; intros [= <-]; subst; eexists; repeat split; reflexivity.
  - intros id m. unfold for_product_id, str_eqb.
    repeat case_bool_decide; intros [= <-]; subst; repeat split; reflexivity.
Qed.

(** ** One identity *)

Section identity.
Context `{!ProductLibraries}.

(** The identity file holds [i], in full. *)
Definition holds (i : ProductInstallation) (n : Node) : Prop :=
  exists content mode, n = Regular content mode /\ from_slice content = Some i.
Definition holds_private (i : ProductInstallation) (n : Node) : Prop :=
  exists content, n = Regular content MODE_0600 /\ from_slice content = Some i.
(** A call that has not written to the file, or is past writing it, beside the identity [i0]. *)
Definition settled (i0 : ProductInstallation) (n : Node) (pc : Pc) : Prop :=
  match pc with
  | LoadRead => is_symlink n = false
  | LoadHarden i | SyncAll i | HardenFile i => i = i0 /\ holds i0 n
  | WriteAll _ _ => False
  | Done (Ok i) => i = i0 /\ holds_private i0 n
  | _ => True
  end.
(** A call that cannot have seen the file. *)
Definition early (pc : Pc) : Prop :=
  match pc with
  | LoadRead | LoadHarden _ | WriteAll _ _ | SyncAll _ | HardenFile _ | Done (Ok _) => False
  | _ => True
  end.
(** Nobody has created the file; or one call is writing it; or it is there for good. *)
Inductive one_identity : World -> Prop :=
| identity_absent w :
    node (w_fs w) = None -> Forall (fun x => early x.2) (w_calls w) -> one_identity w
| identity_writing w k c i0 content rest mode :
    node (w_fs w) = Some (Regular content mode) -> w_calls w !! k = Some (c, WriteAll i0 rest) ->
    from_slice (to_vec_pretty i0) = Some i0 -> content ++ rest = to_vec_pretty i0 ->
    (forall j x, j <> k -> w_calls w !! j = Some x -> settled i0 (Regular content mode) x.2) ->
    one_identity w
| identity_there w i0 n :
    node (w_fs w) = Some n -> (forall content i, read_node n = Ok content -> from_slice content = Some i -> i = i0) ->
    Forall (fun x => settled i0 n x.2) (w_calls w) -> one_identity w.

Lemma new_installation_reads c : from_slice (to_vec_pretty (new_installation c)) = Some (new_installation c).
Proof.
  apply from_slice_to_vec; cbn; [|unfold PRODUCT_INSTALLATION_SCHEMA_VERSION; lia].
  unfold now_ms, i64_wf, i64_min, i64_max. lia.
Qed.
Lemma early_settled i0 n pc : early pc -> settled i0 n pc.
Proof. by destruct pc as [| | | | | | | | | |[]]. Qed.
Lemma settled_harden i0 n pc : settled i0 n pc -> settled i0 (set_permissions MODE_0600 n) pc.
Proof.
  destruct pc as [| | | | | | | | | |[]]; try done; cbn.
  { by destruct n. }
  1-3: intros [-> (co & m & -> & Hc)]; (split; [done|]); exists co, MODE_0600; done.
  intros [-> (co & -> & Hc)]. split; [done|]. by exists co.
Qed.

(** A step of a call leaves the path alone, or hardens the file it holds, or creates it, or appends
    to it. *)
Inductive node_effect (c : Call) (pc pc' : Pc) (n n' : option Node) : Prop :=
| effect_none : n' = n -> (early pc' \/ pc' = pc
    \/ (exists m, pc' = LoadRead /\ n = Some m /\ is_symlink m = false)
    \/ (exists i content m, pc = LoadRead /\ pc' = LoadHarden i /\ n = Some m /\ read_node m = Ok content
          /\ from_slice content = Some i)
    \/ (exists i, pc = WriteAll i [] /\ pc' = SyncAll i) \/ (exists i, pc = SyncAll i /\ pc' = HardenFile i)) ->
    node_effect c pc pc' n n'
| effect_harden i : n' = set_permissions MODE_0600 <$> n -> pc = LoadHarden i \/ pc = HardenFile i ->
    pc' = Done (Ok i) -> node_effect c pc pc' n n'
| effect_create : n = None -> n' = Some (Regular [] MODE_0600) -> pc = Create ->
    pc' = WriteAll (new_installation c) (to_vec_pretty (new_installation c)) -> node_effect c pc pc' n n'
| effect_append i rest k : rest <> [] -> pc = WriteAll i rest -> pc' = WriteAll i (drop k rest) ->
    n' = match n with Some (Regular co m) => Some (Regular (co ++ take k rest) m) | n => n end ->
    node_effect c pc pc' n n'.

Lemma step_effect c env pc fs pc' fs' :
  step c env pc fs = (pc', fs') -> node_effect c pc pc' (node fs) (node fs').
Proof.
  destruct pc as [| | | | |i| |i [|b rest]|i|i|r]; cbn [step load_step];
    try (intros [= <- <-]; apply effect_none; [done|]; eauto 10; fail).
  - destruct (validate _), env; intros [= <- <-]; apply effect_none; cbn; eauto.
  - destruct env; intros [= <- <-]; apply effect_none; cbn; eauto.
  - destruct env; [|destruct (path_exists fs)]; intros [= <- <-]; apply effect_none; cbn; eauto.
  - destruct env; [|destruct (node fs) as [n|] eqn:En; [destruct (is_symlink n) eqn:Es|]];
      intros [= <- <-]; apply effect_none; cbn; eauto 12.
  - destruct env as [|k]; [intros [= <- <-]; apply effect_none; cbn; eauto|].
    destruct (node fs) as [n|] eqn:En; [|intros [= <- <-]; apply effect_none; cbn; eauto].
    destruct (read_node n) as [content|] eqn:Er; [|intros [= <- <-]; apply effect_none; cbn; eauto].
    destruct (from_slice content) as [i|] eqn:Ef; [|intros [= <- <-]; apply effect_none; cbn; eauto].
    destruct (identity_matches _ _); intros [= <- <-]; apply effect_none; cbn; eauto 12.
  - destruct env; intros [= <- <-]; [apply effect_none; cbn; eauto|].
    eapply effect_harden; cbn; eauto.
  - destruct env as [|k]; [intros [= <- <-]; apply effect_none; cbn; eauto|].
    unfold create_private_file. destruct (node fs) as [n|] eqn:En; intros [= <- <-].
    + apply effect_none; cbn; eauto.
    + by apply effect_create.
  - destruct env as [|[|k]]; intros [= <- <-]; [apply effect_none; cbn; eauto..|].
    eapply (effect_append _ _ _ _ _ i (b :: rest) (S k)); [done|done|done|]. cbn. by destruct (node fs) as [[]|].
  - destruct env; intros [= <- <-]; apply effect_none; cbn; eauto 12.
  - destruct env; intros [= <- <-]; [apply effect_none; cbn; eauto|].
    eapply effect_harden; cbn; eauto.
Qed.
End identity.

Section agreement.
Context `{!ProductLibraries}.

Lemma effect_settled c i0 n pc pc' :
  settled i0 n pc -> (forall content i, read_node n = Ok content -> from_slice content = Some i -> i = i0) ->
  forall n', node_effect c pc pc' (Some n) (Some n') ->
  (n' = n \/ n' = set_permissions MODE_0600 n) /\ settled i0 n' pc'.
Proof.
  intros Hs Huniq n' [E Hcase|i E Hpc ->|[=]|i rest k Hne -> _ _].
  - injection E as ->. split; [by left|].
    destruct Hcase as [He|[->|[(m & -> & [= <-] & Hm)|[(i & co & m & -> & -> & [= <-] & Hr & Hf)|[(i & -> & ->)|(i & -> & ->)]]]]];
      try done; [by apply early_settled|].
    cbn in *. rewrite <- (Huniq _ _ Hr Hf). split; [done|].
    destruct n as [co' m| |]; [|done|done]. injection Hr as ->. by exists co, m.
  - injection E as ->. split; [by right|]. assert (i = i0 /\ holds i0 n) as [-> (co & m & -> & Hf)].
    { by destruct Hpc as [-> | ->]. }
    split; [done|]. by exists co.
  - done.
Qed.
Lemma read_node_harden n : read_node (set_permissions MODE_0600 n) = read_node n.
Proof. by destruct n. Qed.
Lemma node_stays c pc pc' n n' : node_effect c pc pc' (Some n) n' -> exists m, n' = Some m.
Proof. intros [-> _|? -> _ _|[=]|? ? ? _ _ _ ->]; [by eexists..|]. destruct n; by eexists. Qed.

Lemma written_reads i0 co rest i :
  from_slice (to_vec_pretty i0) = Some i0 -> co ++ rest = to_vec_pretty i0 -> from_slice co = Some i -> i = i0.
Proof.
  intros Hi0 Hco Hf. destruct rest as [|b rest].
  - rewrite app_nil_r in Hco. subst co. congruence.
  - by rewrite (from_slice_truncated i0 co (b :: rest)) in Hf.
Qed.
Lemma settled_append i0 co co' m pc :
  from_slice co = None -> settled i0 (Regular co m) pc -> settled i0 (Regular co' m) pc.
Proof.
  intros Hn. destruct pc as [| | | | | | | | | |[]]; try done; cbn.
  1-3: intros [_ (? & ? & [= <- <-] & ?)]; congruence.
  intros [_ (? & [= <- ->] & ?)]; congruence.
Qed.

(** The invariant is kept by the call that writes, and by the others beside it. *)
Lemma writer_step c env i0 co rest m k w pc' fs' :
  node (w_fs w) = Some (Regular co m) -> w_calls w !! k = Some (c, WriteAll i0 rest) ->
  from_slice (to_vec_pretty i0) = Some i0 -> co ++ rest = to_vec_pretty i0 ->
  (forall j x, j <> k -> w_calls w !! j = Some x -> settled i0 (Regular co m) x.2) ->
  step c env (WriteAll i0 rest) (w_fs w) = (pc', fs') ->
  one_identity {| w_fs := fs'; w_calls := <[k := (c, pc')]> (w_calls w) |}.
Proof.
  intros Hn Hk Hi0 Hco Hset Hstep%step_effect. rewrite Hn in Hstep.
  pose proof (lookup_lt_Some _ _ _ Hk) as Hlt.
  assert (settled i0 (Regular co m) pc' -> node fs' = Some (Regular co m) ->
          one_identity {| w_fs := fs'; w_calls := <[k := (c, pc')]> (w_calls w) |}) as Hthere.
  { intros Hpc Hn'. apply (identity_there _ i0 (Regular co m)); [done|..].
    - intros co' i [= <-] Hf. by eapply written_reads.
    - cbn. apply Forall_lookup_2. intros j x. destruct (decide (j = k)) as [->|Hj].
      + rewrite list_lookup_insert_eq by done. by intros [= <-].
      + rewrite list_lookup_insert_ne by done. by apply Hset. }
  destruct Hstep as [E Hcase|i E [[=]|[=]] _|[=]|i rest' j Hne [= <- <-] -> E].
  - destruct Hcase as [He|[->|[(? & -> & [= <-] & Hm)|[(? & ? & ? & [=] & _)|[(i & [= <- ->] & ->)|(? & [=] & _)]]]]].
    + apply Hthere; [by apply early_settled|done].
    + eapply (identity_writing _ k c i0 co rest m); cbn; try done.
      * by apply list_lookup_insert_eq.
      * intros j x Hj. rewrite list_lookup_insert_ne by done. by apply Hset.
    + by apply Hthere.
    + apply Hthere; [|done]. split; [done|]. exists co, m. split; [done|].
      rewrite app_nil_r in Hco. by subst co.
  - eapply (identity_writing _ k c i0 _ _ m); cbn; [exact E|by apply list_lookup_insert_eq|done|..].
    + by rewrite <- app_assoc, take_drop.
    + intros j' x Hj. rewrite list_lookup_insert_ne by done. intros Hx.
      eapply settled_append; [|by eapply Hset]. by eapply from_slice_truncated.
Qed.

Lemma one_identity_step w w' : one_identity w -> world_step w w' -> one_identity w'.
Proof.
  intros Hw Hs. revert Hw. destruct Hs as [w k c pc env pc' fs' Hk Hstep0]. intros Hw.
  pose proof (step_effect _ _ _ _ _ _ Hstep0) as Hstep.
  destruct Hw as [w Hn He|w kw cw i0 co rest m Hn Hkw Hi0 Hco Hset|w i0 n Hn Huniq Hset].
  - rewrite Hn in Hstep. pose proof (Forall_lookup_1 _ _ _ _ He Hk) as Hpc. cbn in Hpc.
    destruct Hstep as [E Hcase|i E [-> | ->] ->|_ E -> ->|i rest j Hne -> _ _]; try done.
    + apply identity_absent; [done|]. cbn. apply Forall_insert; [done|]. cbn.
      destruct Hcase as [He'|[->|[(m & -> & [=] & Hm)|[(i & co & m & -> & -> & [=] & Hr & Hf)|[(i & -> & ->)|(i & -> & ->)]]]]]; done.
    + eapply (identity_writing _ k c (new_installation c) []); [exact E|..]; cbn.
      * apply list_lookup_insert_eq. by eapply lookup_lt_Some.
      * apply new_installation_reads.
      * done.
      * intros j x Hj. rewrite list_lookup_insert_ne by done. intros Hx.
        apply early_settled. by apply (Forall_lookup_1 _ _ _ _ He Hx).
  - destruct (decide (k = kw)) as [->|Hne].
    { rewrite Hk in Hkw. injection Hkw as -> ->. by eapply writer_step. }
    rewrite Hn in Hstep. destruct (node_stays _ _ _ _ _ Hstep) as [n' En']. rewrite En' in Hstep.
    destruct (effect_settled c i0 (Regular co m) pc pc') with (n' := n') as [Hor Hs'].
    + by apply (Hset k (c, pc)).
    + intros ? i [= <-] Hf. by eapply written_reads.
    + exact Hstep.
    + assert (exists m', n' = Regular co m') as [m' ->] by (destruct Hor as [-> | ->]; by eexists).
      eapply (identity_writing _ kw cw i0 co rest m'); cbn; try done.
      * by rewrite list_lookup_insert_ne.
      * intros j x Hj. destruct (decide (j = k)) as [->|Hjk].
        { rewrite list_lookup_insert_eq by (by eapply lookup_lt_Some). by intros [= <-]. }
        rewrite list_lookup_insert_ne by done. intros Hx%Hset; [|done].
        destruct Hor as [-> | ->]; [done|by apply (settled_harden _ (Regular co m))].
  - rewrite Hn in Hstep. destruct (node_stays _ _ _ _ _ Hstep) as [n' En'].
    pose proof (Forall_lookup_1 _ _ _ _ Hset Hk) as Hpc. cbn in Hpc. rewrite En' in Hstep.
    destruct (effect_settled _ _ _ _ _ Hpc Huniq _ Hstep) as [Hor Hs'].
    apply (identity_there _ i0 n'); [exact En'|..].
    + intros co i. destruct Hor as [-> | ->]; rewrite ?read_node_harden; apply Huniq.
    + cbn. apply Forall_insert; [|done]. eapply Forall_impl; [exact Hset|]. intros x Hx.
      destruct Hor as [-> | ->]; [done|by apply settled_harden].
Qed.
End agreement.

Section outcome.
Context `{!ProductLibraries}.

(** What a call knows on its own. *)
Definition matches (c : Call) (i : ProductInstallation) : Prop :=
  i_schema_version i = PRODUCT_INSTALLATION_SCHEMA_VERSION /\ i_product_id i = product_id (manifest c).
Definition informed (dir : option Z) (c : Call) (pc : Pc) : Prop :=
  match pc with
  | Start | Done (Err _) => True
  | HardenDirectory => manifest_ok (manifest c)
  | Exists | LoadMetadata | LoadRead | Create => manifest_ok (manifest c) /\ dir = Some MODE_0700
  | LoadHarden i | WriteAll i _ | SyncAll i | HardenFile i | Done (Ok i) =>
    manifest_ok (manifest c) /\ dir = Some MODE_0700 /\ matches c i
  end.
Lemma identity_matches_spec m i :
  identity_matches m i = true <->
  i_schema_version i = PRODUCT_INSTALLATION_SCHEMA_VERSION /\ i_product_id i = product_id m
  /\ is_uuid_v4 (i_installation_id i) = true /\ 0 < i_created_at_ms i.
Proof.
  unfold identity_matches, str_eqb. rewrite negb_true_iff, !orb_false_iff, !negb_false_iff, bool_decide_eq_true.
  rewrite Z.eqb_eq, Z.leb_gt. tauto.
Qed.

Lemma step_informed c env pc fs pc' fs' :
  step c env pc fs = (pc', fs') -> informed (directory_mode fs) c pc ->
  informed (directory_mode fs') c pc'
  /\ (directory_mode fs = Some MODE_0700 -> directory_mode fs' = Some MODE_0700).
Proof.
  destruct pc as [| | | | |i| |i [|b rest]|i|i|r]; cbn [step load_step].
  - destruct (validate (manifest c)) as [[]|] eqn:Ev; [apply validate_spec in Ev|];
      destruct env; intros [= <- <-] _; cbn; split; try done; by intros ->.
  - destruct env; intros [= <- <-] Hi; by split.
  - destruct env; [|destruct (path_exists fs)]; intros [= <- <-] Hi; by split.
  - destruct env; [|destruct (node fs) as [n|]; [destruct (is_symlink n)|]]; intros [= <- <-] Hi; by split.
  - destruct env; [|destruct (node fs) as [n|]; [destruct (read_node n) as [content|];
      [destruct (from_slice content) as [i|]; [destruct (identity_matches _ i) eqn:Em|]|]|]];
      intros [= <- <-] Hi; split; try done.
    apply identity_matches_spec in Em as (? & ? & _). destruct Hi. by split_and!.
  - destruct env; intros [= <- <-] Hi; by split.
  - unfold create_private_file. destruct env; [|destruct (node fs)]; intros [= <- <-] Hi; split; try done.
    destruct Hi. by split_and!.
  - intros [= <- <-] Hi; by split.
  - destruct env as [|[|k]]; intros [= <- <-] Hi; by split.
  - destruct env; intros [= <- <-] Hi; by split.
  - destruct env; intros [= <- <-] Hi; by split.
  - intros [= <- <-] Hi; by split.
Qed.
Lemma informed_hardened dir dir' c pc :
  (dir = Some MODE_0700 -> dir' = Some MODE_0700) -> informed dir c pc -> informed dir' c pc.
Proof. intros Hd. destruct pc as [| | | | | | | | | |[]]; cbn; tauto. Qed.

Definition all_informed (w : World) : Prop :=
  Forall (fun x => informed (directory_mode (w_fs w)) x.1 x.2) (w_calls w).
Lemma all_informed_step w w' : all_informed w -> world_step w w' -> all_informed w'.
Proof.
  intros Hw Hs. revert Hw. destruct Hs as [w k c pc env pc' fs' Hk Hstep]. intros Hw.
  pose proof (Forall_lookup_1 _ _ _ _ Hw Hk) as Hpc. cbn in Hpc.
  destruct (step_informed _ _ _ _ _ _ Hstep Hpc) as [Hpc' Hd]. apply Forall_insert; [|done].
  eapply Forall_impl; [exact Hw|]. intros x. by apply informed_hardened.
Qed.

Lemma one_identity_start w : Forall (fun x => x.2 = Start) (w_calls w) -> one_identity w.
Proof.
  intros Hs. destruct (node (w_fs w)) as [n|] eqn:En.
  - pose (i0 := default {| i_schema_version := 0; i_product_id := ""; i_installation_id := ""; i_created_at_ms := 0 |}
                  (match read_node n with Ok content => from_slice content | Err _ => None end)).
    apply (identity_there w i0 n En).
    + intros content i Hr Hf. unfold i0. by rewrite Hr, Hf.
    + eapply Forall_impl; [exact Hs|]. by intros [c pc] [= ->].
  - apply (identity_absent w En). eapply Forall_impl; [exact Hs|]. by intros [c pc] [= ->].
Qed.
Lemma one_identity_done w j c i :
  one_identity w -> w_calls w !! j = Some (c, Done (Ok i)) ->
  exists n, node (w_fs w) = Some n /\ holds_private i n.
Proof.
  intros [w' Hn He|w' k ck i0 co rest m Hn Hk _ _ Hset|w' i0 n Hn _ Hset] Hj.
  - by apply (Forall_lookup_1 _ _ _ _ He) in Hj.
  - destruct (decide (j = k)) as [->|Hne]; [congruence|]. apply Hset in Hj as [-> Hh]; [by eexists|done].
  - apply (Forall_lookup_1 _ _ _ _ Hset) in Hj as [-> Hh]. by eexists.
Qed.

(** C16: one installation identity.  However many calls of [load_or_create] run at once on a
    directory, in whatever order their file system operations interleave, whichever of them fail or
    write only in part, and whatever the path named before: calls that succeed agree on the
    identity.  It is then in full in a regular file that only its owner can access, in a directory
    only the owner can access; and a call succeeds only for a valid manifest, with an identity of
    that very product. *)
Theorem installation_identity_agreed w0 w :
  Forall (fun x => x.2 = Start) (w_calls w0) -> rtc world_step w0 w ->
  (forall j k c c' i i', w_calls w !! j = Some (c, Done (Ok i)) -> w_calls w !! k = Some (c', Done (Ok i')) -> i = i')
  /\ (forall k c i, w_calls w !! k = Some (c, Done (Ok i)) ->
        manifest_ok (manifest c) /\ matches c i /\ directory_mode (w_fs w) = Some MODE_0700
        /\ exists n, node (w_fs w) = Some n /\ holds_private i n).
Proof.
  intros Hs Hr. assert (one_identity w /\ all_informed w) as [Hone Hinf].
  { assert (one_identity w0 /\ all_informed w0) as H0.
    { split; [by apply one_identity_start|]. eapply Forall_impl; [exact Hs|]. by intros [c pc] [= ->]. }
    clear Hs. induction Hr as [|w0 w1 w Hstep _ IH]; [done|]. apply IH. destruct H0.
    split; [by eapply one_identity_step|by eapply all_informed_step]. }
  split.
  - intros j k c c' i i' Hj Hk.
    destruct (one_identity_done _ _ _ _ Hone Hj) as (n & En & co & -> & Hf).
    destruct (one_identity_done _ _ _ _ Hone Hk) as (n' & En' & co' & -> & Hf'). congruence.
  - intros k c i Hk. destruct (Forall_lookup_1 _ _ _ _ Hinf Hk) as (Hm & Hd & Hi).
    split_and!; try done. by eapply one_identity_done.
Qed.
End outcome.

Section lasting.
Context `{!ProductLibraries}.

(** How many operations a call may still need. *)
Definition operations_left (c : Call) (pc : Pc) : nat :=
  let full := length (to_vec_pretty (new_installation c)) in
  match pc with
  | Start => full + 8
  | HardenDirectory => full + 7
  | Exists => full + 6
  | Create => full + 5
  | WriteAll _ rest => length rest + 3 + 1
  | SyncAll _ | LoadMetadata => 3
  | HardenFile _ | LoadRead => 2
  | LoadHarden _ => 1
  | Done _ => 0
  end%nat.
Lemma step_progress c env pc fs pc' fs' :
  step c env pc fs = (pc', fs') -> (operations_left c pc' < operations_left c pc)%nat \/ (exists r, pc = Done r).
Proof.
  destruct pc as [| | | | |i| |i [|b rest]|i|i|r]; cbn [step load_step]; intros Hs; [left..|by right; eauto].
  - destruct (validate (manifest c)), env; injection Hs as <- <-; cbn; lia.
  - destruct env; injection Hs as <- <-; cbn; lia.
  - destruct env; [|destruct (path_exists fs)]; injection Hs as <- <-; cbn; lia.
  - destruct env; [|destruct (node fs) as [n|]; [destruct (is_symlink n)|]]; injection Hs as <- <-; cbn; lia.
  - destruct env; [|destruct (node fs) as [n|]; [destruct (read_node n) as [content|];
      [destruct (from_slice content) as [i|]; [destruct (identity_matches _ i)|]|]|]];
      injection Hs as <- <-; cbn; lia.
  - destruct env; injection Hs as <- <-; cbn; lia.
  - destruct env; [|destruct (create_private_file fs)]; injection Hs as <- <-; cbn; lia.
  - injection Hs as <- <-; cbn; lia.
  - destruct env as [|[|k]]; injection Hs as <- <-; cbn; rewrite ?length_drop; lia.
  - destruct env; injection Hs as <- <-; cbn; lia.
  - destruct env; injection Hs as <- <-; cbn; lia.
Qed.
(** Whatever the system makes of its operations, a call comes to an end. *)
Lemma load_or_create_finishes c envs pc fs :
  (operations_left c pc <= length envs)%nat -> exists r fs', load_or_create c envs pc fs = (Done r, fs').
Proof.
  revert pc fs. induction envs as [|env envs IH]; intros pc fs Hl; cbn [load_or_create].
  - destruct pc; cbn in Hl; try lia. by eexists _, _.
  - destruct (step c env pc fs) as [pc' fs'] eqn:Es. apply IH.
    destruct (step_progress _ _ _ _ _ _ Es) as [Hlt|[r ->]]; [cbn in Hl; lia|].
    injection Es as <- <-. cbn. lia.
Qed.

Definition sound (env : Env) : Prop := exists k, env = Proceed (S k).
Lemma run_Done c envs r fs : load_or_create c envs (Done r) fs = (Done r, fs).
Proof. by induction envs. Qed.
Lemma run_write c i rest : forall envs co dir,
  Forall sound envs -> (length rest + 3 <= length envs)%nat ->
  load_or_create c envs (WriteAll i rest) {| directory_mode := dir; node := Some (Regular co MODE_0600) |}
  = (Done (Ok i), {| directory_mode := dir; node := Some (Regular (co ++ rest) MODE_0600) |}).
Proof.
  remember (length rest) as n eqn:En. revert rest En. induction (lt_wf n) as [n _ IH].
  intros rest -> envs co dir HF Hlen. destruct rest as [|b rest].
  - destruct envs as [|e1 [|e2 [|e3 envs]]]; cbn in Hlen; try lia.
    apply Forall_cons in HF as [[k1 ->] HF]. apply Forall_cons in HF as [[k2 ->] HF].
    apply Forall_cons in HF as [[k3 ->] HF]. cbn. by rewrite run_Done, app_nil_r.
  - destruct envs as [|e envs]; [cbn in Hlen; lia|]. apply Forall_cons in HF as [[k ->] HF].
    change (load_or_create c envs (WriteAll i (drop (S k) (b :: rest)))
      {| directory_mode := dir; node := Some (Regular (co ++ take (S k) (b :: rest)) MODE_0600) |} = (Done (Ok i),
      {| directory_mode := dir; node := Some (Regular (co ++ b :: rest) MODE_0600) |})).
    rewrite (IH (length (drop (S k) (b :: rest)))); try done.
    + by rewrite <- app_assoc, take_drop.
    + cbn. rewrite length_drop. lia.
    + cbn in *. rewrite length_drop. lia.
Qed.

(** Solo runs on a system that works. *)
Lemma step_Start c k fs :
  manifest_ok (manifest c) ->
  step c (Proceed k) Start fs
  = (HardenDirectory, {| directory_mode := Some (default MODE_0755 (directory_mode fs)); node := node fs |}).
Proof. intros Hm. cbn [step]. by rewrite (proj2 (validate_spec _) Hm). Qed.
Lemma run_create c envs fs :
  manifest_ok (manifest c) -> node fs = None -> Forall sound envs -> (operations_left c Start <= length envs)%nat ->
  load_or_create c envs Start fs = (Done (Ok (new_installation c)),
    {| directory_mode := Some MODE_0700;
       node := Some (Regular (to_vec_pretty (new_installation c)) MODE_0600) |}).
Proof.
  intros Hm Hn HF Hlen. destruct envs as [|e1 [|e2 [|e3 [|e4 envs]]]]; cbn in Hlen; try lia.
  do 4 (apply Forall_cons in HF as [[? ->] HF]). destruct fs as [dir n]. cbn in Hn. subst n.
  cbn [load_or_create]. rewrite step_Start by done.
  change (load_or_create c envs (WriteAll (new_installation c) (to_vec_pretty (new_installation c)))
    {| directory_mode := Some MODE_0700; node := Some (Regular [] MODE_0600) |} = (Done (Ok (new_installation c)),
    {| directory_mode := Some MODE_0700;
       node := Some (Regular (to_vec_pretty (new_installation c)) MODE_0600) |})).
  by rewrite run_write by (done || lia).
Qed.
Lemma run_load c envs dir content mode i :
  manifest_ok (manifest c) -> from_slice content = Some i -> identity_matches (manifest c) i = true ->
  Forall sound envs -> (6 <= length envs)%nat ->
  load_or_create c envs Start {| directory_mode := dir; node := Some (Regular content mode) |}
  = (Done (Ok i), {| directory_mode := Some MODE_0700; node := Some (Regular content MODE_0600) |}).
Proof.
  intros Hm Hf Hi HF Hlen. destruct envs as [|e1 [|e2 [|e3 [|e4 [|e5 [|e6 envs]]]]]]; cbn in Hlen; try lia.
  do 6 (apply Forall_cons in HF as [[? ->] HF]). cbn [load_or_create]. rewrite step_Start by done.
  cbn. rewrite Hf, Hi. cbn. by rewrite run_Done.
Qed.

(** C27: an installation lasts.  Every call of [load_or_create] ends, however its operations fare.
    On a system where they succeed and with no file there yet, a valid manifest gets a new identity
    with the identifier that was drawn, private on disk; and when the clock was past the epoch,
    every later call for that product returns that same identity and leaves the file as it is,
    whatever identifier it drew itself. *)
Theorem installation_lasts c fs envs :
  (operations_left c Start <= length envs)%nat ->
  (exists r fs', load_or_create c envs Start fs = (Done r, fs'))
  /\ (manifest_ok (manifest c) -> node fs = None -> Forall sound envs ->
      let fs' := {| directory_mode := Some MODE_0700;
                    node := Some (Regular (to_vec_pretty (new_installation c)) MODE_0600) |} in
      load_or_create c envs Start fs = (Done (Ok (new_installation c)), fs')
      /\ i_installation_id (new_installation c) = uuid_to_string (uuid c)
      /\ (uuid_is_random (uuid c) = true -> 0 < clock c ->
          forall c2 envs2, manifest_ok (manifest c2) -> product_id (manifest c2) = product_id (manifest c) ->
          Forall sound envs2 -> (6 <= length envs2)%nat ->
          load_or_create c2 envs2 Start fs' = (Done (Ok (new_installation c)), fs'))).
Proof.
  intros Hlen. split; [by apply load_or_create_finishes|]. intros Hm Hn HF fs'.
  split; [by apply run_create|]. split; [done|]. intros Hu Hc c2 envs2 Hm2 Hid HF2 Hlen2.
  apply run_load; try done; [apply new_installation_reads|]. apply identity_matches_spec. split_and!; try done.
  - cbn. unfold is_uuid_v4. by rewrite uuid_parse_to_string.
  - cbn. unfold now_ms, i64_max. lia.
Qed.

(** A call that is cut short after creating the file leaves one that no later call accepts: the
    identity is neither loaded nor replaced. *)
Lemma torn_identity_stays c envs dir content mode :
  from_slice content = None -> Forall sound envs -> (6 <= length envs)%nat -> manifest_ok (manifest c) ->
  load_or_create c envs Start {| directory_mode := dir; node := Some (Regular content mode) |}
  = (Done (Err Json), {| directory_mode := Some MODE_0700; node := Some (Regular content mode) |}).
Proof.
  intros Hf HF Hlen Hm. destruct envs as [|e1 [|e2 [|e3 [|e4 [|e5 envs]]]]]; cbn in Hlen; try lia.
  do 5 (apply Forall_cons in HF as [[? ->] HF]). cbn [load_or_create]. rewrite step_Start by done.
  cbn. rewrite Hf. by rewrite run_Done.
Qed.
End lasting.

(** ** Witnesses: two processes race to create the identity *)

Fixpoint toy_bits (p : positive) : bytes :=
  match p with xH => [] | xO p => Byte.x00 :: toy_bits p | xI p => Byte.x01 :: toy_bits p end.
Fixpoint toy_unbits (b : bytes) : positive :=
  match b with
  | [] => xH
  | x :: b => if bool_decide (x = Byte.x00) then xO (toy_unbits b) else xI (toy_unbits b)
  end.
Lemma toy_unbits_bits p : toy_unbits (toy_bits p) = p.
Proof. by induction p; simpl; rewrite ?IHp. Qed.
Lemma toy_bits_two p : Byte.x02 ∉ toy_bits p.
Proof. induction p; simpl; set_solver. Qed.
#[local] Instance installation_eq : EqDecision ProductInstallation.
Proof. solve_decision. Defined.
#[local] Instance installation_countable : Countable ProductInstallation.
Proof.
  refine (inj_countable' (fun i => (i_schema_version i, i_product_id i, i_installation_id i, i_created_at_ms i))
    (fun '(s, p, n, t) => {| i_schema_version := s; i_product_id := p; i_installation_id := n; i_created_at_ms := t |}) _).
  by intros [].
Defined.
(** Documents end with a byte they do not contain elsewhere. *)
Definition toy_libraries : ProductLibraries.
Proof.
  refine {| Uuid := string; uuid_parse_str := Some; uuid_to_string := fun s => s; uuid_is_random := fun _ => true;
    to_vec_pretty := fun i => toy_bits (encode i) ++ [Byte.x02];
    from_slice := fun b => if bool_decide (last b = Some Byte.x02) then decode (toy_unbits (removelast b)) else None |}.
  - done.
  - intros i _ _. rewrite last_snoc, removelast_last, toy_unbits_bits. cbn. apply decode_encode.
  - intros i c rest Hc Hr. rewrite bool_decide_eq_false_2; [done|]. intros (c' & ->)%last_Some.
    destruct rest as [|b rest _] using rev_ind; [done|]. rewrite app_assoc in Hc.
    apply app_inj_tail in Hc as [Hc _]. apply (toy_bits_two (encode i)). rewrite Hc. set_solver.
Defined.
#[local] Existing Instance toy_libraries.

Definition call_of (u : string) (t : Z) : Call := {| manifest := transfer; uuid := u; clock := t |}.
Definition step_world (w : World) (x : nat * Env) : World :=
  match w_calls w !! x.1 with
  | Some (c, pc) => let '(pc, fs) := step c x.2 pc (w_fs w) in
                    {| w_fs := fs; w_calls := <[x.1 := (c, pc)]> (w_calls w) |}
  | None => w
  end.
Lemma step_world_steps schedule w : rtc world_step w (foldl step_world w schedule).
Proof.
  revert w. induction schedule as [|x schedule IH]; intros w; [apply rtc_refl|]. cbn [foldl].
  transitivity (step_world w x); [|apply IH]. unfold step_world. destruct (w_calls w !! x.1) as [[c pc]|] eqn:E; [|apply rtc_refl].
  destruct (step c x.2 pc (w_fs w)) as [pc' fs'] eqn:Es. apply rtc_once. by econstructor.
Qed.
Definition wworld : World :=
  {| w_fs := {| directory_mode := None; node := None |};
     w_calls := [(call_of "a" 7, Start); (call_of "b" 8, Start)] |}.
Definition go : Env := Proceed 1000.
(** Both look before either creates the file, which takes two writes. *)
Definition wschedule : list (nat * Env) :=
  [(0, go); (1, go); (0, go); (1, go); (0, go); (1, go); (0, go); (1, go); (0, go); (0, go); (1, go);
   (0, go); (1, go); (0, go); (1, go); (0, go)]%nat.
Definition wend : World := foldl step_world wworld wschedule.

Lemma installation_identity_agreed_witness :
  let i := new_installation (call_of "a" 7) in
  w_calls wend = [(call_of "a" 7, Done (Ok i)); (call_of "b" 8, Done (Ok i))]
  /\ directory_mode (w_fs wend) = Some MODE_0700 /\ exists n, node (w_fs wend) = Some n /\ holds_private i n.
Proof.
  intros i. assert (w_calls wend = [(call_of "a" 7, Done (Ok i)); (call_of "b" 8, Done (Ok i))]) as E
    by (vm_compute; reflexivity).
  split; [exact E|].
  refine (proj2 (proj2 (proj2 (installation_identity_agreed wworld wend _ (step_world_steps wschedule wworld))
    1%nat (call_of "b" 8) i _))); [repeat constructor|]. rewrite E. reflexivity.
Defined.

Lemma installation_lasts_witness :
  exists fs', load_or_create (call_of "a" 7) (replicate 1400 go) Start {| directory_mode := None; node := None |}
              = (Done (Ok (new_installation (call_of "a" 7))), fs')
    /\ load_or_create (call_of "b" 9) (replicate 10 go) Start fs'
       = (Done (Ok (new_installation (call_of "a" 7))), fs').
Proof.
  assert (manifest_ok transfer) as Hm by (apply built_in_manifests).
  assert (forall n, Forall sound (replicate n go)) as HF by (intros n; apply Forall_replicate; by exists 999%nat).
  destruct (installation_lasts (call_of "a" 7) {| directory_mode := None; node := None |} (replicate 1400 go)
    ltac:(vm_compute; lia)) as [_ Hr].
  destruct (Hr Hm eq_refl (HF 1400%nat)) as (H1 & _ & H2). eexists. split; [exact H1|].
  apply (H2 eq_refl ltac:(done) (call_of "b" 9)); [done|done|apply HF|]. rewrite length_replicate. lia.
Defined.

End Product.
