(* ===== verification/InputHandler.v ===== *)
(** * The input handlers

    Models [begin_input_session], [input_session_result] and the frame loop of
    [handle_uni_stream] in [src/server/proto_handler/input.rs], [revoke_input_with_feedback] and
    [end_input_lease_locked] in [.../input/events.rs], and the arms of the connection loop of
    [src/server/proto_handler.rs] that end a lease (lease tick, focus change, end request,
    cleanup).  All of them run under the input gate, so each is one atomic step; a connection
    owns one slot [active_input], the session manager and the machine are shared.  The input
    metrics of the frame loop, which only feed a diagnostic event, are in [InputStreams]. *)

From Stdlib Require Import ZArith Lia.
From stdpp Require Import base tactics option list strings gmap relations.
From S2P Require Import Prelude Proto Text Negotiation Requests InputEvents InputSession.

Module InputHandler.
Import InputEvents InputSession.

Inductive InputPermissionState := Granted | Denied | Unsupported.
#[global] Instance InputPermissionState_eq_dec : EqDecision InputPermissionState.
Proof. solve_decision. Defined.

Inductive WorkspaceInputRouteState := RouteActive | RouteSuspended | RouteEnded.
Inductive WorkspaceInputFocusCause :=
| SessionStarted | MobilePortal | DesktopPortal | PhysicalActivity | SessionEnded
| GatewayUnavailable.
Record WorkspaceInputSnapshot := {
  owner_device_id : option string;
  controller_device_id : string;
  logical_target_device_id : string;
  target_display_id : string;
  control_epoch : Z;
  snapshot_supports_gestures : bool;
  route_state : WorkspaceInputRouteState;
  focus_cause : WorkspaceInputFocusCause;
  focus_message : string;
}.

(** [proto::InputFocusChanged]; its enumerations have the variants of the source's. *)
Record InputFocusChanged := {
  ifc_session_id : Z;
  ifc_epoch : Z;
  ifc_state : WorkspaceInputRouteState;
  ifc_cause : WorkspaceInputFocusCause;
  ifc_controller_device_id : string;
  ifc_logical_target_device_id : string;
  ifc_target_display_id : string;
  ifc_control_epoch : Z;
  ifc_message : string;
  ifc_supports_system_gestures : bool;
}.
Definition input_focus_changed_frame (l : option InputLease) (focus : WorkspaceInputSnapshot)
  : InputFocusChanged :=
  {| ifc_session_id := match l with Some l => session_id l | None => 0 end;
     ifc_epoch := match l with Some l => epoch l | None => 0 end;
     ifc_state := route_state focus; ifc_cause := focus_cause focus;
     ifc_controller_device_id := controller_device_id focus;
     ifc_logical_target_device_id := logical_target_device_id focus;
     ifc_target_display_id := target_display_id focus;
     ifc_control_epoch := control_epoch focus; ifc_message := focus_message focus;
     ifc_supports_system_gestures := snapshot_supports_gestures focus |}.

(** [proto::InputSessionResult]. *)
Record InputSessionResult := {
  isr_request_id : Z;
  isr_status : Status;
  isr_session_id : Z;
  isr_epoch : Z;
  isr_permission : InputPermissionState;
  isr_lease_timeout_ms : Z;
  isr_max_datagram_rate : Z;
  isr_max_reliable_events_per_frame : Z;
  isr_max_reliable_frame_rate : Z;
  isr_supports_system_gestures : bool;
  isr_workspace_routing_active : bool;
  isr_gateway_device_id : string;
  isr_logical_target_device_id : string;
  isr_target_display_id : string;
  isr_control_epoch : Z;
}.

(** [proto::ReliableInputFrame] with its optional motion totals. *)
Record MotionTotals := {
  m_pointer_total_x_256 : Z;
  m_pointer_total_y_256 : Z;
  m_scroll_total_x_256 : Z;
  m_scroll_total_y_256 : Z;
  m_precise_scroll : bool;
}.
Record ReliableInputFrame `{!InputCore} := {
  f_session_id : Z;
  f_epoch : Z;
  f_sequence : Z;
  f_elapsed_us : Z;
  f_motion : option MotionTotals;
  f_events : list (option WireInputEvent);
}.

Section handler.
Context `{!InputCore} `{!GestureCore} `{!DrainOrder} `{!FeatureCodes}.

(** [WorkspaceInputRouter] and [input_control] of the host, as they answer during one step.
    Native events are injected in order, and a failure leaves a prefix of them applied; [release_all]
    releases every key and button when it succeeds, and may leave any when it fails. *)
Record Router := {
  available : bool;
  router_begin : result WorkspaceInputSnapshot HostCapabilityError;
  router_apply : list InputEvent -> result unit HostCapabilityError;
}.
Record Host := {
  fresh_id : string;
  permission_state : InputPermissionState;
  supports_system_gestures : bool;
  validate_events : list InputEvent -> result unit string;
  apply_events : native -> list InputEvent -> native * result unit string;
  release_all : native -> native * result unit string;
  router : option Router;
  apply_events_prefix : forall n es, exists k, (apply_events n es).1 = native_apply n (take k es);
  apply_events_ok : forall n es, (apply_events n es).2 = Ok tt ->
    (apply_events n es).1 = native_apply n es;
  release_all_clears : forall n, (release_all n).2 = Ok tt ->
    (release_all n).1 = {| native_keys := ∅; native_buttons := ∅ |};
}.

(** What a handler tells the peer, the user interface and the router. *)
Inductive Output :=
| OutFeedback (l : InputLease) (snapshot : InputFeedbackSnapshot) (result : Status)
| OutStarted (l : InputLease)
| OutEnded (l : InputLease)
| OutPermissionRequired
| OutRouterBegin
| OutRouterApply (events : list InputEvent)
| OutRouterEnd
| OutFocusChanged (frame : InputFocusChanged).

(** One connection's view: its slot, the shared manager and machine, its outputs; for the statements,
    [released] remembers how the last [release_all] ended, which the code ignores. *)
Record HState := {
  sessions : InputSessionState;
  active_input : option InputLease;
  machine : native;
  released : native * result unit string;
  out : list Output;
}.
Definition emit (o : Output) (st : HState) : HState :=
  {| sessions := sessions st; active_input := active_input st; machine := machine st;
     released := released st; out := out st ++ [o] |}.
Definition set_sessions (s : InputSessionState) (st : HState) : HState :=
  {| sessions := s; active_input := active_input st; machine := machine st; released := released st;
     out := out st |}.
Definition set_active_input (a : option InputLease) (st : HState) : HState :=
  {| sessions := sessions st; active_input := a; machine := machine st; released := released st;
     out := out st |}.
Definition set_machine (n : native) (st : HState) : HState :=
  {| sessions := sessions st; active_input := active_input st; machine := n; released := released st;
     out := out st |}.
(** [let _ = release_all().await]: the machine is as the call left it, whatever it returned. *)
Definition set_released (outcome : native * result unit string) (st : HState) : HState :=
  {| sessions := sessions st; active_input := active_input st; machine := outcome.1; released := outcome;
     out := out st |}.

Definition no_lease : InputLease := {| session_id := 0; epoch := 0 |}.
Definition no_feedback : InputFeedbackSnapshot :=
  {| feedback_reliable_sequence := 0; motion_sequence := 0; motion_datagrams_received := 0;
     motion_datagrams_missing := 0 |}.

Section device.
Context (h : Host) (device : string).

Definition end_input_lease_locked (l : InputLease) (st : HState) : HState :=
  if bool_decide (active_input st = Some l) then
    let st :=
      if is_workspace_routed l device (sessions st) then
        match router h with Some _ => emit OutRouterEnd st | None => st end
      else set_released (release_all h (machine st)) st in
    emit (OutEnded l)
      (set_active_input None (set_sessions (release l (sessions st)).1 st))
  else st.

Definition revoke_input_with_feedback (l : InputLease) (message : string) (st : HState) : HState :=
  emit (OutFeedback l no_feedback
          (Negotiation.status (fresh_id h) ECFailedPrecondition message))
    (end_input_lease_locked l st).

Definition input_session_result (request_id : Z) (accepted : bool) (l : InputLease)
    (permission : InputPermissionState) (message : string) (failure_code : ErrorCode)
  : InputSessionResult :=
  {| isr_request_id := request_id;
     isr_status := if accepted then Negotiation.ok_status
                   else Negotiation.status (fresh_id h) failure_code message;
     isr_session_id := session_id l; isr_epoch := epoch l; isr_permission := permission;
     isr_lease_timeout_ms := INPUT_LEASE_TIMEOUT / 1000000; isr_max_datagram_rate := 0;
     isr_max_reliable_events_per_frame := MAX_RELIABLE_EVENTS_PER_FRAME;
     isr_max_reliable_frame_rate := MAX_RELIABLE_FRAMES_PER_SECOND;
     isr_supports_system_gestures := false; isr_workspace_routing_active := false;
     isr_gateway_device_id := EmptyString; isr_logical_target_device_id := EmptyString;
     isr_target_display_id := EmptyString; isr_control_epoch := 0 |}.

Definition router_available : bool :=
  match router h with Some r => available r | None => false end.

(** The guards of [begin_input_session], in their order: the failure they answer with, and whether
    the user is asked for the permission. *)
Definition begin_guard (routed : bool) (features : gset Z) (capabilities : gset Requests.CapabilityId)
  : option (string * ErrorCode * bool) :=
  if negb (bool_decide (feature_code FInputReliable ∈ features))
  then Some ("remote input features were not negotiated"%string, ECUnsupported, false) else
  if negb (bool_decide (Requests.RemoteInputInject ∈ capabilities))
  then Some ("remote-input.inject capability was not granted"%string, ECPermissionDenied, false) else
  if routed && (negb (bool_decide (feature_code FWorkspaceInput ∈ features)) || negb router_available)
  then Some ("workspace input routing is unavailable"%string, ECUnsupported, false) else
  if negb (bool_decide (permission_state h = Granted))
  then Some ("desktop input permission is not granted"%string, ECPermissionDenied, true)
  else None.

(** [None]: the lease loop is still drawing, or the [expect] on the router panicked. *)
Definition begin_input_session (draws : list (Z * Z)) (now request_id : Z) (routed : bool)
    (features : gset Z) (capabilities : gset Requests.CapabilityId) (st : HState)
  : option (HState * InputSessionResult) :=
  let permission := permission_state h in
  let reject message code := input_session_result request_id false no_lease permission message code in
  match begin_guard routed features capabilities with
  | Some (message, code, ask) =>
    Some (if ask : bool then emit OutPermissionRequired st else st, reject message code)
  | None =>
    let st := match active_input st with
              | Some previous => end_input_lease_locked previous st
              | None => st
              end in
    match acquire_with_routing draws now device routed (sessions st) with
    | None => None
    | Some (s, Err error) => Some (set_sessions s st, reject error ECBusy)
    | Some (s, Ok l) =>
      let st := set_active_input (Some l) (set_sessions s st) in
      let route :=
        if routed then
          match router h with
          | Some r => Some match router_begin r with Ok route => Ok (Some route) | Err e => Err e end
          | None => None
          end
        else Some (Ok None) in
      let st := if routed then emit OutRouterBegin st else st in
      match route with
      | None => None
      | Some (Err error) =>
        Some (end_input_lease_locked l st, reject (hc_message error) (protocol_code (hc_code error)))
      | Some (Ok route) =>
        let base := input_session_result request_id true l permission EmptyString ECOk in
        Some (emit (OutStarted l) st,
          {| isr_request_id := isr_request_id base; isr_status := isr_status base;
             isr_session_id := isr_session_id base; isr_epoch := isr_epoch base;
             isr_permission := isr_permission base;
             isr_lease_timeout_ms := isr_lease_timeout_ms base;
             isr_max_datagram_rate := isr_max_datagram_rate base;
             isr_max_reliable_events_per_frame := isr_max_reliable_events_per_frame base;
             isr_max_reliable_frame_rate := isr_max_reliable_frame_rate base;
             isr_supports_system_gestures :=
               match route with
               | Some route => snapshot_supports_gestures route
               | None => supports_system_gestures h
               end;
             isr_workspace_routing_active := routed;
             isr_gateway_device_id :=
               match route with Some route => controller_device_id route | None => EmptyString end;
             isr_logical_target_device_id :=
               match route with Some route => logical_target_device_id route | None => EmptyString end;
             isr_target_display_id :=
               match route with Some route => target_display_id route | None => EmptyString end;
             isr_control_epoch :=
               match route with Some route => control_epoch route | None => 0 end |})
      end
    end
  end.

(** ** Frames *)

(** The clock readings of one round of the frame loop. *)
Record Clock := {
  ck_reliable_0 : Z;
  ck_reliable_1 : Z;
  ck_events : nat -> Z;
  ck_motion_0 : Z;
  ck_motion_1 : Z;
}.

(** The events a motion delta adds to the batch. *)
Definition motion_events (delta : MotionDelta) : list InputEvent :=
  (if negb (pointer_x_256 delta =? 0) || negb (pointer_y_256 delta =? 0)
   then [PointerMove (pointer_x_256 delta) (pointer_y_256 delta)] else [])
  ++ (if negb (scroll_x_256 delta =? 0) || negb (scroll_y_256 delta =? 0)
      then [Scroll (scroll_x_256 delta) (scroll_y_256 delta) (precise_scroll delta)] else []).

(** The application of a non-empty batch, routed or native. *)
Definition apply_batch (l : InputLease) (events : list InputEvent) (st : HState)
  : HState * result unit string :=
  if is_workspace_routed l device (sessions st) then
    match router h with
    | Some r => (emit (OutRouterApply events) st, map_err hc_message (router_apply r events))
    | None => (st, Err "workspace input router became unavailable"%string)
    end
  else
    let '(n, r) := apply_events h (machine st) events in (set_machine n st, r).

(** The motion a frame may carry: its totals advance, and its moves follow the events. *)
Definition frame_motion (ck : Clock) (l : InputLease) (motion : option MotionTotals)
  (input_events : list InputEvent) (sequences : InputFeedbackSnapshot) (s : InputSessionState)
  : InputSessionState * result (list InputEvent * InputFeedbackSnapshot) string :=
  match motion with
  | None => (s, Ok (input_events, sequences))
  | Some motion =>
    match accept_ordered_motion (ck_motion_0 ck) (ck_motion_1 ck) l device
            (m_pointer_total_x_256 motion, m_pointer_total_y_256 motion)
            (m_scroll_total_x_256 motion, m_scroll_total_y_256 motion)
            (m_precise_scroll motion) s with
    | (s, Err error) => (s, Err error)
    | (s, Ok delta) => (s, Ok (input_events ++ motion_events delta, feedback delta))
    end
  end.

(** One round of the loop of [handle_uni_stream]; [None] is a panic. *)
Definition handle_frame (ck : Clock) (frame : ReliableInputFrame) (st : HState) : option HState :=
  let l := {| session_id := f_session_id frame; epoch := f_epoch frame |} in
  let revoke message st := Some (revoke_input_with_feedback l message st) in
  if Z.of_nat (length (f_events frame)) >? MAX_RELIABLE_EVENTS_PER_FRAME
  then revoke "invalid reliable input event count"%string st else
  match convert_reliable_events (f_events frame) with
  | Err error => revoke error st
  | Ok events =>
    if negb (match f_motion frame with Some _ => false | None => true end)
       && negb (is_empty events)
    then revoke "ordered input frame mixes motion and discrete events"%string st else
    match validate_events h events with
    | Err error => revoke error st
    | Ok _ =>
      match accept_reliable (ck_reliable_0 ck) (ck_reliable_1 ck) l device (f_sequence frame)
              (f_elapsed_us frame) (sessions st) with
      | (s, Err error) => revoke error (set_sessions s st)
      | (s, Ok sequences) =>
        match normalize_reliable_events (ck_events ck) l device events s with
        | None => None
        | Some (s, Err error) => revoke error (set_sessions s st)
        | Some (s, Ok input_events) =>
          let '(s, batch) := frame_motion ck l (f_motion frame) input_events sequences s in
          let st := set_sessions s st in
          match batch with
          | Err error => revoke error st
          | Ok (input_events, snapshot) =>
            let '(st, applied) :=
              if is_empty input_events then (st, Ok tt) else apply_batch l input_events st in
            match applied with
            | Err error => revoke error st
            | Ok _ =>
              Some (if (match f_motion frame with Some _ => false | None => true end)
                       || (f_sequence frame mod 15 =? 0)
                    then emit (OutFeedback l snapshot Negotiation.ok_status) st else st)
            end
          end
        end
      end
    end
  end.

(** The end of the input stream: whatever ended it, the connection's lease ends with it.  The
    cleanup of the connection does the same. *)
Definition end_stream (st : HState) : HState :=
  match active_input st with
  | Some l => end_input_lease_locked l st
  | None => st
  end.

(** ** The connection loop *)

(** [EndInputSession]. *)
Definition handle_end_request (request_id : Z) (l : InputLease) (st : HState)
  : HState * InputSessionResult :=
  let matches := bool_decide (active_input st = Some l) in
  (if matches then end_input_lease_locked l st else st,
   input_session_result request_id matches l (permission_state h)
     (if matches then EmptyString else "input session is not active"%string) ECFailedPrecondition).

(** [input_lease_tick]; [t0], [t1] are the readings of [is_expired] and of
    [cancel_idle_system_gesture]. *)
Definition lease_tick (t0 t1 : Z) (st : HState) : HState :=
  match active_input st with
  | None => st
  | Some l =>
    if is_expired t0 l device (sessions st) then end_input_lease_locked l st
    else
      let '(s, cancellations) := cancel_idle_system_gesture t1 l device (sessions st) in
      let st := set_sessions s st in
      if is_empty cancellations then st else (apply_batch l cancellations st).1
  end.

(** A focus change of the workspace router. *)
Definition focus_changed (focus : WorkspaceInputSnapshot) (st : HState) : HState :=
  let owned :=
    if bool_decide (owner_device_id focus = Some device) then
      match active_input st with
      | Some l => if is_workspace_routed l device (sessions st) then Some l else None
      | None => None
      end
    else None in
  let st :=
    match route_state focus, owned with
    | RouteSuspended, Some l | RouteEnded, Some l =>
      if bool_decide (active_input st = Some l) then
        emit (OutEnded l) (set_active_input None (set_sessions (release l (sessions st)).1 st))
      else st
    | _, _ => st
    end in
  emit (OutFocusChanged (input_focus_changed_frame owned focus)) st.
End device.
End handler.

(** ** What the session operations keep *)

Section keeps.
Context `{!InputCore} `{!GestureCore} `{!DrainOrder}.

Definition same_owner (a a' : ActiveInputSession) : Prop :=
  device_id a' = device_id a /\ workspace_routed a' = workspace_routed a.

Lemma same_owner_trans a1 a2 a3 : same_owner a1 a2 -> same_owner a2 a3 -> same_owner a1 a3.
Proof. intros [] []. split; congruence. Qed.

Definition keeps_owner (l : InputLease) (s s' : InputSessionState) : Prop :=
  forall a, active s !! l = Some a -> exists a', active s' !! l = Some a' /\ same_owner a a'.

Lemma keeps_owner_refl l s : keeps_owner l s s.
Proof. intros a Ha. by exists a. Qed.
Lemma keeps_owner_trans l s1 s2 s3 :
  keeps_owner l s1 s2 -> keeps_owner l s2 s3 -> keeps_owner l s1 s3.
Proof.
  intros H12 H23 a Ha. destruct (H12 a Ha) as (b & Hb & Hab). destruct (H23 b Hb) as (c & Hc & Hbc).
  exists c. split; [done|]. by eapply same_owner_trans.
Qed.
Lemma keeps_owner_insert l a a' s :
  active s !! l = Some a -> same_owner a a' ->
  keeps_owner l s (set_active (<[l := a']> (active s)) s).
Proof.
  intros Ha Hs b Hb. assert (b = a) as -> by congruence. exists a'. simpl.
  by rewrite lookup_insert_eq.
Qed.

Lemma accept_reliable_keeps t0 now l d seq el s :
  keeps_owner l s (accept_reliable t0 now l d seq el s).1.
Proof.
  unfold accept_reliable. destruct (active s !! l) as [a|] eqn:Ha; [|apply keeps_owner_refl].
  destruct (validate_owner a l d); [|apply keeps_owner_refl].
  destruct (_ >=? INPUT_LEASE_TIMEOUT); [apply keeps_owner_refl|].
  destruct (negb _); [apply keeps_owner_refl|]. destruct (_ <? _); [apply keeps_owner_refl|].
  destruct (_ >=? MAX_RELIABLE_FRAMES_PER_SECOND); by apply (keeps_owner_insert l a).
Qed.

Lemma accept_motion_keeps t0 now l d pt st precise s :
  keeps_owner l s (accept_ordered_motion t0 now l d pt st precise s).1.
Proof.
  destruct (accept_motion_cases t0 now l d pt st precise s)
    as [[e ->]|(a & delta & Ha & _ & -> & _)]; [apply keeps_owner_refl|].
  by apply (keeps_owner_insert l a).
Qed.

Lemma cancel_idle_keeps t0 l d s : keeps_owner l s (cancel_idle_system_gesture t0 l d s).1.
Proof.
  unfold cancel_idle_system_gesture. destruct (active s !! l) as [a|] eqn:Ha; [|apply keeps_owner_refl].
  destruct (_ || _); [apply keeps_owner_refl|]. destruct (gesture_cancel _).
  by apply (keeps_owner_insert l a).
Qed.

Lemma normalize_event_keeps now st cur e st' cur' o :
  normalize_event now st cur e = Some (st', cur', o) -> same_owner cur cur'.
Proof.
  unfold normalize_event, release_session_state. intros Hn.
  repeat (case_match; simplify_eq; try done).
Qed.
Lemma normalize_events_keeps now i st cur es st' cur' o :
  normalize_events now i st cur es = Some (st', cur', o) -> same_owner cur cur'.
Proof.
  revert i st cur st' cur' o. induction es as [|e es IH]; intros i st cur st' cur' o;
    cbn [normalize_events]; [by intros [= _ <- _]|].
  destruct (normalize_event (now i) st cur e) as [[[st1 cur1] o1]|] eqn:E1; [|done].
  destruct (normalize_events now (S i) st1 cur1 es) as [[[st2 cur2] o2]|] eqn:E2; [|done].
  intros [= _ <- _]. eapply same_owner_trans; [by eapply normalize_event_keeps|by eapply IH].
Qed.

Lemma normalize_keeps now l d es s s' r :
  normalize_reliable_events now l d es s = Some (s', r) -> keeps_owner l s s'.
Proof.
  unfold normalize_reliable_events. destruct (validate_gestures es) as [[]|];
    [|intros [= <- _]; apply keeps_owner_refl].
  destruct (active s !! l) as [a|] eqn:Ha; [|intros [= <- _]; apply keeps_owner_refl].
  destruct (validate_owner a l d) as [[]|].
  - destruct (normalize_events now 0 _ a es) as [[[st cur] o]|] eqn:E; [|done].
    intros [= <- _] b Hb. assert (b = a) as -> by congruence. exists cur. simpl.
    rewrite lookup_insert_eq. split; [done|]. by eapply normalize_events_keeps.
  - intros [= <- _] b Hb. exists a. simpl. rewrite lookup_insert_eq.
    assert (b = a) as -> by congruence. done.
Qed.

(** A lease the device does not hold is refused without effect. *)
Definition foreign (l : InputLease) (d : string) (s : InputSessionState) : Prop :=
  forall a, active s !! l = Some a -> device_id a <> d.

Lemma accept_reliable_foreign t0 now l d seq el s :
  foreign l d s -> exists e, accept_reliable t0 now l d seq el s = (s, Err e).
Proof.
  intros Hf. unfold accept_reliable. destruct (active s !! l) as [a|] eqn:Ha; [|eauto].
  unfold validate_owner, str_eqb. rewrite (bool_decide_false (device_id a = d)) by by apply Hf.
  rewrite orb_true_r. eauto.
Qed.
Lemma routed_active l d a s :
  active s !! l = Some a -> device_id a = d -> is_workspace_routed l d s = workspace_routed a.
Proof.
  intros Ha <-. unfold is_workspace_routed, str_eqb. rewrite Ha. by rewrite bool_decide_true.
Qed.
End keeps.

(** ** The state of one connection *)

Section local.
Context `{!InputCore} `{!GestureCore} `{!DrainOrder} `{!FeatureCodes}.

Definition nothing_pressed : native := {| native_keys := ∅; native_buttons := ∅ |}.

(** [n] has everything of [a] down, and nothing else but what is in [left]. *)
Record covers (a left n : native) : Prop := {
  cv_keys : native_keys a ⊆ native_keys n /\ native_keys n ⊆ native_keys a ∪ native_keys left;
  cv_buttons : native_buttons a ⊆ native_buttons n /\ native_buttons n ⊆ native_buttons a ∪ native_buttons left;
}.
Lemma covers_nothing a n : covers a nothing_pressed n <-> n = a.
Proof.
  split.
  - intros [[K1 K2] [B1 B2]]. destruct a, n. simpl in *. f_equal; apply set_eq; set_solver.
  - intros ->. split; set_solver.
Qed.
Lemma covers_event a left n e : covers a left n -> covers (native_event a e) left (native_event n e).
Proof.
  intros [[K1 K2] [B1 B2]]. destruct e; cbn [native_event]; repeat case_match; try (by split);
    split; simpl; set_solver.
Qed.
Lemma covers_apply a left n es : covers a left n -> covers (native_apply a es) left (native_apply n es).
Proof. revert a n. induction es as [|e es IH]; intros a n Hc; [done|]. by apply IH, covers_event. Qed.

(** For a routed session or none, the machine holds down what the last native release left, which is
    nothing if it succeeded; for a native session, in a run that keeps to one connection per device
    ([solo]), what the session holds, and otherwise at most what that release left. *)
Record machine_ok (solo : bool) (s : InputSessionState) (n : native) (left : native * result unit string)
  : Prop := {
  mo_native : solo = true ->
    forall l a, active s !! l = Some a -> workspace_routed a = false -> covers (native_of s) left.1 n;
  mo_clear : (forall l a, active s !! l = Some a -> workspace_routed a = true) -> n = left.1;
  mo_left : left.2 = Ok tt -> left.1 = nothing_pressed;
}.

(** The connection's slot names its own session; without one, no session is its device's unless
    the device has another connection. *)
Record good (solo : bool) (d : string) (st : HState) : Prop := {
  good_wf : wf (sessions st);
  good_machine : machine_ok solo (sessions st) (machine st) (released st);
  good_slot : match active_input st with
    | Some l => exists a, active (sessions st) !! l = Some a /\ device_id a = d
    | None => solo = true -> forall l, foreign l d (sessions st)
    end;
}.

(** The same leases, held by the same devices. *)
Definition same_leases (s s' : InputSessionState) : Prop :=
  forall l, device_id <$> active s' !! l = device_id <$> active s !! l.

(** What a step of one connection may do to the leases of the others: nothing. *)
Record trans (solo : bool) (d : string) (st st' : HState) : Prop := {
  tr_good : good solo d st';
  tr_none : active_input st' = None ->
    (active (sessions st') = ∅ /\ (active_input st <> None \/ active (sessions st) = ∅))
    \/ (active_input st = None /\ same_leases (sessions st) (sessions st'));
  tr_some : active_input st = None -> active_input st' <> None -> active (sessions st) = ∅;
}.

Lemma trans_out x d st st' :
  good x d st -> sessions st' = sessions st -> active_input st' = active_input st ->
  machine st' = machine st -> released st' = released st -> trans x d st st'.
Proof.
  intros [G1 G2 G3] Hs Ha Hm Hrel. split.
  - split; rewrite ?Hs, ?Ha, ?Hm, ?Hrel; done.
  - rewrite Ha, Hs. intros Hn. right. split; [done|]. by intros l.
  - rewrite Ha. done.
Qed.

(** The lease is held, and the machine is as the last release left it if the lease is routed: enough
    to end it. *)
Record holding (d : string) (l : InputLease) (st : HState) : Prop := {
  ho_wf : wf (sessions st);
  ho_slot : active_input st = Some l;
  ho_owner : exists a, active (sessions st) !! l = Some a /\ device_id a = d
    /\ (workspace_routed a = true -> machine st = (released st).1);
  ho_left : (released st).2 = Ok tt -> (released st).1 = nothing_pressed;
}.

Lemma good_holding x d l st : good x d st -> active_input st = Some l -> holding d l st.
Proof.
  intros [G1 G2 G3] Hl. rewrite Hl in G3. destruct G3 as (a & Ha & Hd). split; [done|done| |apply G2].
  exists a. split; [done|]. split; [done|]. intros Hr. apply (mo_clear _ _ _ _ G2).
  intros l' a' Ha'. rewrite (wf_alone _ _ _ G1 Ha) in Ha'.
  apply lookup_singleton_Some in Ha' as [_ <-]. done.
Qed.

Lemma empty_good x d st :
  wf (sessions st) -> active (sessions st) = ∅ -> machine st = (released st).1 ->
  ((released st).2 = Ok tt -> (released st).1 = nothing_pressed) -> active_input st = None -> good x d st.
Proof.
  intros Hwf He Hm Hleft Ha. split; [done| |].
  - split; [|done|done]. intros _ l a Hl. rewrite He, lookup_empty in Hl. done.
  - rewrite Ha. intros _ l a Hl. rewrite He, lookup_empty in Hl. done.
Qed.

Lemma end_lease_ends x h d l st :
  holding d l st ->
  let st' := end_input_lease_locked h d l st in
  good x d st' /\ active_input st' = None /\ active (sessions st') = ∅.
Proof.
  intros [Hwf Hslot (a & Ha & Hd & Hr) Hleft]. unfold end_input_lease_locked. rewrite Hslot.
  rewrite bool_decide_true by done. rewrite (routed_active l d a) by done.
  destruct (release_wf l (sessions st) Hwf) as (R1 & _ & R3).
  destruct (R3 (ex_intro _ a Ha)) as [R4 _].
  assert (forall st1, sessions st1 = sessions st -> machine st1 = (released st1).1 ->
    ((released st1).2 = Ok tt -> (released st1).1 = nothing_pressed) -> good x d (emit (OutEnded l) (set_active_input None
      (set_sessions (release l (sessions st1)).1 st1)))
    /\ active (sessions (emit (OutEnded l) (set_active_input None
      (set_sessions (release l (sessions st1)).1 st1)))) = ∅) as Hend.
  { intros st1 E1 E2 E3. simpl. rewrite E1. split; [|done]. by apply empty_good. }
  destruct (workspace_routed a) eqn:Hw.
  - destruct (router h); (split; [by apply Hend; simpl; auto|]); (split; [done|]);
      by apply Hend; simpl; auto.
  - pose proof (release_all_clears h (machine st)) as Hm.
    split; [by apply Hend|]. split; [done|]. by apply Hend.
Qed.

Lemma end_lease_trans x h d l st0 st :
  holding d l st -> active_input st0 <> None ->
  trans x d st0 (end_input_lease_locked h d l st).
Proof.
  intros Hh Hn0. destruct (end_lease_ends x h d l st Hh) as (G & A & E).
  split; [done|auto|done].
Qed.
Lemma end_lease_other h d l st :
  active_input st <> Some l -> end_input_lease_locked h d l st = st.
Proof. intros. unfold end_input_lease_locked. by rewrite bool_decide_false. Qed.

Lemma revoke_trans x h d l m st0 st :
  holding d l st -> active_input st0 <> None ->
  trans x d st0 (revoke_input_with_feedback h d l m st).
Proof.
  intros Hh Hn0. destruct (end_lease_trans x h d l st0 st Hh Hn0) as [[G1 G2 G3] T1 T2].
  split; [by split|done|done].
Qed.
Lemma revoke_other h d l m st :
  active_input st <> Some l ->
  exists o, revoke_input_with_feedback h d l m st = emit o st.
Proof.
  intros Hl. unfold revoke_input_with_feedback. rewrite end_lease_other by done. eauto.
Qed.
End local.


(** ** Each handler, on one connection *)

Section handlers.
Context `{!InputCore} `{!GestureCore} `{!DrainOrder} `{!FeatureCodes}.

(** Ending the lease of a state reached inside a handler that started from [st]. *)
Lemma holding_sessions d l st s a n :
  active_input st = Some l -> wf s -> active s !! l = Some a -> device_id a = d ->
  (workspace_routed a = true -> n = (released st).1) ->
  ((released st).2 = Ok tt -> (released st).1 = nothing_pressed) ->
  holding d l (set_machine n (set_sessions s st)).
Proof. intros Hl Hwf Ha Hd Hr Hleft. split; [done|done| |done]. eauto. Qed.

Lemma holding_kept x d l st s :
  good x d st -> active_input st = Some l -> wf s -> keeps_owner l (sessions st) s ->
  holding d l (set_sessions s st).
Proof.
  intros Hg Hl Hwf Hk. destruct (good_holding x d l st Hg Hl) as [_ _ (a & Ha & Hd & Hr) Hleft].
  destruct (Hk a Ha) as (a' & Ha' & [Hd' Hr']). split; [done|done| |done].
  exists a'. split; [done|]. split; [congruence|]. intros. apply Hr. congruence.
Qed.

(** A step that keeps the lease and moves machine and session together. *)
Lemma trans_kept x d l st s n o :
  good x d st -> active_input st = Some l -> wf s -> keeps_owner l (sessions st) s ->
  (x = true -> forall a, active (sessions st) !! l = Some a -> workspace_routed a = false ->
     covers (native_of s) (released st).1 n) ->
  (forall a, active (sessions st) !! l = Some a -> workspace_routed a = true -> n = machine st) ->
  trans x d st {| sessions := s; active_input := active_input st; machine := n; released := released st; out := o |}.
Proof.
  intros Hg Hl Hwf Hk Hn Hm. destruct (good_holding x d l st Hg Hl) as [_ _ (a & Ha & Hd & Hr) Hleft].
  destruct (Hk a Ha) as (a' & Ha' & [Hd' Hr']). split; simpl; [|congruence|congruence].
  split; simpl; [done| |].
  - split.
    + intros Hx l' b Hb Hw. rewrite (wf_alone _ _ _ Hwf Ha') in Hb.
      apply lookup_singleton_Some in Hb as [_ <-]. apply (Hn Hx a Ha). congruence.
    + intros Hall. specialize (Hall l a' Ha'). rewrite (Hm a Ha) by congruence.
      apply Hr. congruence.
    + done.
  - rewrite Hl. exists a'. split; [done|]. congruence.
Qed.

Lemma native_apply_moves n delta : native_apply n (motion_events delta) = n.
Proof. unfold motion_events. by destruct (_ || _), (_ || _). Qed.

(** Applying a batch that the session already accounts for. *)
Lemma apply_batch_spec x h d l st s batch :
  good x d st -> active_input st = Some l -> wf s -> keeps_owner l (sessions st) s ->
  native_apply (native_of (sessions st)) batch = native_of s ->
  let '(st1, r) := apply_batch h d l batch (set_sessions s st) in
  holding d l st1 /\ sessions st1 = s /\ active_input st1 = active_input st
  /\ (r = Ok tt -> trans x d st st1).
Proof.
  intros Hg Hl Hwf Hk Hb. pose proof (good_holding x d l st Hg Hl) as [_ _ (a & Ha & Hd & Hr) Hleft].
  pose proof (holding_kept x d l st s Hg Hl Hwf Hk) as Hh.
  destruct (Hk a Ha) as (a' & Ha' & [Hd' Hr']).
  unfold apply_batch. simpl sessions. rewrite (routed_active l d a') by congruence.
  destruct (workspace_routed a') eqn:Hw.
  - assert (forall o, trans x d st {| sessions := s; active_input := active_input st;
      machine := machine st; released := released st; out := o |}) as Ht.
    { intros o. apply (trans_kept x d l); try done. intros _ b Hb' Hf. congruence. }
    destruct (router h) as [r|]; (split; [|split; [done|split; [done|]]]); try done.
    + destruct Hh as [? ? (b & ? & ? & ?) ?]. split; [done|done| |done]. by exists b.
    + intros _. apply Ht.
  - destruct (apply_events h (machine (set_sessions s st)) batch) as [n r] eqn:Hap. simpl in Hap.
    split; [eapply holding_sessions; try done; congruence|]. split; [done|]. split; [done|].
    intros ->. apply (trans_kept x d l st s n (out st)); try done.
    + intros Hx b _ _. pose proof (apply_events_ok h (machine st) batch) as Hok. rewrite Hap in Hok.
      simpl in Hok. rewrite Hok by done. rewrite <- Hb. apply covers_apply.
      apply (mo_native _ _ _ _ (good_machine _ _ _ Hg) Hx l a Ha). congruence.
    + intros b Hb' Hf. congruence.
Qed.

Lemma frame_motion_spec d ck l motion es fb s :
  wf s ->
  let o := frame_motion d ck l motion es fb s in
  wf o.1 /\ keeps_owner l s o.1 /\ native_of o.1 = native_of s
  /\ forall es' fb', o.2 = Ok (es', fb') -> forall n, native_apply n es' = native_apply n es.
Proof.
  intros Hwf. unfold frame_motion. destruct motion as [m|]; simpl.
  - set (pt := (m_pointer_total_x_256 m, m_pointer_total_y_256 m)).
    set (sct := (m_scroll_total_x_256 m, m_scroll_total_y_256 m)).
    destruct (accept_motion_wf (ck_motion_0 ck) (ck_motion_1 ck) l d pt sct (m_precise_scroll m) s Hwf)
      as [Hwf' Hn].
    pose proof (accept_motion_keeps (ck_motion_0 ck) (ck_motion_1 ck) l d pt sct (m_precise_scroll m) s) as Hk.
    destruct (accept_ordered_motion _ _ _ _ _ _ _ _) as [s' [delta|e]]; simpl in *; split_and!; try done.
    intros es' fb' [= <- _] n. by rewrite native_apply_app, native_apply_moves.
  - split_and!; try done; [apply keeps_owner_refl|]. by intros es' fb' [= <- _].
Qed.

(** What a frame does, whoever sends it: the sessions move to [s], and the frame is revoked there
    or its batch, which the sessions account for, is applied. *)
Lemma frame_cases h d ck f st st' :
  wf (sessions st) -> handle_frame h d ck f st = Some st' ->
  let l := {| session_id := f_session_id f; epoch := f_epoch f |} in
  exists s, wf s /\ keeps_owner l (sessions st) s
  /\ ((exists m, st' = revoke_input_with_feedback h d l m (set_sessions s st))
      \/ exists batch st1 r,
         native_apply (native_of (sessions st)) batch = native_of s
         /\ (if is_empty batch then (set_sessions s st, Ok tt)
             else apply_batch h d l batch (set_sessions s st)) = (st1, r)
         /\ match r with
            | Ok _ => st' = st1 \/ exists o, st' = emit o st1
            | Err e => st' = revoke_input_with_feedback h d l e st1
            end).
Proof.
  intros Hwf0. cbv zeta. unfold handle_frame. set (l := {| session_id := f_session_id f; epoch := f_epoch f |}).
  assert (forall m st', Some (revoke_input_with_feedback h d l m st) = Some st' ->
    exists s, wf s /\ keeps_owner l (sessions st) s
      /\ exists m, st' = revoke_input_with_feedback h d l m (set_sessions s st)) as Hrev0.
  { intros m st1 [= <-]. exists (sessions st). split; [done|]. split; [apply keeps_owner_refl|].
    exists m. by destruct st. }
  destruct (_ >? MAX_RELIABLE_EVENTS_PER_FRAME); [intros (s & ? & ? & ?)%Hrev0; eauto|].
  destruct (convert_reliable_events _) as [es|e]; [|intros (s & ? & ? & ?)%Hrev0; eauto].
  destruct (_ && _); [intros (s & ? & ? & ?)%Hrev0; eauto|].
  destruct (validate_events h es); [|intros (s & ? & ? & ?)%Hrev0; eauto]. clear Hrev0.
  destruct (accept_reliable_wf (ck_reliable_0 ck) (ck_reliable_1 ck) l d (f_sequence f)
    (f_elapsed_us f) _ Hwf0) as [Hwf1 Hn1].
  pose proof (accept_reliable_keeps (ck_reliable_0 ck) (ck_reliable_1 ck) l d (f_sequence f)
    (f_elapsed_us f) (sessions st)) as Hk1.
  destruct (accept_reliable _ _ _ _ _ _ _) as [s1 [fb|e]]; simpl in Hwf1, Hn1, Hk1;
    [|intros [= <-]; eauto 10].
  destruct (normalize_reliable_events (ck_events ck) l d es s1) as [[s2 r2]|] eqn:Hnorm; [|done].
  pose proof (normalize_keeps _ _ _ _ _ _ _ Hnorm) as Hk2.
  apply (normalize_wf _ _ _ _ _ _ _ Hwf1) in Hnorm as [Hwf2 Hn2].
  pose proof (keeps_owner_trans _ _ _ _ Hk1 Hk2) as Hk12.
  destruct r2 as [evs|e]; [|intros [= <-]; eauto 10].
  destruct (frame_motion_spec d ck l (f_motion f) evs fb s2 Hwf2) as (Hwf3 & Hk3 & Hn3 & Hb3).
  destruct (frame_motion _ _ _ _ _ _ _) as [s3 b]. simpl in Hwf3, Hk3, Hn3, Hb3.
  pose proof (keeps_owner_trans _ _ _ _ Hk12 Hk3) as Hk13.
  destruct b as [[batch fb3]|e]; [|intros [= <-]; eauto 10].
  assert (native_apply (native_of (sessions st)) batch = native_of s3) as Hn13
    by (by rewrite (Hb3 batch fb3 eq_refl), <- Hn1, Hn2, Hn3).
  destruct (if is_empty batch then _ else _) as [st1 r] eqn:Hap. intros Hres.
  exists s3. split; [done|]. split; [done|]. right. exists batch, st1, r. split; [done|].
  split; [done|]. destruct r as [[]|e]; injection Hres as <-; [|done].
  destruct (_ || _); eauto.
Qed.

(** A frame for a lease its device does not hold changes nothing but the outputs. *)
Lemma frame_foreign h d ck f st st' :
  let l := {| session_id := f_session_id f; epoch := f_epoch f |} in
  foreign l d (sessions st) -> active_input st <> Some l ->
  handle_frame h d ck f st = Some st' -> machine st' = machine st
  /\ sessions st' = sessions st /\ active_input st' = active_input st /\ released st' = released st.
Proof.
  cbv zeta. set (l := {| session_id := f_session_id f; epoch := f_epoch f |}). intros Hf Hl.
  assert (forall m, machine (revoke_input_with_feedback h d l m st) = machine st
    /\ sessions (revoke_input_with_feedback h d l m st) = sessions st
    /\ active_input (revoke_input_with_feedback h d l m st) = active_input st
    /\ released (revoke_input_with_feedback h d l m st) = released st) as Hrev.
  { intros m. by destruct (revoke_other h d l m st Hl) as [o ->]. }
  unfold handle_frame. fold l. destruct (_ >? MAX_RELIABLE_EVENTS_PER_FRAME); [intros [= <-]; auto|].
  destruct (convert_reliable_events _) as [es|e]; [|intros [= <-]; auto].
  destruct (_ && _); [intros [= <-]; auto|].
  destruct (validate_events h es); [|intros [= <-]; auto].
  destruct (accept_reliable_foreign (ck_reliable_0 ck) (ck_reliable_1 ck) l d (f_sequence f)
    (f_elapsed_us f) (sessions st) Hf) as [e ->]. intros [= <-].
  replace (set_sessions (sessions st) st) with st by (by destruct st). auto.
Qed.

Lemma trans_emit x d st st1 st' :
  trans x d st st1 -> st' = st1 \/ (exists o, st' = emit o st1) -> trans x d st st'.
Proof. intros [[A B C] D E] [->|[o ->]]; by split; [split|..]. Qed.

(** The frame of the holder: applied in step with the session, or the lease ends. *)
Lemma frame_own x h d ck f st st' :
  good x d st -> active_input st = Some {| session_id := f_session_id f; epoch := f_epoch f |} ->
  handle_frame h d ck f st = Some st' -> trans x d st st'.
Proof.
  set (l := {| session_id := f_session_id f; epoch := f_epoch f |}). intros Hg Hl Hrun.
  assert (active_input st <> None) as Hn by congruence.
  destruct (frame_cases h d ck f st st' (good_wf _ _ _ Hg) Hrun)
    as (s & Hwf & Hk & [[m ->]|(batch & st1 & r & Hb & Hap & Hr)]).
  { apply revoke_trans; [|done]. by eapply holding_kept. }
  pose proof (apply_batch_spec x h d l st s batch Hg Hl Hwf Hk Hb) as Hspec. fold l in Hap, Hr.
  destruct batch as [|ev batch]; simpl is_empty in Hap; cbv iota in Hap.
  - injection Hap as <- <-. eapply trans_emit; [|exact Hr].
    apply (trans_kept x d l st s (machine st) (out st)); try done.
    intros Hx b Hb' Hw. rewrite <- Hb. by apply (mo_native _ _ _ _ (good_machine _ _ _ Hg) Hx l b).
  - rewrite Hap in Hspec. destruct Hspec as (Hh & _ & _ & Hok). destruct r as [[]|e].
    + eapply trans_emit; [|exact Hr]. auto.
    + subst st'. by apply revoke_trans.
Qed.

Lemma keeps_same_leases l a s s' :
  wf s -> wf s' -> active s !! l = Some a -> keeps_owner l s s' -> same_leases s s'.
Proof.
  intros Hwf Hwf' Ha Hk l'. destruct (Hk a Ha) as (a' & Ha' & [Hd _]).
  rewrite (wf_alone _ _ _ Hwf Ha), (wf_alone _ _ _ Hwf' Ha').
  destruct (decide (l = l')) as [->|Hne].
  - rewrite !lookup_singleton_eq. simpl. by rewrite Hd.
  - by rewrite !lookup_singleton_ne.
Qed.

Lemma batch_outcome h d l a s batch st st1 r :
  active s !! l = Some a -> device_id a = d ->
  (if is_empty batch then (set_sessions s st, Ok tt)
   else apply_batch h d l batch (set_sessions s st)) = (st1, r) ->
  sessions st1 = s /\ active_input st1 = active_input st /\ released st1 = released st
  /\ (workspace_routed a = true -> machine st1 = machine st).
Proof.
  intros Ha Hd. destruct (is_empty batch); [by intros [= <- _]|]. unfold apply_batch.
  simpl sessions. rewrite (routed_active l d a) by done. destruct (workspace_routed a).
  - destruct (router h); by intros [= <- _].
  - destruct (apply_events _ _ _). by intros [= <- _].
Qed.

(** The frame of a connection without a lease, for the lease another connection of its device
    holds: the sessions and the machine may move, the lease stays where it is. *)
Lemma frame_shared h d ck f st st' a :
  let l := {| session_id := f_session_id f; epoch := f_epoch f |} in
  good false d st -> active_input st = None -> active (sessions st) !! l = Some a ->
  device_id a = d -> handle_frame h d ck f st = Some st' -> trans false d st st'.
Proof.
  intros l Hg Hn Ha Hd Hrun. pose proof (good_wf _ _ _ Hg) as Hwf0.
  assert (active_input st <> Some l) as Hl by congruence.
  destruct (frame_cases h d ck f st st' Hwf0 Hrun) as (s & Hwf & Hk & Hcases). fold l in Hk, Hcases.
  destruct (Hk a Ha) as (a' & Ha' & [Hd' Hr']).
  assert (exists st1, sessions st1 = s /\ active_input st1 = active_input st /\ released st1 = released st
    /\ (workspace_routed a' = true -> machine st1 = machine st)
    /\ (st' = st1 \/ exists o, st' = emit o st1)) as (st1 & Hs & Hi & Hrel & Hm & Hst').
  { destruct Hcases as [[m ->]|(batch & st1 & r & _ & Hap & Hr)].
    - exists (set_sessions s st). do 4 (split; [done|]). right. by apply revoke_other.
    - destruct (batch_outcome h d l a' s batch st st1 r Ha') as (E1 & E2 & E3 & E4); [congruence|done|].
      exists st1. do 4 (split; [done|]). destruct r as [[]|e]; [done|].
      right. subst st'. apply revoke_other. congruence. }
  eapply trans_emit; [|exact Hst']. split; rewrite ?Hs, ?Hi, ?Hn; [|by eauto using keeps_same_leases|done].
  split; rewrite ?Hs, ?Hi, ?Hn, ?Hrel; [done| |done]. split; [done| |apply Hg].
  intros Hall. assert (workspace_routed a' = true) as Hrt by (by eapply Hall).
  rewrite Hm by done. apply (mo_clear _ _ _ _ (good_machine _ _ _ Hg)). intros l' b Hb.
  rewrite (wf_alone _ _ _ Hwf0 Ha) in Hb. apply lookup_singleton_Some in Hb as [_ <-]. congruence.
Qed.

(** A frame never moves a lease its connection does not hold. *)
Lemma frame_not_held x h d ck f st st' :
  let l := {| session_id := f_session_id f; epoch := f_epoch f |} in
  good x d st -> handle_frame h d ck f st = Some st' -> active_input st <> Some l ->
  active_input st' = active_input st /\ same_leases (sessions st) (sessions st').
Proof.
  intros l Hg Hrun Hl. pose proof (good_wf _ _ _ Hg) as Hwf0.
  destruct (active (sessions st) !! l) as [a|] eqn:Ha; [destruct (decide (device_id a = d)) as [Hd|Hd]|].
  2,3: destruct (frame_foreign h d ck f st st') as (_ & -> & -> & _);
    [intros b Hb; fold l in Hb; congruence|done|done|]; by split; [|intros l'].
  destruct (frame_cases h d ck f st st' Hwf0 Hrun) as (s & Hwf & Hk & Hcases). fold l in Hk, Hcases.
  pose proof (keeps_same_leases l a _ _ Hwf0 Hwf Ha Hk) as Hs.
  destruct (Hk a Ha) as (a' & Ha' & [Hd' Hr']).
  destruct Hcases as [[m ->]|(batch & st1 & r & _ & Hap & Hr)].
  - by destruct (revoke_other h d l m (set_sessions s st) Hl) as [o ->].
  - destruct (batch_outcome h d l a' s batch st st1 r Ha') as (<- & E2 & _); [congruence|done|].
    destruct r as [[]|e]; [by destruct Hr as [->|[o ->]]|].
    assert (active_input st1 <> Some l) as Hl1 by congruence. subst st'.
    by destruct (revoke_other h d l e st1 Hl1) as [o ->].
Qed.

Lemma frame_trans x h d ck f st st' :
  good x d st -> handle_frame h d ck f st = Some st' -> trans x d st st'.
Proof.
  set (l := {| session_id := f_session_id f; epoch := f_epoch f |}). intros Hg Hrun.
  destruct (decide (active_input st = Some l)) as [Hl|Hl]; [by eapply frame_own|].
  destruct (active (sessions st) !! l) as [a|] eqn:Ha; [destruct (decide (device_id a = d)) as [Hd|Hd]|].
  2,3: destruct (frame_foreign h d ck f st st') as (? & ? & ? & ?); [intros b Hb; fold l in Hb; congruence|done|done|];
    by apply trans_out.
  destruct (active_input st) as [l0|] eqn:Hn.
  { destruct Hg as [G1 _ G3]. rewrite Hn in G3. destruct G3 as (a0 & Ha0 & _).
    rewrite (wf_alone _ _ _ G1 Ha0) in Ha. apply lookup_singleton_Some in Ha as [-> _]. done. }
  destruct x; [|by eapply frame_shared].
  destruct Hg as [_ _ G3]. rewrite Hn in G3. by destruct (G3 eq_refl l a Ha).
Qed.
End handlers.


Section connection.
Context `{!InputCore} `{!GestureCore} `{!DrainOrder} `{!FeatureCodes}.

Lemma native_of_empty s : wf s -> active s = ∅ -> native_of s = nothing_pressed.
Proof.
  intros Hwf He. pose proof (wf_counts s Hwf) as Hc. unfold nothing_pressed.
  assert (native_keys (native_of s) = ∅) as E1.
  { apply set_eq. intros k. rewrite native_of_held by done.
    split; [intros (l & a & Ha & _)|by intros ?%not_elem_of_empty]. by rewrite He, lookup_empty in Ha. }
  assert (native_buttons (native_of s) = ∅) as E2.
  { apply set_eq. intros k. rewrite native_of_held_buttons by done.
    split; [intros (l & a & Ha & _)|by intros ?%not_elem_of_empty]. by rewrite He, lookup_empty in Ha. }
  unfold native_of in *. simpl in *. by rewrite E1, E2.
Qed.

(** The end of the previous lease in [begin_input_session]. *)
Lemma end_previous_spec x h d st :
  good x d st ->
  let st1 := match active_input st with
             | Some previous => end_input_lease_locked h d previous st
             | None => st
             end in
  good x d st1 /\ active_input st1 = None
  /\ (active (sessions st1) = ∅ \/ active_input st = None /\ st1 = st).
Proof.
  intros Hg. destruct (active_input st) as [l|] eqn:Hl; [|by auto].
  destruct (end_lease_ends x h d l st) as (G & A & E); [by eapply good_holding|]. auto.
Qed.

Lemma acquired_good x d st l now routed s :
  good x d st -> active_input st = None -> active (sessions st) = ∅ -> wf s ->
  s = restore l (fresh_session l d now routed) (sessions st) -> native_of s = native_of (sessions st) ->
  good x d (set_active_input (Some l) (set_sessions s st)).
Proof.
  intros [G1 G2 G3] Ha He Hwf Hs Hn. split; simpl; [done| |].
  - assert (machine st = (released st).1) as Hm.
    { apply (mo_clear _ _ _ _ G2). intros l' a Hl'. by rewrite He, lookup_empty in Hl'. }
    split; [|done|apply G2]. intros _ _ _ _ _. simpl. rewrite Hm, Hn, native_of_empty by done.
    split; set_solver.
  - subst s. exists (fresh_session l d now routed). simpl. by rewrite lookup_insert_eq.
Qed.

Lemma begin_trans x h d draws now id routed fs cs st st' r :
  good x d st -> begin_input_session h d draws now id routed fs cs st = Some (st', r) ->
  trans x d st st'.
Proof.
  intros Hg. unfold begin_input_session.
  destruct (begin_guard h routed fs cs) as [[[m code] ask]|].
  { intros [= <- _]. by destruct ask; apply trans_out. }
  destruct (end_previous_spec x h d st Hg) as (G1 & A1 & E1).
  set (st1 := match active_input st with Some _ => _ | None => _ end) in *.
  destruct (acquire_with_routing draws now d routed (sessions st1)) as [[s [l|e]]|] eqn:Hacq; [| |done].
  2:{ intros [= <- _]. apply acquire_cases in Hacq as [(e' & _ & -> & Hne)|(l & [=] & _)].
      destruct E1 as [?|[Hnone Hst]]; [done|]. rewrite Hst. by apply trans_out. }
  destruct (acquire_wf _ _ _ _ _ _ _ (good_wf _ _ _ G1) Hacq) as [Hwf Hn].
  apply acquire_cases in Hacq as [(? & [=] & _)|(l' & [= <-] & He & Hs & _)].
  pose proof (acquired_good x d st1 l now routed s G1 A1 He Hwf Hs Hn) as G2.
  assert (active_input st = None -> active (sessions st) = ∅) as Hempty.
  { intros Hnone. unfold st1 in He. by rewrite Hnone in He. }
  assert (forall o, trans x d st {| sessions := s; active_input := Some l; machine := machine st1;
    released := released st1; out := o |}) as Ht.
  { intros o. split; [|done|auto]. destruct G2. by split. }
  assert (forall o, trans x d st (end_input_lease_locked h d l
    {| sessions := s; active_input := Some l; machine := machine st1; released := released st1; out := o |})) as Hend.
  { intros o. destruct (end_lease_ends x h d l {| sessions := s; active_input := Some l;
      machine := machine st1; released := released st1; out := o |}) as (G & A & E).
    { apply (good_holding x); [|done]. by destruct (Ht o). }
    split; [done| |by rewrite A]. intros _. left. split; [done|].
    destruct (active_input st) eqn:Ei; [by left|]. right. auto. }
  destruct routed.
  - destruct (router h) as [rt|]; [|done]. destruct (router_begin rt); intros [= <- _];
      [apply Ht|apply Hend].
  - intros [= <- _]. apply Ht.
Qed.

Lemma end_stream_trans x h d st :
  good x d st -> trans x d st (end_stream h d st) /\ active_input (end_stream h d st) = None.
Proof.
  intros Hg. unfold end_stream. destruct (active_input st) as [l|] eqn:Hl.
  - pose proof (good_holding x d l st Hg Hl) as Hh. split.
    + apply end_lease_trans; [done|congruence].
    + by destruct (end_lease_ends x h d l st Hh) as (_ & ? & _).
  - split; [by apply trans_out|done].
Qed.

Lemma end_request_trans x h d id l st :
  good x d st -> trans x d st (handle_end_request h d id l st).1.
Proof.
  intros Hg. unfold handle_end_request. simpl. case_bool_decide as Hl; [|by apply trans_out].
  apply end_lease_trans; [by eapply good_holding|congruence].
Qed.

Lemma cancellations_gestures t l d s :
  exists gs, (cancel_idle_system_gesture t l d s).2 = SystemGesture <$> gs.
Proof.
  unfold cancel_idle_system_gesture. destruct (active s !! l) as [a|]; [|by exists []].
  destruct (_ || _); [by exists []|]. destruct (gesture_cancel _) as [g c]. by eexists.
Qed.

Lemma tick_trans x h d t0 t1 st : good x d st -> trans x d st (lease_tick h d t0 t1 st).
Proof.
  intros Hg. unfold lease_tick. destruct (active_input st) as [l|] eqn:Hl; [|by apply trans_out].
  destruct (is_expired t0 l d (sessions st)).
  { apply end_lease_trans; [by eapply good_holding|congruence]. }
  destruct (cancel_idle_wf t1 l d (sessions st) (good_wf _ _ _ Hg)) as [Hwf Hn].
  pose proof (cancel_idle_keeps t1 l d (sessions st)) as Hk.
  destruct (cancellations_gestures t1 l d (sessions st)) as [gs Hgs].
  destruct (cancel_idle_system_gesture t1 l d (sessions st)) as [s cs]. simpl in *. subst cs.
  rewrite native_gestures in Hn.
  assert (forall o, trans x d st {| sessions := s; active_input := active_input st;
    machine := machine st; released := released st; out := o |}) as Ht.
  { intros o. apply (trans_kept x d l); try done. intros Hx a Ha Hw. rewrite <- Hn.
    by apply (mo_native _ _ _ _ (good_machine _ _ _ Hg) Hx l a). }
  destruct (is_empty _); [apply Ht|]. unfold apply_batch.
  destruct (is_workspace_routed _ _ _); [destruct (router h); apply Ht|].
  destruct (apply_events_prefix h (machine (set_sessions s st)) (SystemGesture <$> gs)) as [k Hp].
  destruct (apply_events h _ _) as [n r]. simpl in *.
  rewrite <- fmap_take, native_gestures in Hp. rewrite Hp. apply Ht.
Qed.

Lemma focus_trans x d focus st : good x d st -> trans x d st (focus_changed d focus st).
Proof.
  intros Hg. unfold focus_changed.
  set (owned := if bool_decide (owner_device_id focus = Some d) then _ else None).
  assert (forall l, owned = Some l -> active_input st = Some l /\ is_workspace_routed l d (sessions st) = true)
    as Hown.
  { intros l. unfold owned. case_bool_decide; [|done]. destruct (active_input st) as [l0|]; [|done].
    destruct (is_workspace_routed l0 d (sessions st)) eqn:E; [|done]. by intros [= <-]. }
  assert (forall l, owned = Some l -> trans x d st (emit (OutFocusChanged (input_focus_changed_frame owned focus))
    (if bool_decide (active_input st = Some l)
     then emit (OutEnded l) (set_active_input None (set_sessions (release l (sessions st)).1 st))
     else st))) as Hend.
  { intros l Hl. destruct (Hown l Hl) as [Ha Hr]. rewrite bool_decide_true by done.
    destruct (good_holding x d l st Hg Ha) as [Hwf _ (a & Hla & Hd & Hm) Hleft].
    rewrite (routed_active l d a) in Hr by done.
    destruct (release_wf l (sessions st) Hwf) as (R1 & _ & R3).
    destruct (R3 (ex_intro _ a Hla)) as [R4 _].
    split; [apply empty_good; auto| |].
    - intros _. left. split; [done|]. left. congruence.
    - congruence. }
  assert (trans x d st (emit (OutFocusChanged (input_focus_changed_frame owned focus)) st)) as Hout by by apply trans_out.
  clearbody owned. destruct (route_state focus), owned; auto.
Qed.
End connection.


(** ** The whole server: connections sharing one machine *)

Section system.
Context `{!InputCore} `{!GestureCore} `{!DrainOrder} `{!FeatureCodes}.

Record Conn := { conn_device : string; conn_lease : option InputLease }.
Record Sys := {
  sys_sessions : InputSessionState;
  conns : gmap nat Conn;
  sys_machine : native;
  sys_released : native * result unit string;
}.

Definition view (k : Conn) (y : Sys) : HState :=
  {| sessions := sys_sessions y; active_input := conn_lease k; machine := sys_machine y;
     released := sys_released y; out := [] |}.
Definition store (c : nat) (k : Conn) (st : HState) (y : Sys) : Sys :=
  {| sys_sessions := sessions st;
     conns := <[c := {| conn_device := conn_device k; conn_lease := active_input st |}]> (conns y);
     sys_machine := machine st; sys_released := released st |}.
Definition sys_new : Sys :=
  {| sys_sessions := InputSession.new; conns := ∅; sys_machine := nothing_pressed;
     sys_released := (nothing_pressed, Ok tt) |}.

(** Every handler of every connection, in any order; a device that reconnects may have several
    connections for a while. *)
Inductive sys_step : Sys -> Sys -> Prop :=
| sys_connect y c d :
    conns y !! c = None ->
    sys_step y {| sys_sessions := sys_sessions y;
                  conns := <[c := {| conn_device := d; conn_lease := None |}]> (conns y);
                  sys_machine := sys_machine y; sys_released := sys_released y |}
| sys_begin y c k h draws now id routed features capabilities st r :
    conns y !! c = Some k ->
    begin_input_session h (conn_device k) draws now id routed features capabilities (view k y)
      = Some (st, r) ->
    sys_step y (store c k st y)
| sys_frame y c k h ck frame st :
    conns y !! c = Some k -> handle_frame h (conn_device k) ck frame (view k y) = Some st ->
    sys_step y (store c k st y)
| sys_stream_end y c k h :
    conns y !! c = Some k ->
    sys_step y (store c k (end_stream h (conn_device k) (view k y)) y)
| sys_end_request y c k h id l :
    conns y !! c = Some k ->
    sys_step y (store c k (handle_end_request h (conn_device k) id l (view k y)).1 y)
| sys_tick y c k h t0 t1 :
    conns y !! c = Some k ->
    sys_step y (store c k (lease_tick h (conn_device k) t0 t1 (view k y)) y)
| sys_focus y c k focus :
    conns y !! c = Some k ->
    sys_step y (store c k (focus_changed (conn_device k) focus (view k y)) y)
| sys_disconnect y c k h :
    conns y !! c = Some k ->
    let st := end_stream h (conn_device k) (view k y) in
    sys_step y {| sys_sessions := sessions st; conns := delete c (conns y); sys_machine := machine st;
                  sys_released := released st |}.

(** One connection per device. *)
Definition solo (y : Sys) : Prop :=
  forall c c' k k', conns y !! c = Some k -> conns y !! c' = Some k' ->
    conn_device k = conn_device k' -> c = c'.

(** The runs of the server; with [x], those in which no device has two connections at once. *)
Definition run (x : bool) (y : Sys) : Prop :=
  rtc (fun y y' => sys_step y y' /\ (x = true -> solo y')) sys_new y.

Record sys_inv (x : bool) (y : Sys) : Prop := {
  si_wf : wf (sys_sessions y);
  si_machine : machine_ok x (sys_sessions y) (sys_machine y) (sys_released y);
  si_held : forall c k l, conns y !! c = Some k -> conn_lease k = Some l ->
    exists a, active (sys_sessions y) !! l = Some a /\ device_id a = conn_device k;
  si_owned : forall l a, active (sys_sessions y) !! l = Some a ->
    exists c k, conns y !! c = Some k /\ conn_lease k = Some l;
  si_unique : forall c c' k k' l, conns y !! c = Some k -> conns y !! c' = Some k' ->
    conn_lease k = Some l -> conn_lease k' = Some l -> c = c';
  si_solo : x = true -> solo y;
}.

Lemma sys_new_inv x : sys_inv x sys_new.
Proof.
  split; simpl.
  - apply session_new_wf.
  - split; [|done|done]. intros _ l a. simpl. by rewrite lookup_empty.
  - intros c k l. by rewrite lookup_empty.
  - intros l a. by rewrite lookup_empty.
  - intros c c' k k' l. by rewrite lookup_empty.
  - intros _ c c' k k'. simpl. by rewrite lookup_empty.
Qed.

Lemma native_of_alone s l a :
  wf s -> active s !! l = Some a ->
  native_of s = {| native_keys := pressed_keys a; native_buttons := pressed_buttons a |}.
Proof.
  intros Hwf Ha. pose proof (wf_counts s Hwf) as Hc. pose proof (wf_alone _ _ _ Hwf Ha) as Halone.
  assert (native_keys (native_of s) = pressed_keys a) as E1.
  { apply set_eq. intros k. rewrite native_of_held by done. split; [|eauto].
    intros (l' & b & Hb & Hk). rewrite Halone in Hb. by apply lookup_singleton_Some in Hb as [_ <-]. }
  assert (native_buttons (native_of s) = pressed_buttons a) as E2.
  { apply set_eq. intros k. rewrite native_of_held_buttons by done. split; [|eauto].
    intros (l' & b & Hb & Hk). rewrite Halone in Hb. by apply lookup_singleton_Some in Hb as [_ <-]. }
  unfold native_of in *. simpl in *. by rewrite E1, E2.
Qed.

Lemma view_good x y c k : sys_inv x y -> conns y !! c = Some k -> good x (conn_device k) (view k y).
Proof.
  intros [I1 I2 I3 I4 I5 I6] Hc. split; simpl; [done|done|].
  destruct (conn_lease k) as [l|] eqn:Hl; [by apply (I3 c)|].
  intros Hx l a Ha Hd. destruct (I4 l a Ha) as (c' & k' & Hc' & Hl').
  destruct (I3 c' k' l Hc' Hl') as (a' & Ha' & Hd'). assert (a' = a) as -> by congruence.
  assert (c = c') as <- by (eapply (I6 Hx); eauto; congruence). congruence.
Qed.

(** The other connections hold nothing when this one does, or could just take a lease. *)
Lemma others_free x y c k c' k' :
  sys_inv x y -> conns y !! c = Some k -> conns y !! c' = Some k' -> c <> c' ->
  (conn_lease k <> None \/ active (sys_sessions y) = ∅) -> conn_lease k' = None.
Proof.
  intros [I1 I2 I3 I4 I5 I6] Hc Hc' Hne Hk. destruct (conn_lease k') as [l'|] eqn:Hl'; [|done].
  destruct (I3 c' k' l' Hc' Hl') as (a' & Ha' & Hd').
  destruct Hk as [Hk|He]; [|by rewrite He, lookup_empty in Ha'].
  destruct (conn_lease k) as [l|] eqn:Hl; [|done].
  destruct (I3 c k l Hc Hl) as (a & Ha & Hd).
  rewrite (wf_alone _ _ _ I1 Ha) in Ha'. apply lookup_singleton_Some in Ha' as [<- _].
  exfalso. apply Hne. eapply I5; eauto.
Qed.

Lemma same_leases_lookup s s' l a :
  same_leases s s' -> active s !! l = Some a ->
  exists a', active s' !! l = Some a' /\ device_id a' = device_id a.
Proof.
  intros Hs Ha. specialize (Hs l). rewrite Ha in Hs. destruct (active s' !! l) as [a'|]; [|done].
  exists a'. split; [done|]. by injection Hs.
Qed.
Lemma same_leases_sym s s' : same_leases s s' -> same_leases s' s.
Proof. intros Hs l. by rewrite Hs. Qed.

Lemma store_solo c k st y : conns y !! c = Some k -> solo y -> solo (store c k st y).
Proof.
  intros Hc Hd c1 c2 k1 k2. simpl. rewrite !lookup_insert_Some.
  intros [[<- <-]|[? D1]] [[<- <-]|[? D2]]; simpl; intros; try done; eapply Hd; eauto.
Qed.

(** What the step leaves the other connections: no lease, or the leases they had. *)
Lemma others_kept x y c k st c' k' :
  sys_inv x y -> conns y !! c = Some k -> trans x (conn_device k) (view k y) st ->
  c <> c' -> conns y !! c' = Some k' ->
  conn_lease k' = None \/ active_input st = None /\ same_leases (sys_sessions y) (sessions st).
Proof.
  intros Hi Hc [_ T1 T2] Hne Hc'. pose proof (others_free x y c k c' k' Hi Hc Hc' Hne) as Hfree.
  simpl in T1, T2. destruct (active_input st) as [l|] eqn:Ha.
  - left. apply Hfree. destruct (conn_lease k); [by left|right; by apply T2].
  - destruct (T1 eq_refl) as [[_ ?]|[_ ?]]; [left; by apply Hfree|by right].
Qed.

Lemma store_inv x y c k st :
  sys_inv x y -> conns y !! c = Some k -> trans x (conn_device k) (view k y) st ->
  sys_inv x (store c k st y).
Proof.
  intros Hi Hc Ht. pose proof (fun c' k' => others_kept x y c k st c' k' Hi Hc Ht) as Hothers.
  destruct Ht as [[G1 G2 G3] T1 T2]. pose proof Hi as [I1 I2 I3 I4 I5 I6]. simpl in T1, T2.
  split; simpl; [done|done|..].
  - intros c' k' l'. rewrite lookup_insert_Some. intros [[<- <-]|[Hne Hc']] Hl'; simpl in *.
    + by rewrite Hl' in G3.
    + destruct (Hothers c' k' Hne Hc') as [?|[_ Hs]]; [congruence|].
      destruct (I3 c' k' l' Hc' Hl') as (a & Ha & Hd).
      destruct (same_leases_lookup _ _ _ _ Hs Ha) as (a' & Ha' & Hd'). exists a'.
      split; [done|congruence].
  - intros l a Ha. destruct (active_input st) as [l0|] eqn:Hl0.
    + destruct G3 as (a0 & Ha0 & _). rewrite (wf_alone _ _ _ G1 Ha0) in Ha.
      apply lookup_singleton_Some in Ha as [<- _]. eexists c, _.
      rewrite lookup_insert_eq. done.
    + destruct (T1 eq_refl) as [[He _]|[Hk Hs]]; [by rewrite He, lookup_empty in Ha|].
      destruct (same_leases_lookup _ _ _ _ (same_leases_sym _ _ Hs) Ha) as (a0 & Ha0 & _).
      destruct (I4 l a0 Ha0) as (c' & k' & Hc' & Hl'). exists c', k'.
      rewrite lookup_insert_ne; [done|]. intros <-. congruence.
  - intros c1 c2 k1 k2 l. rewrite !lookup_insert_Some.
    intros [[<- <-]|[N1 D1]] [[<- <-]|[N2 D2]]; simpl; intros L1 L2; [done|..|by eapply I5].
    + destruct (Hothers c2 k2 N2 D2) as [?|[? _]]; congruence.
    + destruct (Hothers c1 k1 N1 D1) as [?|[? _]]; congruence.
  - intros Hx. by apply store_solo, I6.
Qed.

Lemma disconnect_inv x y c k st :
  sys_inv x y -> conns y !! c = Some k -> trans x (conn_device k) (view k y) st ->
  active_input st = None ->
  sys_inv x {| sys_sessions := sessions st; conns := delete c (conns y); sys_machine := machine st;
               sys_released := released st |}.
Proof.
  intros Hi Hc Ht Hn. pose proof (store_inv x y c k st Hi Hc Ht) as [I1 I2 I3 I4 I5 I6].
  simpl in *. rewrite <- (delete_insert_eq (conns y) c {| conn_device := conn_device k;
    conn_lease := active_input st |}).
  split; simpl; [done|done|..].
  - intros c' k' l [_ Hc']%lookup_delete_Some. by apply (I3 c').
  - intros l a Ha. destruct (I4 l a Ha) as (c' & k' & Hc' & Hl). exists c', k'.
    split; [|done]. apply lookup_delete_Some. split; [|done]. intros <-.
    rewrite lookup_insert_eq in Hc'. injection Hc' as <-. simpl in Hl. congruence.
  - intros c1 c2 k1 k2 l [_ D1]%lookup_delete_Some [_ D2]%lookup_delete_Some. by apply I5.
  - intros Hx c1 c2 k1 k2. simpl. intros [_ D1]%lookup_delete_Some [_ D2]%lookup_delete_Some.
    by apply (I6 Hx).
Qed.

Lemma sys_step_inv x y y' :
  sys_step y y' -> (x = true -> solo y') -> sys_inv x y -> sys_inv x y'.
Proof.
  intros Hstep Hsolo Hi. destruct Hstep as [y c d Hc|y c k h draws now id routed fs cs st r Hc Hrun
    |y c k h ck frame st Hc Hrun|y c k h Hc|y c k h id l Hc|y c k h t0 t1 Hc|y c k focus Hc
    |y c k h Hc st].
  - destruct Hi as [I1 I2 I3 I4 I5 I6]. split; simpl; [done|done|..].
    + intros c' k l. rewrite lookup_insert_Some. intros [[<- <-]|[_ Hc']]; [done|by apply (I3 c')].
    + intros l a Ha. destruct (I4 l a Ha) as (c' & k & Hc' & Hl). exists c', k.
      rewrite lookup_insert_ne; [done|]. congruence.
    + intros c1 c2 k1 k2 l. rewrite !lookup_insert_Some.
      intros [[<- <-]|[? D1]] [[<- <-]|[? D2]]; simpl; intros E1 E2; try done. by eapply I5.
    + done.
  - eapply store_inv; eauto. eapply begin_trans; [|done]. by eapply view_good.
  - eapply store_inv; eauto. eapply frame_trans; [|done]. by eapply view_good.
  - eapply store_inv; eauto. apply end_stream_trans. by eapply view_good.
  - eapply store_inv; eauto. apply end_request_trans. by eapply view_good.
  - eapply store_inv; eauto. apply tick_trans. by eapply view_good.
  - eapply store_inv; eauto. apply focus_trans. by eapply view_good.
  - destruct (end_stream_trans x h (conn_device k) (view k y)) as [Ht Hn]; [by eapply view_good|].
    by eapply disconnect_inv.
Qed.

Lemma run_inv x y : run x y -> sys_inv x y.
Proof.
  intros Hr. pose proof (sys_new_inv x) as Hi.
  induction Hr as [|y1 y2 y3 [Hs Hd] _ IH]; [done|]. apply IH. by eapply sys_step_inv.
Qed.

(** C1: no key or button is ever left stuck, unless the desktop fails to release it, and control is
    never shared.  In every interleaving of every connection's requests, frames, ticks, focus changes,
    stream ends, reconnects and disconnects, with native input and its release failing at any point:
    a connection that holds a lease is the only one, the lease is the only session, and it belongs to
    that connection's device; whenever no connection holds a lease, or the session is routed to
    another machine, exactly that is pressed which the last native release left, and that is nothing
    if it succeeded.  While no device has two connections at once, everything the native session holds
    is down, and nothing else unless that release left it: after a release that succeeded, a key or
    button is down exactly when the session holds it. *)
Theorem input_never_stuck x y :
  run x y ->
  let left := (sys_released y).1 in
  let succeeded := (sys_released y).2 = Ok tt in
  (succeeded -> left = nothing_pressed)
  /\ (forall c k l, conns y !! c = Some k -> conn_lease k = Some l ->
     exists a, active (sys_sessions y) = {[l := a]} /\ device_id a = conn_device k
       /\ (workspace_routed a = true -> sys_machine y = left)
       /\ (let held := {| native_keys := pressed_keys a; native_buttons := pressed_buttons a |} in
           x = true -> workspace_routed a = false ->
           covers held left (sys_machine y) /\ (succeeded -> sys_machine y = held))
       /\ forall c' k', conns y !! c' = Some k' -> conn_lease k' <> None -> c' = c)
  /\ ((forall c k, conns y !! c = Some k -> conn_lease k = None) ->
      active (sys_sessions y) = ∅ /\ sys_machine y = left /\ (succeeded -> sys_machine y = nothing_pressed)).
Proof.
  intros Hi%run_inv. pose proof Hi as [I1 [M1 M2 M3] I3 I4 I5 I6]. cbv zeta. split; [done|]. split.
  - intros c k l Hc Hl. destruct (I3 c k l Hc Hl) as (a & Ha & Hd). exists a.
    pose proof (wf_alone _ _ _ I1 Ha) as Halone.
    split; [done|]. split; [done|]. split; [|split].
    + intros Hr. apply M2. intros l' a' Ha'. rewrite Halone in Ha'.
      apply lookup_singleton_Some in Ha' as [_ <-]. done.
    + intros Hx Hr. specialize (M1 Hx l a Ha Hr). rewrite (native_of_alone _ l a) in M1 by done.
      split; [done|]. intros Hs%M3. rewrite Hs in M1. by apply covers_nothing.
    + intros c' k' Hc' Hk'. destruct (decide (c = c')) as [|Hne]; [done|].
      destruct Hk'. eapply (others_free x y c k c' k'); eauto. left. congruence.
  - intros Hnone. assert (active (sys_sessions y) = ∅) as He.
    { apply map_empty. intros l. destruct (active (sys_sessions y) !! l) as [a|] eqn:Ha; [|done].
      destruct (I4 l a Ha) as (c & k & Hc & Hl). rewrite (Hnone c k Hc) in Hl. done. }
    assert (sys_machine y = (sys_released y).1) as Hm
      by (apply M2; intros l a Ha; by rewrite He, lookup_empty in Ha).
    split; [done|]. split; [done|]. intros Hs%M3. congruence.
Qed.
End system.


Section claims.
Context `{!InputCore} `{!GestureCore} `{!DrainOrder} `{!FeatureCodes}.

(** Control is granted only when everything allows it.  A request is answered with success
    only if reliable input was negotiated, the peer holds the injection capability, the desktop
    granted its permission and, for a routed session, workspace input was negotiated and a router
    is available; the connection then holds a fresh lease of its own device, the one named in the
    answer.  A refusal names no lease, and leaves either the connection as it was or without one. *)
Theorem begin_input_guarded x h d draws now id routed features capabilities st st' r :
  good x d st ->
  begin_input_session h d draws now id routed features capabilities st = Some (st', r) ->
  let l := {| session_id := isr_session_id r; epoch := isr_epoch r |} in
  if decide (st_code (isr_status r) = ECOk)
  then feature_code FInputReliable ∈ features /\ Requests.RemoteInputInject ∈ capabilities
       /\ permission_state h = Granted
       /\ (routed = true -> feature_code FWorkspaceInput ∈ features /\ router_available h = true)
       /\ active_input st' = Some l
       /\ active (sessions st') = {[l := fresh_session l d now routed]}
  else l = no_lease
       /\ (active_input st' = None
           \/ active_input st' = active_input st /\ sessions st' = sessions st
              /\ machine st' = machine st).
Proof.
  intros Hg. unfold begin_input_session.
  assert (forall c m, c <> ECOk -> st_code (Negotiation.status (fresh_id h) c m) <> ECOk) as Hcode
    by (intros; done).
  destruct (begin_guard h routed features capabilities) as [[[m code] ask]|] eqn:Hguard.
  { intros [= <- <-]. simpl. rewrite decide_False.
    - split; [done|]. right. by destruct ask.
    - unfold begin_guard in Hguard. repeat (case_match; simplify_eq; try done). }
  assert (feature_code FInputReliable ∈ features /\ Requests.RemoteInputInject ∈ capabilities
    /\ permission_state h = Granted
    /\ (routed = true -> feature_code FWorkspaceInput ∈ features /\ router_available h = true)) as Hok.
  { unfold begin_guard in Hguard.
    destruct (bool_decide (feature_code FInputReliable ∈ features)) eqn:B1; [|done].
    destruct (bool_decide (Requests.RemoteInputInject ∈ capabilities)) eqn:B2; [|done].
    destruct (routed && _) eqn:B3; [done|].
    destruct (bool_decide (permission_state h = Granted)) eqn:B4; [|done]. bool_arith.
    split; [done|]. split; [done|]. split; [done|]. intros ->. simpl in B3. bool_arith. done. }
  destruct (end_previous_spec x h d st Hg) as (G1 & A1 & E1).
  set (st1 := match active_input st with Some _ => _ | None => _ end) in *.
  destruct (acquire_with_routing draws now d routed (sessions st1)) as [[s [l|e]]|] eqn:Hacq; [| |done].
  2:{ intros [= <- <-]. simpl. split; [done|]. by left. }
  apply acquire_cases in Hacq as [(? & [=] & _)|(l' & [= <-] & He & Hs & _)].
  assert (active s = {[l := fresh_session l d now routed]}) as Hs1 by (subst s; simpl; by rewrite He).
  clearbody st1. destruct routed.
  - destruct (router h) as [rt|]; [|done]. destruct (router_begin rt) as [route|er]; intros [= <- <-].
    + destruct Hok as (? & ? & ? & ?), l. simpl. auto 10.
    + simpl. rewrite decide_False by (by destruct (hc_code er)). split; [done|]. left.
      unfold end_input_lease_locked. simpl. rewrite bool_decide_true by done.
      by destruct (is_workspace_routed _ _ _); [destruct (router h)|].
  - intros [= <- <-]. destruct Hok as (? & ? & ? & ?), l. simpl. auto 10.
Qed.

Lemma revoke_clears h d l m st :
  active_input st = Some l -> active_input (revoke_input_with_feedback h d l m st) = None.
Proof.
  intros Hl. unfold revoke_input_with_feedback, end_input_lease_locked.
  rewrite bool_decide_true by done. done.
Qed.

Lemma apply_batch_slot h d l es st : active_input (apply_batch h d l es st).1 = active_input st.
Proof.
  unfold apply_batch. destruct (is_workspace_routed _ _ _); [by destruct (router h)|].
  by destruct (apply_events _ _ _).
Qed.

(** A frame after which the lease is still held passed every check. *)
Lemma frame_survives h d ck f st st' a :
  let l := {| session_id := f_session_id f; epoch := f_epoch f |} in
  active_input st = Some l -> active (sessions st) !! l = Some a ->
  handle_frame h d ck f st = Some st' -> active_input st' <> None ->
  exists es, convert_reliable_events (f_events f) = Ok es
    /\ Z.of_nat (length (f_events f)) <= MAX_RELIABLE_EVENTS_PER_FRAME
    /\ (f_motion f <> None -> es = []) /\ validate_events h es = Ok tt
    /\ f_sequence f = sat_add u64_max (reliable_sequence a) 1
    /\ reliable_elapsed_us a <= f_elapsed_us f
    /\ duration_since (ck_reliable_0 ck) (last_activity a) < INPUT_LEASE_TIMEOUT
    /\ active_input st' = Some l.
Proof.
  intros l Hl Ha. unfold handle_frame. fold l.
  assert (forall m s, active_input s = Some l ->
    active_input (revoke_input_with_feedback h d l m s) <> None -> False) as Hrev
    by (intros m s Hs Hne; by rewrite revoke_clears in Hne).
  destruct (_ >? MAX_RELIABLE_EVENTS_PER_FRAME) eqn:B1; [intros [= <-] ?; by exfalso; eapply Hrev|].
  destruct (convert_reliable_events _) as [es|e]; [|intros [= <-] ?; by exfalso; eapply Hrev].
  destruct (_ && _) eqn:B2; [intros [= <-] ?; by exfalso; eapply Hrev|].
  destruct (validate_events h es) as [[]|] eqn:B3; [|intros [= <-] ?; by exfalso; eapply Hrev].
  destruct (accept_reliable _ _ _ _ _ _ _) as [s1 [fb|e]] eqn:B4;
    [|intros [= <-] ?; exfalso; by eapply (Hrev _ (set_sessions s1 st))].
  assert (f_sequence f = sat_add u64_max (reliable_sequence a) 1
    /\ reliable_elapsed_us a <= f_elapsed_us f
    /\ duration_since (ck_reliable_0 ck) (last_activity a) < INPUT_LEASE_TIMEOUT) as Hacc.
  { unfold accept_reliable in B4. rewrite Ha in B4. destruct (validate_owner a l d); [|done].
    destruct (_ >=? INPUT_LEASE_TIMEOUT) eqn:C1; [done|]. destruct (f_sequence f =? _) eqn:C2; [|done].
    simpl in B4. destruct (f_elapsed_us f <? _) eqn:C3; [done|]. rewrite Z.geb_leb in C1.
    bool_arith. done. }
  destruct (normalize_reliable_events _ _ _ _ _) as [[s2 [evs|e]]|]; [| |done];
    [|intros [= <-] ?; exfalso; by eapply (Hrev _ (set_sessions s2 st))].
  match goal with |- (let '(_, _) := ?x in _) = _ -> _ => destruct x as [s3 [[batch snap]|e]] end;
    [|intros [= <-] ?; exfalso; by eapply (Hrev _ (set_sessions s3 st))].
  match goal with |- (let '(_, _) := ?x in _) = _ -> _ => destruct x as [st1 r] eqn:B5 end.
  assert (active_input st1 = Some l) as Hst1.
  { destruct (is_empty batch); [by injection B5 as <- _|].
    pose proof (apply_batch_slot h d l batch (set_sessions s3 st)) as Hslot. rewrite B5 in Hslot.
    simpl in Hslot. congruence. }
  destruct r as [[]|e]; [|intros [= <-] ?; exfalso; by eapply Hrev].
  intros [= <-] _. exists es. bool_arith. destruct Hacc as (? & ? & ?).
  split; [done|]. split; [done|]. split.
  { intros Hm. destruct (f_motion f); [|done]. by destruct es. }
  split; [done|]. split; [done|]. split; [done|]. split; [done|]. by destruct (_ || _).
Qed.

(** C29: every input frame either passes every check or ends control.  A frame for a lease its
    device does not hold changes neither the machine nor any session, and a frame for a lease its
    connection does not hold never changes who holds which lease; a frame for its own
    lease leaves the connection in control only if it is the next one in sequence, in time, within
    the event limit, convertible and valid for the desktop, with motion and discrete events not
    mixed; otherwise the lease is gone, and what stays pressed is what the last native release left,
    nothing if it succeeded. *)
Theorem input_frame_checked x h d ck f st st' :
  good x d st -> handle_frame h d ck f st = Some st' ->
  let l := {| session_id := f_session_id f; epoch := f_epoch f |} in
  (foreign l d (sessions st) ->
     sessions st' = sessions st /\ machine st' = machine st /\ active_input st' = active_input st)
  /\ (active_input st <> Some l ->
      active_input st' = active_input st /\ same_leases (sessions st) (sessions st'))
  /\ (active_input st = Some l ->
      (active_input st' = None /\ active (sessions st') = ∅ /\ machine st' = (released st').1
       /\ ((released st').2 = Ok tt -> machine st' = nothing_pressed))
      \/ exists a es, active (sessions st) !! l = Some a /\ device_id a = d
         /\ convert_reliable_events (f_events f) = Ok es
         /\ Z.of_nat (length (f_events f)) <= MAX_RELIABLE_EVENTS_PER_FRAME
         /\ (f_motion f <> None -> es = []) /\ validate_events h es = Ok tt
         /\ f_sequence f = sat_add u64_max (reliable_sequence a) 1
         /\ reliable_elapsed_us a <= f_elapsed_us f
         /\ duration_since (ck_reliable_0 ck) (last_activity a) < INPUT_LEASE_TIMEOUT
         /\ active_input st' = Some l).
Proof.
  intros Hg Hrun l. split; [|split].
  - intros Hf. assert (active_input st <> Some l) as Hl.
    { intros Hl. destruct (good_holding x d l st Hg Hl) as [_ _ (a & Ha & Hd & _) _]. by eapply Hf. }
    by destruct (frame_foreign h d ck f st st' Hf Hl Hrun) as (? & ? & ? & _).
  - by eapply frame_not_held.
  - intros Hl. destruct (frame_own x h d ck f st st' Hg Hl Hrun) as [[_ [_ Hclear Hleft] _] Hnone _].
    destruct (decide (active_input st' = None)) as [Hn|Hn].
    + left. destruct (Hnone Hn) as [[He _]|[? _]]; [|congruence]. split; [done|]. split; [done|].
      assert (machine st' = (released st').1) as Hm
        by (apply Hclear; intros l' a Ha; by rewrite He, lookup_empty in Ha).
      split; [done|]. intros ?%Hleft. congruence.
    + right. destruct (good_holding x d l st Hg Hl) as [_ _ (a & Ha & Hd & _) _].
      destruct (frame_survives h d ck f st st' a Hl Ha Hrun Hn) as (es & Hes). exists a, es. done.
Qed.
End claims.


(** ** Witnesses: one phone presses a key *)

#[local] Existing Instance toy_input.
#[local] Existing Instance toy_gesture.
#[local] Existing Instance toy_drain.
#[local] Existing Instance toy_features.

Definition toy_host : Host.
Proof.
  refine {| fresh_id := "id"; permission_state := Granted; supports_system_gestures := false;
            validate_events := fun _ => Ok tt;
            apply_events := fun n es => (native_apply n es, Ok tt);
            release_all := fun _ => (nothing_pressed, Ok tt); router := None |}.
  - intros n es. exists (length es). simpl. by rewrite firstn_all.
  - done.
  - done.
Defined.
Definition wfeatures : gset Z := {[feature_code FInputReliable]}.
Definition wcaps : gset Requests.CapabilityId := {[Requests.RemoteInputInject]}.
Definition wconn : Conn := {| conn_device := "phone"; conn_lease := None |}.
Definition wsys1 : Sys :=
  {| sys_sessions := InputSession.new; conns := <[0%nat := wconn]> ∅; sys_machine := nothing_pressed;
     sys_released := (nothing_pressed, Ok tt) |}.
Definition wbegun : option (HState * InputSessionResult) :=
  begin_input_session toy_host "phone" [(7, 3)] 10 1 false wfeatures wcaps (view wconn wsys1).
Definition wst2 : HState := from_option fst (view wconn wsys1) wbegun.
Definition wsys2 : Sys := store 0 wconn wst2 wsys1.
Definition wconn2 : Conn :=
  {| conn_device := "phone"; conn_lease := Some {| session_id := 7; epoch := 3 |} |}.
Definition wframe : ReliableInputFrame :=
  {| f_session_id := 7; f_epoch := 3; f_sequence := 1; f_elapsed_us := 5; f_motion := None;
     f_events := [Some (WKey 4 true false)] |}.
Definition wclock : Clock :=
  {| ck_reliable_0 := 20; ck_reliable_1 := 20; ck_events := fun _ => 20; ck_motion_0 := 20;
     ck_motion_1 := 20 |}.
Definition wst3 : HState :=
  default wst2 (handle_frame toy_host "phone" wclock wframe (view wconn2 wsys2)).
Definition wsys3 : Sys := store 0 wconn2 wst3 wsys2.

Lemma insert_solo c k : solo {| sys_sessions := InputSession.new; conns := <[c := k]> ∅;
  sys_machine := nothing_pressed; sys_released := (nothing_pressed, Ok tt) |}.
Proof.
  intros c1 c2 k1 k2. simpl. rewrite !insert_empty.
  by intros [<- _]%lookup_singleton_Some [<- _]%lookup_singleton_Some.
Qed.
Lemma wsys1_reachable : run true wsys1.
Proof.
  apply rtc_once. split; [by apply (sys_connect sys_new 0 "phone")|]. intros _. apply insert_solo.
Qed.
Lemma wsys2_reachable : run true wsys2.
Proof.
  eapply rtc_r; [exact wsys1_reachable|]. split.
  - eapply (sys_begin wsys1 0 wconn toy_host [(7, 3)] 10 1 false wfeatures wcaps wst2);
      vm_compute; reflexivity.
  - intros _. apply store_solo; [done|]. apply insert_solo.
Qed.
Lemma wsys3_reachable : run true wsys3.
Proof.
  eapply rtc_r; [exact wsys2_reachable|]. split.
  - eapply (sys_frame wsys2 0 wconn2 toy_host wclock wframe wst3); vm_compute; reflexivity.
  - intros _. apply store_solo; [vm_compute; reflexivity|]. apply store_solo; [done|]. apply insert_solo.
Qed.

Lemma input_never_stuck_witness :
  native_keys (sys_machine wsys3) = {[4]}
  /\ exists a, active (sys_sessions wsys3) = {[{| session_id := 7; epoch := 3 |} := a]}
     /\ device_id a = "phone"%string.
Proof.
  split; [vm_compute; reflexivity|].
  destruct (proj1 (proj2 (input_never_stuck true wsys3 wsys3_reachable)) 0%nat wconn2
    {| session_id := 7; epoch := 3 |}) as (a & H1 & H2 & _).
  - vm_compute. reflexivity.
  - reflexivity.
  - exists a. split; [exact H1|exact H2].
Defined.

(** A desktop that fails to release: the phone ends its session, its lease is free for the next
    controller, and the key it pressed is still down. *)
Definition failing_host : Host.
Proof.
  refine {| fresh_id := "id"; permission_state := Granted; supports_system_gestures := false;
            validate_events := fun _ => Ok tt;
            apply_events := fun n es => (native_apply n es, Ok tt);
            release_all := fun n => (n, Err "input backend is gone"%string); router := None |}.
  - intros n es. exists (length es). simpl. by rewrite firstn_all.
  - done.
  - intros n [=].
Defined.
Definition wended : HState :=
  (handle_end_request failing_host "phone" 2 {| session_id := 7; epoch := 3 |} (view wconn2 wsys3)).1.
Theorem failed_release_leaves_keys :
  run true (store 0 wconn2 wended wsys3)
  /\ active_input wended = None /\ active (sessions wended) = ∅ /\ native_keys (machine wended) = {[4]}.
Proof.
  split; [|by vm_compute]. eapply rtc_r; [exact wsys3_reachable|]. split.
  - apply (sys_end_request wsys3 0 wconn2 failing_host). vm_compute. reflexivity.
  - intros _. do 2 (apply store_solo; [vm_compute; reflexivity|]). apply store_solo; [done|]. apply insert_solo.
Qed.

Lemma wview_good : good true "phone" (view wconn wsys1).
Proof. apply (view_good true wsys1 0 wconn); [by apply run_inv, wsys1_reachable|done]. Qed.
Lemma wview2_good : good true "phone" (view wconn2 wsys2).
Proof.
  apply (view_good true wsys2 0 wconn2); [by apply run_inv, wsys2_reachable|].
  vm_compute. reflexivity.
Qed.

Lemma begin_input_guarded_witness :
  active_input wst2 = Some {| session_id := 7; epoch := 3 |}
  /\ feature_code FInputReliable ∈ wfeatures.
Proof.
  destruct wbegun as [[st' r]|] eqn:Hb; [|exfalso; revert Hb; vm_compute; discriminate].
  pose proof (begin_input_guarded true toy_host "phone" [(7, 3)] 10 1 false wfeatures wcaps
    (view wconn wsys1) st' r wview_good Hb) as H.
  assert (st_code (isr_status r) = ECOk) as Hok.
  { change r with (from_option snd r (Some (st', r))). rewrite <- Hb. vm_compute. reflexivity. }
  cbv zeta in H. rewrite decide_True in H by exact Hok. split; [vm_compute; reflexivity|].
  exact (proj1 H).
Defined.

Lemma input_frame_checked_witness :
  f_sequence wframe = 1 /\ active_input wst3 = Some {| session_id := 7; epoch := 3 |}.
Proof.
  assert (handle_frame toy_host "phone" wclock wframe (view wconn2 wsys2) = Some wst3) as Hrun
    by (vm_compute; reflexivity).
  destruct (proj2 (proj2 (input_frame_checked true toy_host "phone" wclock wframe
    (view wconn2 wsys2) wst3 wview2_good Hrun)) eq_refl) as [(Hn & _)|(a & es & _ & _ & _ & _ & _ & _ & _ & _ & _ & Hl)].
  - exfalso. revert Hn. vm_compute. discriminate.
  - split; [reflexivity|exact Hl].
Defined.

End InputHandler.
