(* ===== verification/InputStreams.v ===== *)
(** * Reliable input streams and their metrics

    Models the opening of [handle_uni_stream] in [src/server/proto_handler/input.rs], with the guard
    that lets one reliable input stream run at a time, and [InputMetricsAccumulator] of
    [src/server/proto_handler.rs], which sums up a window of at least a second of motion. *)

From Stdlib Require Import ZArith Lia String.
From stdpp Require Import base tactics option list strings gmap relations.
From S2P Require Import Prelude.

Module InputStreams.
Local Open Scope string_scope.
Local Open Scope Z_scope.

(** ** One stream at a time *)

Class InputStreamKind := { STREAM_KIND_RELIABLE_INPUT : Z }.
(** The flag the streams of a session share, and the streams being served. *)
Record Streams := { reliable_input_stream_open : bool; serving : gset nat }.
Definition no_streams : Streams := {| reliable_input_stream_open := false; serving := ∅ |}.

(** [swap(true)], and what becomes of a stream with its first byte. *)
Definition open_stream `{!InputStreamKind} (k : nat) (kind : Z) (s : Streams) : Streams * result unit string :=
  if negb (kind =? STREAM_KIND_RELIABLE_INPUT) then (s, Err "unsupported client stream kind") else
  let s' := {| reliable_input_stream_open := true; serving := serving s |} in
  if reliable_input_stream_open s then (s', Err "a reliable input stream is already open")
  else ({| reliable_input_stream_open := true; serving := {[k]} ∪ serving s |}, Ok tt).
(** The guard of a stream that was served is dropped. *)
Definition close_stream (k : nat) (s : Streams) : Streams :=
  {| reliable_input_stream_open := false; serving := serving s ∖ {[k]} |}.

Inductive stream_step `{!InputStreamKind} (s : Streams) : Streams -> Prop :=
| stream_opens k kind : k ∉ serving s -> stream_step s (open_stream k kind s).1
| stream_closes k : k ∈ serving s -> stream_step s (close_stream k s).

(** Whatever streams a client opens and however they end, at most one is served, and one can be
    opened again as soon as none is. *)
Lemma one_input_stream `{!InputStreamKind} s :
  rtc stream_step no_streams s ->
  serving s = ∅ /\ reliable_input_stream_open s = false
  \/ exists k, serving s = {[k]} /\ reliable_input_stream_open s = true.
Proof.
  revert s. apply (rtc_ind_r (fun s => serving s = ∅ /\ reliable_input_stream_open s = false
    \/ exists k, serving s = {[k]} /\ reliable_input_stream_open s = true)); [by left|].
  intros s s' _ [k kind Hk|k Hk] Hs.
  - unfold open_stream. destruct (negb _); [done|].
    destruct Hs as [[-> ->]|(k' & -> & ->)]; cbn; right; [exists k|by exists k'].
    by rewrite (right_id_L ∅ (∪)).
  - left. cbn. split; [|done]. destruct Hs as [[E _]|(k' & E & _)]; rewrite E in *; set_solver.
Qed.

(** ** Metrics *)

Record InputMetricsAccumulator := {
  window_started : Z;
  last_motion_received : option Z;
  last_client_elapsed_us : option Z;
  motion_received : Z;
  quartz_submitted : Z;
  gap_samples : Z;
  gap_total_us : Z;
  gap_max_us : Z;
  source_gap_max_us : Z;
  transport_stall_max_us : Z;
  apply_total_us : Z;
  apply_max_us : Z;
}.
Definition new (now : Z) : InputMetricsAccumulator :=
  {| window_started := now; last_motion_received := None; last_client_elapsed_us := None; motion_received := 0;
     quartz_submitted := 0; gap_samples := 0; gap_total_us := 0; gap_max_us := 0; source_gap_max_us := 0;
     transport_stall_max_us := 0; apply_total_us := 0; apply_max_us := 0 |}.
(** [as_micros], cut to [u64]. *)
Definition micros (duration_ns : Z) : Z := Z.min (duration_ns / 1000) u64_max.

Definition observe_motion (now client_elapsed_us : Z) (m : InputMetricsAccumulator) : InputMetricsAccumulator :=
  match last_motion_received m with
  | None =>
    {| window_started := window_started m; last_motion_received := Some now;
       last_client_elapsed_us := Some client_elapsed_us; motion_received := motion_received m + 1;
       quartz_submitted := quartz_submitted m; gap_samples := gap_samples m; gap_total_us := gap_total_us m;
       gap_max_us := gap_max_us m; source_gap_max_us := source_gap_max_us m;
       transport_stall_max_us := transport_stall_max_us m; apply_total_us := apply_total_us m;
       apply_max_us := apply_max_us m |}
  | Some previous =>
    let gap := micros (duration_since now previous) in
    let source_gap := match last_client_elapsed_us m with
                      | Some value => sat_sub client_elapsed_us value
                      | None => 0
                      end in
    {| window_started := window_started m; last_motion_received := Some now;
       last_client_elapsed_us := Some client_elapsed_us; motion_received := motion_received m + 1;
       quartz_submitted := quartz_submitted m; gap_samples := gap_samples m + 1;
       gap_total_us := sat_add u64_max (gap_total_us m) gap; gap_max_us := Z.max (gap_max_us m) gap;
       source_gap_max_us := Z.max (source_gap_max_us m) source_gap;
       transport_stall_max_us := Z.max (transport_stall_max_us m) (sat_sub gap source_gap);
       apply_total_us := apply_total_us m; apply_max_us := apply_max_us m |}
  end.
Definition observe_quartz (elapsed : Z) (m : InputMetricsAccumulator) : InputMetricsAccumulator :=
  let apply_us := micros elapsed in
  {| window_started := window_started m; last_motion_received := last_motion_received m;
     last_client_elapsed_us := last_client_elapsed_us m; motion_received := motion_received m;
     quartz_submitted := quartz_submitted m + 1; gap_samples := gap_samples m; gap_total_us := gap_total_us m;
     gap_max_us := gap_max_us m; source_gap_max_us := source_gap_max_us m;
     transport_stall_max_us := transport_stall_max_us m;
     apply_total_us := sat_add u64_max (apply_total_us m) apply_us; apply_max_us := Z.max (apply_max_us m) apply_us |}.

(** [ServerEvent::InputMetrics]; a rate is its count and the length of the window. *)
Record InputMetrics := {
  session_id : string;
  receive_hz : Z * Z;
  quartz_hz : Z * Z;
  average_gap_us : Z;
  maximum_gap_us : Z;
  maximum_source_gap_us : Z;
  maximum_transport_stall_us : Z;
  average_apply_us : Z;
  maximum_apply_us : Z;
}.
(** [now] is the time of the check and of the new window. *)
Definition take (now : Z) (id : string) (m : InputMetricsAccumulator)
  : InputMetricsAccumulator * option InputMetrics :=
  let elapsed := duration_since now (window_started m) in
  if elapsed <? from_secs 1 then (m, None) else
  (new now,
   Some {| session_id := id; receive_hz := (motion_received m, elapsed); quartz_hz := (quartz_submitted m, elapsed);
           average_gap_us := gap_total_us m / Z.max (gap_samples m) 1; maximum_gap_us := gap_max_us m;
           maximum_source_gap_us := source_gap_max_us m; maximum_transport_stall_us := transport_stall_max_us m;
           average_apply_us := apply_total_us m / Z.max (quartz_submitted m) 1; maximum_apply_us := apply_max_us m |}).

(** A window: every total is at most its maximum, as often as it was sampled. *)
Record metrics_ok (m : InputMetricsAccumulator) : Prop := {
  mk_counts : 0 <= gap_samples m <= motion_received m /\ 0 <= quartz_submitted m;
  mk_gaps : 0 <= gap_total_us m <= gap_samples m * gap_max_us m /\ 0 <= gap_max_us m <= u64_max;
  mk_stall : 0 <= transport_stall_max_us m <= gap_max_us m;
  mk_apply : 0 <= apply_total_us m <= quartz_submitted m * apply_max_us m /\ 0 <= apply_max_us m <= u64_max;
}.
Lemma new_ok now : metrics_ok (new now).
Proof. split; cbn; unfold u64_max; lia. Qed.
Lemma micros_range d : 0 <= d -> 0 <= micros d <= u64_max.
Proof. intros Hd. unfold micros. pose proof (Z.div_pos d 1000 Hd). unfold u64_max in *. lia. Qed.
Lemma observe_motion_ok now us m : metrics_ok m -> metrics_ok (observe_motion now us m).
Proof.
  intros [[C1 C2] [[G1 G2] G3] S1 A1]. unfold observe_motion. destruct (last_motion_received m) as [p|].
  - set (gap := micros _). set (source := match last_client_elapsed_us m with Some _ => _ | None => _ end).
    assert (0 <= gap <= u64_max) as Hg by (apply micros_range; unfold duration_since; lia).
    assert (0 <= source) as Hs by (unfold source, sat_sub; destruct (last_client_elapsed_us m); lia).
    split; cbn; unfold sat_add, sat_sub; [lia| |lia|done]. split; [|lia].
    assert (gap_samples m * gap_max_us m <= gap_samples m * Z.max (gap_max_us m) gap) by nia.
    unfold u64_max in *. nia.
  - split; cbn; lia.
Qed.
Lemma observe_quartz_ok elapsed m : 0 <= elapsed -> metrics_ok m -> metrics_ok (observe_quartz elapsed m).
Proof.
  intros He [[C1 C2] G1 S1 [[A1 A2] A3]]. pose proof (micros_range elapsed He) as Hm.
  split; cbn; unfold sat_add; [lia|done|done|]. split; [|lia].
  assert (quartz_submitted m * apply_max_us m <= quartz_submitted m * Z.max (apply_max_us m) (micros elapsed)) by nia.
  unfold u64_max in *. nia.
Qed.
(** What is reported is consistent, covers at least a second, and starts a new window. *)
Lemma take_ok now id m m' e :
  metrics_ok m -> take now id m = (m', Some e) ->
  m' = new now /\ from_secs 1 <= now - window_started m
  /\ 0 <= average_gap_us e <= maximum_gap_us e /\ 0 <= maximum_transport_stall_us e <= maximum_gap_us e
  /\ 0 <= average_apply_us e <= maximum_apply_us e.
Proof.
  intros [[C1 C2] [[G1 G2] G3] S1 [[A1 A2] A3]]. unfold take. destruct (_ <? _) eqn:E; [done|].
  intros [= <- <-]. cbn. split; [done|]. split; [unfold duration_since, from_secs in *; lia|].
  assert (forall t n x, 0 <= t <= n * x -> 0 <= n -> 0 <= x -> 0 <= t / Z.max n 1 <= x) as Hdiv.
  { intros t n x Ht Hn Hx. split; [apply Z.div_pos; lia|].
    destruct (decide (n = 0)) as [->|]; [replace t with 0 by lia; by rewrite Z.div_0_l by lia|].
    rewrite Z.max_l by lia. apply Z.div_le_upper_bound; lia. }
  split; [apply Hdiv; lia|]. split; [lia|]. apply Hdiv; lia.
Qed.
End InputStreams.
