(* ===== verification/Announcements.v ===== *)
(** * What the user is told about remote control

    Models [ServerEvent] of [src/server/types.rs], [emit_input_ended] and [lease_label] of
    [src/server/proto_handler/input/events.rs], and the events of [handle_quic_connection] when a
    device comes and goes: the handlers of [InputHandler] hand them to the user interface, under the
    input gate that all connections share, and the interface shows who controls the machine.  The end
    of a session and of a connection are offered for five seconds: which of them the interface takes
    is an input of each step. *)

From Stdlib Require Import ZArith Lia Ascii String.
From stdpp Require Import base tactics option list strings gmap relations.
From S2P Require Import Prelude Proto Negotiation Requests InputEvents InputSession InputHandler InputStreams.

Module Announcements.
Import InputEvents InputSession InputHandler.
Local Open Scope string_scope.
Local Open Scope list_scope.
Local Open Scope Z_scope.

(** ** Labels *)

(** A lower case hexadecimal digit, and [n] of them, which is what [{:0n$x}] prints of a number
    below [16 ^ n]. *)
Definition hex_digit (z : Z) : ascii :=
  ascii_of_N (Z.to_N (if z <? 10 then 48 + z else 87 + z)).
Fixpoint hex (n : nat) (z : Z) : string :=
  match n with
  | O => EmptyString
  | S n => hex n (z / 16) +:+ String (hex_digit (z mod 16)) EmptyString
  end.
Definition lease_label (l : InputLease) : string :=
  hex 16 (session_id l) +:+ ":" +:+ hex 8 (epoch l).

(** ** Events *)

Inductive ServerEvent :=
| PairingRequest (device_name device_id pairing_code : string)
| PairingResult (device_name : string) (accepted : bool)
| PairingCancelled (device_id device_name : string)
| OutgoingPairingCode (device_id device_name pairing_code : string)
| OutgoingPairingFinished (device_id : string)
| DeviceConnected (device_id device_name : string)
| DeviceDisconnected (device_id device_name : string)
| InputPermissionRequired (device_name : string)
| InputSessionStarted (session_id device_id device_name : string)
| InputSessionEnded (session_id device_id device_name : string)
| InputMetrics (metrics : InputStreams.InputMetrics).
(** The [timeout] around the [send]: the event is [taken] in time, or dropped. *)
Definition emit_input_ended (taken : bool) (l : InputLease) (device_id device_name : string)
  : option ServerEvent :=
  if taken then Some (InputSessionEnded (lease_label l) device_id device_name) else None.
(** The sessions an interface shows that started with [shown]. *)
Definition show (shown : list (string * string)) (e : ServerEvent) : list (string * string) :=
  match e with
  | InputSessionStarted session device _ => shown ++ [(session, device)]
  | InputSessionEnded session device _ => filter (fun x => x <> (session, device)) shown
  | _ => shown
  end.
Definition shows (shown : list (string * string)) (es : list ServerEvent) : list (string * string) :=
  fold_left show es shown.

(** ** All connections *)

Section system.
Context `{!InputCore} `{!GestureCore} `{!DrainOrder} `{!FeatureCodes}.

(** The event of an output, and, for the statements, the end it drops. *)
Definition announcement (taken : bool) (device_id device_name : string) (o : Output) : option ServerEvent :=
  match o with
  | OutStarted l => Some (InputSessionStarted (lease_label l) device_id device_name)
  | OutEnded l => emit_input_ended taken l device_id device_name
  | OutPermissionRequired => Some (InputPermissionRequired device_name)
  | _ => None
  end.
Definition dropped (taken : bool) (device_id : string) (o : Output) : option (string * string) :=
  match o with
  | OutEnded l => if taken then None else Some (lease_label l, device_id)
  | _ => None
  end.
(** The same for the outputs of a handler; [taken] says which are taken, by their place. *)
Definition announcements (taken : nat -> bool) (device_id device_name : string) (out : list Output)
  : list ServerEvent :=
  omap id (imap (fun i => announcement (taken i) device_id device_name) out).
Definition drops (taken : nat -> bool) (device_id : string) (out : list Output) : list (string * string) :=
  omap id (imap (fun i => dropped (taken i) device_id) out).

(** A handler of a connection. *)
Inductive handled (d : string) (st : HState) : HState -> Prop :=
| handled_begin h draws now id routed features capabilities st' r :
    begin_input_session h d draws now id routed features capabilities st = Some (st', r) -> handled d st st'
| handled_frame h ck frame st' : handle_frame h d ck frame st = Some st' -> handled d st st'
| handled_stream_end h : handled d st (end_stream h d st)
| handled_end_request h id l : handled d st (handle_end_request h d id l st).1
| handled_tick h t0 t1 : handled d st (lease_tick h d t0 t1 st)
| handled_focus focus : handled d st (focus_changed d focus st).

(** The server with what it has told the interface and, for the statements, the ends the interface
    did not take; [names] are the names the devices connect under.  A session that is dropped while it
    announces its device leaves the announcement out. *)
Record Ui := { sys : Sys; told : list ServerEvent; missed : list (string * string) }.
Definition ui_new : Ui := {| sys := sys_new; told := []; missed := [] |}.
Inductive ui_step (names : nat -> string) (u : Ui) : Ui -> Prop :=
| ui_connect c d announced :
    conns (sys u) !! c = None ->
    announced = [] \/ announced = [DeviceConnected d (names c)] ->
    ui_step names u {| sys := {| sys_sessions := sys_sessions (sys u);
                           conns := <[c := {| conn_device := d; conn_lease := None |}]> (conns (sys u));
                           sys_machine := sys_machine (sys u); sys_released := sys_released (sys u) |};
                 told := told u ++ announced; missed := missed u |}
| ui_handled c k st taken :
    conns (sys u) !! c = Some k -> handled (conn_device k) (view k (sys u)) st ->
    ui_step names u {| sys := store c k st (sys u);
                 told := told u ++ announcements taken (conn_device k) (names c) (out st);
                 missed := missed u ++ drops taken (conn_device k) (out st) |}
| ui_disconnect c k h taken announced :
    conns (sys u) !! c = Some k ->
    announced = [] \/ announced = [DeviceDisconnected (conn_device k) (names c)] ->
    let st := end_stream h (conn_device k) (view k (sys u)) in
    ui_step names u {| sys := {| sys_sessions := sessions st; conns := delete c (conns (sys u));
                           sys_machine := machine st; sys_released := released st |};
                 told := told u ++ announcements taken (conn_device k) (names c) (out st) ++ announced;
                 missed := missed u ++ drops taken (conn_device k) (out st) |}.
End system.

(** ** Labels tell leases apart *)

Lemma hex_digit_inj x y : 0 <= x < 16 -> 0 <= y < 16 -> hex_digit x = hex_digit y -> x = y.
Proof.
  intros Hx Hy E. apply (f_equal N_of_ascii) in E. unfold hex_digit in E.
  rewrite !N_ascii_embedding in E by (destruct (x <? 10) eqn:?, (y <? 10) eqn:?; bool_arith; lia).
  destruct (x <? 10) eqn:?, (y <? 10) eqn:?; bool_arith; lia.
Qed.
Lemma append_length a b : String.length (a +:+ b) = (String.length a + String.length b)%nat.
Proof. induction a as [|c a IH]; [done|]. exact (f_equal S IH). Qed.
Lemma hex_length n z : String.length (hex n z) = n.
Proof. revert z. induction n as [|n IH]; intros z; [done|]. cbn [hex]. rewrite append_length, IH. cbn. lia. Qed.
Lemma append_inj a b x y :
  String.length a = String.length b -> a +:+ x = b +:+ y -> a = b /\ x = y.
Proof.
  revert b. induction a as [|c a IH]; intros [|c' b] Hl E; try done. injection Hl as Hl. injection E as -> E.
  destruct (IH b Hl E) as [-> ->]. done.
Qed.
Lemma hex_inj n x y : 0 <= x < 16 ^ Z.of_nat n -> 0 <= y < 16 ^ Z.of_nat n -> hex n x = hex n y -> x = y.
Proof.
  revert x y. induction n as [|n IH]; intros x y Hx Hy E; [cbn in *; lia|]. cbn [hex] in E.
  rewrite Nat2Z.inj_succ, Z.pow_succ_r in Hx, Hy by lia.
  apply append_inj in E as [E [= Ed]]; [|by rewrite !hex_length].
  apply IH in E; [|split; [apply Z.div_pos; lia|apply Z.div_lt_upper_bound; lia]..].
  apply hex_digit_inj in Ed; [|apply Z.mod_pos_bound; lia..].
  rewrite (Z.div_mod x 16), (Z.div_mod y 16) by lia. congruence.
Qed.
(** Different leases have different labels. *)
Lemma lease_label_inj l l' :
  0 <= session_id l <= u64_max -> 0 <= epoch l <= u32_max ->
  0 <= session_id l' <= u64_max -> 0 <= epoch l' <= u32_max ->
  lease_label l = lease_label l' -> l = l'.
Proof.
  unfold u64_max, u32_max. intros H1 H2 H3 H4 E. unfold lease_label in E.
  apply append_inj in E as [E1 E]; [|by rewrite !hex_length].
  apply (append_inj ":" ":") in E as [_ E2]; [|done].
  apply hex_inj in E1, E2; [|cbn; lia..]. destruct l, l'. cbn in *. by subst.
Qed.

(** ** What is shown, held and missed *)

(** Everything held is shown, and everything else that is shown is an end that was missed. *)
Record accounted (shown missed held : list (string * string)) : Prop := {
  ac_shown : forall x, x ∈ shown -> x ∈ held \/ x ∈ missed;
  ac_held : held ⊆ shown;
  ac_length : (length shown <= length held + length missed)%nat;
}.
Lemma accounted_start shown missed x : accounted shown missed [] -> accounted (shown ++ [x]) missed [x].
Proof.
  intros [A1 A2 A3]. split; [set_solver|set_solver|]. rewrite length_app. cbn in *. lia.
Qed.
Lemma accounted_end shown missed x :
  accounted shown missed [x] -> accounted (filter (fun y => y <> x) shown) missed [].
Proof.
  intros [A1 A2 A3]. split; [|set_solver|].
  - intros y [Hy Hin]%list_elem_of_filter. apply A1 in Hin as [?%list_elem_of_singleton|?]; [done|by right].
  - assert (length (filter (fun y => y <> x) shown) < length shown)%nat; [|cbn in *; lia].
    apply (length_filter_lt _ _ x); [set_solver|]. by intros Hn.
Qed.
Lemma accounted_none shown missed x :
  accounted shown missed [] -> accounted (filter (fun y => y <> x) shown) missed [].
Proof.
  intros [A1 A2 A3]. split; [|set_solver|].
  - intros y [_ Hin]%list_elem_of_filter. auto.
  - pose proof (length_filter (fun y => y <> x) shown). cbn in *. lia.
Qed.
Lemma accounted_missed shown missed x : accounted shown missed [x] -> accounted shown (missed ++ [x]) [].
Proof.
  intros [A1 A2 A3]. split; [|set_solver|rewrite length_app; cbn in *; lia].
  intros y [->%list_elem_of_singleton|?]%A1; right; set_solver.
Qed.
Lemma accounted_more shown missed m : accounted shown missed [] -> accounted shown (missed ++ m) [].
Proof. intros [A1 A2 A3]. split; [set_solver|set_solver|]. rewrite length_app. lia. Qed.

(** ** One connection *)

Section local.
Context `{!InputCore} `{!GestureCore} `{!DrainOrder} `{!FeatureCodes}.
Context (d name : string) (taken : nat -> bool).

(** What the interface shows of a connection that holds [a]. *)
Definition shown_of (a : option InputLease) : list (string * string) :=
  match a with Some l => [(lease_label l, d)] | None => [] end.
(** The announcements of [st] and the ends they lost. *)
Definition heard (st : HState) : list ServerEvent := announcements taken d name (out st).
Definition lost (st : HState) : list (string * string) := drops taken d (out st).
(** From [base] shown and [m] missed on, the announcements of [st] account for what it holds. *)
Definition truthful (base m : list (string * string)) (st : HState) : Prop :=
  accounted (shows base (heard st)) (m ++ lost st) (shown_of (active_input st)).

Lemma shows_app base es es' : shows base (es ++ es') = shows (shows base es) es'.
Proof. apply fold_left_app. Qed.
Lemma heard_emit o st :
  heard (emit o st) = heard st ++ option_list (announcement (taken (length (out st))) d name o)
  /\ lost (emit o st) = lost st ++ option_list (dropped (taken (length (out st))) d o).
Proof.
  unfold heard, lost, announcements, drops. cbn [emit out]. rewrite !imap_app, !omap_app. cbn. rewrite Nat.add_0_r.
  by split.
Qed.

Lemma ended_accounted b shown m l :
  accounted shown m (shown_of (Some l)) ->
  accounted (shows shown (option_list (emit_input_ended b l d name)))
    (m ++ option_list (dropped b d (OutEnded l))) [].
Proof.
  intros Ha. destruct b; cbn; [rewrite app_nil_r; by apply accounted_end|by apply accounted_missed].
Qed.
Lemma refused_accounted b shown m l :
  accounted shown m [] ->
  accounted (shows shown (option_list (emit_input_ended b l d name)))
    (m ++ option_list (dropped b d (OutEnded l))) [].
Proof.
  intros Ha. destruct b; cbn; [rewrite app_nil_r; by apply accounted_none|by apply accounted_more].
Qed.

Lemma end_lease_heard h l st :
  active_input st = Some l ->
  exists b, heard (end_input_lease_locked h d l st) = heard st ++ option_list (emit_input_ended b l d name)
    /\ lost (end_input_lease_locked h d l st) = lost st ++ option_list (dropped b d (OutEnded l)).
Proof.
  intros Ha. unfold end_input_lease_locked. rewrite bool_decide_true by done.
  set (st1 := if is_workspace_routed _ _ _ then _ else _).
  assert (heard st1 = heard st /\ lost st1 = lost st) as [E1 E2].
  { unfold st1. destruct (is_workspace_routed _ _ _); [|done]. destruct (router h); [|done].
    destruct (heard_emit OutRouterEnd st) as [-> ->]. cbn. by rewrite !app_nil_r. }
  match goal with |- context [emit (OutEnded l) ?s] => destruct (heard_emit (OutEnded l) s) as [-> ->];
    change (heard s) with (heard st1); change (lost s) with (lost st1) end.
  rewrite E1, E2. eexists. split; reflexivity.
Qed.
Lemma end_lease_slot h l st :
  active_input st = Some l -> active_input (end_input_lease_locked h d l st) = None.
Proof. intros Ha. unfold end_input_lease_locked. by rewrite bool_decide_true. Qed.
Lemma end_lease_truthful base m h l st :
  truthful base m st -> truthful base m (end_input_lease_locked h d l st).
Proof.
  intros Ht. destruct (decide (active_input st = Some l)) as [Ha|Ha].
  - unfold truthful in *. destruct (end_lease_heard h l st Ha) as (b & -> & ->).
    rewrite end_lease_slot, shows_app, app_assoc by done. rewrite Ha in Ht. by apply ended_accounted.
  - unfold end_input_lease_locked. by rewrite bool_decide_false.
Qed.
Lemma end_lease_quiet h l st :
  active_input st = None -> end_input_lease_locked h d l st = st.
Proof. intros Ha. unfold end_input_lease_locked. rewrite Ha. by rewrite bool_decide_false. Qed.

(** Outputs that announce nothing. *)
Definition silent (o : Output) : Prop :=
  forall b, announcement b d name o = None /\ dropped b d o = None.
Lemma emit_silent o st : silent o -> heard (emit o st) = heard st /\ lost (emit o st) = lost st.
Proof.
  intros Ho. destruct (heard_emit o st) as [-> ->]. destruct (Ho (taken (length (out st)))) as [-> ->].
  cbn. by rewrite !app_nil_r.
Qed.
Lemma emit_truthful base m o st : silent o -> truthful base m st -> truthful base m (emit o st).
Proof. intros Ho Ht. unfold truthful. by destruct (emit_silent o st Ho) as [-> ->]. Qed.

(** What handlers other than [begin_input_session] are made of: changes of the shared state, silent
    outputs, and the end of a lease. *)
Inductive prim (st : HState) : HState -> Prop :=
| prim_same st' : out st' = out st -> active_input st' = active_input st -> prim st st'
| prim_emit o : silent o -> prim st (emit o st)
| prim_end h l : prim st (end_input_lease_locked h d l st).
Lemma prims_same st st1 st' :
  rtc prim st st1 -> out st' = out st1 -> active_input st' = active_input st1 -> rtc prim st st'.
Proof. intros Hr Ho Ha. eapply rtc_r; [exact Hr|]. by apply prim_same. Qed.
Lemma prims_sessions st st1 s : rtc prim st st1 -> rtc prim st (set_sessions s st1).
Proof. intros Hr. by eapply prims_same. Qed.
Lemma prims_emit st st1 o : silent o -> rtc prim st st1 -> rtc prim st (emit o st1).
Proof. intros Ho Hr. eapply rtc_r; [exact Hr|]. by apply prim_emit. Qed.
Lemma prims_end st st1 h l : rtc prim st st1 -> rtc prim st (end_input_lease_locked h d l st1).
Proof. intros Hr. eapply rtc_r; [exact Hr|]. apply prim_end. Qed.
Lemma prims_revoke st st1 h l m : rtc prim st st1 -> rtc prim st (revoke_input_with_feedback h d l m st1).
Proof. intros Hr. by apply prims_emit, prims_end. Qed.
Lemma prims_batch st st1 h l es : rtc prim st st1 -> rtc prim st (apply_batch h d l es st1).1.
Proof.
  intros Hr. unfold apply_batch. destruct (is_workspace_routed _ _ _).
  - destruct (router h); [by apply prims_emit|done].
  - destruct (apply_events h _ _). by eapply prims_same.
Qed.

(** What they amount to. *)
Lemma prims_truthful base m st st' : rtc prim st st' -> truthful base m st -> truthful base m st'.
Proof.
  induction 1 as [|st1 st2 st3 Hp _ IH]; [done|]. intros Ht. apply IH. destruct Hp as [st2 Ho Ha|o Ho|h l].
  - unfold truthful, heard, lost. by rewrite Ho, Ha.
  - by apply emit_truthful.
  - by apply end_lease_truthful.
Qed.
Lemma prims_silent st st' :
  rtc prim st st' -> active_input st = None ->
  active_input st' = None /\ heard st' = heard st /\ lost st' = lost st.
Proof.
  induction 1 as [|st1 st2 st3 Hp _ IH]; [done|]. intros Ha. destruct Hp as [st2 Ho Ea|o Ho|h l].
  - destruct IH as (? & -> & ->); [congruence|]. split; [done|]. unfold heard, lost. by rewrite Ho.
  - destruct IH as (? & -> & ->); [done|]. split; [done|]. by apply emit_silent.
  - rewrite end_lease_quiet in IH by done. auto.
Qed.

Create HintDb announce.
#[local] Hint Resolve prims_sessions prims_revoke prims_end prims_batch rtc_refl : announce.

Lemma frame_prims h ck f st st' : handle_frame h d ck f st = Some st' -> rtc prim st st'.
Proof.
  unfold handle_frame. cbn zeta.
  destruct (_ >? _); [intros [= <-]; auto with announce|].
  destruct (convert_reliable_events _) as [events|e]; [|intros [= <-]; auto with announce].
  destruct (_ && _); [intros [= <-]; auto with announce|].
  destruct (validate_events h events); [|intros [= <-]; auto with announce].
  destruct (accept_reliable _ _ _ _ _ _ _) as [s [seqs|e]]; [|intros [= <-]; auto with announce].
  destruct (normalize_reliable_events _ _ _ _ _) as [[s' [es|e]]|]; [|intros [= <-]; auto with announce|done].
  destruct (frame_motion _ _ _ _ _ _ _) as [s2 [[batch snap]|e]]; [|intros [= <-]; auto with announce].
  set (applied := if is_empty batch then _ else _).
  assert (rtc prim st applied.1) as Ha.
  { unfold applied. destruct (is_empty batch); cbn [fst]; auto with announce. }
  destruct applied as [st1 [[]|e]]; cbn [fst] in Ha; [|intros [= <-]; auto with announce].
  destruct (_ || _); intros [= <-]; [by apply prims_emit|done].
Qed.
Lemma stream_end_prims h st : rtc prim st (end_stream h d st).
Proof. unfold end_stream. destruct (active_input st); auto with announce. Qed.
Lemma end_request_prims h id l st : rtc prim st (handle_end_request h d id l st).1.
Proof. unfold handle_end_request. cbn [fst]. case_bool_decide; auto with announce. Qed.
Lemma tick_prims h t0 t1 st : rtc prim st (lease_tick h d t0 t1 st).
Proof.
  unfold lease_tick. destruct (active_input st) as [l|]; [|auto with announce].
  destruct (is_expired _ _ _ _); [auto with announce|].
  destruct (cancel_idle_system_gesture _ _ _ _) as [s es]. destruct (is_empty es); auto with announce.
Qed.

(** A focus change ends the lease by itself, but announces it all the same. *)
Lemma focus_truthful base m focus st : truthful base m st -> truthful base m (focus_changed d focus st).
Proof.
  intros Ht. unfold focus_changed. apply emit_truthful; [done|].
  set (owned := if bool_decide _ then _ else None). clearbody owned.
  assert (forall l, truthful base m (if bool_decide (active_input st = Some l) then
    emit (OutEnded l) (set_active_input None (set_sessions (release l (sessions st)).1 st)) else st)) as Hend.
  { intros l. case_bool_decide as Ha; [|done]. unfold truthful in *.
    match goal with |- context [emit (OutEnded l) ?s] => destruct (heard_emit (OutEnded l) s) as [-> ->];
      change (heard s) with (heard st); change (lost s) with (lost st) end.
    rewrite shows_app, app_assoc. rewrite Ha in Ht. by apply ended_accounted. }
  destruct (route_state focus), owned; auto.
Qed.
Lemma focus_silent focus st :
  active_input st = None ->
  active_input (focus_changed d focus st) = None
  /\ heard (focus_changed d focus st) = heard st /\ lost (focus_changed d focus st) = lost st.
Proof.
  intros Ha. unfold focus_changed. rewrite Ha.
  assert ((if bool_decide (owner_device_id focus = Some d) then None else None) = (None : option InputLease)) as ->
    by by case_bool_decide.
  destruct (route_state focus); (split; [done|]); by apply emit_silent.
Qed.

(** A handler keeps the announcements truthful; it leaves what is shown alone when the connection
    holds nothing and somebody else controls the machine. *)
Record speaks (st st' : HState) : Prop := {
  sp_truthful : forall base m, truthful base m st -> truthful base m st';
  sp_silent : active_input st = None -> active (sessions st) <> ∅ ->
    (forall base, shows base (heard st') = shows base (heard st)) /\ lost st' = lost st;
}.

(** [begin_input_session] announces the lease once control has begun; when nobody controls the
    machine a refusal of the router is announced as an end that changes nothing. *)
Lemma begin_speaks h draws now id routed features capabilities st st' r :
  begin_input_session h d draws now id routed features capabilities st = Some (st', r) ->
  speaks st st'.
Proof.
  unfold begin_input_session.
  destruct (begin_guard h routed features capabilities) as [[[m0 code] ask]|].
  { intros [= <- _]. destruct ask; [|done]. destruct (heard_emit OutPermissionRequired st) as [E1 E2].
    cbn [dropped option_list] in E2. rewrite app_nil_r in E2. split.
    - intros base m Ht. unfold truthful. rewrite E1, E2, shows_app. exact Ht.
    - intros _ _. rewrite E2. split; [|done]. intros base. by rewrite E1, shows_app. }
  set (st1 := match active_input st with Some _ => _ | None => _ end).
  assert (active_input st1 = None) as Ha1.
  { unfold st1. destruct (active_input st) eqn:E; [by apply end_lease_slot|done]. }
  assert (forall base m, truthful base m st -> truthful base m st1) as Ht1.
  { unfold st1. intros base m Ht. destruct (active_input st); [by apply end_lease_truthful|done]. }
  assert (active_input st = None -> st1 = st) as E1 by (unfold st1; by intros ->). clearbody st1.
  destruct (acquire_with_routing draws now d routed (sessions st1)) as [[s [l|e]]|] eqn:Hacq; [| |done].
  2:{ intros [= <- _]. split; [exact Ht1|]. by intros ->%E1 _. }
  apply acquire_cases in Hacq as [(? & [=] & _)|(l' & [= <-] & He & _)].
  set (st2 := if routed then emit OutRouterBegin _ else _).
  assert (active_input st2 = Some l /\ heard st2 = heard st1 /\ lost st2 = lost st1) as (Ha2 & Hh2 & Hl2).
  { unfold st2. destruct routed; [|done]. split; [done|].
    by apply (emit_silent OutRouterBegin (set_active_input (Some l) (set_sessions s st1))). }
  assert (forall base m, truthful base m st -> accounted (shows base (heard st2)) (m ++ lost st2) []) as Hs2.
  { intros base m Ht. rewrite Hh2, Hl2. specialize (Ht1 base m Ht). unfold truthful in Ht1. by rewrite Ha1 in Ht1. }
  clearbody st2.
  assert (forall base m, truthful base m st -> truthful base m (emit (OutStarted l) st2)) as Hstart.
  { intros base m Ht. unfold truthful. destruct (heard_emit (OutStarted l) st2) as [-> ->]. cbn [dropped option_list].
    rewrite app_nil_r, shows_app. change (active_input (emit _ st2)) with (active_input st2).
    rewrite Ha2. by apply accounted_start, Hs2. }
  assert (forall base m, truthful base m st -> truthful base m (end_input_lease_locked h d l st2)) as Hrefused.
  { intros base m Ht. unfold truthful. destruct (end_lease_heard h l st2 Ha2) as (b & -> & ->).
    rewrite end_lease_slot, shows_app, app_assoc by done. by apply refused_accounted, Hs2. }
  assert (active_input st = None -> active (sessions st) <> ∅ -> False) as Hno.
  { intros Hn Hne. apply Hne. by rewrite <- E1. }
  destruct routed; [destruct (router h) as [rt|]; [|done]; destruct (router_begin rt)|]; intros [= <- _];
    (split; [done|intros Hn Hne; by destruct (Hno Hn Hne)]).
Qed.

Lemma handled_speaks st st' : handled d st st' -> speaks st st'.
Proof.
  assert (rtc prim st st' -> speaks st st') as Hprims.
  { intros Hp. split; [intros base m; by apply prims_truthful|]. intros Ha _.
    by destruct (prims_silent _ _ Hp Ha) as (_ & -> & ->). }
  destruct 1 as [h draws now id routed fs cs st' r Hb|h ck f st' Hf|h|h id l|h t0 t1|focus].
  - by eapply begin_speaks.
  - by eapply Hprims, frame_prims.
  - apply Hprims, stream_end_prims.
  - apply Hprims, end_request_prims.
  - apply Hprims, tick_prims.
  - split; [intros base m; apply focus_truthful|]. intros Ha _. by destruct (focus_silent focus st Ha) as (_ & -> & ->).
Qed.
End local.

(** ** The interface and the machine *)

Section shown.
Context `{!InputCore} `{!GestureCore} `{!DrainOrder} `{!FeatureCodes} (names : nat -> string).

Lemma ui_step_sys u u' : ui_step names u u' -> sys_step (sys u) (sys u').
Proof.
  destruct 1 as [c d announced Hc Ha|c k st taken Hc Hh|c k h taken announced Hc Ha st]; cbn [sys].
  - by apply sys_connect.
  - destruct Hh; [by eapply sys_begin|by eapply sys_frame|by apply sys_stream_end|by apply sys_end_request
      |by apply sys_tick|by apply sys_focus].
  - by apply sys_disconnect.
Qed.
Lemma ui_run u : rtc (ui_step names) ui_new u -> run false (sys u).
Proof.
  intros Hr. unfold run. change sys_new with (sys ui_new).
  induction Hr as [u|u u1 u2 Hs _ IH]; [apply rtc_refl|]. eapply rtc_l; [|exact IH].
  split; [by apply ui_step_sys|done].
Qed.

(** Nobody controls the machine, or one connection does, and what is shown is accounted for. *)
Definition faithful (u : Ui) : Prop :=
  (accounted (shows [] (told u)) (missed u) [] /\ forall c k, conns (sys u) !! c = Some k -> conn_lease k = None)
  \/ exists c k l, conns (sys u) !! c = Some k /\ conn_lease k = Some l
     /\ accounted (shows [] (told u)) (missed u) [(lease_label l, conn_device k)]
     /\ forall c' k', conns (sys u) !! c' = Some k' -> c' <> c -> conn_lease k' = None.

(** What the interface shows after a step of connection [c]. *)
Lemma handled_shows u c k st taken :
  sys_inv false (sys u) -> faithful u -> conns (sys u) !! c = Some k ->
  handled (conn_device k) (view k (sys u)) st ->
  let told' := told u ++ announcements taken (conn_device k) (names c) (out st) in
  let missed' := missed u ++ drops taken (conn_device k) (out st) in
  (accounted (shows [] told') missed' (shown_of (conn_device k) (active_input st))
   /\ forall c' k', conns (sys u) !! c' = Some k' -> c' <> c -> conn_lease k' = None)
  \/ (shows [] told' = shows [] (told u) /\ missed' = missed u
      /\ conn_lease k = None /\ exists c' k', c' <> c /\ conns (sys u) !! c' = Some k' /\ conn_lease k' <> None).
Proof.
  intros Hi Hf Hc Hh. cbv zeta. destruct (handled_speaks _ (names c) taken _ _ Hh) as [Ht Hs]. rewrite shows_app.
  assert (forall a, conn_lease k = a -> accounted (shows [] (told u)) (missed u) (shown_of (conn_device k) a) ->
    truthful (conn_device k) (names c) taken (shows [] (told u)) (missed u) st) as Hown.
  { intros a Ha E. apply Ht. unfold truthful. cbn. rewrite app_nil_r. by rewrite Ha. }
  destruct Hf as [[E Hnone]|(c0 & k0 & l & Hc0 & Hl & E & Hothers)].
  - left. split; [|by eauto]. eapply Hown; [by eapply Hnone|done].
  - destruct (decide (c0 = c)) as [->|Hne].
    + left. assert (k0 = k) as -> by congruence. split; [|done]. by eapply Hown.
    + right. assert (conn_lease k = None) as Hn by by eapply Hothers.
      destruct (Hs Hn) as [Hs1 Hs2].
      { destruct (si_held _ _ Hi _ _ _ Hc0 Hl) as (a & Ha & _). cbn. intros He.
        by rewrite He, lookup_empty in Ha. }
      split; [apply Hs1|]. split; [|split; [done|]].
      * unfold lost in Hs2. rewrite Hs2. cbn. by rewrite app_nil_r.
      * exists c0, k0. split; [done|]. split; [done|]. congruence.
Qed.
Lemma store_faithful u c k st taken :
  sys_inv false (sys u) -> faithful u -> conns (sys u) !! c = Some k ->
  handled (conn_device k) (view k (sys u)) st -> sys_inv false (store c k st (sys u)) ->
  faithful {| sys := store c k st (sys u);
              told := told u ++ announcements taken (conn_device k) (names c) (out st);
              missed := missed u ++ drops taken (conn_device k) (out st) |}.
Proof.
  intros Hi Hf Hc Hh Hi'.
  destruct (handled_shows u c k st taken Hi Hf Hc Hh) as [[E Hothers]|(E & Em & Hn & c' & k' & Hne & Hc' & Hl')].
  - unfold faithful. cbn [sys told missed]. cbn [store conns]. destruct (active_input st) as [l|] eqn:Ea.
    + right. exists c. eexists _, l. rewrite lookup_insert_eq. split; [done|]. split; [done|]. split; [done|].
      intros c' k' Hc' Hne. rewrite lookup_insert_ne in Hc' by done. by eapply Hothers.
    + left. split; [done|]. intros c' k'. destruct (decide (c' = c)) as [->|Hne].
      * rewrite lookup_insert_eq. by intros [= <-].
      * rewrite lookup_insert_ne by done. intros Hc'. by eapply Hothers.
  - destruct Hf as [[_ Hnone]|(c0 & k0 & l & Hc0 & Hl & Es & Hothers)]; [by apply Hnone in Hc'|].
    assert (c0 <> c) as Hne0 by (intros ->; congruence).
    right. exists c0, k0, l. cbn [sys told missed]. cbn [store conns]. rewrite lookup_insert_ne by done.
    split; [done|]. split; [done|]. split; [by rewrite E, Em|]. intros c1 k1 Hc1 Hne1.
    destruct (conn_lease k1) as [l1|] eqn:El1; [|done]. exfalso. apply Hne1.
    assert (conns (store c k st (sys u)) !! c0 = Some k0) as Hc0' by (cbn; by rewrite lookup_insert_ne).
    destruct (si_held _ _ Hi' _ _ _ Hc0' Hl) as (a & Ha & _). destruct (si_held _ _ Hi' _ _ _ Hc1 El1) as (a1 & Ha1 & _).
    rewrite (wf_alone _ _ _ (si_wf _ _ Hi') Ha) in Ha1. apply lookup_singleton_Some in Ha1 as [<- _].
    by eapply (si_unique _ _ Hi').
Qed.
Lemma ui_step_faithful u u' :
  ui_step names u u' -> sys_inv false (sys u) -> faithful u -> faithful u'.
Proof.
  intros Hs Hi Hf. pose proof (sys_step_inv false _ _ (ui_step_sys _ _ Hs)) as Hi'.
  destruct Hs as [c d announced Hc Ha|c k st taken Hc Hh|c k h taken announced Hc Han st].
  - assert (shows [] (told u ++ announced) = shows [] (told u)) as Eq
      by (rewrite shows_app; by destruct Ha as [->| ->]).
    destruct Hf as [[E Hnone]|(c0 & k0 & l & Hc0 & Hl & E & Hothers)]; [left|right]; cbn [told missed]; rewrite Eq.
    + split; [done|]. intros c' k'. cbn. rewrite lookup_insert_Some. intros [[_ <-]|[_ ?]]; [done|by eapply Hnone].
    + exists c0, k0, l. cbn. rewrite lookup_insert_ne by congruence. split_and!; try done.
      intros c' k' Hc' Hne. apply lookup_insert_Some in Hc' as [[_ <-]|[_ ?]]; [done|by eapply Hothers].
  - apply store_faithful; auto. apply Hi'; [done|done].
  - assert (faithful {| sys := store c k st (sys u);
      told := told u ++ announcements taken (conn_device k) (names c) (out st);
      missed := missed u ++ drops taken (conn_device k) (out st) |}) as Hf'.
    { apply store_faithful; try done; [apply handled_stream_end|].
      apply (sys_step_inv false (sys u)); [by apply sys_stream_end|done|done]. }
    assert (active_input st = None) as Hn.
    { unfold st, end_stream. cbn [view active_input]. destruct (conn_lease k) as [l|] eqn:El; [by apply end_lease_slot|].
      exact El. }
    assert (forall c' k', delete c (conns (sys u)) !! c' = Some k' -> c' <> c /\ conns (store c k st (sys u)) !! c' = Some k') as Hd.
    { intros c' k' [Hne Hc']%lookup_delete_Some. split; [done|]. cbn. by rewrite lookup_insert_ne. }
    assert (forall base, shows base announced = base) as Eq by (by destruct Han as [->| ->]).
    destruct Hf' as [[E Hnone]|(c0 & k0 & l & Hc0 & Hl & E & Hothers)]; [left|right];
      cbn [sys told missed store conns] in *; rewrite app_assoc, shows_app, Eq.
    + split; [done|]. intros c' k' [_ Hc']%Hd. by eapply Hnone.
    + assert (c0 <> c) as Hne.
      { intros ->. rewrite lookup_insert_eq in Hc0. injection Hc0 as <-. cbn in Hl. congruence. }
      exists c0, k0, l. rewrite lookup_insert_ne in Hc0 by done. rewrite lookup_delete_ne by done. split_and!; try done.
      intros c' k' [_ Hc']%Hd Hne'. by eapply Hothers.
Qed.

(** C7: the user interface tells the truth about remote control, up to the ends it is too slow to
    take.  Whatever connections do and in whatever order, and whichever end events the interface does
    not take within the time limit: every lease that is held is shown with the device that holds it,
    so that nobody controls the machine unseen; everything else that is shown is a session whose end
    was offered and not taken, and there are at most as many of them as such ends.  While no end was
    missed, the sessions shown are exactly the leases held, and at most one. *)
Theorem interface_shows_control u :
  rtc (ui_step names) ui_new u ->
  let shown := shows [] (told u) in
  let held session device := exists c k l, conns (sys u) !! c = Some k /\ conn_lease k = Some l
       /\ session = lease_label l /\ device = conn_device k in
  (forall session device, held session device -> (session, device) ∈ shown)
  /\ (forall session device, (session, device) ∈ shown ->
        held session device \/ (session, device) ∈ missed u)
  /\ (length shown <= 1 + length (missed u))%nat
  /\ (missed u = [] ->
        (forall session device, (session, device) ∈ shown <-> held session device) /\ (length shown <= 1)%nat).
Proof.
  intros Hr. cbv zeta. assert (faithful u) as Hf.
  { eapply (rtc_ind_r (fun u => rtc (ui_step names) ui_new u -> faithful u)); [| |exact Hr|exact Hr].
    - intros _. left. split; [|by intros c k]. split; cbn; [set_solver|set_solver|lia].
    - intros u1 u2 Hr1 Hs IH _. eapply ui_step_faithful; [exact Hs| |by apply IH]. by apply run_inv, ui_run. }
  assert (exists held, accounted (shows [] (told u)) (missed u) held /\ (length held <= 1)%nat
    /\ forall s d, (s, d) ∈ held <-> exists c k l, conns (sys u) !! c = Some k /\ conn_lease k = Some l
         /\ s = lease_label l /\ d = conn_device k) as (held & [A1 A2 A3] & Hlen & Hheld).
  { destruct Hf as [[E Hnone]|(c & k & l & Hc & Hl & E & Hothers)]; (eexists; split; [exact E|]).
    - split; [cbn; lia|]. intros s d. split; [by intros ?%elem_of_nil|].
      intros (c & k & l & Hc & Hl & _). apply Hnone in Hc. congruence.
    - split; [done|]. intros s d. rewrite list_elem_of_singleton. split; [intros [= -> ->]; by exists c, k, l|].
      intros (c' & k' & l' & Hc' & Hl' & -> & ->). destruct (decide (c' = c)) as [->|Hne]; [congruence|].
      rewrite (Hothers c' k' Hc' Hne) in Hl'. done. }
  split; [intros s d Hx%Hheld; by apply A2|]. split; [intros s d [?%Hheld|?]%A1; auto|]. split; [lia|].
  intros Hm. rewrite Hm in *. split; [|cbn in *; lia]. intros s d. split.
  - intros [?%Hheld|?%elem_of_nil]%A1; done.
  - intros Hx%Hheld. by apply A2.
Qed.
End shown.

(** ** Witness: a phone takes control *)

#[local] Existing Instance toy_input.
#[local] Existing Instance toy_gesture.
#[local] Existing Instance toy_drain.
#[local] Existing Instance toy_features.

Definition wnames (_ : nat) : string := "Phone".
Definition wtaken (_ : nat) : bool := false.
Definition wui1 : Ui := {| sys := wsys1; told := [DeviceConnected "phone" "Phone"]; missed := [] |}.
Definition wui2 : Ui :=
  {| sys := wsys2; told := told wui1 ++ announcements wtaken "phone" "Phone" (out wst2);
     missed := missed wui1 ++ drops wtaken "phone" (out wst2) |}.
Lemma wui2_reachable : rtc (ui_step wnames) ui_new wui2.
Proof.
  eapply rtc_l; [by apply (ui_connect wnames ui_new 0 "phone" [DeviceConnected "phone" "Phone"]); [|right]|]. apply rtc_once.
  apply (ui_handled wnames wui1 0 wconn wst2 wtaken); [done|].
  eapply (handled_begin "phone" _ toy_host [(7, 3)] 10 1 false wfeatures wcaps); vm_compute; reflexivity.
Qed.

Lemma interface_shows_control_witness :
  (lease_label {| session_id := 7; epoch := 3 |}, "phone") ∈ shows [] (told wui2)
  /\ lease_label {| session_id := 7; epoch := 3 |} = "0000000000000007:00000003".
Proof.
  split; [|vm_compute; reflexivity].
  apply (proj1 (interface_shows_control wnames wui2 wui2_reachable)).
  exists 0%nat, wconn2, {| session_id := 7; epoch := 3 |}.
  split; [vm_compute; reflexivity|]. done.
Defined.

End Announcements.
