(* ===== verification/Session.v ===== *)
(** * The control session

    Models the control session of [src/server/proto_handler.rs]: the handshake and the connection
    loop of [handle_quic_connection], with its request tasks, its queues and the writer, and the
    stream checks of [serve_control_session] in [src/server.rs].  The loop handles one event at a
    time and may have to wait for room in the critical queue before it takes the next; the writer,
    the request tasks and the tasks of other streams run beside it, so each of their steps is a
    step of its own.  How a request is carried out is an interface, [RequestHandler], which the
    query, command and blob handlers implement. *)

From Stdlib Require Import ZArith Lia Ascii String.
From stdpp Require Import base tactics option list strings gmap relations sorting.
From S2P Require Import Prelude Proto Text Negotiation Requests CommandCache CommandExec BlobStore.
From S2P Require Import InputEvents InputSession RemoteFiles ReplicaWire Replication Snapshots Subscriptions.
From S2P Require Import Handlers Pairing InputHandler.

Module Session.
Local Open Scope string_scope.
Local Open Scope list_scope.
Local Open Scope Z_scope.
Import Subscriptions.

Definition CONTROL_TYPE_URL : string := "arcrelay.control".
Definition REQUEST_DONE_CAPACITY : nat := 32.

(** ** Frames *)

(** [proto::request::Body], and [proto::Request]. *)
Inductive RequestBody :=
| RbQuery (query : option Requests.QueryBody)
| RbCommand (action : option Requests.Action) (encoded : bytes)
| RbGetBlob (blob_id : bytes).
Record Request := {
  rq_request_id : Z;
  rq_idempotency_key : bytes;
  rq_timeout_ms : Z;
  rq_body : option RequestBody;
}.
(** [proto::client_control_frame::Body]. *)
Inductive ClientBody :=
| ClHello
| ClRequest (request : Request)
| ClCancelRequest (request_id : Z)
| ClSubscribe (request : SubscribeRequest)
| ClUnsubscribe (request : UnsubscribeRequest)
| ClPing (request_id monotonic_elapsed_us : Z)
| ClBeginInputSession (request_id : Z) (routed : bool)
| ClEndInputSession (request_id : Z) (l : InputSession.InputLease)
| ClTransferOffer (request_id : Z) (transfer_id : string)
| ClTransferAccept | ClTransferCancel | ClTransferProgress.

(** [ControlWelcome] and the other bodies of server frames. *)
Record Welcome := {
  we_features : list Negotiation.FeatureVersion;
  we_limits : Negotiation.ProtocolLimits;
  we_grants : list Pairing.GrantedCapability;
  we_authorization_epoch : Z;
  we_server_time_ms : Z;
}.
Inductive Reply (B : Type) :=
| RWelcome (w : Welcome)
| RResponse (r : CommandExec.Response B)
| RPong (request_id client_monotonic_elapsed_us server_time_ms : Z)
| RInputSessionResult (r : InputHandler.InputSessionResult)
| RInputFocusChanged (r : InputHandler.InputFocusChanged)
| RTransferCancel (request_id : Z) (transfer_id : string) (status : Status)
| RInputFeedback.
Arguments RWelcome {_}.
Arguments RResponse {_}.
Arguments RPong {_}.
Arguments RInputSessionResult {_}.
Arguments RInputFocusChanged {_}.
Arguments RTransferCancel {_}.
Arguments RInputFeedback {_}.

(** The slots of the subscriptions, one at a time. *)
Definition set_state_sub (topic : SubscriptionTopic) (o : option StateSubscription) (u : ConnectionSubscriptions)
  : ConnectionSubscriptions :=
  {| system_sub := if decide (topic = TSystem) then o else system_sub u;
     media_sub := if decide (topic = TMedia) then o else media_sub u;
     window_sub := if decide (topic = TWindows) then o else window_sub u;
     clipboard_sub := if decide (topic = TClipboard) then o else clipboard_sub u;
     action_catalog_sub := action_catalog_sub u; action_output_sub := action_output_sub u;
     notification_sub := notification_sub u; clipboard_sync_sub := clipboard_sync_sub u |}.
Definition set_event_sub (topic : SubscriptionTopic) (o : option EventSubscription) (u : ConnectionSubscriptions)
  : ConnectionSubscriptions :=
  {| system_sub := system_sub u; media_sub := media_sub u; window_sub := window_sub u;
     clipboard_sub := clipboard_sub u; action_catalog_sub := action_catalog_sub u;
     action_output_sub := if decide (topic = TActionOutput) then o else action_output_sub u;
     notification_sub := if decide (topic = TNotifications) then o else notification_sub u;
     clipboard_sync_sub := if decide (topic = TClipboardSync) then o else clipboard_sync_sub u |}.

(** What carries out requests: the responses that may come of one, each under its id. *)
Class RequestHandler (B : Type) := {
  answers : Request -> CommandExec.Response B -> Prop;
  answers_request_id : forall q r, answers q r -> CommandExec.rs_request_id r = rq_request_id q;
}.

(** ** Opening *)

(** [ControlHello], and the peer's side of the session. *)
Record Hello := {
  he_features : list Negotiation.FeatureVersion;
  he_receive_limits : option Negotiation.ProtocolLimits;
}.
(** What the first control frame may be. *)
Inductive First := FirstHello (hello : Hello) | FirstOther | FirstTimeout.
Record Authority := {
  au_versions : gmap Z Z;
  au_features : gset Z;
  au_capabilities : gset Requests.CapabilityId;
}.

Section opening.
Context `{!WireLimits} `{!FeatureCodes} `{!Requests.RequestCodes} `{!Pairing.CapabilityTokens}.

(** The check of [serve_control_session] on the stream. *)
Definition control_stream_ok (stream : Pairing.FeatureStream) : bool :=
  negb (negb (str_eqb (Pairing.feature_id stream) CONTROL_TYPE_URL)
        || negb (Pairing.minor_negotiated stream) || negb (is_empty (Pairing.opening_payload stream))).
Definition granted_capabilities (grants : list RemoteFiles.Grant) : gset Requests.CapabilityId :=
  list_to_set (RemoteFiles.g_capability <$>
    filter (fun g => RemoteFiles.g_direction g = RemoteFiles.Inbound) grants).

(** [handle_quic_connection] up to the welcome. *)
Definition open_session (server_features : list Negotiation.FeatureVersion) (grants : list RemoteFiles.Grant)
    (epoch now : Z) (first : First) : result (Authority * Welcome) string :=
  match first with
  | FirstTimeout => Err "control hello timed out"
  | FirstOther => Err "first control frame must be hello"
  | FirstHello hello =>
    let? versions := Negotiation.negotiate_features (he_features hello) server_features in
    let? _ := Negotiation.validate_receive_limits (he_receive_limits hello) (he_features hello) in
    Ok ({| au_versions := versions; au_features := dom versions;
           au_capabilities := granted_capabilities grants |},
        {| we_features := Negotiation.selected_feature_versions versions;
           we_limits := Negotiation.protocol_limits; we_grants := Pairing.grant_to_proto <$> grants;
           we_authorization_epoch := random_nonzero_u64 epoch; we_server_time_ms := now |})
  end.
End opening.


(** ** The loop *)

Section session.
Context {B : Type} `{!RequestHandler B} `{!WireLimits} `{!EncodedLen (ServerControlFrame (Reply B))}.
Context `{!FeatureCodes} `{!TopicCodes} `{!Requests.RequestCodes} `{!ReplicaWire.TextSyntaxCore} `{!Snapshots.SyncCodes}.
Context `{!InputEvents.InputCore} `{!InputEvents.GestureCore} `{!InputSession.DrainOrder} `{!Sha256}.
Notation Frame := (ServerControlFrame (Reply B)).

(** A request task: it waits for its operation, then for room in the critical queue, then for room
    in the completion channel.  It holds a permit as long as it is in the pool. *)
Inductive Phase := Working | Answering (frame : Frame) | Reporting.
Record Task := {
  tk_request : Request;
  tk_deadline : Z;
  tk_phase : Phase;
  tk_aborted : bool;
}.
Inductive Ending :=
| Closed (code : Z) (reason : string)
| Failed (error : string)
| Finished.

(** [outbox] are the frames the loop is still sending; [wire] is what the writer has written.
    [critical] and [events] are gone with the writer.  [pool] are the request tasks that have not
    finished; [request_tasks] are the handles the loop keeps. *)
Record Session := {
  critical : option (list Frame);
  events : option (list Frame);
  latest : gmap Z Frame;
  wire : list Frame;
  outbox : list Frame;
  request_tasks : gmap Z nat;
  pool : gmap nat Task;
  next_task : nat;
  done : list Z;
  subs : ConnectionSubscriptions;
  blobs : Snapshots.Store;
  last_activity : Z;
  input : InputHandler.HState;
  ended : option Ending;
}.
Definition fresh_session (now : Z) (store : Snapshots.Store) (st : InputHandler.HState) : Session :=
  {| critical := Some []; events := Some []; latest := ∅; wire := []; outbox := [];
     request_tasks := ∅; pool := ∅; next_task := 0; done := []; subs := default_subscriptions;
     blobs := store; last_activity := now; input := st; ended := None |}.

Definition with_critical (q : option (list Frame)) (s : Session) : Session :=
  {| critical := q; events := events s; latest := latest s; wire := wire s; outbox := outbox s;
     request_tasks := request_tasks s; pool := pool s; next_task := next_task s; done := done s; subs := subs s;
     blobs := blobs s; last_activity := last_activity s; input := input s; ended := ended s |}.
Definition with_queues (e : option (list Frame)) (l : gmap Z Frame) (s : Session) : Session :=
  {| critical := critical s; events := e; latest := l; wire := wire s; outbox := outbox s;
     request_tasks := request_tasks s; pool := pool s; next_task := next_task s; done := done s; subs := subs s;
     blobs := blobs s; last_activity := last_activity s; input := input s; ended := ended s |}.
Definition with_wire (w : list Frame) (s : Session) : Session :=
  {| critical := critical s; events := events s; latest := latest s; wire := w; outbox := outbox s;
     request_tasks := request_tasks s; pool := pool s; next_task := next_task s; done := done s; subs := subs s;
     blobs := blobs s; last_activity := last_activity s; input := input s; ended := ended s |}.
Definition with_outbox (o : list Frame) (s : Session) : Session :=
  {| critical := critical s; events := events s; latest := latest s; wire := wire s; outbox := o;
     request_tasks := request_tasks s; pool := pool s; next_task := next_task s; done := done s; subs := subs s;
     blobs := blobs s; last_activity := last_activity s; input := input s; ended := ended s |}.
Definition with_tracked (t : gmap Z nat) (s : Session) : Session :=
  {| critical := critical s; events := events s; latest := latest s; wire := wire s; outbox := outbox s;
     request_tasks := t; pool := pool s; next_task := next_task s; done := done s; subs := subs s;
     blobs := blobs s; last_activity := last_activity s; input := input s; ended := ended s |}.
Definition with_pool (p : gmap nat Task) (d : list Z) (s : Session) : Session :=
  {| critical := critical s; events := events s; latest := latest s; wire := wire s; outbox := outbox s;
     request_tasks := request_tasks s; pool := p; next_task := next_task s; done := d; subs := subs s;
     blobs := blobs s; last_activity := last_activity s; input := input s; ended := ended s |}.
Definition with_subs (u : ConnectionSubscriptions) (s : Session) : Session :=
  {| critical := critical s; events := events s; latest := latest s; wire := wire s; outbox := outbox s;
     request_tasks := request_tasks s; pool := pool s; next_task := next_task s; done := done s; subs := u;
     blobs := blobs s; last_activity := last_activity s; input := input s; ended := ended s |}.
Definition with_blobs (b : Snapshots.Store) (s : Session) : Session :=
  {| critical := critical s; events := events s; latest := latest s; wire := wire s; outbox := outbox s;
     request_tasks := request_tasks s; pool := pool s; next_task := next_task s; done := done s; subs := subs s;
     blobs := b; last_activity := last_activity s; input := input s; ended := ended s |}.
Definition with_activity (t : Z) (s : Session) : Session :=
  {| critical := critical s; events := events s; latest := latest s; wire := wire s; outbox := outbox s;
     request_tasks := request_tasks s; pool := pool s; next_task := next_task s; done := done s; subs := subs s;
     blobs := blobs s; last_activity := t; input := input s; ended := ended s |}.
Definition with_input (i : InputHandler.HState) (s : Session) : Session :=
  {| critical := critical s; events := events s; latest := latest s; wire := wire s; outbox := outbox s;
     request_tasks := request_tasks s; pool := pool s; next_task := next_task s; done := done s; subs := subs s;
     blobs := blobs s; last_activity := last_activity s; input := i; ended := ended s |}.
Definition end_with (e : Ending) (s : Session) : Session :=
  {| critical := critical s; events := events s; latest := latest s; wire := wire s; outbox := outbox s;
     request_tasks := request_tasks s; pool := pool s; next_task := next_task s; done := done s; subs := subs s;
     blobs := blobs s; last_activity := last_activity s; input := input s; ended := Some e |}.
Definition spawn_task (task : Task) (s : Session) : Session :=
  {| critical := critical s; events := events s; latest := latest s; wire := wire s; outbox := outbox s;
     request_tasks := <[rq_request_id (tk_request task) := next_task s]> (request_tasks s);
     pool := <[next_task s := task]> (pool s); next_task := S (next_task s); done := done s; subs := subs s;
     blobs := blobs s; last_activity := last_activity s; input := input s; ended := ended s |}.

(** [connection.close] and leaving the loop; [send_critical], which queues up behind the rest. *)
Definition close (code : Z) (reason : string) (s : Session) : Session := end_with (Closed code reason) s.
Definition send (frame : Frame) (s : Session) : Session := with_outbox (outbox s ++ [frame]) s.
Definition reply (r : Reply B) : Frame := server_frame (BOther r).
Definition response_error (request_id : Z) (code : ErrorCode) (message : string) : Frame :=
  reply (RResponse (CommandExec.response_error request_id code message)).

Definition is_finished (k : nat) (s : Session) : bool := bool_decide (pool s !! k = None).
(** [request_tasks.retain]. *)
Definition prune_tasks (s : Session) : Session :=
  with_tracked (filter (fun x : Z * nat => is_finished x.2 s = false) (request_tasks s)) s.
Definition outstanding (id : Z) (s : Session) : bool := bool_decide (is_Some (request_tasks s !! id)).

(** The host and the environment of one event. *)
Record Env := {
  e_now : Z;
  e_now_ms : Z;
  e_host : Subscriptions.Host;
  e_raws : list Z;
  e_draws : list (Z * Z);
}.

Section connection.
Context (features : gset Z) (capabilities : gset Requests.CapabilityId).
Context (device : string) (h : InputHandler.Host).

(** [timeout_ms.clamp(100, 120_000)]. *)
Definition request_timeout (request : Request) : Z := Z.max 100 (Z.min (rq_timeout_ms request) 120000) * 1000000.

Definition on_request (now : Z) (request : Request) (s : Session) : Session :=
  let id := rq_request_id request in
  if id =? 0 then send (response_error id ECInvalidArgument "request id must be non-zero") s else
  if outstanding id s then close 6 "request id reused while outstanding" s else
  if Negotiation.MAX_CONCURRENT_REQUESTS <=? Z.of_nat (size (pool s))
  then send (response_error id ECResourceExhausted "too many concurrent requests") s else
  spawn_task {| tk_request := request; tk_deadline := now + request_timeout request; tk_phase := Working;
                tk_aborted := false |} s.

Definition abort (k : nat) (s : Session) : Session :=
  with_pool (alter (fun t => {| tk_request := tk_request t; tk_deadline := tk_deadline t; tk_phase := tk_phase t;
                                tk_aborted := true |}) k (pool s)) (done s) s.
Definition on_cancel (id : Z) (s : Session) : Session :=
  if id =? 0 then close 6 "invalid cancellation request id" s else
  match request_tasks s !! id with
  | None => s
  | Some k =>
    let s := with_tracked (delete id (request_tasks s)) s in
    if is_finished k s then s
    else send (response_error id ECCancelled "request cancelled") (abort k s)
  end.

Definition on_subscribe (env : Env) (request : SubscribeRequest) (s : Session) : option Session :=
  let id := sq_request_id request in
  if id =? 0
  then Some (send (subscription_result 0 0 TUnspecified 0
                     (Negotiation.status "" ECInvalidArgument "request id must be non-zero")) s) else
  if outstanding id s then Some (close 6 "request id reused while outstanding" s) else
  '(subs, frames) ← handle_subscribe (e_host env) features capabilities (e_raws env) request (subs s);
  Some (with_outbox (outbox s ++ frames) (with_subs subs s)).
Definition on_unsubscribe (request : UnsubscribeRequest) (s : Session) : Session :=
  let id := uq_request_id request in
  if id =? 0
  then send (subscription_result 0 (uq_subscription_id request) TUnspecified 0
               (Negotiation.status "" ECInvalidArgument "request id must be non-zero")) s else
  if outstanding id s then close 6 "request id reused while outstanding" s else
  let '(subs, frame) := handle_unsubscribe request (subs s) in send frame (with_subs subs s).

Definition invalid_input_request : InputHandler.InputSessionResult :=
  InputHandler.input_session_result h 0 false InputHandler.no_lease (InputHandler.permission_state h)
    "request id must be non-zero" ECInvalidArgument.
Definition on_begin_input (env : Env) (id : Z) (routed : bool) (s : Session) : option Session :=
  if id =? 0 then Some (send (reply (RInputSessionResult invalid_input_request)) s) else
  if outstanding id s then Some (close 6 "request id reused while outstanding" s) else
  '(st, r) ← InputHandler.begin_input_session h device (e_draws env) (e_now env) id routed features capabilities
                (input s);
  Some (send (reply (RInputSessionResult r)) (with_input st s)).
Definition on_end_input (id : Z) (l : InputSession.InputLease) (s : Session) : Session :=
  if id =? 0 then send (reply (RInputSessionResult invalid_input_request)) s else
  if outstanding id s then close 6 "request id reused while outstanding" s else
  let '(st, r) := InputHandler.handle_end_request h device id l (input s) in
  send (reply (RInputSessionResult r)) (with_input st s).

(** One control frame: [None] only when an id is still being drawn. *)
Definition on_frame (env : Env) (body : option ClientBody) (s : Session) : option Session :=
  let s := prune_tasks (with_activity (e_now env) s) in
  match body with
  | Some ClHello => Some (close 6 "control hello already received" s)
  | Some (ClRequest request) => Some (on_request (e_now env) request s)
  | Some (ClCancelRequest id) => Some (on_cancel id s)
  | Some (ClSubscribe request) => on_subscribe env request s
  | Some (ClUnsubscribe request) => Some (on_unsubscribe request s)
  | Some (ClPing id elapsed_us) =>
    Some (if (id =? 0) || outstanding id s then close 6 "invalid or reused request id" s
          else send (reply (RPong id elapsed_us (e_now_ms env))) s)
  | Some (ClBeginInputSession id routed) => on_begin_input env id routed s
  | Some (ClEndInputSession id l) => Some (on_end_input id l s)
  | Some (ClTransferOffer id transfer_id) =>
    Some (if (id =? 0) || outstanding id s then close 6 "invalid or reused request id" s
          else send (reply (RTransferCancel id transfer_id
                       (Negotiation.status "" ECUnsupported "file transfers are not enabled"))) s)
  | Some (ClTransferAccept | ClTransferCancel | ClTransferProgress) =>
    Some (close 6 "file transfers are not negotiated" s)
  | None => Some (close 6 "invalid control frame" s)
  end.

Definition on_heartbeat (now now_ms : Z) (s : Session) : Session :=
  if Negotiation.HEARTBEAT_TIMEOUT <=? duration_since now (last_activity s)
  then close 7 "application heartbeat timed out" s else
  match action_output_sub (subs s) with
  | None => s
  | Some sub =>
    let '(sub, frame) := flush_action_gap now_ms sub in
    let s := with_subs (set_event_sub TActionOutput (Some sub) (subs s)) s in
    match frame with Some frame => send frame s | None => s end
  end.
Definition on_lease_tick (t0 t1 : Z) (s : Session) : Session :=
  with_input (InputHandler.lease_tick h device t0 t1 (input s)) s.
Definition on_focus (focus : InputHandler.WorkspaceInputSnapshot) (s : Session) : Session :=
  let st := InputHandler.focus_changed device focus (input s) in
  let s := with_input st s in
  match last (InputHandler.out st) with
  | Some (InputHandler.OutFocusChanged frame) => send (reply (RInputFocusChanged frame)) s
  | _ => s
  end.
End connection.
(** What the subscribed sources bring, with the state of the host it is told with. *)
Inductive Update :=
| UpSystem (captured_at_ms : Z) (data : Snapshots.SystemSnapshot)
| UpMedia (captured_at_ms : Z) (data : Snapshots.MediaState)
| UpWindows (captured_at_ms : Z) (data : list Snapshots.WindowInfo) (spaces : list Snapshots.SpaceInfo)
| UpClipboard (captured_at_ms : Z) (history : list Snapshots.ClipboardSummary) (policy : Snapshots.ClipboardPolicy)
| UpActionOutput (r : Recv OutputLine)
| UpNotification (r : Recv unit)
    (listed : option (result (list Snapshots.HostNotificationInfo) HostCapabilityError))
| UpClipboardSync (r : Recv ReplicaWire.ClipboardSyncRecord) (should_send : bool) (times : nat -> Z * Z).

(** A push of state replaces the latest frame; [update] is [None] when the source had nothing. *)
Definition push_state (topic : SubscriptionTopic) (slot : ConnectionSubscriptions -> option StateSubscription)
    (push : StateSubscription -> gmap Z Frame -> StateSubscription * gmap Z Frame) (s : Session) : Session :=
  match slot (subs s) with
  | None => s
  | Some sub =>
    let '(sub, frames) := push sub (latest s) in
    with_subs (set_state_sub topic (Some sub) (subs s)) (with_queues (events s) frames s)
  end.
Definition on_update (now_ms : Z) (blob_owner : bytes) (update : Update) (s : Session) : Session :=
  match update with
  | UpSystem captured data => push_state TSystem system_sub (push_system_event now_ms captured data) s
  | UpMedia captured data => push_state TMedia media_sub (push_media_event now_ms captured data) s
  | UpWindows captured data spaces =>
    push_state TWindows window_sub (push_window_event now_ms captured data (Snapshots.build_space_list spaces)) s
  | UpClipboard captured history policy =>
    push_state TClipboard clipboard_sub (push_clipboard_event now_ms captured history policy) s
  | UpActionOutput r =>
    match action_output_sub (subs s) with
    | None => s
    | Some sub =>
      let '(sub, output) := recv_action_output r sub in
      let '(sub, queue) := match output with
                           | Some output => push_action_output_event now_ms output sub (events s)
                           | None => (sub, events s)
                           end in
      with_subs (set_event_sub TActionOutput (Some sub) (subs s)) (with_queues queue (latest s) s)
    end
  | UpNotification r listed =>
    match notification_sub (subs s) with
    | None => s
    | Some sub =>
      if recv_notification_change r then
        let '(sub, frames) := push_notification_event now_ms listed sub (latest s) in
        with_subs (set_event_sub TNotifications (Some sub) (subs s)) (with_queues (events s) frames s)
      else s
    end
  | UpClipboardSync r should_send times =>
    match clipboard_sync_sub (subs s), recv_clipboard_sync r with
    | Some sub, Some record =>
      if should_send then
        let '(store, sub, queue) := push_clipboard_sync_event now_ms times blob_owner record (blobs s) sub (events s) in
        with_blobs store (with_subs (set_event_sub TClipboardSync (Some sub) (subs s)) (with_queues queue (latest s) s))
      else s
    | _, _ => s
    end
  end.

(** ** Steps *)

(** The loop can take an event: it is running and has nothing left to send. *)
Definition idle (s : Session) : Prop := ended s = None /\ outbox s = [].
Definition set_phase (p : Phase) (t : Task) : Task :=
  {| tk_request := tk_request t; tk_deadline := tk_deadline t; tk_phase := p; tk_aborted := tk_aborted t |}.
Definition with_task (k : nat) (t : Task) (s : Session) : Session := with_pool (<[k := t]> (pool s)) (done s) s.

(** How a request's operation can end: its response, a panic, or the deadline. *)
Definition panic_frame (id : Z) (fresh_id message : string) : Frame :=
  reply (RResponse {| CommandExec.rs_request_id := id;
                      CommandExec.rs_status := Some (Negotiation.status fresh_id ECInternal message);
                      CommandExec.rs_body := None |}).
Definition deadline_frame (request : Request) : Frame :=
  response_error (rq_request_id request) ECDeadlineExceeded
    match rq_body request with
    | Some (RbCommand _ _) => "command may continue in the background; retry with the same idempotency key"
    | _ => "request deadline exceeded"
    end.
Inductive concluded (now : Z) (t : Task) : Frame -> Prop :=
| concluded_answer r : answers (tk_request t) r -> concluded now t (reply (RResponse r))
| concluded_panic fresh_id message : concluded now t (panic_frame (rq_request_id (tk_request t)) fresh_id message)
| concluded_deadline : tk_deadline t <= now -> concluded now t (deadline_frame (tk_request t)).

(** The steps of a request task: [k] is its handle. *)
Inductive task_step (k : nat) : Session -> Session -> Prop :=
| task_concludes s t now frame :
    pool s !! k = Some t -> tk_phase t = Working -> concluded now t frame ->
    task_step k s (with_task k (set_phase (Answering frame) t) s)
| task_answers s t frame q :
    pool s !! k = Some t -> tk_phase t = Answering frame -> critical s = Some q ->
    (length q < CRITICAL_CONTROL_QUEUE_CAPACITY)%nat ->
    task_step k s (with_critical (Some (q ++ [frame])) (with_task k (set_phase Reporting t) s))
| task_reports s t :
    pool s !! k = Some t -> tk_phase t = Reporting -> (length (done s) < REQUEST_DONE_CAPACITY)%nat ->
    task_step k s (with_pool (delete k (pool s)) (done s ++ [rq_request_id (tk_request t)]) s)
| task_dropped s t :
    pool s !! k = Some t -> tk_aborted t = true ->
    task_step k s (with_pool (delete k (pool s)) (done s) s).

(** The writer: critical frames first, then events, then the latest states. *)
Definition write (frame : Frame) (s : Session) : Session := with_wire (wire s ++ [frame]) s.
Inductive writer_step : Session -> Session -> Prop :=
| write_critical s frame q :
    critical s = Some (frame :: q) -> writer_step s (write frame (with_critical (Some q) s))
| write_event s frame q :
    critical s = Some [] -> events s = Some (frame :: q) ->
    writer_step s (write frame (with_queues (Some q) (latest s) s))
| write_latest s id frame :
    critical s = Some [] -> events s = Some [] -> latest s !! id = Some frame ->
    writer_step s (write frame (with_queues (events s) (delete id (latest s)) s)).

(** [send_critical] of the loop. *)
Inductive send_step : Session -> Session -> Prop :=
| send_queued s frame rest q :
    ended s = None -> outbox s = frame :: rest -> critical s = Some q ->
    (length q < CRITICAL_CONTROL_QUEUE_CAPACITY)%nat ->
    send_step s (with_outbox rest (with_critical (Some (q ++ [frame])) s)).

(** A session with its history: the ids of the requests that were read and of those that were
    cancelled, and of those whose answer found no room in time. *)
Record World := { sn : Session; asked : list Z; cancelled : list Z; lost : list Z }.
Definition started (now : Z) (store : Snapshots.Store) (st : InputHandler.HState) : World :=
  {| sn := fresh_session now store st; asked := []; cancelled := []; lost := [] |}.
Definition keep (s : Session) (w : World) : World :=
  {| sn := s; asked := asked w; cancelled := cancelled w; lost := lost w |}.
Definition asked_by (body : option ClientBody) : list Z :=
  match body with Some (ClRequest request) => [rq_request_id request] | _ => [] end.
Definition cancelled_by (body : option ClientBody) (s' : Session) : list Z :=
  match body with Some (ClCancelRequest id) => if is_empty (outbox s') then [] else [id] | _ => [] end.

Definition response_id (frame : Frame) : option Z :=
  match sc_body frame with Some (BOther (RResponse r)) => Some (CommandExec.rs_request_id r) | _ => None end.
Definition response_ids (frames : list Frame) : list Z := omap response_id frames.

Section steps.
Context (features : gset Z) (capabilities : gset Requests.CapabilityId).
Context (device : string) (h : InputHandler.Host) (blob_owner : bytes).

(** The events of the loop other than control frames. *)
Inductive loop_event (s : Session) : Session -> Prop :=
| ev_done id rest :
    done s = id :: rest -> loop_event s (with_tracked (delete id (request_tasks s)) (with_pool (pool s) rest s))
| ev_heartbeat now now_ms : loop_event s (on_heartbeat now now_ms s)
| ev_lease_tick t0 t1 : loop_event s (on_lease_tick device h t0 t1 s)
| ev_focus focus : loop_event s (on_focus device focus s)
| ev_update now_ms update : loop_event s (on_update now_ms blob_owner update s)
| ev_over ending : loop_event s (end_with ending s).

(** No room in the critical queue, or no writer. *)
Definition no_room (s : Session) : Prop :=
  match critical s with None => True | Some q => (CRITICAL_CONTROL_QUEUE_CAPACITY <= length q)%nat end.

Inductive step (w : World) : World -> Prop :=
| step_frame env body s' :
    idle (sn w) -> on_frame features capabilities device h env body (sn w) = Some s' ->
    step w {| sn := s'; asked := asked w ++ asked_by body; cancelled := cancelled w ++ cancelled_by body s';
              lost := lost w |}
| step_event s' : idle (sn w) -> loop_event (sn w) s' -> step w (keep s' w)
| step_send s' : send_step (sn w) s' -> step w (keep s' w)
| step_send_fails error :
    ended (sn w) = None -> outbox (sn w) <> [] -> no_room (sn w) -> step w (keep (end_with (Failed error) (sn w)) w)
| step_task k s' : ended (sn w) = None -> task_step k (sn w) s' -> step w (keep s' w)
| step_gives_up k t frame :
    ended (sn w) = None -> pool (sn w) !! k = Some t -> tk_phase t = Answering frame -> no_room (sn w) ->
    step w {| sn := with_task k (set_phase Reporting t) (sn w); asked := asked w; cancelled := cancelled w;
              lost := lost w ++ [rq_request_id (tk_request t)] |}
| step_write s' : ended (sn w) = None -> writer_step (sn w) s' -> step w (keep s' w)
| step_write_fails : ended (sn w) = None -> step w (keep (with_critical None (with_queues None (latest (sn w)) (sn w))) w)
| step_other frame q :
    ended (sn w) = None -> critical (sn w) = Some q -> (length q < CRITICAL_CONTROL_QUEUE_CAPACITY)%nat ->
    response_id frame = None -> step w (keep (with_critical (Some (q ++ [frame])) (sn w)) w).
End steps.

(** ** What each step touches *)

Lemma response_ids_app l l' : response_ids (l ++ l') = response_ids l ++ response_ids l'.
Proof. apply omap_app. Qed.
Lemma response_ids_Forall l : Forall (fun f => response_id f = None) l -> response_ids l = [].
Proof. induction 1 as [|f l Hf _ IH]; [done|]. cbn. unfold response_ids in IH. by rewrite Hf. Qed.
Lemma response_id_error id code message : response_id (response_error id code message) = Some id.
Proof. done. Qed.

(** The event channel and the latest states get only frames that are no responses. *)
Definition queue_grows (e e' : option (list Frame)) : Prop :=
  forall q, e' = Some q -> exists q0, e = Some q0 /\ (length q <= max (length q0) STATE_CONTROL_QUEUE_CAPACITY)%nat
    /\ forall f, f ∈ q -> f ∈ q0 \/ response_id f = None.
Definition states_change (l l' : gmap Z Frame) : Prop :=
  forall i f, l' !! i = Some f -> (exists j, l !! j = Some f) \/ response_id f = None.
#[export] Instance queue_grows_refl : Reflexive queue_grows.
Proof. intros e q ->. exists q. split; [done|]. split; [lia|]. by left. Qed.
#[export] Instance queue_grows_trans : Transitive queue_grows.
Proof.
  intros e1 e2 e3 H12 H23 q E. edestruct H23 as (q2 & E2 & L2 & F2); [done|].
  edestruct H12 as (q1 & E1 & L1 & F1); [done|]. exists q1. split; [done|]. split; [lia|].
  intros f Hf. destruct (F2 f Hf) as [Hf2|]; [|by right]. by apply F1.
Qed.
#[export] Instance states_change_refl : Reflexive states_change.
Proof. intros l i f Hf. left. by exists i. Qed.
#[export] Instance states_change_trans : Transitive states_change.
Proof. intros l1 l2 l3 H12 H23 i f Hf. destruct (H23 i f Hf) as [[j Hj]|]; [|by right]. by eapply H12. Qed.
Lemma replace_states frame l : states_change l (replace frame l).
Proof.
  unfold replace. destruct (_ >? _); [done|]. destruct (sc_body frame) as [[e| |]|] eqn:E; try done.
  intros i f. rewrite lookup_insert_Some. intros [[_ <-]|[_ Hf]]; [right; unfold response_id; by rewrite E|].
  left. by exists i.
Qed.

(** Nothing happens to requests: the tasks, the queue and the answers are as they were; ids may be
    forgotten. *)
Record quiet (s s' : Session) : Prop := {
  qu_critical : critical s' = critical s;
  qu_events : queue_grows (events s) (events s');
  qu_latest : states_change (latest s) (latest s');
  qu_wire : wire s' = wire s;
  qu_outbox : response_ids (outbox s') = response_ids (outbox s);
  qu_tracked : request_tasks s' ⊆ request_tasks s;
  qu_pool : pool s' = pool s;
  qu_next : next_task s' = next_task s;
  qu_done : (length (done s') <= length (done s))%nat;
}.
#[export] Instance quiet_refl : Reflexive quiet.
Proof. intros s. by split. Qed.
#[export] Instance quiet_trans : Transitive quiet.
Proof.
  intros s1 s2 s3 [] []. split; try congruence; [by etrans|by etrans|by etrans|lia].
Qed.
Lemma quiet_send frame s : response_id frame = None -> quiet s (send frame s).
Proof.
  intros Hf. destruct (quiet_refl s). split; try done. cbn. rewrite response_ids_app. cbn. rewrite Hf. by rewrite app_nil_r.
Qed.
Lemma quiet_outbox frames s : Forall (fun f => response_id f = None) frames -> quiet s (with_outbox (outbox s ++ frames) s).
Proof.
  intros Hf. destruct (quiet_refl s). split; try done. cbn. by rewrite response_ids_app, (response_ids_Forall frames), app_nil_r.
Qed.
Lemma quiet_subs u s : quiet s (with_subs u s).
Proof. destruct (quiet_refl s). by split. Qed.
Lemma quiet_input i s : quiet s (with_input i s).
Proof. destruct (quiet_refl s). by split. Qed.
Lemma quiet_activity t s : quiet s (with_activity t s).
Proof. destruct (quiet_refl s). by split. Qed.
Lemma quiet_blobs b s : quiet s (with_blobs b s).
Proof. destruct (quiet_refl s). by split. Qed.
Lemma quiet_close code reason s : quiet s (close code reason s).
Proof. destruct (quiet_refl s). by split. Qed.
Lemma quiet_queues e l s : queue_grows (events s) e -> states_change (latest s) l -> quiet s (with_queues e l s).
Proof. destruct (quiet_refl s). by split. Qed.
Lemma quiet_tracked t s : t ⊆ request_tasks s -> quiet s (with_tracked t s).
Proof. destruct (quiet_refl s). by split. Qed.
Lemma quiet_prune s : quiet s (prune_tasks s).
Proof. apply quiet_tracked, map_filter_subseteq. Qed.
Lemma queue_event_grows frame queue g queue' g' :
  response_id frame = None -> queue_event frame queue g = (queue', g') -> queue_grows queue queue'.
Proof.
  intros Hr. unfold queue_event, try_send. destruct (_ >? _); [by intros [= <- _]|].
  destruct queue as [q0|]; [|by intros [= <- _]].
  destruct (Nat.leb_spec STATE_CONTROL_QUEUE_CAPACITY (length q0)); intros [= <- _]; [done|].
  intros q [= <-]. exists q0. split; [done|]. rewrite length_app. cbn [length].
  split; [unfold STATE_CONTROL_QUEUE_CAPACITY in *; lia|].
  intros f [Hf|Hf]%elem_of_app; [by left|]. apply list_elem_of_singleton in Hf as ->. by right.
Qed.

Lemma initial_frame_no_response hst topic id (frame : Frame) :
  initial_frame hst topic id = Some frame -> response_id frame = None.
Proof.
  unfold initial_frame, clipboard_event_frame. intros Hf.
  assert (forall n now i q c snap (f : Frame), fit_clipboard n now i q c snap = Some f -> response_id f = None) as Hfit.
  { induction n as [|n IH]; intros now i q c snap f; cbn [fit_clipboard]; destruct (_ <=? _);
      try (by intros [= <-]); apply IH. }
  destruct topic; try done; try (by injection Hf as <-).
  - destruct (h_latest_system hst) as [[at_ms v]|]; [by injection Hf as <-|done].
  - destruct (h_latest_media hst) as [[at_ms v]|]; [by injection Hf as <-|done].
  - destruct (h_latest_windows hst) as [[at_ms v]|]; [by injection Hf as <-|done].
  - destruct (h_latest_clipboard hst) as [[[at_ms history] policy]|]; [|done]. cbn in Hf.
    destruct (Snapshots.build_clipboard_snapshot _ _ _ _); [|done]. by eapply Hfit.
  - destruct (Snapshots.notification_snapshot _); [by injection Hf as <-|done].
Qed.
Lemma handle_subscribe_frames hst features capabilities raws request u u' (frames : list Frame) :
  handle_subscribe hst features capabilities raws request u = Some (u', frames) ->
  Forall (fun f => response_id f = None) frames.
Proof.
  unfold handle_subscribe. destruct (refusal _ _ _ _) as [[code message]|].
  { intros [= <- <-]. by repeat constructor. }
  destruct (draw_id u raws) as [id|]; [|done]. cbn.
  destruct (initial_frame _ _ _) as [frame|] eqn:Ef; intros [= <- <-]; repeat constructor.
  by eapply initial_frame_no_response.
Qed.
Lemma handle_unsubscribe_frame request u : response_id (handle_unsubscribe (X := Reply B) request u).2 = None.
Proof. unfold handle_unsubscribe. by destruct (_ =? 0). Qed.
Lemma flush_action_gap_frame now sub sub' (frame : Frame) :
  flush_action_gap now sub = (sub', Some frame) -> response_id frame = None.
Proof. unfold flush_action_gap. destruct (first_missing_sequence _); [|done]. destruct (take_resource_ids _). by intros [= <- <-]. Qed.

Section effects.
Context (features : gset Z) (capabilities : gset Requests.CapabilityId).
Context (device : string) (h : InputHandler.Host) (blob_owner : bytes).

(** What a control frame does to requests, unless it ends the session. *)
Inductive frame_effect (body : option ClientBody) (s s' : Session) : Prop :=
| fe_quiet : quiet s s' -> asked_by body = [] -> cancelled_by body s' = [] -> frame_effect body s s'
| fe_refused request frame s0 :
    quiet s s0 -> s' = send frame s0 -> body = Some (ClRequest request) ->
    response_id frame = Some (rq_request_id request) -> frame_effect body s s'
| fe_spawned request now s0 :
    quiet s s0 -> body = Some (ClRequest request) -> rq_request_id request <> 0 ->
    Z.of_nat (size (pool s)) < Negotiation.MAX_CONCURRENT_REQUESTS ->
    s' = spawn_task {| tk_request := request; tk_deadline := now + request_timeout request; tk_phase := Working;
                       tk_aborted := false |} s0 -> frame_effect body s s'
| fe_cancelled id k t frame s0 :
    quiet s s0 -> body = Some (ClCancelRequest id) -> request_tasks s !! id = Some k -> pool s !! k = Some t ->
    response_id frame = Some id -> s' = send frame (abort k s0) -> frame_effect body s s'.

Lemma on_request_effect now request s s' :
  quiet s s' -> ended (on_request now request s') = None ->
  frame_effect (Some (ClRequest request)) s (on_request now request s').
Proof.
  intros Hq. unfold on_request. destruct (Z.eqb_spec (rq_request_id request) 0) as [E0|E0].
  { intros _. by eapply fe_refused. }
  destruct (outstanding _ _); [done|]. destruct (_ <=? _) eqn:El; intros _.
  { by eapply fe_refused. }
  eapply fe_spawned; try done. rewrite <- (qu_pool _ _ Hq). lia.
Qed.
Lemma on_cancel_effect id s s' :
  quiet s s' -> outbox s' = [] -> ended (on_cancel id s') = None ->
  frame_effect (Some (ClCancelRequest id)) s (on_cancel id s').
Proof.
  intros Hq Ho. unfold on_cancel. destruct (id =? 0); [done|].
  destruct (request_tasks s' !! id) as [k|] eqn:Ek; last first.
  { intros _. apply fe_quiet; [done|done|]. cbn. by rewrite Ho. }
  assert (quiet s' (with_tracked (delete id (request_tasks s')) s')) as Hq'
    by (apply quiet_tracked, delete_subseteq).
  unfold is_finished. cbn [pool with_tracked]. case_bool_decide as Ep; intros _.
  { apply fe_quiet; [by etrans|done|]. cbn. by rewrite Ho. }
  destruct (pool s' !! k) as [t|] eqn:Et; [|done].
  eapply (fe_cancelled _ _ _ id k t _ (with_tracked (delete id (request_tasks s')) s')); [by etrans|done| | | |done].
  - eapply lookup_weaken; [exact Ek|]. apply Hq.
  - by rewrite <- (qu_pool _ _ Hq).
  - done.
Qed.

(** A frame that is answered and changes nothing else. *)
Ltac quiet_reply Hq := intros [= <-] _; apply fe_quiet; [apply Hq; by apply quiet_send|done|done].

Lemma on_frame_effect env body s s' :
  outbox s = [] -> on_frame features capabilities device h env body s = Some s' -> ended s' = None ->
  frame_effect body s s'.
Proof.
  intros Ho. unfold on_frame. set (s0 := prune_tasks _).
  assert (quiet s s0) as Hs0 by (eapply quiet_trans; [apply quiet_activity|apply quiet_prune]).
  assert (forall s', quiet s0 s' -> quiet s s') as Hq by (intros ? ?; by etrans).
  destruct body as [[|request|id|request|request|id us|id routed|id l|id tid| | |]|];
    try (by intros [= <-]).
  - intros [= <-]. by apply on_request_effect.
  - intros [= <-]. by apply on_cancel_effect.
  - unfold on_subscribe. destruct (_ =? 0); [|destruct (outstanding _ _)].
    + quiet_reply Hq.
    + by intros [= <-].
    + destruct (handle_subscribe _ _ _ _ _ _) as [[u frames]|] eqn:Eh; [|done].
      intros [= <-] _. apply fe_quiet; [|done|done]. apply Hq. eapply quiet_trans; [apply (quiet_subs u)|].
      apply (quiet_outbox frames (with_subs u s0)). by eapply handle_subscribe_frames.
  - unfold on_unsubscribe. destruct (_ =? 0); [|destruct (outstanding _ _)].
    + quiet_reply Hq.
    + by intros [= <-].
    + pose proof (handle_unsubscribe_frame request (subs s0)) as Hf.
      destruct (handle_unsubscribe request (subs s0)) as [u frame]. intros [= <-] _. apply fe_quiet; [|done|done].
      apply Hq. eapply quiet_trans; [apply (quiet_subs u)|]. by apply quiet_send.
  - destruct (_ || _); [by intros [= <-]|]. quiet_reply Hq.
  - unfold on_begin_input. destruct (_ =? 0); [|destruct (outstanding _ _)].
    + quiet_reply Hq.
    + by intros [= <-].
    + destruct (InputHandler.begin_input_session _ _ _ _ _ _ _ _ _) as [[st r]|]; [|done].
      intros [= <-] _. apply fe_quiet; [|done|done]. apply Hq. eapply quiet_trans; [apply (quiet_input st)|].
      by apply quiet_send.
  - unfold on_end_input. destruct (_ =? 0); [|destruct (outstanding _ _)].
    + quiet_reply Hq.
    + by intros [= <-].
    + destruct (InputHandler.handle_end_request _ _ _ _ _) as [st r]. intros [= <-] _.
      apply fe_quiet; [|done|done]. apply Hq. eapply quiet_trans; [apply (quiet_input st)|]. by apply quiet_send.
  - destruct (_ || _); [by intros [= <-]|]. quiet_reply Hq.
Qed.
End effects.

Lemma push_state_quiet topic slot push s :
  (forall sub, states_change (latest s) (push sub (latest s)).2) -> quiet s (push_state topic slot push s).
Proof.
  intros Hp. unfold push_state. destruct (slot (subs s)) as [sub|]; [|done]. specialize (Hp sub).
  destruct (push sub (latest s)) as [sub' frames].
  eapply quiet_trans; [by apply (quiet_queues (events s) frames)|apply quiet_subs].
Qed.
Lemma push_action_output_grows now output sub queue sub' queue' :
  push_action_output_event now output sub queue = (sub', queue') -> queue_grows queue queue'.
Proof.
  unfold push_action_output_event. destruct (negb _); [by intros [= _ <-]|].
  destruct (match first_missing_sequence _ with Some _ => _ | None => _ end) as [sub3 data].
  destruct (queue_event _ _ _) as [q g] eqn:Ee. intros [= _ <-]. by eapply queue_event_grows in Ee.
Qed.
Lemma push_clipboard_sync_grows now times owner record store sub queue store' sub' queue' :
  push_clipboard_sync_event now times owner record store sub queue = (store', sub', queue') -> queue_grows queue queue'.
Proof.
  unfold push_clipboard_sync_event. destruct (Snapshots.sync_record_to_proto _ _ _ _ _) as [store1 [rec|]];
    [|by intros [= _ _ <-]].
  destruct (queue_event _ _ _) as [q g] eqn:Ee. intros [= _ _ <-]. by eapply queue_event_grows in Ee.
Qed.
Lemma on_update_quiet now_ms blob_owner update s : quiet s (on_update now_ms blob_owner update s).
Proof.
  destruct update as [| | | |r|r listed|r should_send times]; cbn [on_update].
  1-3: apply push_state_quiet; intros sub; apply replace_states.
  - apply push_state_quiet. intros sub. unfold push_clipboard_event.
    destruct (Snapshots.build_clipboard_snapshot _ _ _ _); [|done].
    destruct (clipboard_event_frame _ _ _ _ _); [apply replace_states|done].
  - destruct (action_output_sub (subs s)) as [sub|]; [|done]. destruct (recv_action_output r sub) as [sub1 output].
    destruct (match output with Some _ => _ | None => _ end) as [sub2 queue] eqn:Eq.
    eapply quiet_trans; [|apply quiet_subs]. apply quiet_queues; [|done].
    destruct output as [output|]; [by eapply push_action_output_grows|by injection Eq as _ <-].
  - destruct (notification_sub (subs s)) as [sub|]; [|done]. destruct (recv_notification_change r); [|done].
    destruct (push_notification_event _ _ _ _) as [sub' frames] eqn:Ep.
    eapply quiet_trans; [apply (quiet_queues (events s) frames)|apply quiet_subs]; [done|].
    unfold push_notification_event in Ep.
    destruct (Snapshots.notification_snapshot listed); injection Ep as _ <-; [apply replace_states|done].
  - destruct (clipboard_sync_sub (subs s)) as [sub|]; [|done]. destruct (recv_clipboard_sync r) as [record|]; [|done].
    destruct should_send; [|done]. destruct (push_clipboard_sync_event _ _ _ _ _ _ _) as [[store sub'] queue] eqn:Ep.
    eapply quiet_trans; [|apply quiet_blobs]. eapply quiet_trans; [|apply quiet_subs].
    apply quiet_queues; [|done]. by eapply push_clipboard_sync_grows.
Qed.
Lemma loop_event_quiet device h blob_owner s s' : loop_event device h blob_owner s s' -> quiet s s'.
Proof.
  destruct 1 as [id rest Hd|now now_ms|t0 t1|focus|now_ms update|ending].
  - destruct (quiet_refl s). split; try done; cbn.
    + apply delete_subseteq.
    + rewrite Hd. cbn. lia.
  - unfold on_heartbeat. destruct (_ <=? _); [apply quiet_close|].
    destruct (action_output_sub (subs s)) as [sub|]; [|done].
    destruct (flush_action_gap now_ms sub) as [sub' [frame|]] eqn:Ef; [|apply quiet_subs].
    eapply quiet_trans; [apply quiet_subs|]. apply quiet_send. by eapply flush_action_gap_frame.
  - apply quiet_input.
  - unfold on_focus. destruct (last _) as [[]|]; try apply quiet_input.
    eapply quiet_trans; [apply quiet_input|]. by apply quiet_send.
  - apply on_update_quiet.
  - destruct (quiet_refl s). by split.
Qed.

(** ** The books balance *)

Definition cnt (r : Z) (l : list Z) : Z := Z.of_nat (length (filter (fun x => x = r) l)).
Lemma cnt_app r l l' : cnt r (l ++ l') = cnt r l + cnt r l'.
Proof. unfold cnt. rewrite filter_app, length_app. lia. Qed.
Lemma cnt_nonneg r l : 0 <= cnt r l.
Proof. unfold cnt. lia. Qed.
Lemma cnt_one r i : cnt r [i] = if bool_decide (i = r) then 1 else 0.
Proof.
  unfold cnt. rewrite filter_cons, filter_nil.
  case_decide; [by rewrite bool_decide_true|by rewrite bool_decide_false].
Qed.

Definition task_id (t : Task) : Z := rq_request_id (tk_request t).
Definition unanswered (t : Task) : bool := match tk_phase t with Reporting => false | _ => true end.
Definition waiting (r : Z) (_ : nat) (t : Task) : Z :=
  if bool_decide (task_id t = r) && unanswered t && negb (tk_aborted t) then 1 else 0.
Definition doomed (r : Z) (_ : nat) (t : Task) : Z :=
  if bool_decide (task_id t = r) && unanswered t && tk_aborted t then 1 else 0.
Definition answered (r : Z) (s : Session) : Z :=
  cnt r (response_ids (wire s ++ default [] (critical s) ++ outbox s)).

Record session_inv (w : World) : Prop := {
  si_pool : Z.of_nat (size (pool (sn w))) <= Negotiation.MAX_CONCURRENT_REQUESTS;
  si_critical : forall q, critical (sn w) = Some q -> (length q <= CRITICAL_CONTROL_QUEUE_CAPACITY)%nat;
  si_events : forall q, events (sn w) = Some q -> (length q <= STATE_CONTROL_QUEUE_CAPACITY)%nat;
  si_pushed : (forall q f, events (sn w) = Some q -> f ∈ q -> response_id f = None)
    /\ (forall i f, latest (sn w) !! i = Some f -> response_id f = None);
  si_done : (length (done (sn w)) <= REQUEST_DONE_CAPACITY)%nat;
  si_tasks : forall k t, pool (sn w) !! k = Some t -> (k < next_task (sn w))%nat /\ task_id t <> 0
    /\ match tk_phase t with Answering f => response_id f = Some (task_id t) | _ => True end;
  si_tracked : forall id k, request_tasks (sn w) !! id = Some k -> (k < next_task (sn w))%nat
    /\ forall t, pool (sn w) !! k = Some t -> task_id t = id;
  si_lower : critical (sn w) <> None -> forall r,
    cnt r (asked w) <= answered r (sn w) + msum (waiting r) (pool (sn w)) + cnt r (lost w);
  si_upper : forall r,
    answered r (sn w) + msum (waiting r) (pool (sn w)) + msum (doomed r) (pool (sn w)) + cnt r (lost w)
    <= cnt r (asked w) + cnt r (cancelled w);
}.

Lemma started_inv now store st : session_inv (started now store st).
Proof.
  assert (Z.of_nat (size (∅ : gmap nat Task)) <= Negotiation.MAX_CONCURRENT_REQUESTS) as Hs.
  { rewrite map_size_empty. unfold Negotiation.MAX_CONCURRENT_REQUESTS. lia. }
  split; [exact Hs|..]; cbn; try done; try lia.
  - intros q [= <-]. cbn. lia.
  - intros q [= <-]. cbn. lia.
  - split; [intros q f [= <-] []%elem_of_nil|done].
Qed.
Lemma answered_quiet r s s' : quiet s s' -> answered r s' = answered r s.
Proof. intros Hq. unfold answered. by rewrite !response_ids_app, (qu_wire _ _ Hq), (qu_critical _ _ Hq), (qu_outbox _ _ Hq). Qed.

Lemma quiet_inv w s' : session_inv w -> quiet (sn w) s' -> session_inv (keep s' w).
Proof.
  intros [I1 I2 I3 [IE IL] I4 I5 I6 I7 I8] Hq. pose proof (answered_quiet) as Ha.
  destruct (Hq) as [Q1 Q2 QL Q3 Q4 Q5 Q6 Q7 Q8].
  split; cbn [sn keep asked lost cancelled]; rewrite ?Q6, ?Q1, ?Q7; try done.
  - intros q Hq'. destruct (Q2 q Hq') as (q0 & E0 & L0 & _). specialize (I3 q0 E0). lia.
  - split.
    + intros q f Hq' Hf. destruct (Q2 q Hq') as (q0 & E0 & _ & F0). destruct (F0 f Hf); [by eapply IE|done].
    + intros i f Hf. destruct (QL i f Hf) as [[j Hj]|]; [by eapply IL|done].
  - lia.
  - intros id k Hk. apply I6. by eapply lookup_weaken.
  - intros Hc r. rewrite (Ha r _ _ Hq). by apply I7.
  - intros r. rewrite (Ha r _ _ Hq). by apply I8.
Qed.

(** Rewriting the books: every change of a list of responses or of a task shows up in the counts. *)
Lemma answered_split r s :
  answered r s = cnt r (response_ids (wire s)) + cnt r (response_ids (default [] (critical s)))
                 + cnt r (response_ids (outbox s)).
Proof. unfold answered. rewrite !response_ids_app, !cnt_app. lia. Qed.
Lemma response_cnt r frame id : response_id frame = Some id -> cnt r (response_ids [frame]) = cnt r [id].
Proof. intros Hf. unfold response_ids. cbn. by rewrite Hf. Qed.
Lemma doomed_nonneg r k t : 0 <= doomed r k t.
Proof. unfold doomed. by destruct (_ && _ && _). Qed.
Ltac books := rewrite ?answered_split in *; cbn [sn wire critical outbox default asked cancelled lost pool keep
  with_pool with_critical with_task with_outbox with_wire with_queues with_tracked send write abort spawn_task] in *;
  rewrite ?response_ids_app, ?cnt_app in *.

Lemma spawn_inv w t :
  session_inv w -> task_id t <> 0 -> tk_phase t = Working -> tk_aborted t = false ->
  Z.of_nat (size (pool (sn w))) < Negotiation.MAX_CONCURRENT_REQUESTS ->
  session_inv {| sn := spawn_task t (sn w); asked := asked w ++ [task_id t]; cancelled := cancelled w; lost := lost w |}.
Proof.
  intros [I1 I2 I3 IE I4 I5 I6 I7 I8] Hid Hph Hab Hsz.
  assert (pool (sn w) !! next_task (sn w) = None) as Hfresh.
  { destruct (pool (sn w) !! next_task (sn w)) eqn:E; [|done]. apply I5 in E as [E _]. lia. }
  assert (forall r, waiting r (next_task (sn w)) t = cnt r [task_id t]) as Hw.
  { intros r. rewrite cnt_one. unfold waiting, unanswered. rewrite Hph, Hab. by rewrite !andb_true_r. }
  assert (forall r, doomed r (next_task (sn w)) t = 0) as Hdo.
  { intros r. unfold doomed. by rewrite Hab, andb_false_r. }
  split; cbn [sn spawn_task critical events latest done pool next_task request_tasks]; try done.
  - rewrite map_size_insert_None by done. lia.
  - intros k t'. rewrite lookup_insert_Some. intros [[<- <-]|[_ Hk]]; [rewrite Hph; lia|].
    destruct (I5 k t' Hk) as (? & ? & ?). split; [lia|done].
  - intros id k. rewrite lookup_insert_Some. intros [[<- <-]|[Hne Hk]].
    + split; [lia|]. intros t'. rewrite lookup_insert_eq. by intros [= <-].
    + destruct (I6 id k Hk) as [Hlt Ht]. split; [lia|]. intros t'. rewrite lookup_insert_ne by lia. apply Ht.
  - intros Hc r. specialize (I7 Hc r). books. rewrite msum_insert by done. rewrite Hw. lia.
  - intros r. specialize (I8 r). books. rewrite !msum_insert by done. rewrite Hw, Hdo. lia.
Qed.

(** An answer for one more id goes out. *)
Lemma send_inv w frame id asked' cancelled' :
  session_inv w -> response_id frame = Some id ->
  (forall r, cnt r asked' + cnt r cancelled' = cnt r (asked w) + cnt r (cancelled w) + cnt r [id]) ->
  (forall r, cnt r (asked w) <= cnt r asked' <= cnt r (asked w) + cnt r [id]) ->
  session_inv {| sn := send frame (sn w); asked := asked'; cancelled := cancelled'; lost := lost w |}.
Proof.
  intros [I1 I2 I3 IE I4 I5 I6 I7 I8] Hf Hsum Hask. split; try done; cbn [sn].
  - intros Hc r. specialize (I7 Hc r). specialize (Hask r). books. rewrite (response_cnt r frame id Hf). lia.
  - intros r. specialize (I8 r). specialize (Hsum r). books. rewrite (response_cnt r frame id Hf). lia.
Qed.

(** A task is aborted: what it still owed is no longer waited for, and an answer goes out. *)
Lemma cancel_inv w k t id frame :
  session_inv w -> pool (sn w) !! k = Some t -> task_id t = id -> response_id frame = Some id ->
  session_inv {| sn := send frame (abort k (sn w)); asked := asked w; cancelled := cancelled w ++ [id]; lost := lost w |}.
Proof.
  intros [I1 I2 I3 IE I4 I5 I6 I7 I8] Hk Hid Hf.
  set (t' := {| tk_request := tk_request t; tk_deadline := tk_deadline t; tk_phase := tk_phase t; tk_aborted := true |}).
  assert (pool (abort k (sn w)) = <[k := t']> (pool (sn w))) as Hpool.
  { cbn. apply map_eq. intros j. rewrite lookup_alter, lookup_insert. case_decide; [subst; by rewrite Hk|done]. }
  assert (forall r, 0 <= waiting r k t <= cnt r [id] /\ waiting r k t' = 0
            /\ doomed r k t' = waiting r k t + doomed r k t) as Hw.
  { intros r. unfold waiting, doomed, unanswered, t'. rewrite cnt_one. cbn. fold (task_id t) in *. unfold task_id. cbn.
    fold (task_id t). rewrite Hid. destruct (bool_decide _), (tk_phase t), (tk_aborted t); cbn; lia. }
  split; cbn [sn]; try done.
  - change (pool (send frame (abort k (sn w)))) with (pool (abort k (sn w))). rewrite Hpool, map_size_insert_Some by done. done.
  - change (pool (send frame (abort k (sn w)))) with (pool (abort k (sn w))). rewrite Hpool.
    intros j u. rewrite lookup_insert_Some. intros [[<- <-]|[_ Hj]]; [exact (I5 k t Hk)|by apply I5].
  - change (pool (send frame (abort k (sn w)))) with (pool (abort k (sn w))). rewrite Hpool.
    intros id' j Hj. destruct (I6 id' j Hj) as [Hlt Ht]. split; [done|]. intros u. rewrite lookup_insert_Some.
    intros [[<- <-]|[_ Hu]]; [exact (Ht t Hk)|by apply Ht].
  - intros Hc r. specialize (I7 Hc r). destruct (Hw r) as (Hw1 & Hw2 & Hw3).
    change (pool (send frame (abort k (sn w)))) with (pool (abort k (sn w))). rewrite Hpool.
    rewrite (msum_update _ _ _ _ t' Hk). books. rewrite (response_cnt r frame id Hf). lia.
  - intros r. specialize (I8 r). destruct (Hw r) as (Hw1 & Hw2 & Hw3).
    change (pool (send frame (abort k (sn w)))) with (pool (abort k (sn w))). rewrite Hpool.
    rewrite !(msum_update _ _ _ _ t' Hk). books. rewrite (response_cnt r frame id Hf). lia.
Qed.

(** A task moves on, its answer going to [q'] or nowhere. *)
Lemma phase_inv w k t p q' lost' :
  session_inv w -> pool (sn w) !! k = Some t ->
  match p with Answering f => response_id f = Some (task_id t) | _ => True end ->
  (forall q, q' = Some q -> (length q <= CRITICAL_CONTROL_QUEUE_CAPACITY)%nat) ->
  (critical (sn w) = None <-> q' = None) ->
  (forall r, cnt r (response_ids (default [] q')) + cnt r lost' + waiting r k (set_phase p t) + doomed r k (set_phase p t)
     = cnt r (response_ids (default [] (critical (sn w)))) + cnt r (lost w) + waiting r k t + doomed r k t) ->
  (forall r, doomed r k (set_phase p t) <= doomed r k t) ->
  session_inv {| sn := with_critical q' (with_task k (set_phase p t) (sn w)); asked := asked w;
                 cancelled := cancelled w; lost := lost' |}.
Proof.
  intros [I1 I2 I3 IE I4 I5 I6 I7 I8] Hk Hp Hq Hnone Hsum Hdo.
  split; cbn [sn with_critical with_task with_pool critical events latest done pool next_task request_tasks]; try done.
  - by rewrite map_size_insert_Some.
  - intros j u. rewrite lookup_insert_Some. intros [[<- <-]|[_ Hj]]; [|by apply I5].
    destruct (I5 k t Hk) as (Hlt & Hid & _). by destruct p.
  - intros id j Hj. destruct (I6 id j Hj) as [Hlt Ht]. split; [done|]. intros u. rewrite lookup_insert_Some.
    intros [[<- <-]|[_ Hu]]; [exact (Ht t Hk)|by apply Ht].
  - intros Hc r. specialize (I7 ltac:(tauto) r). specialize (Hsum r). specialize (Hdo r).
    books. rewrite (msum_update _ _ _ _ _ Hk). lia.
  - intros r. specialize (I8 r). specialize (Hsum r). books. rewrite !(msum_update _ _ _ _ _ Hk). lia.
Qed.
(** A task leaves the pool owing nothing that is waited for. *)
Lemma leave_inv w k t done' :
  session_inv w -> pool (sn w) !! k = Some t -> (forall r, waiting r k t = 0) ->
  (length done' <= REQUEST_DONE_CAPACITY)%nat ->
  session_inv (keep (with_pool (delete k (pool (sn w))) done' (sn w)) w).
Proof.
  intros [I1 I2 I3 IE I4 I5 I6 I7 I8] Hk Hw Hd.
  split; cbn [sn keep with_pool critical events latest done pool next_task request_tasks]; try done.
  - rewrite map_size_delete, Hk. lia.
  - intros j u [_ Hj]%lookup_delete_Some. by apply I5.
  - intros id j Hj. destruct (I6 id j Hj) as [Hlt Ht]. split; [done|]. intros u [_ Hu]%lookup_delete_Some. by apply Ht.
  - intros Hc r. specialize (I7 Hc r). rewrite (msum_delete _ _ _ _ Hk), (Hw r) in I7. books. lia.
  - intros r. specialize (I8 r). rewrite (msum_delete (waiting r) _ _ _ Hk), (msum_delete (doomed r) _ _ _ Hk), (Hw r) in I8.
    pose proof (doomed_nonneg r k t). books. lia.
Qed.
Lemma concluded_id now t frame : concluded now t frame -> response_id frame = Some (task_id t).
Proof. destruct 1 as [r Ha| |]; [|done|done]. cbn. by rewrite (answers_request_id _ _ Ha). Qed.

Lemma unanswered_owes r k t :
  unanswered t = true ->
  waiting r k t + doomed r k t = cnt r [task_id t] /\ waiting r k (set_phase Reporting t) = 0
  /\ doomed r k (set_phase Reporting t) = 0 /\ 0 <= doomed r k t.
Proof.
  intros Hu. unfold waiting, doomed. rewrite Hu, cnt_one. cbn. rewrite !andb_false_r.
  destruct (bool_decide _), (tk_aborted t); cbn; lia.
Qed.

Lemma task_step_inv w k s' : session_inv w -> task_step k (sn w) s' -> session_inv (keep s' w).
Proof.
  intros Hi Hs. remember (sn w) as s eqn:Es. destruct Hs as [s t now frame Hk Hph Hc|s t frame q Hk Hph Hq Hl|s t Hk Hph Hl|s t Hk Hab]; subst s.
  - pose proof (phase_inv w k t (Answering frame) (critical (sn w)) (lost w) Hi Hk (concluded_id _ _ _ Hc)
      (si_critical _ Hi) ltac:(done)) as Hp.
    assert (forall r, waiting r k (set_phase (Answering frame) t) = waiting r k t
              /\ doomed r k (set_phase (Answering frame) t) = doomed r k t) as Hw.
    { intros r. unfold waiting, doomed, unanswered. by rewrite Hph. }
    destruct w as [s a c l]. cbn in *. replace (with_task k (set_phase (Answering frame) t) s)
      with (with_critical (critical s) (with_task k (set_phase (Answering frame) t) s)) by done.
    apply Hp; intros r; destruct (Hw r); lia.
  - destruct (si_tasks _ Hi k t Hk) as (_ & _ & Hf). rewrite Hph in Hf.
    assert (forall r, _) as Hw by (intros r; apply (unanswered_owes r k t); unfold unanswered; by rewrite Hph).
    apply (phase_inv w k t Reporting (Some (q ++ [frame])) (lost w) Hi Hk I).
    + intros q' [= <-]. rewrite length_app. cbn. lia.
    + rewrite Hq. done.
    + intros r. destruct (Hw r) as (O1 & O2 & O3 & O4). rewrite Hq. cbn [from_option]; unfold id.
      rewrite response_ids_app, cnt_app, (response_cnt r frame _ Hf). lia.
    + intros r. destruct (Hw r) as (O1 & O2 & O3 & O4). lia.
  - apply (leave_inv w k t); try done.
    + intros r. unfold waiting, unanswered. by rewrite Hph, andb_false_r.
    + rewrite length_app. cbn. lia.
  - apply (leave_inv w k t); try done; [|apply Hi].
    intros r. unfold waiting. by rewrite Hab, andb_false_r.
Qed.

Lemma writer_step_inv w s' : session_inv w -> writer_step (sn w) s' -> session_inv (keep s' w).
Proof.
  intros [I1 I2 I3 [IE IL] I4 I5 I6 I7 I8] Hs. remember (sn w) as s eqn:Es.
  assert (forall r, answered r s' = answered r s) as Ha.
  { intros r. destruct Hs as [s frame q Hq|s frame q Hq He|s i frame Hq He Hl]; rewrite !answered_split;
      cbn [wire critical outbox write with_wire with_critical with_queues]; rewrite response_ids_app, cnt_app, Hq;
      cbn [from_option]; unfold id.
    - change (frame :: q) with ([frame] ++ q). rewrite (response_ids_app [frame] q), cnt_app. lia.
    - unfold response_ids at 2. cbn. rewrite (IE _ frame He) by (by left). cbn. unfold cnt at 2. cbn. lia.
    - unfold response_ids at 2. cbn. rewrite (IL _ _ Hl). cbn. unfold cnt at 2. cbn. lia. }
  assert (critical s <> None) as Hc.
  { destruct Hs as [s frame q Hq|s frame q Hq He|s i frame Hq He Hl]; congruence. }
  assert (pool s' = pool s /\ request_tasks s' = request_tasks s /\ next_task s' = next_task s /\ done s' = done s)
    as (Ep & Et & En & Ed) by (by destruct Hs).
  split; cbn [sn keep asked cancelled lost]; rewrite ?Ep, ?Et, ?En, ?Ed; try done.
  - intros q. destruct Hs as [s frame q' Hq|s frame q' Hq He|s i frame Hq He Hl]; cbn; [|by apply I2..].
    intros [= <-]. apply I2 in Hq. cbn in Hq. lia.
  - intros q. destruct Hs as [s frame q' Hq|s frame q' Hq He|s i frame Hq He Hl]; cbn; [by apply I3| |by apply I3].
    intros [= <-]. apply I3 in He. cbn in He. lia.
  - destruct Hs as [s frame q' Hq|s frame q' Hq He|s i frame Hq He Hl]; cbn; [done| |].
    + split; [|done]. intros q f [= <-] Hf. eapply IE; [exact He|]. by right.
    + split; [done|]. intros j f [_ Hf]%lookup_delete_Some. by eapply IL.
  - intros Hn r. rewrite Ha. by apply I7.
  - intros r. by rewrite Ha.
Qed.

Section preserved.
Context (features : gset Z) (capabilities : gset Requests.CapabilityId).
Context (device : string) (h : InputHandler.Host) (blob_owner : bytes).
Notation step := (step features capabilities device h blob_owner).

Lemma frame_inv w env body s' :
  session_inv w -> outbox (sn w) = [] -> on_frame features capabilities device h env body (sn w) = Some s' ->
  ended s' = None ->
  session_inv {| sn := s'; asked := asked w ++ asked_by body; cancelled := cancelled w ++ cancelled_by body s'; lost := lost w |}.
Proof.
  intros Hi Ho Hf He. pose proof (on_frame_effect _ _ _ _ _ _ _ _ Ho Hf He) as Heff. clear Hf He.
  destruct Heff as [Hq -> ->|request frame s0 Hq -> -> Hr|request now s0 Hq -> Hid Hsz ->|id k t frame s0 Hq -> Hk Ht Hr ->];
    cbn [asked_by cancelled_by].
  - rewrite !app_nil_r. by apply quiet_inv.
  - rewrite app_nil_r. apply (send_inv (keep s0 w) _ (rq_request_id request)); [by apply quiet_inv|done|..]; cbn.
    + intros r. rewrite cnt_app. lia.
    + intros r. rewrite cnt_app. pose proof (cnt_nonneg r [rq_request_id request]). lia.
  - rewrite app_nil_r. apply (spawn_inv (keep s0 w) {| tk_request := request; tk_deadline := now + request_timeout request;
      tk_phase := Working; tk_aborted := false |}); [by apply quiet_inv|done|done|done|]. cbn. by rewrite (qu_pool _ _ Hq).
  - rewrite app_nil_r. replace (is_empty (outbox (send frame (abort k s0)))) with false
      by (cbn; destruct (outbox s0); done).
    apply (cancel_inv (keep s0 w) k t); [by apply quiet_inv|by rewrite <- Ht; cbn; rewrite (qu_pool _ _ Hq)|..|done].
    by eapply (si_tracked _ Hi).
Qed.

Lemma session_step_inv w w' : step w w' -> session_inv w -> ended (sn w') = None -> session_inv w'.
Proof.
  intros Hs Hi. destruct Hs as [env body s' [_ Ho] Hf|s' [_ Ho] Hev|s' Hsend|error He _ _|k s' He Ht|k t frame He Hk Hph Hn
    |s' He Hw|He|frame q He Hq Hl Hr]; cbn [sn keep].
  - intros He. by eapply frame_inv.
  - intros _. apply quiet_inv; [done|]. by eapply loop_event_quiet.
  - intros _. remember (sn w) as s eqn:Es. destruct Hsend as [s frame rest q He Ho Hq Hl]. subst s.
    destruct Hi as [I1 I2 I3 IE I4 I5 I6 I7 I8].
    assert (forall r, answered r (with_outbox rest (with_critical (Some (q ++ [frame])) (sn w))) = answered r (sn w)) as Ha.
    { intros r. rewrite !answered_split. cbn [wire critical outbox with_outbox with_critical]. rewrite Ho, Hq. cbn [from_option]; unfold id.
      change (frame :: rest) with ([frame] ++ rest). rewrite (response_ids_app [frame] rest), response_ids_app, !cnt_app. lia. }
    split; try done; cbn [sn keep].
    + intros q' [= <-]. rewrite length_app. cbn. lia.
    + intros _ r. rewrite Ha. apply I7. congruence.
    + intros r. rewrite Ha. apply I8.
  - done.
  - intros _. by eapply task_step_inv.
  - intros _. pose proof (phase_inv w k t Reporting (critical (sn w)) (lost w ++ [rq_request_id (tk_request t)]) Hi Hk I
      (si_critical _ Hi) ltac:(done)) as Hp.
    assert (forall r, _) as Hw by (intros r; apply (unanswered_owes r k t); unfold unanswered; by rewrite Hph).
    replace (with_task k (set_phase Reporting t) (sn w))
      with (with_critical (critical (sn w)) (with_task k (set_phase Reporting t) (sn w))) by (by destruct w as [[]]).
    apply Hp; intros r; destruct (Hw r) as (O1 & O2 & O3 & O4); [|lia].
    rewrite cnt_app. change (rq_request_id (tk_request t)) with (task_id t). lia.
  - intros _. by apply writer_step_inv.
  - intros _. destruct Hi as [I1 I2 I3 [IE IL] I4 I5 I6 I7 I8]. split; try done; cbn [sn keep].
    intros r. specialize (I8 r). rewrite answered_split in *.
    cbn [wire critical outbox with_critical with_queues pool from_option] in *.
    pose proof (cnt_nonneg r (response_ids (default [] (critical (sn w))))). unfold cnt at 2. cbn. lia.
  - intros _. destruct Hi as [I1 I2 I3 IE I4 I5 I6 I7 I8].
    assert (forall r, answered r (with_critical (Some (q ++ [frame])) (sn w)) = answered r (sn w)) as Ha.
    { intros r. rewrite !answered_split. cbn [wire critical outbox with_outbox with_critical]. rewrite Hq. cbn [from_option]; unfold id. rewrite response_ids_app, cnt_app.
      replace (response_ids [frame]) with (@nil Z) by (unfold response_ids; cbn; by rewrite Hr). change (cnt r []) with 0. lia. }
    split; try done; cbn [sn keep].
    + intros q' [= <-]. rewrite length_app. cbn. lia.
    + intros _ r. rewrite Ha. apply I7. congruence.
    + intros r. rewrite Ha. apply I8.
Qed.
Lemma step_running w w' : step w w' -> ended (sn w) = None.
Proof. destruct 1 as [? ? ? []|? []|s' Hsend| | | | | |]; try done. by destruct Hsend. Qed.
Lemma session_reachable now store st w :
  rtc step (started now store st) w -> ended (sn w) = None -> session_inv w.
Proof.
  revert w. apply (rtc_ind_r (fun w => ended (sn w) = None -> session_inv w)); [intros _; apply started_inv|].
  intros w w' _ Hs IH He. eapply session_step_inv; [exact Hs| |done]. apply IH. by eapply step_running.
Qed.
End preserved.

(** ** Draining *)

Section drain.
Context (features : gset Z) (capabilities : gset Requests.CapabilityId).
Context (device : string) (h : InputHandler.Host) (blob_owner : bytes).
Notation step := (step features capabilities device h blob_owner).

(** The steps the session takes by itself while the writer keeps up: no frame is read, nothing fails. *)
Inductive internal (w : World) : World -> Prop :=
| in_done id rest :
    idle (sn w) -> done (sn w) = id :: rest ->
    internal w (keep (with_tracked (delete id (request_tasks (sn w))) (with_pool (pool (sn w)) rest (sn w))) w)
| in_send s' : send_step (sn w) s' -> internal w (keep s' w)
| in_task k s' : ended (sn w) = None -> task_step k (sn w) s' -> internal w (keep s' w)
| in_write s' : ended (sn w) = None -> writer_step (sn w) s' -> internal w (keep s' w).
Lemma internal_step w w' : internal w w' -> step w w'.
Proof.
  destruct 1 as [id rest Hi Hd|s' Hs|k s' He Ht|s' He Hw].
  - apply step_event; [done|]. by apply ev_done.
  - by apply step_send.
  - by eapply step_task.
  - by apply step_write.
Qed.

(** The work left, in steps. *)
Definition task_work (_ : nat) (t : Task) : Z :=
  match tk_phase t with Working => 5 | Answering _ => 4 | Reporting => 2 end.
Definition work (s : Session) : Z :=
  msum task_work (pool s) + 2 * Z.of_nat (length (outbox s)) + Z.of_nat (length (default [] (critical s)))
  + Z.of_nat (length (default [] (events s))) + Z.of_nat (size (latest s)) + Z.of_nat (length (done s)).
Lemma task_work_pos k t : 0 < task_work k t.
Proof. unfold task_work. by destruct (tk_phase t). Qed.
Lemma work_nonneg s : 0 <= work s.
Proof.
  unfold work. pose proof (msum_nonneg task_work (pool s)) as Hm. enough (0 <= msum task_work (pool s)) by lia.
  apply Hm. intros k t _. pose proof (task_work_pos k t). lia.
Qed.
Lemma task_step_work k s s' : task_step k s s' -> work s' < work s.
Proof.
  destruct 1 as [s t now frame Hk Hph Hc|s t frame q Hk Hph Hq Hl|s t Hk Hph Hl|s t Hk Hab]; unfold work;
    cbn [pool outbox critical events latest done with_pool with_task with_critical].
  - rewrite (msum_update _ _ _ _ _ Hk). unfold task_work at 2 3. rewrite Hph. cbn. lia.
  - rewrite (msum_update _ _ _ _ _ Hk), Hq. unfold task_work at 2 3. rewrite Hph. cbn. rewrite length_app. cbn. lia.
  - rewrite (msum_delete _ _ _ _ Hk), length_app. unfold task_work at 2. rewrite Hph. cbn. lia.
  - rewrite (msum_delete _ _ _ _ Hk). pose proof (task_work_pos k t). lia.
Qed.
Lemma writer_step_work s s' : writer_step s s' -> work s' < work s.
Proof.
  destruct 1 as [s frame q Hq|s frame q Hq He|s i frame Hq He Hl]; unfold work;
    cbn [pool outbox critical events latest done write with_wire with_critical with_queues].
  - rewrite Hq. cbn. lia.
  - rewrite He. cbn. lia.
  - rewrite map_size_delete, Hl. enough (size (latest s) <> 0%nat) by lia.
    intros E. apply map_size_empty_inv in E. rewrite E in Hl. by rewrite lookup_empty in Hl.
Qed.
Lemma internal_work w w' : internal w w' -> work (sn w') < work (sn w).
Proof.
  destruct 1 as [id rest Hi Hd|s' Hs|k s' He Ht|s' He Hw]; cbn [sn keep].
  - unfold work. cbn. rewrite Hd. cbn. lia.
  - destruct Hs as [s frame rest q He Ho Hq Hl]. unfold work. cbn. rewrite Ho, Hq. cbn. rewrite length_app. cbn. lia.
  - by eapply task_step_work.
  - by apply writer_step_work.
Qed.
Lemma internal_bounded n w w' : nsteps internal n w w' -> Z.of_nat n <= work (sn w).
Proof.
  induction 1 as [w|n w1 w2 w3 Hs _ IH]; [pose proof (work_nonneg (sn w)); lia|].
  apply internal_work in Hs. lia.
Qed.
Lemma internal_keeps w w' :
  internal w w' -> ended (sn w') = None /\ asked w' = asked w /\ lost w' = lost w
  /\ (critical (sn w) <> None -> critical (sn w') <> None).
Proof.
  destruct 1 as [id rest [He _] Hd|s' Hs|k s' He Ht|s' He Hw]; cbn [sn keep asked lost].
  - done.
  - by destruct Hs as [s frame rest q He Ho Hq Hl].
  - split; [|split; [done|split; [done|]]]; destruct Ht; by cbn.
  - split; [|split; [done|split; [done|]]]; destruct Hw; by cbn.
Qed.

(** Nothing is left to do. *)
Record drained (s : Session) : Prop := {
  dr_outbox : outbox s = [];
  dr_critical : critical s = Some [];
  dr_pool : pool s = ∅;
  dr_done : done s = [];
}.
Lemma critical_moves w q :
  ended (sn w) = None -> critical (sn w) = Some q -> q <> [] -> exists w', internal w w'.
Proof.
  intros He Hq Hne. destruct q as [|frame q]; [done|]. eexists. eapply in_write; [done|]. by eapply write_critical.
Qed.
Lemma outbox_moves w q :
  ended (sn w) = None -> critical (sn w) = Some q -> outbox (sn w) <> [] -> exists w', internal w w'.
Proof.
  intros He Hq Hne. destruct (outbox (sn w)) as [|frame rest] eqn:Eo; [done|].
  destruct (decide (length q < CRITICAL_CONTROL_QUEUE_CAPACITY)%nat) as [Hl|Hl].
  - eexists. eapply in_send. by eapply send_queued.
  - apply (critical_moves w q); try done. intros ->. apply Hl. cbn. unfold CRITICAL_CONTROL_QUEUE_CAPACITY. lia.
Qed.
Lemma done_moves w q :
  ended (sn w) = None -> critical (sn w) = Some q -> done (sn w) <> [] -> exists w', internal w w'.
Proof.
  intros He Hq Hne. destruct (decide (outbox (sn w) = [])) as [Ho|Ho]; [|by eapply outbox_moves].
  destruct (done (sn w)) as [|id rest] eqn:Ed; [done|]. eexists. by eapply in_done.
Qed.
Lemma task_moves w q k t :
  ended (sn w) = None -> critical (sn w) = Some q -> pool (sn w) !! k = Some t -> exists w', internal w w'.
Proof.
  intros He Hq Hk. destruct (tk_phase t) as [|frame|] eqn:Hph.
  - eexists. eapply in_task; [done|]. eapply (task_concludes k _ t (tk_deadline t)); [done|done|]. by apply concluded_deadline.
  - destruct (decide (length q < CRITICAL_CONTROL_QUEUE_CAPACITY)%nat) as [Hl|Hl].
    + eexists. eapply in_task; [done|]. by eapply task_answers.
    + apply (critical_moves w q); try done. intros ->. apply Hl. cbn. unfold CRITICAL_CONTROL_QUEUE_CAPACITY. lia.
  - destruct (decide (length (done (sn w)) < REQUEST_DONE_CAPACITY)%nat) as [Hl|Hl].
    + eexists. eapply in_task; [done|]. by eapply task_reports.
    + apply (done_moves w q); try done. intros E. apply Hl. rewrite E. cbn. unfold REQUEST_DONE_CAPACITY. lia.
Qed.
Lemma stuck_drained w :
  ended (sn w) = None -> critical (sn w) <> None -> (forall w', ~ internal w w') -> drained (sn w).
Proof.
  intros He Hc Hst. destruct (critical (sn w)) as [q|] eqn:Hq; [|done].
  assert (forall P : Prop, (P -> exists w', internal w w') -> ~ P) as Hno.
  { intros P HP Hp. destruct (HP Hp) as [w' Hw]. by eapply Hst. }
  split.
  - destruct (decide (outbox (sn w) = [])) as [|Hn]; [done|]. by eapply Hno in Hn; [|intros; by eapply outbox_moves].
  - destruct (decide (q = [])) as [->|Hn]; [done|]. by eapply Hno in Hn; [|intros; by eapply critical_moves].
  - apply map_empty. intros k. destruct (pool (sn w) !! k) as [t|] eqn:Ek; [|done].
    eapply Hno in Ek; [done|]. intros. by eapply task_moves.
  - destruct (decide (done (sn w) = [])) as [|Hn]; [done|]. by eapply Hno in Hn; [|intros; by eapply done_moves].
Qed.
Lemma internal_run n w w' :
  nsteps internal n w w' -> ended (sn w) = None ->
  ended (sn w') = None /\ asked w' = asked w /\ lost w' = lost w
  /\ (critical (sn w) <> None -> critical (sn w') <> None) /\ rtc step w w'.
Proof.
  induction 1 as [w|n w1 w2 w3 Hs _ IH]; intros He; [by split_and!; try done; apply rtc_refl|].
  destruct (internal_keeps _ _ Hs) as (He2 & Ea & El & Hc). destruct (IH He2) as (He3 & Ea' & El' & Hc' & Hr).
  split_and!; try congruence; [by auto|]. eapply rtc_l; [by apply internal_step|done].
Qed.

(** C4: every request is answered.  As long as a session runs and its writer works, the session
    left to itself comes to rest: it takes at most as many steps as there is work, and it stops
    only when the request tasks are done and everything was written.  Then, for every id, the
    client has been sent at least as many responses as it has sent requests, apart from responses
    that had found no room for five seconds before; and no more than that and one for each
    cancellation.  Nothing is lost on the way there. *)
Theorem requests_answered now store st w :
  rtc step (started now store st) w -> ended (sn w) = None -> critical (sn w) <> None ->
  forall n w', nsteps internal n w w' ->
  Z.of_nat n <= work (sn w) /\ asked w' = asked w /\ lost w' = lost w
  /\ ((forall w2, ~ internal w' w2) ->
      drained (sn w')
      /\ forall r, cnt r (asked w) - cnt r (lost w) <= cnt r (response_ids (wire (sn w')))
                   /\ cnt r (response_ids (wire (sn w'))) <= cnt r (asked w) + cnt r (cancelled w') - cnt r (lost w)).
Proof.
  intros Hr He Hc n w' Hn. split; [by eapply internal_bounded|].
  destruct (internal_run _ _ _ Hn He) as (He' & Ea & El & Hc' & Hr'). split; [done|]. split; [done|].
  intros Hst. specialize (Hc' Hc). pose proof (stuck_drained _ He' Hc' Hst) as Hd. split; [done|].
  assert (session_inv w') as Hi by (eapply session_reachable; [by etrans|done]).
  destruct Hd as [Do Dc Dp Dd]. intros r. pose proof (si_lower _ Hi Hc' r) as Hlow. pose proof (si_upper _ Hi r) as Hup.
  rewrite answered_split, Do, Dc, Dp, !msum_empty, Ea, El in *. cbn [from_option] in *. unfold id in *.
  change (response_ids []) with (@nil Z) in *. change (cnt r []) with 0 in *. lia.
Qed.
End drain.

Section claims.
Context (features : gset Z) (capabilities : gset Requests.CapabilityId).
Context (device : string) (h : InputHandler.Host) (blob_owner : bytes).
Notation step := (step features capabilities device h blob_owner).

(** C15: a session stays within its bounds and keeps its books.  Whatever the client sends, in whatever
    order tasks, writer and loop run: at most 16 requests are carried out at once, at most 32
    critical frames and 16 events are queued and only events in the event queues, a handle the
    loop keeps is that of a task for that id; for every id, the answers sent or on their way are
    never more than the requests and cancellations received, and with the requests in progress and
    the answers given up they are never fewer than the requests. *)
Theorem session_accounts now store st w :
  rtc step (started now store st) w -> ended (sn w) = None ->
  Z.of_nat (size (pool (sn w))) <= 16
  /\ (forall q, critical (sn w) = Some q -> (length q <= 32)%nat)
  /\ (forall q, events (sn w) = Some q -> (length q <= 16)%nat /\ response_ids q = [])
  /\ (forall id k t, request_tasks (sn w) !! id = Some k -> pool (sn w) !! k = Some t -> task_id t = id /\ id <> 0)
  /\ forall r, answered r (sn w) <= cnt r (asked w) + cnt r (cancelled w)
       /\ (critical (sn w) <> None ->
           cnt r (asked w) <= answered r (sn w) + msum (waiting r) (pool (sn w)) + cnt r (lost w)).
Proof.
  intros Hr He. destruct (session_reachable _ _ _ _ _ _ _ _ _ Hr He) as [I1 I2 I3 [IE IL] I4 I5 I6 I7 I8].
  split_and!; try done.
  - intros q Hq. split; [by apply I3|]. apply response_ids_Forall, Forall_forall. intros f Hf. by eapply IE.
  - intros id k t Hid Hk. destruct (I6 _ _ Hid) as [_ Ht]. rewrite <- (Ht t Hk). split; [done|]. by apply (I5 k t Hk).
  - intros r. split; [|intros Hc; by apply I7]. specialize (I8 r).
    pose proof (msum_nonneg (waiting r) (pool (sn w))) as Hw. pose proof (msum_nonneg (doomed r) (pool (sn w))) as Hd.
    pose proof (cnt_nonneg r (lost w)).
    assert (0 <= msum (waiting r) (pool (sn w))) by (apply Hw; intros k t _; unfold waiting; by destruct (_ && _ && _)).
    assert (0 <= msum (doomed r) (pool (sn w))) by (apply Hd; intros k t _; apply doomed_nonneg). lia.
Qed.

(** A completion that arrives late. *)
Definition retried : Request :=
  {| rq_request_id := 5; rq_idempotency_key := []; rq_timeout_ms := 1000; rq_body := None |}.
Definition quiet_env : Env :=
  {| e_now := 0; e_now_ms := 0; e_raws := []; e_draws := [];
     e_host := {| h_now := 0; h_output_available := false; h_notifications_available := false;
                  h_sync_available := false; h_latest_system := None; h_latest_media := None; h_spaces := [];
                  h_latest_windows := None; h_latest_clipboard := None; h_actions := None; h_notifications := None |} |}.
Definition retried_task (p : Phase) : Task :=
  {| tk_request := retried; tk_deadline := request_timeout retried; tk_phase := p; tk_aborted := false |}.

(** C28: a completion can untrack a later request.  The completion channel names a request id, not a
    task: when the client reuses the id of a request it has the answer of, and the loop takes the new
    request before the old completion, the completion removes the handle of the new request.  That
    request goes on, but its id is free for use a third time, and cancelling it does nothing. *)
Theorem stale_completion_untracks now store st :
  exists w k t, rtc step (started now store st) w
    /\ ended (sn w) = None /\ pool (sn w) !! k = Some t /\ tk_phase t = Working /\ tk_aborted t = false
    /\ request_tasks (sn w) !! task_id t = None
    /\ on_cancel (task_id t) (sn w) = sn w /\ outstanding (task_id t) (sn w) = false.
Proof.
  set (w0 := started now store st).
  eexists _, 1%nat, (retried_task Working). split.
  - eapply rtc_l; [apply (step_frame _ _ _ _ _ w0 quiet_env (Some (ClRequest retried))); [done|reflexivity]|].
    eapply rtc_l; [eapply (step_task _ _ _ _ _ _ 0%nat); [done|]; eapply (task_concludes _ _ (retried_task Working) 0);
      [reflexivity|done|apply (concluded_panic _ _ "" "")]|].
    eapply rtc_l; [eapply (step_task _ _ _ _ _ _ 0%nat); [done|]; eapply (task_answers _ _ (retried_task (Answering _)));
      [reflexivity|reflexivity|reflexivity|apply Nat.ltb_lt; reflexivity]|].
    eapply rtc_l; [eapply (step_task _ _ _ _ _ _ 0%nat); [done|]; eapply (task_reports _ _ (retried_task Reporting));
      [reflexivity|done|apply Nat.ltb_lt; reflexivity]|].
    eapply rtc_l; [apply (step_frame _ _ _ _ _ _ quiet_env (Some (ClRequest retried))); [done|reflexivity]|].
    eapply rtc_l; [apply step_event; [done|]; apply (ev_done _ _ _ _ 5 []); reflexivity|].
    apply rtc_refl.
  - repeat split; reflexivity.
Qed.
End claims.
End session.

(** ** Carrying out requests *)

Section handling.
Context `{!Sha256} `{!WireLimits} `{!FeatureCodes} `{!Requests.RequestCodes}.
Context `{!ReplicaWire.TextSyntaxCore} `{!Snapshots.SyncCodes} `{!Replication.CollectionCore}.
Context {W : Type} (host : forall A, Handlers.QueryCall A -> W -> W * A).
Context (encoded_len : Handlers.Response -> Z) (device_public_key : bytes).
Context (features : gset Z) (capabilities : gset Requests.CapabilityId).

(** [handle_request]: the responses of each branch, whatever the state of the host, of the command
    cache and of the blob store is at the moment. *)
Inductive handled (q : Request) : Handlers.Response -> Prop :=
| handled_query query now record_now times error_id s s' r :
    rq_body q = Some (RbQuery query) ->
    Handlers.query_request host now record_now times device_public_key error_id encoded_len (rq_request_id q)
      (rq_idempotency_key q) query features capabilities s = (s', r) -> handled q r
| handled_guard now_ms action encoded r :
    rq_body q = Some (RbCommand action encoded) ->
    CommandExec.command_guard now_ms (rq_request_id q) (rq_idempotency_key q) action features capabilities = Some r ->
    handled q r
| handled_cached now_ms now key action encoded c r :
    rq_body q = Some (RbCommand action encoded) ->
    CommandExec.command_guard (Body := Handlers.ResponseBody) now_ms (rq_request_id q) (rq_idempotency_key q) action
      features capabilities = None ->
    (CommandExec.check_cache now key encoded (rq_request_id q) c).2 = CommandExec.Reply r -> handled q r
| handled_joined now_ms now key action encoded c r :
    rq_body q = Some (RbCommand action encoded) ->
    CommandExec.command_guard (Body := Handlers.ResponseBody) now_ms (rq_request_id q) (rq_idempotency_key q) action
      features capabilities = None ->
    (CommandExec.join_or_start now key encoded (rq_request_id q) c).2 = CommandExec.Reply r -> handled q r
| handled_awaited action encoded channel c r :
    rq_body q = Some (RbCommand action encoded) -> CommandExec.await channel (rq_request_id q) c = Some r -> handled q r
| handled_blob blob_id t0 t1 t2 wall ids tks store store' r :
    rq_body q = Some (RbGetBlob blob_id) ->
    CommandExec.get_blob Handlers.BBlobTicket t0 t1 t2 wall ids tks (rq_request_id q) (rq_idempotency_key q) blob_id
      device_public_key features capabilities store = Some (store', r) -> handled q r
| handled_empty :
    rq_body q = None -> handled q (CommandExec.response_error (rq_request_id q) ECInvalidArgument "empty request").

Lemma query_request_id now record_now times error_id id key query s s' r :
  Handlers.query_request host now record_now times device_public_key error_id encoded_len id key query
    features capabilities s = (s', r) -> CommandExec.rs_request_id r = id.
Proof.
  unfold Handlers.query_request. destruct (negb _); [by intros [= _ <-]|].
  destruct (Requests.authorize_query _ _ _ _) as [|rej] eqn:Ea; last first.
  { intros [= _ <-]. cbn. by apply Handlers.rejection_id in Ea as [-> _]. }
  unfold Handlers.handle_query. destruct (Handlers.query_snapshot _ _ _ _ _ _ _ _) as [s1 [snap|[code message]]].
  - intros [= _ <-]. unfold Handlers.fit_response. by destruct (_ >? _).
  - by intros [= _ <-].
Qed.
(** Refusals carry the request's id. *)
Definition rejects {A} (id : Z) (m : result A Requests.RequestRejection) : Prop :=
  forall rej, m = Err rej -> Requests.rej_request_id rej = id.
Lemma rejects_bind {A A'} id (m : result A Requests.RequestRejection) (k : A -> result A' Requests.RequestRejection) :
  rejects id m -> (forall a, rejects id (k a)) -> rejects id (rbind m k).
Proof. intros Hm Hk rej. destruct m as [x|e]; [apply Hk|]. intros [= <-]. by apply Hm. Qed.
Lemma rejects_requirements id :
  (forall f, rejects id (Requests.require_feature id features f))
  /\ (forall c, rejects id (Requests.require_capability id capabilities c)).
Proof.
  split; intros x rej; unfold Requests.require_feature, Requests.require_capability;
    case_bool_decide; [done|by intros [= <-]|done|by intros [= <-]].
Qed.
Lemma command_guard_id now_ms id key action (r : Handlers.Response) :
  CommandExec.command_guard now_ms id key action features capabilities = Some r -> CommandExec.rs_request_id r = id.
Proof.
  unfold CommandExec.command_guard. destruct (negb _); [by intros [= <-]|].
  destruct (Requests.authorize_command _ _ _ _ _) as [|rej] eqn:Ea; [done|]. intros [= <-]. cbn.
  revert rej Ea. unfold Requests.authorize_command. destruct (Requests.validate_command _ _) as [u|]; [|by intros ? [= <-]].
  destruct action as [a|]; [|by intros ? [= <-]]. destruct (rejects_requirements id) as [Hf Hc].
  destruct a; cbn [Requests.command_requires]; repeat (apply rejects_bind; [apply Hf || apply Hc|intros _]); apply Hc.
Qed.
Lemma cached_frame_id (c : CommandCache.CommandCache Handlers.Response) key encoded id :
  match CommandExec.cached_command_frame c key encoded id with
  | Ok (Some r) => CommandExec.rs_request_id r = id
  | Err rej => Requests.rej_request_id rej = id
  | Ok None => True
  end.
Proof.
  unfold CommandExec.cached_command_frame. destruct (CommandCache.entries c !! key) as [e|]; [|done].
  by destruct (negb _).
Qed.
Lemma handled_request_id q r : handled q r -> CommandExec.rs_request_id r = rq_request_id q.
Proof.
  destruct 1 as [query now record_now times error_id s s' r Hb Hq|now_ms action encoded r Hb Hg
    |now_ms now key action encoded c r Hb Hg Hc|now_ms now key action encoded c r Hb Hg Hc
    |action encoded channel c r Hb Hw|blob_id t0 t1 t2 wall ids tks store store' r Hb Hg|Hb].
  - by eapply query_request_id.
  - by eapply command_guard_id.
  - unfold CommandExec.check_cache in Hc. cbn in Hc.
    pose proof (cached_frame_id (CommandCache.prune now (CommandExec.cache c)) key encoded (rq_request_id q)) as Hid.
    destruct (CommandExec.cached_command_frame _ _ _ _) as [[frame|]|rej]; [by injection Hc as <-|done|].
    injection Hc as <-. exact Hid.
  - unfold CommandExec.join_or_start in Hc.
    pose proof (cached_frame_id (CommandCache.prune now (CommandExec.cache c)) key encoded (rq_request_id q)) as Hid.
    destruct (CommandExec.cached_command_frame _ _ _ _) as [[frame|]|rej]; [by injection Hc as <-| |by injection Hc as <-].
    destruct (CommandCache.in_flight _ !! key) as [running|]; [destruct (negb _); [by injection Hc as <-|done]|].
    destruct (_ =? 0); [by injection Hc as <-|done].
  - unfold CommandExec.await in Hw. destruct (CommandExec.channels c !! channel) as [[resp|]|]; [by injection Hw as <-|..];
      destruct (CommandExec.tasks c !! channel); try done; by injection Hw as <-.
  - unfold CommandExec.get_blob, Requests.require_feature, Requests.require_any_capability in Hg.
    repeat (case_match || case_bool_decide); simplify_eq/=; done.
  - done.
Qed.
#[local] Instance control_requests : RequestHandler Handlers.ResponseBody :=
  {| answers := handled; answers_request_id := handled_request_id |}.
End handling.

(** ** What a session may do *)

(** The kinds of auxiliary streams. *)
Class StreamKinds := {
  STREAM_KIND_CLIPBOARD_REPLICA : Z;
  STREAM_KIND_BLOB_DOWNLOAD : Z;
  STREAM_KIND_CLIPBOARD_BLOB_UPLOAD : Z;
  STREAM_KIND_REMOTE_FILES : Z;
  stream_kinds_differ : NoDup [STREAM_KIND_CLIPBOARD_REPLICA; STREAM_KIND_BLOB_DOWNLOAD;
                               STREAM_KIND_CLIPBOARD_BLOB_UPLOAD; STREAM_KIND_REMOTE_FILES];
}.
Inductive Service := ServeReplica | ServeBlobDownload | ServeClipboardUpload | ServeRemoteFiles.

Section authority.
Context `{!WireLimits} `{!FeatureCodes} `{!Requests.RequestCodes} `{!Pairing.CapabilityTokens} `{!StreamKinds}.

(** What the loop passes to a bidirectional stream. *)
Definition replica_service (au : Authority) : bool :=
  bool_decide (au_versions au !! feature_code FClipboardSync = Some Negotiation.CLIPBOARD_REPLICATION_VERSION)
  && bool_decide (Requests.ClipboardSync ∈ au_capabilities au).
Definition clipboard_upload_allowed (au : Authority) : bool :=
  bool_decide (feature_code FClipboardSync ∈ au_features au)
  && bool_decide (Requests.ClipboardSync ∈ au_capabilities au).

(** [handle_auxiliary_stream]: which handler serves the stream; [permits] are the replica permits left. *)
Definition handle_auxiliary_stream (au : Authority) (permits kind : Z) : result Service string :=
  if kind =? STREAM_KIND_CLIPBOARD_REPLICA then
    if negb (replica_service au) then Err "clipboard replication is not authorized or negotiated" else
    if permits <=? 0 then Err "too many clipboard replication streams" else Ok ServeReplica
  else if kind =? STREAM_KIND_BLOB_DOWNLOAD then Ok ServeBlobDownload
  else if (kind =? STREAM_KIND_CLIPBOARD_BLOB_UPLOAD) && clipboard_upload_allowed au then Ok ServeClipboardUpload
  else if kind =? STREAM_KIND_REMOTE_FILES then Ok ServeRemoteFiles
  else Err "unsupported bidirectional stream kind".

Definition granted_inbound (grants : list RemoteFiles.Grant) (c : Requests.CapabilityId) : Prop :=
  exists g, g ∈ grants /\ RemoteFiles.g_direction g = RemoteFiles.Inbound /\ RemoteFiles.g_capability g = c.
Lemma granted_capabilities_spec grants c : c ∈ granted_capabilities grants <-> granted_inbound grants c.
Proof.
  unfold granted_capabilities, granted_inbound. rewrite elem_of_list_to_set, list_elem_of_fmap.
  setoid_rewrite list_elem_of_filter. naive_solver.
Qed.
Lemma selected_feature_spec versions f v :
  {| Negotiation.fv_feature := f; Negotiation.min_version := v; Negotiation.max_version := v |}
    ∈ Negotiation.selected_feature_versions versions <-> versions !! f = Some v.
Proof.
  unfold Negotiation.selected_feature_versions. rewrite merge_sort_Permutation, list_elem_of_fmap. split.
  - intros ([f' v'] & [= -> ->] & Hin). by apply elem_of_map_to_list in Hin.
  - intros Hv. exists (f, v). split; [done|]. by apply elem_of_map_to_list.
Qed.

(** C17: the authority of a session.  A session opens only with a hello, and then it has exactly the
    feature versions both sides offer and exactly the capabilities granted inbound, which is what
    the welcome tells the client.  An auxiliary stream is served only under that authority: clipboard
    replication needs the negotiated replication version, the inbound capability and a free permit,
    an upload needs the feature and the capability; everything else is refused but blob downloads,
    which need a ticket, and remote files, which need their own grants. *)
Theorem session_authority a n r i wk grants epoch now first au we :
  open_session (Negotiation.server_features a n r i wk) grants epoch now first = Ok (au, we) ->
  exists hello, first = FirstHello hello
  /\ (forall f v, au_versions au !! f = Some v
        <-> Negotiation.agreed (he_features hello) (Negotiation.server_features a n r i wk) f v)
  /\ (forall f, f ∈ au_features au <-> is_Some (au_versions au !! f))
  /\ (forall c, c ∈ au_capabilities au <-> granted_inbound grants c)
  /\ (forall f v, {| Negotiation.fv_feature := f; Negotiation.min_version := v; Negotiation.max_version := v |}
                    ∈ we_features we <-> au_versions au !! f = Some v)
  /\ we_grants we = Pairing.grant_to_proto <$> grants /\ 0 < we_authorization_epoch we <= i64_max
  /\ forall permits kind service, handle_auxiliary_stream au permits kind = Ok service ->
       match service with
       | ServeReplica => kind = STREAM_KIND_CLIPBOARD_REPLICA /\ 0 < permits
           /\ granted_inbound grants Requests.ClipboardSync
           /\ Negotiation.agreed (he_features hello) (Negotiation.server_features a n r i wk)
                (feature_code FClipboardSync) Negotiation.CLIPBOARD_REPLICATION_VERSION
       | ServeClipboardUpload => kind = STREAM_KIND_CLIPBOARD_BLOB_UPLOAD
           /\ granted_inbound grants Requests.ClipboardSync
           /\ exists v, Negotiation.agreed (he_features hello) (Negotiation.server_features a n r i wk)
                          (feature_code FClipboardSync) v
       | ServeBlobDownload => kind = STREAM_KIND_BLOB_DOWNLOAD
       | ServeRemoteFiles => kind = STREAM_KIND_REMOTE_FILES
       end.
Proof.
  unfold open_session. destruct first as [hello| |]; [|done|done].
  destruct (Negotiation.negotiate_features _ _) as [versions|] eqn:En; [|done]. cbn [rbind].
  destruct (Negotiation.validate_receive_limits _ _) as [[]|]; [|done]. intros [= <- <-].
  apply Negotiation.negotiate_features_spec in En as [_ Hv]. exists hello.
  cbn [au_versions au_features au_capabilities we_features we_grants we_authorization_epoch].
  split_and!; try done; try apply random_nonzero_u64_range.
  - intros f. by rewrite elem_of_dom.
  - apply granted_capabilities_spec.
  - intros f v. apply selected_feature_spec.
  - intros permits kind service. unfold handle_auxiliary_stream, replica_service, clipboard_upload_allowed.
    cbn [au_versions au_features au_capabilities].
    destruct (Z.eqb_spec kind STREAM_KIND_CLIPBOARD_REPLICA) as [->|_].
    { destruct (negb _) eqn:Er; [done|]. destruct (_ <=? _) eqn:Ep; [done|]. intros [= <-].
      apply negb_false_iff, andb_true_iff in Er as [E1 E2]. bool_arith.
      split; [done|]. split; [lia|]. split; [by apply granted_capabilities_spec|]. by apply Hv. }
    destruct (Z.eqb_spec kind STREAM_KIND_BLOB_DOWNLOAD) as [->|_]; [by intros [= <-]|].
    destruct (_ && _) eqn:Eu.
    { intros [= <-]. apply andb_true_iff in Eu as [Ek Eu]. apply andb_true_iff in Eu as [E1 E2]. bool_arith.
      split; [done|]. split; [by apply granted_capabilities_spec|]. apply elem_of_dom in E1 as [v Ev]. exists v. by apply Hv. }
    destruct (Z.eqb_spec kind STREAM_KIND_REMOTE_FILES) as [->|_]; [by intros [= <-]|done].
Qed.
End authority.

(** ** Witnesses: one request, asked and answered *)

#[local] Existing Instance toy_limits.
#[local] Existing Instance toy_features.
#[local] Existing Instance toy_digest.
#[local] Existing Instance Snapshots.toy_requests.
#[local] Existing Instance ReplicaWire.toy_syntax.
#[local] Existing Instance Snapshots.toy_sync_codes.
#[local] Existing Instance toy_topics.
#[local] Existing Instance InputEvents.toy_input.
#[local] Existing Instance InputEvents.toy_gesture.
#[local] Existing Instance InputSession.toy_drain.
#[local] Instance toy_frame_len : EncodedLen (ServerControlFrame (Reply unit)) := {| encoded_len := fun _ => 16 |}.
#[local] Instance toy_handler : RequestHandler unit.
Proof. refine {| answers := fun q r => CommandExec.rs_request_id r = rq_request_id q |}. done. Defined.

Definition wstart : World (B := unit) :=
  started 0 (BlobStore.new, 0%nat) (InputHandler.view InputHandler.wconn InputHandler.wsys1).
Definition wasked : Session (B := unit) :=
  default (sn wstart)
    (on_frame ∅ ∅ "phone" InputHandler.toy_host quiet_env (Some (ClRequest retried)) (sn wstart)).
Definition wworld : World := {| sn := wasked; asked := [5]; cancelled := []; lost := [] |}.
Notation wstep := (step ∅ ∅ "phone" InputHandler.toy_host []).
Notation winternal := (internal (B := unit)).

Lemma wworld_reached : rtc wstep wstart wworld.
Proof.
  apply rtc_once. change wworld with {| sn := wasked; asked := asked wstart ++ asked_by (Some (ClRequest retried));
    cancelled := cancelled wstart ++ cancelled_by (Some (ClRequest retried)) wasked; lost := lost wstart |}.
  by apply (step_frame _ _ _ _ _ wstart quiet_env (Some (ClRequest retried))).
Qed.
(** The answer, and the session at rest after it. *)
Definition wanswer : ServerControlFrame (Reply unit) := panic_frame 5 "id" "broken".
Definition wrest : Session :=
  with_tracked ∅ (with_pool ∅ [] (with_wire [wanswer] wasked)).
Lemma wworld_rests : nsteps winternal 5 wworld (keep wrest wworld).
Proof.
  eapply nsteps_l; [eapply (in_task _ 0%nat); [done|]; eapply (task_concludes _ _ (retried_task Working) 0);
    [reflexivity|done|apply (concluded_panic _ _ "id" "broken")]|].
  eapply nsteps_l; [eapply (in_task _ 0%nat); [done|]; eapply (task_answers _ _ (retried_task (Answering wanswer)));
    [reflexivity|reflexivity|reflexivity|apply Nat.ltb_lt; reflexivity]|].
  eapply nsteps_l; [eapply (in_task _ 0%nat); [done|]; eapply (task_reports _ _ (retried_task Reporting));
    [reflexivity|done|apply Nat.ltb_lt; reflexivity]|].
  eapply nsteps_l; [eapply in_write; [done|]; by eapply (write_critical _ wanswer [])|].
  eapply nsteps_l; [by apply (in_done _ 5 [])|].
  apply nsteps_O.
Qed.
Lemma wrest_stuck w2 : ~ winternal (keep wrest wworld) w2.
Proof.
  intros Hw. apply internal_work in Hw. pose proof (work_nonneg (sn w2)).
  assert (work (sn (keep wrest wworld)) = 0) by reflexivity. lia.
Qed.

Lemma session_accounts_witness :
  cnt 5 (asked wworld) <= answered 5 (sn wworld) + msum (waiting 5) (pool (sn wworld)) + cnt 5 (lost wworld).
Proof.
  destruct (session_accounts ∅ ∅ "phone" InputHandler.toy_host [] 0 (BlobStore.new, 0%nat) _ wworld wworld_reached eq_refl)
    as (_ & _ & _ & _ & Hr).
  apply (proj2 (Hr 5)). discriminate.
Defined.

Lemma requests_answered_witness : 1 <= cnt 5 (response_ids (wire wrest)).
Proof.
  destruct (requests_answered ∅ ∅ "phone" InputHandler.toy_host [] 0 (BlobStore.new, 0%nat) _ wworld wworld_reached eq_refl
    ltac:(discriminate) 5%nat (keep wrest wworld) wworld_rests) as (_ & _ & _ & Hrest).
  destruct (Hrest wrest_stuck) as [_ Hr]. exact (proj1 (Hr 5)).
Defined.

Lemma stale_completion_untracks_witness :
  exists w k t, rtc wstep wstart w /\ ended (sn w) = None /\ pool (sn w) !! k = Some t /\ tk_phase t = Working
    /\ tk_aborted t = false /\ request_tasks (sn w) !! task_id t = None
    /\ on_cancel (task_id t) (sn w) = sn w /\ outstanding (task_id t) (sn w) = false.
Proof. apply stale_completion_untracks. Defined.

#[local] Existing Instance Pairing.toy_tokens.
#[local] Instance toy_kinds : StreamKinds.
Proof.
  refine {| STREAM_KIND_CLIPBOARD_REPLICA := 1; STREAM_KIND_BLOB_DOWNLOAD := 2;
            STREAM_KIND_CLIPBOARD_BLOB_UPLOAD := 3; STREAM_KIND_REMOTE_FILES := 4 |}.
  apply (bool_decide_unpack _). vm_compute. exact I.
Defined.
Definition whello : Hello :=
  {| he_features := [Negotiation.feature FClipboardSync]; he_receive_limits := Some Negotiation.protocol_limits |}.
Definition wgrants : list RemoteFiles.Grant :=
  [{| RemoteFiles.g_peer_id := "phone"; RemoteFiles.g_direction := RemoteFiles.Inbound;
      RemoteFiles.g_capability := Requests.ClipboardSync; RemoteFiles.g_constraints := RemoteFiles.GNone;
      RemoteFiles.g_granted_at_ms := 1 |}].
Definition wopened : result (Authority * Welcome) string :=
  open_session (Negotiation.server_features false false false false false) wgrants 9 1 (FirstHello whello).

Lemma session_authority_witness :
  exists au we, wopened = Ok (au, we) /\ Requests.ClipboardSync ∈ au_capabilities au.
Proof.
  destruct wopened as [[au we]|e] eqn:Eo; [|exfalso; vm_compute in Eo; discriminate Eo].
  destruct (session_authority false false false false false wgrants 9 1 (FirstHello whello) au we Eo)
    as (hello & _ & _ & _ & Hc & _).
  exists au, we. split; [done|]. apply Hc. eexists. split; [by left|]. done.
Defined.

End Session.
