(* ===== verification/Lifecycle.v ===== *)
(** * The end of a session

    Models [src/server/proto_handler/lifecycle.rs] and the cleanup that [handle_quic_connection]
    gives it: [SessionTasks] owns the child tasks of a session and its cleanup, which runs when the
    session shuts down, or on the runtime when the session's future is dropped at any point, also
    in the middle of the cleanup; without a runtime it is dropped too.  Aborting a task asks it to
    stop, which takes until its next await.  Other sessions use the registry and the input manager
    all the while. *)

From Stdlib Require Import ZArith Lia String.
From stdpp Require Import base tactics option list strings gmap relations.
From S2P Require Import Prelude Proto Requests ConnectionRegistry InputEvents InputSession InputHandler.

Module Lifecycle.
Local Open Scope nat_scope.

(** Where the session's future is. *)
Inductive Life := Running | Stopping | Returned | Dropped.
#[global] Instance Life_eq_dec : EqDecision Life.
Proof. solve_decision. Defined.

Section lifecycle.
Context {Transport : Type}.
Context `{!InputEvents.InputCore} `{!InputEvents.GestureCore} `{!InputSession.DrainOrder}.

(** The cleanup future, by what it still has to do. *)
Inductive Cleanup := Unregister | EndInput | Announce.
Record SessionTasks := { tasks : gset nat; cleanup : option Cleanup }.
Definition new : SessionTasks := {| tasks := ∅; cleanup := Some Unregister |}.
Definition spawn (k : nat) (t : SessionTasks) : SessionTasks := {| tasks := {[k]} ∪ tasks t; cleanup := cleanup t |}.
Definition is_empty (t : SessionTasks) : bool := bool_decide (tasks t = ∅).
Definition join_next (k : nat) (t : SessionTasks) : SessionTasks := {| tasks := tasks t ∖ {[k]}; cleanup := cleanup t |}.
(** [drop]: every task is asked to stop, and the cleanup that is left goes to the current runtime;
    where there is none ([runtime] is false: [Handle::try_current] fails) it is dropped. *)
Definition drop (runtime : bool) (t : SessionTasks) : gset nat * option Cleanup :=
  (tasks t, if runtime then cleanup t else None).

(** What the cleanup works on: the registry, the session's view of the input handlers, and how
    often the user interface was told that the device is gone. *)
Record Server := {
  registry : ConnectionRegistry.ConnectionRegistry (Transport := Transport);
  input : InputHandler.HState;
  disconnected : nat;
}.

Section session.
Context (h : InputHandler.Host) (device : string) (notify : nat).

(** One await of the cleanup: what is left of it; [delivered] is false when the user interface
    takes no event for five seconds. *)
Definition cleanup_step (c : Cleanup) (delivered : bool) (s : Server) : option Cleanup * Server :=
  match c with
  | Unregister =>
    (Some EndInput, {| registry := ConnectionRegistry.unregister device notify (registry s);
                       input := input s; disconnected := disconnected s |})
  | EndInput =>
    (Some Announce, {| registry := registry s; input := InputHandler.end_stream h device (input s);
                       disconnected := disconnected s |})
  | Announce =>
    (None, {| registry := registry s; input := input s;
              disconnected := if delivered then S (disconnected s) else disconnected s |})
  end.

(** The session and what is left of it on the runtime: its cleanup, and the tasks that were asked to
    stop and have not yet; for the statements, how often the cleanup ran to its end, and whether it
    was dropped before that. *)
Record World := {
  server : Server;
  session : SessionTasks;
  life : Life;
  runtime : option Cleanup;
  aborting : gset nat;
  completed : nat;
  lost : bool;
}.
Definition opened (r : ConnectionRegistry.ConnectionRegistry (Transport := Transport)) (st : InputHandler.HState)
  : World :=
  {| server := {| registry := r; input := st; disconnected := 0 |}; session := new; life := Running;
     runtime := None; aborting := ∅; completed := 0; lost := false |}.
Definition with_session (t : SessionTasks) (l : Life) (w : World) : World :=
  {| server := server w; session := t; life := l; runtime := runtime w; aborting := aborting w;
     completed := completed w; lost := lost w |}.
Definition finishes (c : option Cleanup) : nat := match c with None => 1 | Some _ => 0 end.

(** What the others may do: register, disconnect and unregister connections, but not this one; use
    the input manager, but give this session a lease only while it runs. *)
Inductive others (running : bool) (s : Server) : Server -> Prop :=
| others_registry op :
    op <> ConnectionRegistry.OpUnregister device notify ->
    others running s {| registry := ConnectionRegistry.apply_op (registry s) op; input := input s;
                        disconnected := disconnected s |}
| others_input st :
    running = true \/ InputHandler.active_input st = InputHandler.active_input (input s)
      \/ InputHandler.active_input st = None ->
    others running s {| registry := registry s; input := st; disconnected := disconnected s |}.

Inductive step (w : World) : World -> Prop :=
| step_spawn k : life w = Running -> step w (with_session (spawn k (session w)) Running w)
| step_join k : life w = Running -> k ∈ tasks (session w) -> step w (with_session (join_next k (session w)) Running w)
(** [shutdown]: [JoinSet::shutdown] asks every task to stop and waits for each, then the cleanup is
    awaited. *)
| step_shutdown : life w = Running -> step w (with_session (session w) Stopping w)
| step_stopped k :
    life w = Stopping -> k ∈ tasks (session w) -> step w (with_session (join_next k (session w)) Stopping w)
| step_cleanup c delivered c' s' :
    life w = Stopping -> is_empty (session w) = true ->
    cleanup (session w) = Some c -> cleanup_step c delivered (server w) = (c', s') ->
    step w {| server := s'; session := {| tasks := tasks (session w); cleanup := c' |}; life := Stopping;
              runtime := runtime w; aborting := aborting w; completed := completed w + finishes c';
              lost := lost w |}
| step_return :
    life w = Stopping -> is_empty (session w) = true -> cleanup (session w) = None ->
    step w (with_session (session w) Returned w)
(** The future is dropped, with or without a runtime at hand. *)
| step_drop has_runtime :
    life w = Running \/ life w = Stopping ->
    step w {| server := server w; session := {| tasks := ∅; cleanup := None |}; life := Dropped;
              runtime := (drop has_runtime (session w)).2; aborting := (drop has_runtime (session w)).1;
              completed := completed w;
              lost := negb has_runtime && bool_decide (is_Some (cleanup (session w))) |}
(** The runtime goes on with the cleanup and with the tasks that stop; or it is shut down first. *)
| step_runtime c delivered c' s' :
    runtime w = Some c -> cleanup_step c delivered (server w) = (c', s') ->
    step w {| server := s'; session := session w; life := life w; runtime := c'; aborting := aborting w;
              completed := completed w + finishes c'; lost := lost w |}
| step_wind_down k :
    k ∈ aborting w ->
    step w {| server := server w; session := session w; life := life w; runtime := runtime w;
              aborting := aborting w ∖ {[k]}; completed := completed w; lost := lost w |}
| step_runtime_gone c :
    runtime w = Some c ->
    step w {| server := server w; session := session w; life := life w; runtime := None;
              aborting := aborting w; completed := completed w; lost := true |}
| step_others s' :
    others (bool_decide (life w = Running)) (server w) s' ->
    step w {| server := s'; session := session w; life := life w; runtime := runtime w;
              aborting := aborting w; completed := completed w; lost := lost w |}.
End session.
End lifecycle.


(** ** Cleaned up, once *)

Section cleaned.
Context {Transport : Type}.
Context `{!InputEvents.InputCore} `{!InputEvents.GestureCore} `{!InputSession.DrainOrder}.
Context (h : InputHandler.Host) (device : string) (notify : nat).
Notation World := (World (Transport := Transport)).
Notation step := (step (Transport := Transport) h device notify).

(** The cleanup that is left, wherever it is, and how many steps it needs. *)
Definition rest (w : World) : option Cleanup :=
  match life w with Running | Stopping => cleanup (session w) | Dropped => runtime w | Returned => None end.
Definition ended (w : World) : bool :=
  match life w with
  | Returned => true
  | Dropped => bool_decide (runtime w = None) && bool_decide (aborting w = ∅)
  | _ => false
  end.
(** The tasks that have not stopped. *)
Definition alive (w : World) : nat := size (tasks (session w)) + size (aborting w).
Definition steps_left (w : World) : nat :=
  (match rest w with Some Unregister => 3 | Some EndInput => 2 | Some Announce => 1 | None => 0 end)
  + match life w with Running => 2 | Stopping => 1 | Returned | Dropped => 0 end + alive w.
Definition advertised (w : World) : Prop := ConnectionRegistry.current (registry (server w)) device = Some notify.

Record life_inv (w : World) : Prop := {
  li_running : life w = Running -> cleanup (session w) = Some Unregister;
  li_elsewhere : (life w = Returned \/ life w = Dropped ->
      cleanup (session w) = None /\ tasks (session w) = ∅)
    /\ (life w <> Dropped -> runtime w = None /\ aborting w = ∅ /\ lost w = false);
  li_lost : lost w = true -> runtime w = None;
  li_completed : completed w = if lost w then 0 else finishes (rest w);
  li_disconnected : disconnected (server w) <= completed w;
  li_notify : notify < ConnectionRegistry.next_notify (registry (server w));
  li_registry : lost w = false -> rest w <> Some Unregister -> ~ advertised w;
  li_input : lost w = false -> rest w = Some Announce \/ rest w = None ->
    InputHandler.active_input (input (server w)) = None;
}.

Lemma end_stream_slot st : InputHandler.active_input (InputHandler.end_stream h device st) = None.
Proof.
  unfold InputHandler.end_stream. destruct (InputHandler.active_input st) as [l|] eqn:E; [|done].
  unfold InputHandler.end_input_lease_locked. by rewrite bool_decide_true.
Qed.
Lemma unregister_gone (r : ConnectionRegistry.ConnectionRegistry (Transport := Transport)) :
  ConnectionRegistry.current (ConnectionRegistry.unregister device notify r) device <> Some notify
  /\ ConnectionRegistry.next_notify (ConnectionRegistry.unregister device notify r) = ConnectionRegistry.next_notify r.
Proof.
  split; [|apply (ConnectionRegistry.next_notify_op r (ConnectionRegistry.OpUnregister device notify))].
  change (ConnectionRegistry.unregister device notify r)
    with (ConnectionRegistry.apply_op r (ConnectionRegistry.OpUnregister device notify)).
  rewrite ConnectionRegistry.current_op, (bool_decide_true (device = device)) by done. cbn. by case_bool_decide.
Qed.
(** Others never put this session's registration back. *)
Lemma others_registration (r : ConnectionRegistry.ConnectionRegistry (Transport := Transport)) op :
  notify < ConnectionRegistry.next_notify r ->
  notify < ConnectionRegistry.next_notify (ConnectionRegistry.apply_op r op)
  /\ (ConnectionRegistry.current r device <> Some notify ->
      ConnectionRegistry.current (ConnectionRegistry.apply_op r op) device <> Some notify).
Proof.
  intros Hlt. rewrite ConnectionRegistry.next_notify_op, ConnectionRegistry.current_op. split; [destruct op; lia|].
  intros Hn. destruct op as [d t f|d k|d]; [| |done].
  - case_bool_decide; [|done]. intros [= E]. lia.
  - destruct (_ && _); done.
Qed.

Lemma cleanup_step_inv c delivered (s : Server (Transport := Transport)) c' s' :
  cleanup_step h device notify c delivered s = (c', s') ->
  notify < ConnectionRegistry.next_notify (registry s) ->
  (c <> Unregister -> ConnectionRegistry.current (registry s) device <> Some notify) ->
  (c = Announce -> InputHandler.active_input (input s) = None) ->
  c' <> Some Unregister /\ notify < ConnectionRegistry.next_notify (registry s')
  /\ ConnectionRegistry.current (registry s') device <> Some notify
  /\ (c' = Some Announce \/ c' = None -> InputHandler.active_input (input s') = None)
  /\ disconnected s <= disconnected s' <= disconnected s + finishes c'.
Proof.
  destruct c; intros [= <- <-] Hlt Hr Hi; cbn.
  - destruct (unregister_gone (registry s)) as [H1' ->]. split_and!; try done; try lia. by intros [?|?].
  - split_and!; try done; try lia; [by apply Hr|]. intros _. apply end_stream_slot.
  - split_and!; try done; [by apply Hr|by intros _; apply Hi|destruct delivered; lia|destruct delivered; lia].
Qed.

(** A step that changes no more than the session's tasks, or hands its cleanup over. *)
Lemma life_inv_same w w' :
  life_inv w -> server w' = server w -> rest w' = rest w -> completed w' = completed w -> lost w' = lost w ->
  (life w' = Running -> cleanup (session w') = Some Unregister) ->
  (life w' = Returned \/ life w' = Dropped -> cleanup (session w') = None /\ tasks (session w') = ∅) ->
  (life w' <> Dropped -> runtime w' = None /\ aborting w' = ∅ /\ lost w' = false) ->
  (lost w' = true -> runtime w' = None) -> life_inv w'.
Proof.
  intros [I1 [I2a I2b] I3 I4 I5 I6 I7 I8] Es Er Ec El J1 J2 J3 J4.
  rewrite El in *. split; unfold advertised in *; rewrite ?Es, ?Er, ?Ec, ?El; done.
Qed.
Lemma life_step_inv w w' : life_inv w -> step w w' -> life_inv w'.
Proof.
  intros Hi Hs. pose proof Hi as [I1 [I2a I2b] I3 I4 I5 I6 I7 I8].
  destruct Hs as [k Hl|k Hl Hk|Hl|k Hl Hk|c delivered c' s' Hl He Hc Hst|Hl He Hc|rt Hl|c delivered c' s' Hc Hst
    |k Hk|c Hc|s' Ho].
  1-4: apply (life_inv_same w); unfold rest; cbn; rewrite ?Hl; try done; try (by intros [?|?]);
    try (by intros _; apply I1); by intros _; apply I2b; rewrite Hl.
  - destruct I2b as (R1 & R2 & R3); [by rewrite Hl|]. unfold rest in *. rewrite Hl, Hc, R3 in *. cbn in I4.
    destruct (cleanup_step_inv _ _ _ _ _ Hst I6) as (C1 & C2 & C3 & C4 & C5).
    { intros Hne. apply I7; [done|]. congruence. }
    { intros ->. apply I8; [done|]. by left. }
    split; unfold rest; cbn; try done; try lia. split; [by intros [?|?]|done].
  - unfold is_empty in He. apply bool_decide_eq_true in He.
    destruct I2b as (R1 & R2 & R3); [by rewrite Hl|].
    apply (life_inv_same w); unfold rest; cbn; rewrite ?Hl; try done.
  - assert (runtime w = None /\ aborting w = ∅ /\ lost w = false) as (R1 & R2 & R3)
      by (apply I2b; by destruct Hl as [-> | ->]).
    assert (rest w = cleanup (session w)) as Er by (unfold rest; by destruct Hl as [-> | ->]).
    rewrite Er, R3 in *. destruct rt; cbn [negb andb drop fst snd].
    + apply (life_inv_same w); unfold rest; cbn; try done; by destruct Hl as [-> | ->].
    + destruct (cleanup (session w)) as [c|] eqn:Ec; (rewrite bool_decide_true by by eexists) || rewrite bool_decide_false by by intros [].
      * split; unfold rest; cbn; try done.
      * split; unfold rest; cbn; try done; auto.
  - assert (life w = Dropped) as Hl.
    { destruct (decide (life w = Dropped)) as [|Hn]; [done|]. destruct (I2b Hn) as (Hr & _). congruence. }
    assert (lost w = false) as R3 by (destruct (lost w); [by rewrite I3 in Hc|done]).
    unfold rest in *. rewrite Hl, Hc, R3 in *. cbn in I4.
    destruct (cleanup_step_inv _ _ _ _ _ Hst I6) as (C1 & C2 & C3 & C4 & C5).
    { intros Hne. apply I7; [done|]. congruence. }
    { intros ->. apply I8; [done|]. by left. }
    split; unfold rest; cbn; rewrite ?Hl, ?R3; try done; try lia; auto.
  - apply (life_inv_same w); unfold rest; cbn; try done.
    intros Hl. destruct (I2b Hl) as (R1 & R2 & R3). by rewrite R2 in Hk.
  - assert (life w = Dropped) as Hl.
    { destruct (decide (life w = Dropped)) as [|Hn]; [done|]. destruct (I2b Hn) as (Hr & _). congruence. }
    assert (completed w = 0) as E0.
    { rewrite I4. destruct (lost w); [done|]. unfold rest. by rewrite Hl, Hc. }
    split; unfold rest; cbn; rewrite ?Hl; try done; auto. split; [intros _; apply I2a; by right|done].
  - destruct Ho as [op Hop|st Hst]; split; unfold rest, advertised in *; cbn in *; try done; try tauto.
    + by apply others_registration.
    + intros Hlo Hr. apply others_registration; [done|]. by apply I7.
    + intros Hlo Hr. specialize (I8 Hlo Hr). destruct Hst as [Hrun|[->|]]; [|done|done].
      apply bool_decide_eq_true in Hrun. rewrite Hrun in Hr. rewrite (I1 Hrun) in Hr. by destruct Hr.
Qed.

Lemma life_reachable r st w :
  notify < ConnectionRegistry.next_notify r -> rtc step (opened r st) w -> life_inv w.
Proof.
  intros Hlt. revert w. apply (rtc_ind_r life_inv); [|intros w w' _ Hs Hi; by eapply life_step_inv].
  split; unfold rest; cbn; try done; [split; [by intros [|]|done]|by intros _ [|]].
Qed.
Lemma size_removed (X : gset nat) k : k ∈ X -> size (X ∖ {[k]}) < size X.
Proof.
  intros Hk. rewrite size_difference, size_singleton by set_solver.
  assert (size X <> 0); [|lia]. intros E%size_empty_inv. set_solver.
Qed.
Lemma nonempty_task (X : gset nat) : X <> ∅ -> exists k, k ∈ X.
Proof. intros Hne. by apply set_choose_L. Qed.
(** Once it is over, the session gets on with its cleanup until that is done. *)
Lemma cleanup_progress w :
  life_inv w -> life w <> Running -> ended w = false -> exists w', step w w' /\ steps_left w' < steps_left w.
Proof.
  intros Hi Hl He. unfold ended in He. destruct (life w) eqn:El; try done.
  - destruct (decide (tasks (session w) = ∅)) as [Ht|Ht]; last first.
    { destruct (nonempty_task _ Ht) as [k Hk]. eexists. split; [by apply (step_stopped _ _ _ _ k)|].
      unfold steps_left, rest, alive. cbn. rewrite El. pose proof (size_removed _ _ Hk). lia. }
    assert (is_empty (session w) = true) as Hem by (unfold is_empty; by rewrite bool_decide_true).
    destruct (cleanup (session w)) as [c|] eqn:Ec.
    + destruct (cleanup_step h device notify c true (server w)) as [c' s'] eqn:Es.
      eexists. split; [by eapply step_cleanup|]. unfold steps_left, rest, alive. cbn. rewrite El, Ec.
      destruct c; injection Es as <- _; lia.
    + eexists. split; [by apply step_return|]. unfold steps_left, rest, alive. cbn. rewrite El, Ec. lia.
  - destruct (decide (aborting w = ∅)) as [Ha|Ha]; last first.
    { destruct (nonempty_task _ Ha) as [k Hk]. eexists. split; [by apply (step_wind_down _ _ _ _ k)|].
      unfold steps_left, rest, alive. cbn. rewrite El. pose proof (size_removed _ _ Hk). lia. }
    destruct (runtime w) as [c|] eqn:Ec; [|by rewrite Ha in He].
    destruct (cleanup_step h device notify c true (server w)) as [c' s'] eqn:Es.
    eexists. split; [by eapply step_runtime|]. unfold steps_left, rest, alive. cbn. rewrite El, Ec.
    destruct c; injection Es as <- _; lia.
Qed.

(** C26: a session is cleaned up exactly once, as long as there is a runtime to do it.  Whether it
    returns, or its future is dropped while it runs or in the middle of its shutdown, and whatever
    other sessions do to the registry and the input manager meanwhile: the cleanup never runs twice
    and the user interface is told at most once; the cleanup is lost only when the future is dropped
    where there is no runtime, or the runtime is shut down before it has run.  Unless it is lost, from
    its first step on the transport is no longer advertised, and a session that is over has finished
    its cleanup and holds no input lease.  A session that is over has no task left, and one that has
    stopped running gets there, by steps of its own, in at most four and one for each task that has
    not stopped. *)
Theorem session_cleaned_up r st w :
  notify < ConnectionRegistry.next_notify r -> rtc step (opened r st) w ->
  completed w <= 1 /\ disconnected (server w) <= completed w
  /\ (lost w = true -> life w = Dropped)
  /\ (lost w = false -> rest w <> Some Unregister -> ~ advertised w)
  /\ (ended w = true ->
      tasks (session w) = ∅ /\ aborting w = ∅
      /\ (lost w = false ->
          completed w = 1 /\ ~ advertised w /\ InputHandler.active_input (input (server w)) = None))
  /\ (life w <> Running -> ended w = false ->
      steps_left w <= 4 + alive w /\ exists w', step w w' /\ steps_left w' < steps_left w).
Proof.
  intros Hlt Hr. pose proof (life_reachable r st w Hlt Hr) as Hi. pose proof Hi as [I1 [I2a I2b] I3 I4 I5 I6 I7 I8].
  split_and!; try done.
  - rewrite I4. destruct (lost w), (rest w); cbn; lia.
  - intros Hlo. destruct (decide (life w = Dropped)) as [|Hn]; [done|]. destruct (I2b Hn) as (_ & _ & ?). congruence.
  - intros He. assert (rest w = None /\ (life w = Returned \/ life w = Dropped) /\ aborting w = ∅) as (Er & Hl & Ha).
    { unfold ended, rest in *. destruct (life w); try done.
      - split; [done|]. split; [by left|]. by apply I2b.
      - apply andb_true_iff in He as [?%bool_decide_eq_true ?%bool_decide_eq_true]. auto. }
    split; [by apply I2a|]. split; [done|]. intros Hlo. rewrite Er, Hlo in *. cbn in I4. split_and!; auto.
  - intros Hl He. split; [|by apply cleanup_progress]. unfold steps_left.
    destruct (life w); try done; destruct (rest w) as [[]|]; lia.
Qed.
End cleaned.

(** ** Witness: a session is dropped in the middle of its shutdown *)

#[local] Existing Instance InputEvents.toy_input.
#[local] Existing Instance InputEvents.toy_gesture.
#[local] Existing Instance InputSession.toy_drain.

Definition wregistry : ConnectionRegistry.ConnectionRegistry (Transport := unit) :=
  (ConnectionRegistry.register "phone" ConnectionRegistry.new).1.
Definition wopened : World :=
  opened wregistry (InputHandler.view InputHandler.wconn InputHandler.wsys1).
Notation wstep := (step InputHandler.toy_host "phone" 0).

Lemma session_cleaned_up_witness :
  exists w, rtc wstep wopened w /\ life w = Dropped /\ completed w = 1 /\ ~ advertised "phone" 0 w.
Proof.
  assert (exists w, rtc wstep wopened w /\ life w = Dropped /\ ended w = true /\ lost w = false)
    as (w & Hr & Hl & He & Hlo).
  { eexists. split.
    - eapply rtc_l; [by apply (step_spawn _ _ _ _ 7)|]. eapply rtc_l; [by apply step_shutdown|].
      eapply rtc_l; [by apply (step_stopped _ _ _ _ 7); [|vm_compute]|].
      eapply rtc_l; [by eapply (step_cleanup _ _ _ _ Unregister true)|].
      eapply rtc_l; [apply (step_drop _ _ _ _ true); by right|].
      eapply rtc_l; [by eapply (step_runtime _ _ _ _ EndInput true)|].
      eapply rtc_l; [by eapply (step_runtime _ _ _ _ Announce true)|]. apply rtc_refl.
    - done. }
  exists w. split; [done|]. split; [done|].
  destruct (session_cleaned_up InputHandler.toy_host "phone" 0 wregistry _ w ltac:(cbn; lia) Hr)
    as (_ & _ & _ & _ & Hend & _).
  destruct (Hend He) as (_ & _ & Hc). by destruct (Hc Hlo) as (? & ? & _).
Defined.

(** Without a runtime the cleanup is dropped: the session is over and still advertised. *)
Theorem cleanup_lost_without_runtime :
  exists w, rtc wstep wopened w /\ ended w = true /\ completed w = 0 /\ advertised "phone" 0 w.
Proof.
  eexists. split; [eapply rtc_l; [apply (step_drop _ _ _ _ false); by left|apply rtc_refl]|]. done.
Qed.

End Lifecycle.
