(* ===== verification/Service.v ===== *)
(** * The control service

    Models [DesktopControlService] of [src/server.rs]: the loop of [start_with_incoming], which
    gives every incoming session a task of its own, the pairing gate, and [serve_control_session].
    Every await is a point where other tasks run, so a pairing is a sequence of steps here, and
    [Pairing.handle_v1_pairing] is what the steps of one pairing add up to.  The network runtime is
    a parameter: what it answers, and that others may change its state at any time.  A control
    session is followed until it is open; from there on it is the subject of [Session] and
    [Lifecycle]. *)

From Stdlib Require Import ZArith Lia Ascii String.
From stdpp Require Import base tactics option list strings gmap relations.
From S2P Require Import Prelude Proto Negotiation Requests RemoteFiles Snapshots Pairing Subscriptions Session.

Module Service.
Local Open Scope string_scope.
Local Open Scope list_scope.
Import Pairing.

(** ** Sessions and tasks *)

(** [SessionKind]; the service has no use for the other kinds. *)
Inductive SessionKind := SkPairing | SkControl | SkOther.
Record Incoming := {
  in_kind : SessionKind;
  in_peer : Peer;
  in_code : string;
}.

(** Where a pairing task is: what it awaits, with what it has by then.  [answer] is what came of
    asking the user. *)
Inductive PairingStage :=
| Spawned
| AwaitGate
| AwaitPeers (now : Z) (stream : FeatureStream) (requested : list RemoteFiles.Grant)
| AwaitUi (now : Z) (stream : FeatureStream) (requested : list RemoteFiles.Grant) (stored : list StoredPeer)
| AwaitAnswer (now : Z) (stream : FeatureStream) (requested : list RemoteFiles.Grant) (stored : list StoredPeer)
| AwaitConfirm (now : Z) (stream : FeatureStream) (requested : list RemoteFiles.Grant) (stored : list StoredPeer)
    (shown : option PairingRequestForApproval) (answer : UserAnswer) (decision : PairingApproval)
| AwaitEvent (o : Outcome)
| AwaitWrite (o : Outcome).
Inductive ControlStage :=
| AwaitStream
| AwaitGrants
| AwaitHello (features : list Negotiation.FeatureVersion) (grants : list RemoteFiles.Grant)
    (access : RemoteFiles.RemoteFileAccess)
| Open (grants : list RemoteFiles.Grant) (au : Session.Authority) (access : RemoteFiles.RemoteFileAccess).
Inductive Stage := StPairing (p : PairingStage) | StControl (c : ControlStage).

(** What a task that awaits may be resumed with. *)
Inductive Event :=
| EvPolled
| EvStream (now : Z) (stream : result FeatureStream string)
| EvNetwork
| EvUi (taken : bool)
| EvAnswer (approval : option PairingApproval)
| EvDelivered
| EvWritten (ok : bool)
| EvFeatures (actions notifications remote_files input workspace : bool)
| EvHello (epoch now : Z) (first : Session.First)
| EvEnded.

(** A pairing that has taken effect. *)
Record Run := {
  r_peer : Peer;
  r_code : string;
  r_now : Z;
  r_stream : FeatureStream;
  r_answer : UserAnswer;
  r_outcome : Outcome;
}.

Section service.
Context `{!WireLimits} `{!FeatureCodes} `{!Requests.RequestCodes} `{!CapabilityTokens} `{!ProstEnum WireDirection}.
Context `{!ProstMessage PairingRequest} `{!ProstMessage PairingResponse} `{!FrameTransport}.
Context {N : Type} (network : Network N).
(** [NetworkRuntime::grants]. *)
Context (network_grants : string -> N -> N * result (list RemoteFiles.Grant) string).

(** [gate] is the semaphore of one permit: its head holds the permit, the others wait in the order
    they came.  [controls] are the tasks of control sessions, [closed] the tasks whose session was
    closed; [history] are the pairings that have taken effect and what others did to the network. *)
Inductive Entry := Paired (run : Run) | Changed (before after : N).
Record Service := {
  net : N;
  tasks : gmap nat (Incoming * Stage);
  next : nat;
  gate : list nat;
  controls : gset nat;
  session_closed : gset nat;
  running : bool;
  history : list Entry;
}.
Definition new (n : N) : Service :=
  {| net := n; tasks := ∅; next := 0; gate := []; controls := ∅; session_closed := ∅; running := true;
     history := [] |}.

Definition with_net (n : N) (s : Service) : Service :=
  {| net := n; tasks := tasks s; next := next s; gate := gate s; controls := controls s;
     session_closed := session_closed s; running := running s; history := history s |}.
Definition record_run (run : Run) (s : Service) : Service :=
  {| net := net s; tasks := tasks s; next := next s; gate := gate s; controls := controls s;
     session_closed := session_closed s; running := running s; history := history s ++ [Paired run] |}.
Definition with_gate (g : list nat) (s : Service) : Service :=
  {| net := net s; tasks := tasks s; next := next s; gate := g; controls := controls s;
     session_closed := session_closed s; running := running s; history := history s |}.
Definition with_task (k : nat) (i : Incoming) (st : Stage) (s : Service) : Service :=
  {| net := net s; tasks := <[k := (i, st)]> (tasks s); next := next s; gate := gate s; controls := controls s;
     session_closed := session_closed s; running := running s; history := history s |}.
Definition close_session (k : nat) (s : Service) : Service :=
  {| net := net s; tasks := tasks s; next := next s; gate := gate s; controls := controls s;
     session_closed := {[k]} ∪ session_closed s; running := running s; history := history s |}.

(** A task ends, in whatever way: what it owns is dropped, the permit of a pairing and the
    [TransportCloseGuard] of a control session. *)
Definition is_control (st : Stage) : bool := match st with StControl _ => true | StPairing _ => false end.
Definition end_task (k : nat) (st : Stage) (s : Service) : Service :=
  {| net := net s; tasks := delete k (tasks s); next := next s; gate := filter (fun x => x <> k) (gate s);
     controls := controls s;
     session_closed := if is_control st then {[k]} ∪ session_closed s else session_closed s;
     running := running s; history := history s |}.

(** ** The loop *)

Definition spawn (i : Incoming) (st : Stage) (s : Service) : Service :=
  {| net := net s; tasks := <[next s := (i, st)]> (tasks s); next := S (next s); gate := gate s;
     controls := if is_control st then {[next s]} ∪ controls s else controls s;
     session_closed := session_closed s; running := running s; history := history s |}.
(** Returning drops the [JoinSet], which aborts every task. *)
Definition stop (s : Service) : Service :=
  {| net := net s; tasks := ∅; next := next s; gate := []; controls := controls s;
     session_closed := controls s ∪ session_closed s; running := false; history := history s |}.
(** One turn of the loop of [start_with_incoming] with what the receiver yields. *)
Definition on_incoming (r : Subscriptions.Recv Incoming) (s : Service) : Service :=
  match r with
  | Subscriptions.Received session =>
    match in_kind session with
    | SkPairing => spawn session (StPairing Spawned) s
    | SkControl => spawn session (StControl AwaitStream) s
    | SkOther => s
    end
  | Subscriptions.Lagged _ => s
  | Subscriptions.RecvClosed => stop s
  end.

(** ** Pairing sessions *)

(** The permit, which the first in line holds. *)
Definition holds_permit (k : nat) (s : Service) : bool := bool_decide (head (gate s) = Some k).

Definition finish_pairing (k : nat) (i : Incoming) (now : Z) (stream : FeatureStream) (answer : UserAnswer)
    (o : Outcome) (s : Service) : Service :=
  end_task k (StPairing Spawned)
    (record_run {| r_peer := in_peer i; r_code := in_code i; r_now := now; r_stream := stream;
                 r_answer := answer; r_outcome := o |} s).
(** From the decision: the confirmation, if the decision calls for it, takes effect here. *)
Definition confirm (k : nat) (i : Incoming) (now : Z) (stream : FeatureStream) (requested : list RemoteFiles.Grant)
    (shown : option PairingRequestForApproval) (answer : UserAnswer) (decision : PairingApproval) (s : Service)
  : Service :=
  let '(n, o) := conclude network (in_peer i) shown requested decision (net s) in
  match event_accepted o with
  | None => finish_pairing k i now stream answer o (with_net n s)
  | Some _ =>
    with_task k i (StPairing (AwaitEvent o))
      (record_run {| r_peer := in_peer i; r_code := in_code i; r_now := now; r_stream := stream;
                   r_answer := answer; r_outcome := o |} (with_net n s))
  end.

(** What a pairing task does when it is resumed; [None] when that is not what it awaits. *)
Definition pairing_step (k : nat) (i : Incoming) (p : PairingStage) (ev : Event) (s : Service) : option Service :=
  match p, ev with
  | Spawned, EvPolled => Some (with_task k i (StPairing AwaitGate) (with_gate (gate s ++ [k]) s))
  | AwaitGate, EvStream now stream =>
    if negb (holds_permit k s) then None else
    Some match stream with
         | Err _ => end_task k (StPairing p) s
         | Ok stream =>
           match pairing_request (in_peer i) now stream with
           | Err error => finish_pairing k i now stream NoAnswer (stopped None error) s
           | Ok requested => with_task k i (StPairing (AwaitPeers now stream requested)) s
           end
         end
  | AwaitPeers now stream requested, EvNetwork =>
    Some (let '(n, r) := paired_peers network (net s) in
          let s := with_net n s in
          match r with
          | Err error => finish_pairing k i now stream NoAnswer (stopped None error) s
          | Ok stored =>
            with_task k i
              (StPairing (if is_paired (in_peer i) stored && is_empty requested
                          then AwaitConfirm now stream requested stored None NoAnswer
                                 {| accepted := true; approved_grants := [] |}
                          else AwaitUi now stream requested stored)) s
          end)
  | AwaitUi now stream requested stored, EvUi taken =>
    Some (if taken then with_task k i (StPairing (AwaitAnswer now stream requested stored)) s
          else finish_pairing k i now stream UiStopped (stopped None "pairing UI stopped") s)
  | AwaitAnswer now stream requested stored, EvAnswer approval =>
    Some (with_task k i
            (StPairing (AwaitConfirm now stream requested stored
               (Some (approval_request (in_peer i) (in_code i) requested))
               match approval with Some approval => Answered approval | None => NoAnswer end
               match approval with Some approval => approval | None => rejected end)) s)
  | AwaitConfirm now stream requested _ shown answer decision, EvNetwork =>
    Some (confirm k i now stream requested shown answer decision s)
  | AwaitEvent o, EvDelivered => Some (with_task k i (StPairing (AwaitWrite o)) s)
  | AwaitWrite o, EvWritten ok =>
    Some (end_task k (StPairing p)
            (if ok && closed o then close_session k s else s))
  | _, EvEnded => Some (end_task k (StPairing p) s)
  | _, _ => None
  end.

(** ** Control sessions *)

(** [serve_control_session], up to the welcome of [handle_quic_connection]. *)
Definition control_step (k : nat) (i : Incoming) (c : ControlStage) (ev : Event) (s : Service) : option Service :=
  match c, ev with
  | AwaitStream, EvStream _ stream =>
    Some match stream with
         | Err _ => end_task k (StControl c) s
         | Ok stream =>
           if Session.control_stream_ok stream then with_task k i (StControl AwaitGrants) s
           else end_task k (StControl c) s
         end
  | AwaitGrants, EvFeatures a no r inp wk =>
    Some (let '(n, g) := network_grants (peer_device_id (in_peer i)) (net s) in
          let s := with_net n s in
          match g with
          | Err _ => end_task k (StControl c) s
          | Ok grants =>
            with_task k i (StControl (AwaitHello (Negotiation.server_features a no r inp wk) grants
                             (RemoteFiles.from_grants grants RemoteFiles.Inbound))) s
          end)
  | AwaitHello features grants access, EvHello epoch now first =>
    Some match Session.open_session features grants epoch now first with
         | Err _ => end_task k (StControl c) s
         | Ok (au, _) => with_task k i (StControl (Open grants au access)) s
         end
  | _, EvEnded => Some (end_task k (StControl c) s)
  | _, _ => None
  end.

Definition task_step (k : nat) (ev : Event) (s : Service) : option Service :=
  '(i, st) ← tasks s !! k;
  match st with StPairing p => pairing_step k i p ev s | StControl c => control_step k i c ev s end.
(** Someone else changes the network. *)
Definition change (n : N) (s : Service) : Service :=
  {| net := n; tasks := tasks s; next := next s; gate := gate s; controls := controls s;
     session_closed := session_closed s; running := running s; history := history s ++ [Changed (net s) n] |}.

Inductive step (s : Service) : Service -> Prop :=
| step_incoming r : running s = true -> step s (on_incoming r s)
| step_task k ev s' : task_step k ev s = Some s' -> step s s'
| step_change n : step s (change n s).
End service.

(** ** One pairing at a time *)

Section gate.
Context {N : Type}.
Notation Service := (Service (N := N)).

(** A pairing that was let through the gate. *)
Definition past_gate (p : PairingStage) : bool :=
  match p with Spawned | AwaitGate => false | _ => true end.
Definition pairing_at (s : Service) (k : nat) (p : PairingStage) : Prop :=
  exists i, tasks s !! k = Some (i, StPairing p).

Record gate_inv (s : Service) : Prop := {
  gi_keys : forall k x, tasks s !! k = Some x -> (k < next s)%nat;
  gi_nodup : NoDup (gate s);
  gi_live : forall k, k ∈ gate s <-> exists p, pairing_at s k p /\ p <> Spawned;
  gi_holder : forall k p, pairing_at s k p -> past_gate p = true -> head (gate s) = Some k;
  gi_control : forall k, k ∈ controls s ->
    (k < next s)%nat /\ (k ∈ session_closed s \/ exists i c, tasks s !! k = Some (i, StControl c));
}.

Lemma gate_new n : gate_inv (new n).
Proof.
  split; cbn; [done|constructor| | |set_solver].
  - intros k. split; [by intros ?%elem_of_nil|]. intros (p & [i Hi] & _). done.
  - by intros k p [i Hi].
Qed.

(** Nothing but the tasks, the gate and the sessions matters. *)
Lemma gate_same s s' :
  tasks s' = tasks s -> next s' = next s -> gate s' = gate s -> controls s' = controls s ->
  session_closed s ⊆ session_closed s' -> gate_inv s -> gate_inv s'.
Proof.
  intros Et En Eg Ec Hs [I1 I2 I3 I4 I5]. unfold pairing_at in *.
  split; unfold pairing_at; rewrite ?Et, ?En, ?Eg, ?Ec; try done.
  intros k Hk. destruct (I5 k Hk) as [? [?|?]]; split; auto.
Qed.

Lemma pairing_at_with_task s k i st k' p :
  pairing_at (with_task k i st s) k' p <-> (k' = k /\ st = StPairing p) \/ (k' <> k /\ pairing_at s k' p).
Proof.
  unfold pairing_at, with_task. cbn. destruct (decide (k' = k)) as [->|Hk].
  - rewrite lookup_insert_eq. naive_solver.
  - setoid_rewrite lookup_insert_ne; [|done]. naive_solver.
Qed.
Lemma gate_pairing s k i p p' :
  gate_inv s -> tasks s !! k = Some (i, StPairing p) -> p <> Spawned -> p' <> Spawned ->
  (past_gate p' = true -> head (gate s) = Some k) ->
  gate_inv (with_task k i (StPairing p') s).
Proof.
  intros [I1 I2 I3 I4 I5] Hk Hp Hp' Hh. split; [|done| | |].
  - intros k' x. cbn. destruct (decide (k' = k)) as [->|]; [intros _; by eapply I1|].
    rewrite lookup_insert_ne by done. apply I1.
  - intros k'. cbn. setoid_rewrite pairing_at_with_task. rewrite I3. destruct (decide (k' = k)) as [->|Hne].
    + split; [intros _; exists p'; split; [by left|done]|]. intros _. exists p. split; [by exists i|done].
    + naive_solver.
  - intros k' q Hq Hpast. cbn. apply pairing_at_with_task in Hq as [[-> [= <-]]|[_ Hq]]; [by apply Hh|].
    by eapply I4.
  - intros k' Hc. destruct (I5 k' Hc) as [Hlt Hor]. split; [done|]. cbn. destruct Hor as [?|(i' & c & Hi)]; [by left|].
    right. exists i', c. rewrite lookup_insert_ne; [done|]. intros ->. congruence.
Qed.
Lemma gate_control s k i c c' :
  gate_inv s -> tasks s !! k = Some (i, StControl c) -> gate_inv (with_task k i (StControl c') s).
Proof.
  intros [I1 I2 I3 I4 I5] Hk. assert (forall k' q, pairing_at (with_task k i (StControl c') s) k' q <-> pairing_at s k' q) as Hp.
  { intros k' q. rewrite pairing_at_with_task. split; [by intros [[_ ?]|[_ ?]]|]. intros [i' Hi]. right.
    split; [congruence|by exists i']. }
  split; [|done| | |].
  - intros k' x. cbn. destruct (decide (k' = k)) as [->|]; [intros _; by eapply I1|].
    rewrite lookup_insert_ne by done. apply I1.
  - intros k'. cbn. setoid_rewrite Hp. apply I3.
  - intros k' q. cbn. rewrite Hp. apply I4.
  - intros k' Hc. destruct (I5 k' Hc) as [Hlt Hor]. split; [done|]. cbn. destruct Hor as [?|(i' & c0 & Hi)]; [by left|].
    right. destruct (decide (k' = k)) as [->|]; [exists i, c'; by rewrite lookup_insert_eq|].
    exists i', c0. by rewrite lookup_insert_ne.
Qed.
Lemma pairing_at_end s k st k' p : pairing_at (end_task k st s) k' p <-> k' <> k /\ pairing_at s k' p.
Proof.
  unfold pairing_at, end_task. cbn. setoid_rewrite lookup_delete_Some. naive_solver.
Qed.
Lemma head_filter_ne (l : list nat) k h :
  head l = Some h -> h <> k -> head (filter (fun x => x <> k) l) = Some h.
Proof. destruct l as [|x l]; [done|]. intros [= ->] Hne. by rewrite filter_cons_True. Qed.
Lemma gate_end s k i st st' :
  gate_inv s -> tasks s !! k = Some (i, st) -> is_control st' = is_control st -> gate_inv (end_task k st' s).
Proof.
  intros [I1 I2 I3 I4 I5] Hk Est. split.
  - intros k' x. cbn. intros [_ Hx]%lookup_delete_Some. by eapply I1.
  - cbn. by apply NoDup_filter.
  - intros k'. cbn. rewrite list_elem_of_filter, I3. setoid_rewrite pairing_at_end. naive_solver.
  - intros k' q [Hne Hq]%pairing_at_end Hpast. apply head_filter_ne; [by eapply I4|done].
  - intros k' Hc. destruct (I5 k' Hc) as [Hlt Hor]. split; [done|]. cbn. rewrite Est.
    destruct Hor as [Hcl|(i' & c & Hi)]; [left; destruct (is_control st); set_solver|].
    destruct (decide (k' = k)) as [->|Hne]; [|right; exists i', c; by rewrite lookup_delete_ne].
    left. rewrite Hk in Hi. injection Hi as -> ->. cbn. set_solver.
Qed.
Lemma gate_enter s k i :
  gate_inv s -> tasks s !! k = Some (i, StPairing Spawned) ->
  gate_inv (with_task k i (StPairing AwaitGate) (with_gate (gate s ++ [k]) s)).
Proof.
  intros [I1 I2 I3 I4 I5] Hk. assert (k ∉ gate s) as Hn.
  { rewrite I3. intros (p & [i' Hi] & Hp). rewrite Hk in Hi. naive_solver. }
  split.
  - intros k' x. cbn. destruct (decide (k' = k)) as [->|]; [intros _; by eapply I1|].
    rewrite lookup_insert_ne by done. apply I1.
  - cbn. apply NoDup_app. split; [done|]. split; [|apply NoDup_singleton]. set_solver.
  - intros k'. cbn. setoid_rewrite pairing_at_with_task. rewrite elem_of_app, list_elem_of_singleton, I3.
    change (pairing_at (with_gate (gate s ++ [k]) s)) with (pairing_at s). split.
    + intros [(p & Hp & Hns)| ->]; [|exists AwaitGate; split; [by left|done]].
      exists p. split; [|done]. right. split; [|done]. intros ->. apply Hn, I3. by exists p.
    + intros (p & [[-> _]|[_ Hp]] & Hns); [by right|]. left. by exists p.
  - intros k' q Hq Hpast. apply pairing_at_with_task in Hq as [[_ [= <-]]|[_ Hq]]; [done|].
    pose proof (I4 _ _ Hq Hpast) as Hh. cbn. by destruct (gate s).
  - intros k' Hc. destruct (I5 k' Hc) as [Hlt Hor]. split; [done|]. cbn. destruct Hor as [?|(i' & c & Hi)]; [by left|].
    right. exists i', c. rewrite lookup_insert_ne; [done|]. intros ->. congruence.
Qed.
Lemma gate_spawn s i st :
  gate_inv s -> (st = StPairing Spawned \/ exists c, st = StControl c) -> gate_inv (spawn i st s).
Proof.
  intros [I1 I2 I3 I4 I5] Hst. assert (tasks s !! next s = None) as Hf.
  { destruct (tasks s !! next s) eqn:E; [|done]. apply I1 in E. lia. }
  assert (forall k p, pairing_at (spawn i st s) k p -> p <> Spawned -> pairing_at s k p) as Hp.
  { intros k p [i' Hi] Hns. cbn in Hi. destruct (decide (k = next s)) as [->|].
    - rewrite lookup_insert_eq in Hi. naive_solver.
    - rewrite lookup_insert_ne in Hi by done. by exists i'. }
  split.
  - intros k x. cbn. destruct (decide (k = next s)) as [->|]; [lia|]. rewrite lookup_insert_ne by done.
    intros ?%I1. lia.
  - done.
  - intros k. cbn. rewrite I3. split.
    + intros (p & [i' Hi] & Hns). exists p. split; [|done]. exists i'. cbn. rewrite lookup_insert_ne; [done|]. congruence.
    + intros (p & Hpa & Hns). exists p. split; [by apply Hp|done].
  - intros k p Hpa Hpast. cbn. apply (I4 k p); [|done]. apply Hp; [done|]. by intros ->.
  - intros k. cbn. intros Hc. destruct (decide (k = next s)) as [->|Hne].
    + split; [lia|]. right. destruct Hst as [-> |[c ->]]; [|exists i, c; by rewrite lookup_insert_eq].
      cbn in Hc. apply I5 in Hc as [Hc _]. lia.
    + assert (k ∈ controls s) as Hc' by (destruct (is_control st); set_solver).
      destruct (I5 k Hc') as [Hlt Hor]. split; [lia|]. destruct Hor as [?|(i' & c & Hi)]; [by left|].
      right. exists i', c. by rewrite lookup_insert_ne.
Qed.
Lemma gate_stop s : gate_inv s -> gate_inv (stop s).
Proof.
  intros [I1 I2 I3 I4 I5]. split; cbn; [done|constructor| | |].
  - intros k. split; [by intros ?%elem_of_nil|]. by intros (p & [i Hi] & _).
  - by intros k p [i Hi].
  - intros k Hk. split; [by apply I5|]. left. set_solver.
Qed.
End gate.

(** ** What authority stands on *)

(** What the service relies on of the network runtime: asking it changes nothing, it hands out the
    grants it has stored, and a confirmation stores grants for the peer of the session only. *)
Class NetworkLaws {N} (network : Network N)
    (network_grants : string -> N -> N * result (list RemoteFiles.Grant) string) := {
  stored_grants : string -> N -> list RemoteFiles.Grant;
  paired_peers_reads : forall n, (paired_peers network n).1 = n;
  network_grants_reads : forall d n, (network_grants d n).1 = n;
  network_grants_stored : forall d n grants,
    (network_grants d n).2 = Ok grants -> grants ⊆ stored_grants d n;
  confirm_adds : forall peer grants n d g,
    g ∈ stored_grants d (confirm_pairing_with_grants network peer grants n).1 ->
    g ∈ stored_grants d n \/ (d = peer_device_id peer /\ g ∈ grants);
}.
#[local] Instance Grant_eq_dec : EqDecision RemoteFiles.Grant.
Proof. solve_decision. Defined.

Section consent.
Context `{!WireLimits} `{!FeatureCodes} `{!Requests.RequestCodes} `{!CapabilityTokens} `{!ProstEnum WireDirection}.
Context `{!ProstMessage PairingRequest} `{!ProstMessage PairingResponse} `{!FrameTransport}.
Context {N : Type} (network : Network N).
Context (network_grants : string -> N -> N * result (list RemoteFiles.Grant) string).
Context `{!NetworkLaws network network_grants}.
Notation Service := (Service (N := N)).
Notation Entry := (Entry (N := N)).
Notation step := (step network network_grants).
Notation Grant := RemoteFiles.Grant.

(** The user was shown the request of this device, with its verification code and this grant in
    it, and approved the grant. *)
Definition approved_in (run : Run) (g : Grant) : Prop :=
  (exists requested approval,
    shown (r_outcome run) = Some (approval_request (r_peer run) (r_code run) requested)
    /\ g ∈ requested
    /\ r_answer run = Answered approval /\ accepted approval = true
    /\ grant_key g ∈ approved_grants approval)
  /\ RemoteFiles.g_peer_id g = peer_device_id (r_peer run)
  /\ constraints_ok (RemoteFiles.g_capability g) (RemoteFiles.g_constraints g).
(** Where a grant of a device comes from: it was there at first, someone else added it, or the user
    approved it in a pairing of that device. *)
Definition accounted (n0 : N) (h : list Entry) (d : string) (g : Grant) : Prop :=
  g ∈ stored_grants d n0
  \/ (exists a b, Changed a b ∈ h /\ g ∉ stored_grants d a /\ g ∈ stored_grants d b)
  \/ (exists run, Paired run ∈ h /\ peer_device_id (r_peer run) = d /\ approved_in run g).
Lemma accounted_mono n0 h e d g : accounted n0 h d g -> accounted n0 (h ++ [e]) d g.
Proof.
  intros [?|[(a & b & Hin & ?)|(run & Hin & ?)]]; [by left|right; left|right; right].
  - exists a, b. split; [|done]. apply elem_of_app. by left.
  - exists run. split; [|done]. apply elem_of_app. by left.
Qed.

(** How the decision of a pairing came about. *)
Definition decided (i : Incoming) (requested : list Grant) (stored : list StoredPeer)
    (shown : option PairingRequestForApproval) (answer : UserAnswer) (decision : PairingApproval) : Prop :=
  match shown with
  | None => is_paired (in_peer i) stored && is_empty requested = true
      /\ decision = {| accepted := true; approved_grants := [] |}
  | Some request => is_paired (in_peer i) stored && is_empty requested = false
      /\ request = approval_request (in_peer i) (in_code i) requested
      /\ (answer = NoAnswer /\ decision = rejected \/ answer = Answered decision)
  end.
(** What is known of a task by its stage; [acc] are the grants accounted for. *)
Definition stage_ok (acc : string -> Grant -> Prop) (i : Incoming) (st : Stage) : Prop :=
  match st with
  | StPairing (AwaitPeers now stream requested) => pairing_request (in_peer i) now stream = Ok requested
  | StPairing (AwaitUi now stream requested stored | AwaitAnswer now stream requested stored) =>
    pairing_request (in_peer i) now stream = Ok requested
    /\ is_paired (in_peer i) stored && is_empty requested = false
  | StPairing (AwaitConfirm now stream requested stored shown answer decision) =>
    pairing_request (in_peer i) now stream = Ok requested
    /\ decided i requested stored shown answer decision
  | StControl (AwaitHello _ grants access) =>
    (forall g, g ∈ grants -> acc (peer_device_id (in_peer i)) g)
    /\ access = RemoteFiles.from_grants grants RemoteFiles.Inbound
  | StControl (Open grants au access) =>
    (forall g, g ∈ grants -> acc (peer_device_id (in_peer i)) g)
    /\ access = RemoteFiles.from_grants grants RemoteFiles.Inbound
    /\ Session.au_capabilities au = Session.granted_capabilities grants
  | _ => True
  end.
Lemma stage_ok_mono (acc acc' : string -> Grant -> Prop) i st :
  (forall d g, acc d g -> acc' d g) -> stage_ok acc i st -> stage_ok acc' i st.
Proof. intros Ha. destruct st as [[]|[]]; cbn; naive_solver. Qed.

Record consent_inv (n0 : N) (s : Service) : Prop := {
  ci_net : forall d g, g ∈ stored_grants d (net s) -> accounted n0 (history s) d g;
  ci_stage : forall k i st, tasks s !! k = Some (i, st) -> stage_ok (accounted n0 (history s)) i st;
}.

Lemma consent_tasks n0 s s' :
  net s' = net s -> history s' = history s ->
  (forall k i st, tasks s' !! k = Some (i, st) ->
     tasks s !! k = Some (i, st) \/ stage_ok (accounted n0 (history s)) i st) ->
  consent_inv n0 s -> consent_inv n0 s'.
Proof.
  intros En Eh Ht [C1 C2]. split; rewrite Eh; [by rewrite En|]. intros k i st Hk.
  destruct (Ht k i st Hk) as [Hk'|]; [by eapply C2|done].
Qed.
Lemma consent_with_task n0 s k i st :
  stage_ok (accounted n0 (history s)) i st -> consent_inv n0 s -> consent_inv n0 (with_task k i st s).
Proof.
  intros Hst. apply consent_tasks; [done|done|]. intros k' i' st'. cbn.
  destruct (decide (k' = k)) as [->|]; [rewrite lookup_insert_eq; intros [= <- <-]; by right|].
  rewrite lookup_insert_ne by done. by left.
Qed.
Lemma consent_end n0 s k st : consent_inv n0 s -> consent_inv n0 (end_task k st s).
Proof. apply consent_tasks; [done|done|]. intros k' i' st'. cbn. intros [_ ?]%lookup_delete_Some. by left. Qed.

(** Any change of the network, with its entry, that accounts for the grants it adds. *)
Lemma consent_entry n0 s s' e :
  history s' = history s ++ [e] -> tasks s' = tasks s ->
  (forall d g, g ∈ stored_grants d (net s') -> g ∈ stored_grants d (net s) \/ accounted n0 (history s') d g) ->
  consent_inv n0 s -> consent_inv n0 s'.
Proof.
  intros Eh Et Hn [C1 C2]. assert (forall d g, accounted n0 (history s) d g -> accounted n0 (history s') d g) as Hm.
  { intros d g. rewrite Eh. apply accounted_mono. }
  split.
  - intros d g Hg. destruct (Hn d g Hg) as [?|]; [|done]. by apply Hm, C1.
  - intros k i st. rewrite Et. intros Hk. eapply stage_ok_mono; [exact Hm|]. by eapply C2.
Qed.
Lemma consent_change n0 s n : consent_inv n0 s -> consent_inv n0 (change n s).
Proof.
  apply (consent_entry n0 s _ (Changed (net s) n)); [done|done|]. intros d g Hg. cbn in Hg.
  destruct (decide (g ∈ stored_grants d (net s))) as [|Hn]; [by left|]. right. right. left.
  exists (net s), n. split; [|done]. cbn. apply elem_of_app. right. by left.
Qed.
(** A pairing that is over without a confirmation. *)
Lemma consent_record n0 s run : consent_inv n0 s -> consent_inv n0 (record_run run s).
Proof. apply (consent_entry n0 s _ (Paired run)); [done|done|]. intros d g Hg. by left. Qed.
Lemma consent_finish n0 s k i now stream answer o :
  consent_inv n0 s -> consent_inv n0 (finish_pairing k i now stream answer o s).
Proof. intros Hc. by apply consent_end, consent_record. Qed.

Lemma conclude_net peer sh requested decision n n' o :
  conclude network peer sh requested decision n = (n', o) ->
  n' = if accepted decision then (confirm_pairing_with_grants network peer (approved_of decision requested) n).1 else n.
Proof.
  unfold conclude. destruct (accepted decision); [destruct (confirm_pairing_with_grants _ _ _ _) as [n1 r]|];
    repeat case_match; intros; simplify_eq; done.
Qed.
Lemma decided_approved i requested stored sh answer decision g now request :
  Forall (spelled (peer_device_id (in_peer i)) now (requested_grants request)) requested ->
  decided i requested stored sh answer decision -> accepted decision = true ->
  g ∈ approved_of decision requested ->
  forall run, shown (r_outcome run) = sh -> r_peer run = in_peer i -> r_code run = in_code i ->
  r_answer run = answer -> approved_in run g.
Proof.
  intros HF Hd Ha [Hg Hk]%approved_of_spec run Es Ep Ec Er; [|done].
  rewrite Forall_forall in HF. destruct (HF g Hg) as [P T C _]. unfold approved_in. rewrite Es, Ep, Ec, Er.
  split; [|by split]. destruct sh as [r|]; cbn in Hd.
  - destruct Hd as (_ & -> & [[_ ->]|Ha']); [done|]. exists requested, decision. done.
  - destruct Hd as [_ ->]. cbn in Hk. by apply elem_of_nil in Hk.
Qed.
Lemma consent_confirm n0 s k i now stream requested stored sh answer decision :
  stage_ok (accounted n0 (history s)) i (StPairing (AwaitConfirm now stream requested stored sh answer decision)) ->
  consent_inv n0 s -> consent_inv n0 (confirm network k i now stream requested sh answer decision s).
Proof.
  intros [Hr Hd] Hc. unfold confirm. destruct (conclude _ _ _ _ _ _) as [n o] eqn:Eo.
  destruct (pairing_request_Ok _ _ _ _ Hr) as (request & _ & HF & _).
  destruct (conclude_spec network _ _ _ _ _ _ _ Eo) as (Es & _). apply conclude_net in Eo.
  set (run := {| r_peer := in_peer i; r_code := in_code i; r_now := now; r_stream := stream;
                 r_answer := answer; r_outcome := o |}).
  assert (consent_inv n0 (record_run run (with_net n s))) as Hc'.
  { apply (consent_entry n0 s _ (Paired run)); [done|done| |done]. intros d g. cbn. rewrite Eo.
    destruct (accepted decision) eqn:Ea; [|by left]. intros [?|[-> Hg]]%confirm_adds; [by left|]. right. right. right.
    exists run. split; [apply elem_of_app; right; by left|]. split; [done|].
    by eapply decided_approved. }
  destruct (event_accepted o); [by apply consent_with_task|by apply consent_end].
Qed.

(** ** What one step does *)

Lemma with_net_id (s : Service) : with_net (net s) s = s.
Proof. by destruct s. Qed.

(** The paired peers a task has read and not yet acted on. *)
Definition read_by (p : PairingStage) : option (list StoredPeer) :=
  match p with
  | AwaitUi _ _ _ stored | AwaitAnswer _ _ _ stored | AwaitConfirm _ _ _ stored _ _ _ => Some stored
  | _ => None
  end.
(** A pairing run in one go, with the answer the user gave. *)
Definition run_pairing (i : Incoming) (now : Z) (stream : FeatureStream) (answer : UserAnswer) (n : N) : N * Outcome :=
  handle_v1_pairing network (fun _ => answer) (in_peer i) (in_code i) now stream n.

(** A step of a pairing enters the queue of the gate, ends the task, settles the pairing without a
    confirmation as [handle_v1_pairing] would, goes on to the next await, or confirms. *)
Inductive moved (k : nat) (i : Incoming) (p : PairingStage) (s : Service) : Service -> Prop :=
| moved_enter :
    p = Spawned ->
    moved k i p s (with_task k i (StPairing AwaitGate) (with_gate (gate s ++ [k]) s))
| moved_end (b : bool) :
    moved k i p s (end_task k (StPairing p) (if b then close_session k s else s))
| moved_settled now stream answer o :
    head (gate s) = Some k ->
    (forall acc, stage_ok acc i (StPairing p) ->
       (forall stored, read_by p = Some stored -> (paired_peers network (net s)).2 = Ok stored) ->
       run_pairing i now stream answer (net s) = (net s, o)) ->
    moved k i p s (finish_pairing k i now stream answer o s)
| moved_on p' :
    head (gate s) = Some k -> p <> Spawned -> p' <> Spawned ->
    (forall acc, stage_ok acc i (StPairing p) -> stage_ok acc i (StPairing p')) ->
    (forall stored, read_by p' = Some stored ->
       read_by p = Some stored \/ (paired_peers network (net s)).2 = Ok stored) ->
    moved k i p s (with_task k i (StPairing p') s)
| moved_confirm now stream requested stored sh answer decision :
    p = AwaitConfirm now stream requested stored sh answer decision ->
    moved k i p s (confirm network k i now stream requested sh answer decision s).

Lemma pairing_moved k i p ev s s' :
  gate_inv s -> tasks s !! k = Some (i, StPairing p) ->
  pairing_step network k i p ev s = Some s' -> moved k i p s s'.
Proof.
  intros Hg Hk. assert (past_gate p = true -> head (gate s) = Some k) as Hh.
  { intros Hp. eapply (gi_holder _ Hg); [by exists i|done]. }
  pose proof (paired_peers_reads (net s)) as Hread.
  destruct p, ev; cbn [pairing_step]; try discriminate;
    try (intros [= <-]; apply (moved_end _ _ _ _ false)); cbn [past_gate] in Hh; try specialize (Hh eq_refl).
  - intros [= <-]. by apply moved_enter.
  - unfold holds_permit. case_bool_decide as Hhead; cbn [negb]; [|done]. destruct stream as [stream|e]; intros [= <-];
      [|apply (moved_end _ _ _ _ false)].
    destruct (pairing_request _ _ _) as [requested|e] eqn:Er.
    + by apply moved_on.
    + apply moved_settled; [done|]. intros acc _ _. unfold run_pairing, handle_v1_pairing. by rewrite Er.
  - destruct (paired_peers network (net s)) as [n r] eqn:Ep. cbn in Hread. subst n. rewrite with_net_id.
    destruct r as [stored|e]; intros [= <-].
    + destruct (is_paired _ _ && _) eqn:Eb; (apply moved_on; [done|done|done| |]).
      * intros acc Hr. by split.
      * intros ? [= <-]. right. by rewrite Ep.
      * intros acc Hr. by split.
      * intros ? [= <-]. right. by rewrite Ep.
    + apply moved_settled; [done|]. cbn. intros acc Hr _. unfold run_pairing, handle_v1_pairing. by rewrite Hr, Ep.
  - destruct taken; intros [= <-].
    + apply moved_on; try done. intros ? [= <-]. by left.
    + apply moved_settled; [done|]. cbn. intros acc [Hr Hb] Hst. specialize (Hst _ eq_refl).
      unfold run_pairing, handle_v1_pairing. rewrite Hr. destruct (paired_peers network (net s)) as [n r].
      cbn in Hread, Hst. subst n r. by rewrite Hb.
  - intros [= <-]. apply moved_on; [done|done|done| |intros ? [= <-]; by left].
    intros acc [Hr Hb]. split; [done|]. split; [done|]. split; [done|]. destruct approval; [by right|by left].
  - intros [= <-]. by eapply moved_confirm.
  - intros [= <-]. by apply moved_on.
  - intros [= <-]. apply moved_end.
Qed.

(** A confirmation is the whole pairing, run at that moment. *)
Lemma confirm_is_run i now stream requested stored sh answer decision (s : Service) acc :
  stage_ok acc i (StPairing (AwaitConfirm now stream requested stored sh answer decision)) ->
  (paired_peers network (net s)).2 = Ok stored ->
  run_pairing i now stream answer (net s) = conclude network (in_peer i) sh requested decision (net s).
Proof.
  intros [Hr Hd] Hst. pose proof (paired_peers_reads (net s)) as Hread. unfold run_pairing, handle_v1_pairing.
  rewrite Hr. destruct (paired_peers network (net s)) as [n r]. cbn in Hread, Hst. subst n r.
  destruct sh as [request|]; cbn in Hd.
  - destruct Hd as (-> & -> & [[-> ->]| ->]); done.
  - by destruct Hd as [-> ->].
Qed.

(** A step of a control session ends it or takes it to its next stage. *)
Lemma control_moved k i c ev s s' :
  control_step network_grants k i c ev s = Some s' ->
  s' = end_task k (StControl c) s
  \/ exists c', s' = with_task k i (StControl c') s
     /\ forall acc : string -> Grant -> Prop, (forall d g, g ∈ stored_grants d (net s) -> acc d g) ->
        stage_ok acc i (StControl c) -> stage_ok acc i (StControl c').
Proof.
  destruct c, ev; cbn [control_step]; try discriminate; try (intros [= <-]; by left).
  - intros [= <-]. destruct stream as [stream|e]; [|by left].
    destruct (Session.control_stream_ok stream); [|by left]. right. by exists AwaitGrants.
  - pose proof (network_grants_reads (peer_device_id (in_peer i)) (net s)) as Hread.
    pose proof (network_grants_stored (peer_device_id (in_peer i)) (net s)) as Hstored.
    destruct (network_grants _ _) as [n r]. cbn in Hread, Hstored. subst n. rewrite with_net_id.
    destruct r as [grants|e]; intros [= <-]; [|by left]. right. eexists. split; [done|].
    intros acc Hacc _. split; [|done]. intros g Hg. apply Hacc. by apply (Hstored grants).
  - destruct (Session.open_session _ _ _ _ _) as [[au we]|e] eqn:Eo; intros [= <-]; [|by left].
    right. eexists. split; [done|]. intros acc _ [Hg Ha]. split; [done|]. split; [done|].
    unfold Session.open_session in Eo. destruct first; [|done|done].
    destruct (Negotiation.negotiate_features _ _); [|done]. cbn [rbind] in Eo.
    destruct (Negotiation.validate_receive_limits _ _); [|done]. cbn [rbind] in Eo. by injection Eo as <- <-.
Qed.

(** ** Invariants along a run *)

Lemma gate_confirm k i now stream requested stored sh answer decision s :
  gate_inv s -> tasks s !! k = Some (i, StPairing (AwaitConfirm now stream requested stored sh answer decision)) ->
  gate_inv (confirm network k i now stream requested sh answer decision s).
Proof.
  intros Hg Hk. unfold confirm. destruct (conclude _ _ _ _ _ _) as [n o].
  assert (forall run, gate_inv (record_run run (with_net n s))) as Hg'.
  { intros run. by eapply (gate_same s). }
  destruct (event_accepted o).
  - eapply gate_pairing; [done|exact Hk|done|done|]. intros _. eapply (gi_holder _ Hg); [by exists i|done].
  - by eapply gate_end; [|exact Hk|].
Qed.
Lemma gate_moved k i p s s' :
  gate_inv s -> tasks s !! k = Some (i, StPairing p) -> moved k i p s s' -> gate_inv s'.
Proof.
  intros Hg Hk Hm. destruct Hm as [Hp|b|now stream answer o Hh _|p' Hh Hp Hp' _ _|? ? ? ? ? ? ? Hp].
  - subst p. by apply gate_enter.
  - eapply gate_end; [|by destruct b|done]. destruct b; [|done]. by eapply (gate_same s); [..|cbn; set_solver|].
  - by eapply gate_end; [eapply (gate_same s)|exact Hk|].
  - by eapply gate_pairing.
  - subst p. by eapply gate_confirm.
Qed.
Lemma consent_moved n0 k i p s s' :
  consent_inv n0 s -> tasks s !! k = Some (i, StPairing p) -> moved k i p s s' -> consent_inv n0 s'.
Proof.
  intros Hc Hk Hm. pose proof (ci_stage _ _ Hc _ _ _ Hk) as Hst.
  destruct Hm as [Hp|b|now stream answer o Hh _|p' Hh Hp Hp' Hs _|? ? ? ? ? ? ? Hp].
  - apply consent_with_task; [done|]. by eapply (consent_tasks n0 s); [..|by left|].
  - apply consent_end. destruct b; [|done]. by eapply (consent_tasks n0 s); [..|by left|].
  - by apply consent_finish.
  - apply consent_with_task; [by apply Hs|done].
  - subst p. by eapply consent_confirm.
Qed.

Lemma step_inv n0 s s' : gate_inv s /\ consent_inv n0 s -> step s s' -> gate_inv s' /\ consent_inv n0 s'.
Proof.
  intros [Hg Hc] [r Hrun|k ev s1 Hs|n].
  - destruct r as [i| |]; cbn; [|done|].
    + assert (forall st, (st = StPairing Spawned \/ st = StControl AwaitStream) ->
        gate_inv (spawn i st s) /\ consent_inv n0 (spawn i st s)) as Hsp.
      { intros st Hst. split; [apply gate_spawn; [done|]; destruct Hst; eauto|].
        eapply (consent_tasks n0 s); [done|done| |done]. intros k i' st'. cbn.
        destruct (decide (k = next s)) as [->|]; [rewrite lookup_insert_eq; intros [= <- <-]; right; by destruct Hst as [-> | ->]|].
        rewrite lookup_insert_ne by done. by left. }
      destruct (in_kind i); [apply Hsp; by left|apply Hsp; by right|done].
    + split; [by apply gate_stop|]. by eapply (consent_tasks n0 s).
  - unfold task_step in Hs. destruct (tasks s !! k) as [[i st]|] eqn:Hk; [|done]. cbn in Hs. destruct st as [p|c].
    + pose proof (pairing_moved _ _ _ _ _ _ Hg Hk Hs) as Hm. split; [by eapply gate_moved|by eapply consent_moved].
    + destruct (control_moved _ _ _ _ _ _ Hs) as [-> |(c' & -> & Hst)].
      * split; [by eapply gate_end|by apply consent_end].
      * split; [by eapply gate_control|]. apply consent_with_task; [|done]. apply Hst; [apply Hc|].
        by eapply (ci_stage _ _ Hc).
  - split; [by eapply (gate_same s)|by apply consent_change].
Qed.
Lemma consent_new n0 : consent_inv n0 (new n0).
Proof. split; [by left|done]. Qed.
Lemma service_reachable n0 s : rtc step (new n0) s -> gate_inv s /\ consent_inv n0 s.
Proof.
  intros Hr. eapply (rtc_ind_r (fun s => gate_inv s /\ consent_inv n0 s)); [| |exact Hr].
  - split; [apply gate_new|apply consent_new].
  - intros s1 s2 _ Hs Hi. by eapply step_inv.
Qed.

(** A grant that this device was given in one of these ways. *)
Definition founded (n0 : N) (s : Service) (d : string) (g : Grant) : Prop :=
  RemoteFiles.g_direction g = RemoteFiles.Inbound /\ accounted n0 (history s) d g.

(** C12: the authority of a control session stands on consent.  Whatever sessions come in, whatever
    their peers send, however the user answers and in whatever order the tasks run: every
    capability of an open control session, and every share it may read or write, goes back to a
    grant for the session's own device that was stored before the service started, that was added
    by someone else than the service, or that the user approved when shown the pairing request of
    that device with its verification code and that very grant in it. *)
Theorem authority_stands_on_consent n0 s k i grants au access :
  rtc step (new n0) s -> tasks s !! k = Some (i, StControl (Open grants au access)) ->
  let d := peer_device_id (in_peer i) in
  (forall c, c ∈ Session.au_capabilities au -> exists g, RemoteFiles.g_capability g = c /\ founded n0 s d g)
  /\ (forall share, RemoteFiles.can_read access share = true ->
        exists g, RemoteFiles.reads g share /\ founded n0 s d g)
  /\ (forall share, RemoteFiles.can_write access share = true ->
        exists g, RemoteFiles.writes g share /\ founded n0 s d g).
Proof.
  intros Hr Hk d. destruct (service_reachable _ _ Hr) as [_ Hc].
  destruct (ci_stage _ _ Hc _ _ _ Hk) as (Hg & -> & ->). split_and!.
  - intros c. unfold Session.granted_capabilities. rewrite elem_of_list_to_set.
    intros (g & -> & [Hd Hin]%list_elem_of_filter)%list_elem_of_fmap. exists g. split; [done|]. split; [done|by apply Hg].
  - intros share (g & Hin & Hd & Hs)%RemoteFiles.from_grants_read. exists g. split; [done|]. split; [done|by apply Hg].
  - intros share (g & Hin & Hd & Hs)%RemoteFiles.from_grants_write. exists g. split; [done|]. split; [done|by apply Hg].
Qed.

(** ** Pairings as if one after the other *)

(** The history as a sequence of whole pairings and of the changes by others. *)
Inductive serial (n0 : N) : list Entry -> N -> Prop :=
| serial_start : serial n0 [] n0
| serial_paired h n n' run :
    serial n0 h n ->
    handle_v1_pairing network (fun _ => r_answer run) (r_peer run) (r_code run) (r_now run) (r_stream run) n
      = (n', r_outcome run) ->
    serial n0 (h ++ [Paired run]) n'
| serial_changed h n n' : serial n0 h n -> serial n0 (h ++ [Changed n n']) n'.
(** Others do not pair or unpair devices. *)
Definition keeps_pairs (e : Entry) : Prop :=
  match e with
  | Paired _ => True
  | Changed a b => (paired_peers network a).2 = (paired_peers network b).2
  end.
Record serial_inv (n0 : N) (s : Service) : Prop := {
  si_serial : serial n0 (history s) (net s);
  si_read : forall k p stored, pairing_at s k p -> read_by p = Some stored ->
    (paired_peers network (net s)).2 = Ok stored;
}.

Lemma serial_tasks n0 s s' :
  net s' = net s -> history s' = history s ->
  (forall k p stored, pairing_at s' k p -> read_by p = Some stored ->
     pairing_at s k p \/ (paired_peers network (net s)).2 = Ok stored) ->
  serial_inv n0 s -> serial_inv n0 s'.
Proof.
  intros En Eh Ht [S1 S2]. split; rewrite ?En, ?Eh; [done|]. intros k p stored Hp Hs.
  destruct (Ht k p stored Hp Hs) as [?|?]; [by eapply S2|done].
Qed.
Lemma serial_end n0 s k st : serial_inv n0 s -> serial_inv n0 (end_task k st s).
Proof. apply serial_tasks; [done|done|]. intros k' p stored [_ Hp]%pairing_at_end _. by left. Qed.
Lemma serial_with_task n0 s k i st :
  (forall p stored, st = StPairing p -> read_by p = Some stored -> (paired_peers network (net s)).2 = Ok stored) ->
  serial_inv n0 s -> serial_inv n0 (with_task k i st s).
Proof.
  intros Hst. apply serial_tasks; [done|done|]. intros k' p stored Hp Hs.
  apply pairing_at_with_task in Hp as [[-> ->]|[_ Hp]]; [right; by eapply Hst|by left].
Qed.
(** A confirmation: no other pairing has read the peers it may change. *)
Lemma serial_confirm n0 k i now stream requested stored sh answer decision s :
  gate_inv s -> consent_inv n0 s -> serial_inv n0 s ->
  tasks s !! k = Some (i, StPairing (AwaitConfirm now stream requested stored sh answer decision)) ->
  serial_inv n0 (confirm network k i now stream requested sh answer decision s).
Proof.
  intros Hg Hc [S1 S2] Hk. pose proof (ci_stage _ _ Hc _ _ _ Hk) as Hst.
  assert (pairing_at s k (AwaitConfirm now stream requested stored sh answer decision)) as Hpk by by exists i.
  pose proof (confirm_is_run _ _ _ _ _ _ _ _ _ _ Hst (S2 _ _ _ Hpk eq_refl)) as Hrun. unfold confirm.
  destruct (conclude _ _ _ _ _ _) as [n o]. set (run := Build_Run _ _ _ _ _ _).
  assert (serial n0 (history s ++ [Paired run]) n) as S1'.
  { eapply serial_paired; [exact S1|]. exact Hrun. }
  assert (forall k' p stored', k' <> k -> pairing_at s k' p -> read_by p = Some stored' -> False) as Hother.
  { intros k' p stored' Hne Hp Hrd. assert (past_gate p = true) as Hpast by by destruct p.
    pose proof (gi_holder _ Hg _ _ Hp Hpast) as E1. pose proof (gi_holder _ Hg _ _ Hpk eq_refl) as E2. congruence. }
  destruct (event_accepted o); split; try exact S1'.
  - intros k' p stored' Hp Hrd. exfalso. apply pairing_at_with_task in Hp as [[-> [= <-]]|[Hne Hp]]; [done|]. by eapply Hother.
  - intros k' p stored' Hp Hrd. exfalso. unfold finish_pairing in Hp. apply pairing_at_end in Hp as [Hne Hp]. by eapply Hother.
Qed.
Lemma serial_moved n0 k i p s s' :
  gate_inv s -> consent_inv n0 s -> serial_inv n0 s -> tasks s !! k = Some (i, StPairing p) ->
  moved k i p s s' -> serial_inv n0 s'.
Proof.
  intros Hg Hc Hs Hk Hm. pose proof (ci_stage _ _ Hc _ _ _ Hk) as Hst.
  assert (forall stored, read_by p = Some stored -> (paired_peers network (net s)).2 = Ok stored) as Hread.
  { intros stored. eapply (si_read _ _ Hs k). by exists i. }
  destruct Hm as [Hp|b|now stream answer o Hh Ho|p' Hh Hp Hp' _ Hr|? ? ? ? ? ? ? Hp].
  - apply serial_with_task; [by intros ? ? [= <-]|]. eapply (serial_tasks n0 s); by eauto.
  - apply serial_end. destruct b; [|done]. eapply (serial_tasks n0 s); by eauto.
  - apply serial_end. split; [|intros k' q stored Hq; by eapply (si_read _ _ Hs)].
    eapply serial_paired; [apply Hs|]. by apply (Ho _ Hst).
  - apply serial_with_task; [|done]. intros ? stored [= <-] [?|?]%Hr; auto.
  - subst p. by eapply serial_confirm.
Qed.
Lemma step_serial n0 s s' :
  gate_inv s -> consent_inv n0 s -> serial_inv n0 s -> step s s' -> Forall keeps_pairs (history s') ->
  serial_inv n0 s'.
Proof.
  intros Hg Hc Hs [r Hrun|k ev s1 Hst|n] HF.
  - destruct r as [i| |]; cbn; [|done|].
    + assert (forall st, (forall p, st = StPairing p -> p = Spawned) -> serial_inv n0 (spawn i st s)) as Hsp.
      { intros st Hp. eapply (serial_tasks n0 s); [done|done| |done]. intros k p stored [i' Hi] Hrd. cbn in Hi.
        destruct (decide (k = next s)) as [->|]; [rewrite lookup_insert_eq in Hi|rewrite lookup_insert_ne in Hi by done; left; by exists i'].
        injection Hi as -> ->. by rewrite (Hp p eq_refl) in Hrd. }
      destruct (in_kind i); [apply Hsp; by intros ? [= <-]|apply Hsp; done|done].
    + eapply (serial_tasks n0 s); [done|done| |done]. by intros k p stored [i Hi].
  - unfold task_step in Hst. destruct (tasks s !! k) as [[i st]|] eqn:Hk; [|done]. cbn in Hst. destruct st as [p|c].
    + eapply serial_moved; [done|done|done|done|by eapply pairing_moved].
    + destruct (control_moved _ _ _ _ _ _ Hst) as [-> |(c' & -> & _)]; [by apply serial_end|].
      by apply serial_with_task.
  - apply Forall_app in HF as [_ [HF _]%Forall_cons]. unfold keeps_pairs in HF.
    split; [apply serial_changed, Hs|]. cbn. rewrite <- HF. intros k p stored Hp. by eapply (si_read _ _ Hs).
Qed.
Lemma step_history s s' : gate_inv s -> step s s' -> history s `prefix_of` history s'.
Proof.
  intros Hg [r Hrun|k ev s1 Hst|n]; [destruct r as [i| |]; cbn; try destruct (in_kind i); done| |by eexists].
  unfold task_step in Hst. destruct (tasks s !! k) as [[i st]|] eqn:Hk; [|done]. cbn in Hst. destruct st as [p|c].
  - destruct (pairing_moved _ _ _ _ _ _ Hg Hk Hst) as [|[]| | |]; try done; [by eexists|].
    unfold confirm. destruct (conclude _ _ _ _ _ _) as [n o]. destruct (event_accepted o); by eexists.
  - by destruct (control_moved _ _ _ _ _ _ Hst) as [-> |(c' & -> & _)].
Qed.
Lemma reachable_serial n0 s :
  rtc step (new n0) s -> Forall keeps_pairs (history s) -> serial_inv n0 s.
Proof.
  intros Hr. eapply (rtc_ind_r (fun s => rtc step (new n0) s -> Forall keeps_pairs (history s) -> serial_inv n0 s));
    [| |exact Hr|exact Hr].
  - intros _ _. split; [constructor|]. by intros k p stored [i Hi].
  - intros s1 s2 Hr1 Hs IH _ HF. destruct (service_reachable _ _ Hr1) as [Hg Hc].
    eapply step_serial; [done|done| |done|done]. apply IH; [done|].
    destruct (step_history _ _ Hg Hs) as [l E]. rewrite E in HF. by apply Forall_app in HF as [HF _].
Qed.

(** C13: pairings happen one at a time.  However their tasks interleave, with each other, with
    control sessions and with what others do to the network short of pairing devices themselves,
    the network is as if every pairing had been run in one go at the moment it took effect, with
    the same outcome for its peer.  At most one pairing is past the gate, so at most one request
    is before the user; and whoever is in line at the gate is a pairing that is still going on. *)
Theorem pairings_serialised n0 s :
  rtc step (new n0) s -> Forall keeps_pairs (history s) ->
  serial n0 (history s) (net s)
  /\ (forall k1 k2 p1 p2, pairing_at s k1 p1 -> pairing_at s k2 p2 -> past_gate p1 = true -> past_gate p2 = true -> k1 = k2)
  /\ (forall k, k ∈ gate s <-> exists p, pairing_at s k p /\ p <> Spawned).
Proof.
  intros Hr HF. destruct (service_reachable _ _ Hr) as [Hg _]. split_and!.
  - by apply reachable_serial.
  - intros k1 k2 p1 p2 Hk1 Hk2 G1 G2. apply (gi_holder _ Hg _ _ Hk1) in G1. apply (gi_holder _ Hg _ _ Hk2) in G2. congruence.
  - apply Hg.
Qed.

(** The transport of a control session is closed when its task is over, however it ended. *)
Lemma ended_controls_closed n0 s k :
  rtc step (new n0) s -> k ∈ controls s -> tasks s !! k = None -> k ∈ session_closed s.
Proof.
  intros Hr Hk Hn. destruct (service_reachable _ _ Hr) as [Hg _].
  destruct (gi_control _ Hg k Hk) as [_ [?|(i & c & Hi)]]; [done|]. congruence.
Qed.
End consent.

(** ** Witness: two devices pair at once, and the first one opens a control session *)

#[local] Existing Instance constraints_eq.
#[local] Existing Instance capability_grant_eq.
#[local] Existing Instance pairing_request_eq.
#[local] Existing Instance pairing_result_eq.
#[local] Existing Instance pairing_response_eq.
#[local] Existing Instance capability_grant_countable.
#[local] Existing Instance pairing_request_countable.
#[local] Existing Instance pairing_response_countable.
#[local] Existing Instance toy_limits.
#[local] Existing Instance toy_features.
#[local] Existing Instance Snapshots.toy_requests.
#[local] Existing Instance toy_tokens.
#[local] Existing Instance toy_directions.
#[local] Existing Instance RemoteFiles.toy_message.
#[local] Existing Instance RemoteFiles.toy_frames.

(** A network whose state is the grants stored, each with its device. *)
Definition wnetwork : Network (list (string * RemoteFiles.Grant)) :=
  {| paired_peers := fun n => (n, Ok []);
     confirm_pairing_with_grants := fun peer grants n => (n ++ (pair (peer_device_id peer) <$> grants), Ok tt);
     local_device_id := "host" |}.
Definition wgrants_of (d : string) (n : list (string * RemoteFiles.Grant)) : list RemoteFiles.Grant :=
  snd <$> filter (fun x => x.1 = d) n.
Definition wnetwork_grants (d : string) (n : list (string * RemoteFiles.Grant))
  : list (string * RemoteFiles.Grant) * result (list RemoteFiles.Grant) string := (n, Ok (wgrants_of d n)).
#[local] Instance wlaws : NetworkLaws wnetwork wnetwork_grants.
Proof.
  refine {| stored_grants := wgrants_of |}; [done|done|by intros d n ? [= <-]|].
  intros peer grants n d g. unfold wgrants_of. cbn. rewrite filter_app, fmap_app, elem_of_app.
  intros [?|([d' g'] & -> & [E Hin]%list_elem_of_filter)%list_elem_of_fmap]; [by left|]. right.
  apply list_elem_of_fmap in Hin as (g & [= -> ->] & Hin). cbn in *. by subst.
Defined.

(** A schedule: what the loop receives and how tasks are resumed. *)
Definition act (a : Subscriptions.Recv Incoming + nat * Event) (s : Service) : option Service :=
  match a with
  | inl r => if running s then Some (on_incoming r s) else None
  | inr (k, ev) => task_step wnetwork wnetwork_grants k ev s
  end.
Definition acts (l : list (Subscriptions.Recv Incoming + nat * Event)) (s : Service) : option Service :=
  fold_left (fun o a => s ← o; act a s) l (Some s).
Lemma acts_steps l s s' : acts l s = Some s' -> rtc (step wnetwork wnetwork_grants) s s'.
Proof.
  revert s. induction l as [|a l IH]; intros s; [intros [= <-]; apply rtc_refl|]. unfold acts. cbn.
  destruct (act a s) as [s1|] eqn:Ea; [|intros E; exfalso; revert E; clear; induction l; done].
  intros Hl. eapply rtc_l; [|by apply IH]. destruct a as [r|[k ev]]; cbn in Ea; [|by eapply step_task].
  destruct (running s) eqn:Er; [|done]. injection Ea as <-. by apply step_incoming.
Qed.

Definition wphone (kind : SessionKind) : Incoming := {| in_kind := kind; in_peer := wpeer; in_code := "1234" |}.
Definition wtablet : Incoming :=
  {| in_kind := SkPairing; in_code := "5678";
     in_peer := {| peer_device_id := "tablet"; peer_public_key := [Byte.x08]; peer_name := "Tablet" |} |}.
Definition wcontrol_stream : FeatureStream :=
  {| feature_id := Session.CONTROL_TYPE_URL; minor_negotiated := true; opening_payload := [] |}.
Definition wapproval : PairingApproval :=
  {| accepted := true; approved_grants := [(Requests.RemoteFilesWrite, RemoteFiles.Inbound)] |}.
Definition wschedule : list (Subscriptions.Recv Incoming + nat * Event) :=
  [inl (Subscriptions.Received (wphone SkPairing)); inl (Subscriptions.Received wtablet);
   inr (0%nat, EvPolled); inr (1%nat, EvPolled); inr (0%nat, EvStream 7 (Ok wstream)); inr (0%nat, EvNetwork);
   inr (0%nat, EvUi true); inr (0%nat, EvAnswer (Some wapproval)); inr (0%nat, EvNetwork); inr (0%nat, EvDelivered);
   inl (Subscriptions.Received (wphone SkControl)); inr (0%nat, EvWritten true);
   inr (1%nat, EvStream 9 (Ok wstream)); inr (2%nat, EvStream 9 (Ok wcontrol_stream)); inr (1%nat, EvNetwork);
   inr (2%nat, EvFeatures false false true false false); inr (1%nat, EvUi true);
   inr (2%nat, EvHello 9 1 (Session.FirstHello Session.whello)); inr (1%nat, EvAnswer None)].
Definition wservice : option Service := acts wschedule (new []).

(** The phone has an open session with the share it was granted; the tablet holds the gate. *)
Definition phone_writes (s : Service (N := list (string * RemoteFiles.Grant))) : bool :=
  match tasks s !! 2%nat with
  | Some (i, StControl (Open _ _ access)) =>
    RemoteFiles.can_write access "home" && str_eqb (peer_device_id (in_peer i)) "phone"
  | _ => false
  end.
Definition one_paired (s : Service (N := list (string * RemoteFiles.Grant))) : bool :=
  match history s with [Paired _] => true | _ => false end
  && bool_decide (gate s = [1%nat]) && (length (net s) =? 1)%nat.
Lemma wservice_runs :
  match wservice with Some s => phone_writes s && one_paired s | None => false end = true.
Proof. vm_compute. reflexivity. Qed.

Lemma authority_stands_on_consent_witness :
  exists s i grants au access g,
    wservice = Some s /\ tasks s !! 2%nat = Some (i, StControl (Open grants au access))
    /\ RemoteFiles.can_write access "home" = true
    /\ RemoteFiles.writes g "home" /\ accounted wnetwork wnetwork_grants [] (history s) "phone" g.
Proof.
  pose proof wservice_runs as Hw. destruct wservice as [s|] eqn:Es; [|discriminate Hw].
  pose proof (acts_steps _ _ _ Es) as Hr. apply andb_true_iff in Hw as [Hk _]. unfold phone_writes in Hk.
  destruct (tasks s !! 2%nat) as [[i [|[| | |grants au access]]]|] eqn:Et; try discriminate Hk.
  apply andb_true_iff in Hk as [Hw Hd]. unfold str_eqb in Hd. apply bool_decide_eq_true in Hd.
  destruct (authority_stands_on_consent wnetwork wnetwork_grants [] s 2%nat i grants au access Hr Et) as (_ & _ & Hwr).
  destruct (Hwr "home" Hw) as (g & Hg & _ & Ha). rewrite Hd in Ha.
  exists s, i, grants, au, access, g.
  exact (conj eq_refl (conj Et (conj Hw (conj Hg Ha)))).
Defined.

Lemma pairings_serialised_witness :
  exists s run, wservice = Some s /\ history s = [Paired run] /\ gate s = [1%nat]
    /\ serial wnetwork [] [Paired run] (net s) /\ length (net s) = 1%nat.
Proof.
  pose proof wservice_runs as Hw. destruct wservice as [s|] eqn:Es; [|discriminate Hw].
  pose proof (acts_steps _ _ _ Es) as Hr. apply andb_true_iff in Hw as [_ Hw]. unfold one_paired in Hw.
  apply andb_true_iff in Hw as [Hw Hl%Nat.eqb_eq]. apply andb_true_iff in Hw as [Hh Hg%bool_decide_eq_true].
  destruct (pairings_serialised wnetwork wnetwork_grants [] s Hr) as [Hser _].
  { destruct (history s) as [|[run|] [|]]; try discriminate Hh. by repeat constructor. }
  destruct (history s) as [|[run|] [|]] eqn:Eh; try discriminate Hh. exists s, run.
  exact (conj eq_refl (conj Eh (conj Hg (conj Hser Hl)))).
Defined.

End Service.
