(* ===== verification/Consent.v ===== *)
(** * What a peer can make the machine do

    Puts the parts together, from the pairing prompt to the host: the service that admits sessions
    ([Service]), the authority a session opens with ([Session]), and the handlers that act under that
    authority ([Handlers], [RemoteFileHandler], [InputHandler]).  It has no operations of its own. *)

From Stdlib Require Import ZArith Lia String.
From stdpp Require Import base tactics option list strings gmap relations.
From S2P Require Import Prelude Proto Negotiation Requests BlobStore ClipboardUpload CommandExec RemoteFiles RemoteFileHandler.
From S2P Require Import InputEvents InputSession InputHandler ReplicaWire Replication Snapshots Handlers.
From S2P Require Import Pairing Subscriptions Session Service.

Module Consent.
Local Open Scope string_scope.
Local Open Scope list_scope.

(** The grant covers a call to the provider of remote files. *)
Definition covers_call (g : RemoteFiles.Grant) (c : RemoteFileHandler.ProviderCall) : Prop :=
  match c with
  | RemoteFileHandler.CListShares => exists share, RemoteFiles.reads g share \/ RemoteFiles.writes g share
  | RemoteFileHandler.CWatchChanges share _ _ | RemoteFileHandler.CStat share _
  | RemoteFileHandler.CPrepareDownload share _ | RemoteFileHandler.CPrepareThumbnail share _ _
  | RemoteFileHandler.CReadRange share _ _ _ _ | RemoteFileHandler.CListDirectory share _ _ _ _ _ _ =>
    RemoteFiles.reads g share
  | RemoteFileHandler.CMove share _ _ _ _ | RemoteFileHandler.CConditionalDelete share _ _ _
  | RemoteFileHandler.CDelete share _ | RemoteFileHandler.CCreateDirectory share _ _
  | RemoteFileHandler.CRename share _ _ | RemoteFileHandler.CCommitSystemUpload share _ _ _ _
  | RemoteFileHandler.CPrepareUpload share _ _ _ _ _ => RemoteFiles.writes g share
  end.
Lemma authorized_covered `{!WireLimits} grants c :
  RemoteFileHandler.authorized (RemoteFiles.from_grants grants RemoteFiles.Inbound) c ->
  exists g, g ∈ grants /\ RemoteFiles.g_direction g = RemoteFiles.Inbound /\ covers_call g c.
Proof.
  assert (forall share, RemoteFiles.can_read (RemoteFiles.from_grants grants RemoteFiles.Inbound) share = true ->
    exists g, g ∈ grants /\ RemoteFiles.g_direction g = RemoteFiles.Inbound /\ RemoteFiles.reads g share) as Hrd.
  { intros share (g & ? & ? & ?)%RemoteFiles.from_grants_read. by exists g. }
  assert (forall share, RemoteFiles.can_write (RemoteFiles.from_grants grants RemoteFiles.Inbound) share = true ->
    exists g, g ∈ grants /\ RemoteFiles.g_direction g = RemoteFiles.Inbound /\ RemoteFiles.writes g share) as Hwr.
  { intros share (g & ? & ? & ?)%RemoteFiles.from_grants_write. by exists g. }
  destruct c; cbn [RemoteFileHandler.authorized covers_call]; intros Ha;
    try match type of Ha with _ /\ _ => destruct Ha as [Ha _] end; eauto.
  apply RemoteFiles.can_list_shares_true in Ha as (share & [(g & ? & ? & ?)%Hrd|(g & ? & ? & ?)%Hwr]);
    exists g; eauto.
Qed.

(** Control starts only past the guards, so with the capability to inject input. *)
Lemma started_guarded `{!InputEvents.InputCore} `{!InputEvents.GestureCore} `{!InputSession.DrainOrder} `{!FeatureCodes}
    h d draws now id routed features capabilities st st' r l :
  InputHandler.out st = [] ->
  InputHandler.begin_input_session h d draws now id routed features capabilities st = Some (st', r) ->
  InputHandler.OutStarted l ∈ InputHandler.out st' -> Requests.RemoteInputInject ∈ capabilities.
Proof.
  intros Ho. unfold InputHandler.begin_input_session.
  destruct (InputHandler.begin_guard h routed features capabilities) as [[[m c] ask]|] eqn:Eg.
  - intros [= <- _]. destruct ask; cbn; rewrite Ho; cbn; [|by intros ?%elem_of_nil].
    by intros ?%list_elem_of_singleton.
  - intros _ _. unfold InputHandler.begin_guard in Eg. repeat case_bool_decide; done.
Qed.

Section consent.
Context `{!WireLimits} `{!FeatureCodes} `{!Requests.RequestCodes} `{!Pairing.CapabilityTokens}.
Context `{!ProstEnum Pairing.WireDirection} `{!ProstMessage Pairing.PairingRequest} `{!ProstMessage Pairing.PairingResponse}.
Context `{!FrameTransport} `{!Sha256} `{!ReplicaWire.TextSyntaxCore} `{!Snapshots.SyncCodes} `{!Replication.CollectionCore}.
Context `{!ProstEnum RemoteFiles.ProtoErrorCode} `{!ProstEnum RemoteFiles.ProtoEntryKind}
  `{!ProstEnum RemoteFiles.ProtoSortKey} `{!ProstEnum RemoteFiles.ProtoSortDirection}
  `{!ProstMessage RemoteFiles.RemoteFileRequestFrame} `{!ProstMessage RemoteFiles.RemoteFileResponseFrame}.
Context `{!InputEvents.InputCore} `{!InputEvents.GestureCore} `{!InputSession.DrainOrder}.
Context {N : Type} (network : Pairing.Network N).
Context (network_grants : string -> N -> N * result (list RemoteFiles.Grant) string).
Context `{!Service.NetworkLaws network network_grants}.
Notation step := (Service.step network network_grants).
Notation founded := (Service.founded network network_grants).

(** What an open session stands on, capability by capability. *)
Lemma open_founded n0 s k i grants au access :
  rtc step (Service.new n0) s -> Service.tasks s !! k = Some (i, Service.StControl (Service.Open grants au access)) ->
  access = RemoteFiles.from_grants grants RemoteFiles.Inbound
  /\ (forall g, g ∈ grants -> RemoteFiles.g_direction g = RemoteFiles.Inbound ->
        founded n0 s (Pairing.peer_device_id (Service.in_peer i)) g)
  /\ (forall c, c ∈ Session.au_capabilities au ->
        exists g, RemoteFiles.g_capability g = c /\ founded n0 s (Pairing.peer_device_id (Service.in_peer i)) g).
Proof.
  intros Hr Hk. destruct (Service.service_reachable _ _ _ _ Hr) as [_ Hc].
  destruct (Service.ci_stage _ _ _ _ Hc _ _ _ Hk) as (Hg & Ha & Hau).
  split; [done|]. split; [by intros g Hin Hd; split; [|apply Hg]|].
  intros c Hin. rewrite Hau in Hin. apply Session.granted_capabilities_spec in Hin as (g & Hgin & Hd & <-).
  exists g. split; [done|]. split; [done|by apply Hg].
Qed.

(** C11: nothing is done for a peer without consent.  Take a control session of the running service,
    however it came to be open.  Every service and provider call that a command request of it leads to
    (whatever the request holds, whatever the command cache holds and other callers do to it), every
    question that a query request of it puts to the host, every call a remote file stream of it makes,
    and every start of remote input, exercises a grant for the session's own device that was there
    before the service started, was added by someone else than the service, or was approved by the
    user when shown that device's pairing request with that grant. *)
Theorem machine_acts_with_consent n0 s k i grants au access :
  rtc step (Service.new n0) s -> Service.tasks s !! k = Some (i, Service.StControl (Service.Open grants au access)) ->
  let d := Pairing.peer_device_id (Service.in_peer i) in
  let exercises c := exists g, RemoteFiles.g_capability g = c /\ founded n0 s d g in
  (forall W (host : Handlers.CommandHost W) now times name error_id encoded_len now_ms clock meanwhile join_error
        id device_key key encoded action cache w u cache' w' log u' spawned response,
     match action with Some a => Handlers.typed a | None => True end -> ClipboardUpload.wf u.1 ->
     Handlers.command_request (Handlers.recorded host) now times d name error_id encoded_len now_ms clock meanwhile
       join_error id device_key key encoded action (Session.au_features au) (Session.au_capabilities au) cache
       ((w, []), u) = (cache', ((w', log), u'), spawned, response) ->
     Forall (fun call => exercises (Handlers.call_capability call)) log)
  /\ (forall W (host : forall A, Handlers.QueryCall A -> W -> W * A) now record_now times owner error_id encoded_len id key query
        w store w' log store' response,
     0 < now -> match query with Some q => Handlers.typed_query q | None => True end ->
     Handlers.query_request (Handlers.recording host) now record_now times owner error_id encoded_len id key query
       (Session.au_features au) (Session.au_capabilities au) ((w, []), store) = (((w', log), store'), response) ->
     Forall (fun asked => exists c, Handlers.entitled c asked /\ exercises c) log)
  /\ (forall provider host st, RemoteFileHandler.calls st = [] ->
     Forall (fun call => exists g, covers_call g call /\ founded n0 s d g)
       (RemoteFileHandler.calls (RemoteFileHandler.handle_remote_file_stream provider host access st).1))
  /\ (forall h draws now id routed st st' r l, InputHandler.out st = [] ->
     InputHandler.begin_input_session h d draws now id routed (Session.au_features au) (Session.au_capabilities au) st
       = Some (st', r) ->
     InputHandler.OutStarted l ∈ InputHandler.out st' -> exercises Requests.RemoteInputInject).
Proof.
  intros Hr Hk d exercises. destruct (open_founded _ _ _ _ _ _ _ Hr Hk) as (Ha & Hg & Hc). split_and!.
  - intros W host now times name error_id encoded_len now_ms clock meanwhile join_error id device_key key encoded
      action cache w u cache' w' log u' spawned response Ht Hu Hrun.
    eapply Forall_impl; [by eapply Handlers.command_request_calls|]. intros call [_ Hcap]. by apply Hc.
  - intros W host now record_now times owner error_id encoded_len id key query w store w' log store' response Hnow Ht Hrun.
    destruct query as [q|]; last first.
    { unfold Handlers.query_request in Hrun. destruct (negb _); by injection Hrun as _ <- _ _. }
    eapply Forall_impl; [by eapply Handlers.query_request_calls|]. intros asked [(c & Hin & He) _]. exists c. split; [done|by apply Hc].
  - intros provider host st Hst.
    assert (Forall (RemoteFileHandler.authorized access)
      (RemoteFileHandler.calls (RemoteFileHandler.handle_remote_file_stream provider host access st).1)) as HF.
    { apply RemoteFileHandler.logs_stream. rewrite Hst. constructor. }
    eapply Forall_impl; [exact HF|]. intros call Hcall. rewrite Ha in Hcall.
    apply authorized_covered in Hcall as (g & Hin & Hd & Hcov). exists g. split; [done|by apply Hg].
  - intros h draws now id routed st st' r l Ho Hb Hl. apply Hc. by eapply started_guarded.
Qed.
End consent.

(** ** Witness: the phone, which was granted write access to a share, uploads a file *)

#[local] Existing Instance toy_limits.
#[local] Existing Instance toy_features.
#[local] Existing Instance toy_digest.
#[local] Existing Instance Snapshots.toy_requests.
#[local] Existing Instance ReplicaWire.toy_syntax.
#[local] Existing Instance Snapshots.toy_sync_codes.
#[local] Existing Instance Handlers.toy_collections.
#[local] Existing Instance InputEvents.toy_input.
#[local] Existing Instance InputEvents.toy_gesture.
#[local] Existing Instance InputSession.toy_drain.
#[local] Existing Instance Pairing.toy_tokens.
#[local] Existing Instance Pairing.toy_directions.
#[local] Existing Instance Pairing.constraints_eq.
#[local] Existing Instance Pairing.capability_grant_eq.
#[local] Existing Instance Pairing.pairing_request_eq.
#[local] Existing Instance Pairing.pairing_result_eq.
#[local] Existing Instance Pairing.pairing_response_eq.
#[local] Existing Instance Pairing.capability_grant_countable.
#[local] Existing Instance Pairing.pairing_request_countable.
#[local] Existing Instance Pairing.pairing_response_countable.
#[local] Existing Instance RemoteFiles.toy_message.
#[local] Existing Instance RemoteFiles.toy_frames.
#[local] Existing Instance RemoteFiles.toy_error_codes.
#[local] Existing Instance RemoteFiles.toy_entry_kinds.
#[local] Existing Instance RemoteFiles.toy_sort_keys.
#[local] Existing Instance RemoteFiles.toy_sort_directions.
#[local] Existing Instance RemoteFiles.share_info_countable.
#[local] Existing Instance RemoteFiles.entry_info_countable.
#[local] Existing Instance RemoteFiles.response_frame_countable.
#[local] Existing Instance RemoteFiles.request_frame_countable.
#[local] Existing Instance Service.wlaws.

(** The calls of the upload of [RemoteFileHandler] with the access of the phone's session. *)
Definition upload_calls (access : RemoteFiles.RemoteFileAccess) : list RemoteFileHandler.ProviderCall :=
  RemoteFileHandler.calls (RemoteFileHandler.handle_remote_file_stream (Some RemoteFileHandler.toy_provider)
    RemoteFileHandler.toy_host access RemoteFileHandler.toy_state).1.
Lemma wservice_uploads :
  match Service.wservice with
  | Some s => match Service.tasks s !! 2%nat with
              | Some (_, Service.StControl (Service.Open _ _ access)) => negb (is_empty (upload_calls access))
              | _ => false
              end
  | None => false
  end = true.
Proof. vm_compute. reflexivity. Qed.

Lemma machine_acts_with_consent_witness :
  exists s i call g, Service.wservice = Some s
    /\ covers_call g call
    /\ Service.founded Service.wnetwork Service.wnetwork_grants [] s (Pairing.peer_device_id (Service.in_peer i)) g.
Proof.
  pose proof wservice_uploads as Hw. destruct Service.wservice as [s|] eqn:Es; [|discriminate Hw].
  pose proof (Service.acts_steps _ _ _ Es) as Hr.
  destruct (Service.tasks s !! 2%nat) as [[i [|[| | |grants au access]]]|] eqn:Et;
    [discriminate Hw..| |discriminate Hw].
  destruct (machine_acts_with_consent Service.wnetwork Service.wnetwork_grants [] s 2%nat i grants au access Hr Et)
    as (_ & _ & Hf & _).
  pose proof (Hf (Some RemoteFileHandler.toy_provider) RemoteFileHandler.toy_host RemoteFileHandler.toy_state eq_refl
    : Forall _ (upload_calls access)) as Hu. clear Hf.
  destruct (upload_calls access) as [|call calls]; [discriminate Hw|].
  apply Forall_cons in Hu as [(g & Hc & Hg) _].
  exists s, i, call, g. exact (conj eq_refl (conj Hc Hg)).
Defined.

End Consent.
